(** * Logic simulator front end: scanner, parser and name table

    A shallow embedding of [logsim/scanner.py], [logsim/parse.py] and the
    preliminary name table [mynames.py], with the properties the
    specification states about them.

    Conventions.
    - Python [str] is [string]; a character read from the file is a string of
      length 0 (end of file) or 1.  The source is taken as the text layer
      delivers it: ASCII with LF line ends, so that the index of a character
      and its byte offset coincide.
      Beyond ASCII [str] has further white space, letters and digits (a
      superscript two is a digit to [isdigit], and [int] rejects it), and a
      CR LF line end is one character but two bytes; such files are outside
      the model.
    - Python [int] is [Z].  [None] is [None] of an option type.  The limits
      of the interpreter and of numpy are left out: [int] and [str] convert
      numerals of any length (since Python 3.11 they raise [ValueError]
      beyond 4300 digits), and the positions that [print_error] works on are
      within the range of [int64] (beyond it numpy raises [OverflowError]).
    - Methods that mutate [self] are state transformers in the monad [M],
      which also carries raised exceptions (with the state at the raise) and
      the exhaustion of a loop bound. *)

From Stdlib Require Import ZArith List String Ascii Bool Lia Arith.
From Stdlib Require Import Decimal DecimalString DecimalZ DecimalPos.
Import ListNotations.

Open Scope string_scope.
Open Scope Z_scope.

(* ------------------------------------------------------------------ *)
(** ** Python built-ins used by the sources *)

Module Py.

Definition nl : string := String (ascii_of_nat 10) EmptyString.
Definition backslash : string := String (ascii_of_nat 92) EmptyString.

Definition len (s : string) : Z := Z.of_nat (String.length s).

(** Character classes, on ASCII code points: those of [str] on an ASCII
    text. *)
Definition chr_isspace (c : ascii) : bool :=
  let n := nat_of_ascii c in
  ((9 <=? n) && (n <=? 13) || (28 <=? n) && (n <=? 32))%nat.

Definition chr_isdigit (c : ascii) : bool :=
  let n := nat_of_ascii c in ((48 <=? n) && (n <=? 57))%nat.

Definition chr_isalpha (c : ascii) : bool :=
  let n := nat_of_ascii c in
  ((65 <=? n) && (n <=? 90) || (97 <=? n) && (n <=? 122))%nat.

Definition chr_isalnum (c : ascii) : bool := chr_isalpha c || chr_isdigit c.

Fixpoint str_all (p : ascii -> bool) (s : string) : bool :=
  match s with
  | EmptyString => true
  | String c s' => p c && str_all p s'
  end.

(** [s.isspace()] and friends: every character is in the class and there is
    at least one character. *)
Definition nonempty (s : string) : bool :=
  match s with EmptyString => false | _ => true end.

Definition isspace (s : string) : bool := nonempty s && str_all chr_isspace s.
Definition isdigit (s : string) : bool := nonempty s && str_all chr_isdigit s.
Definition isalpha (s : string) : bool := nonempty s && str_all chr_isalpha s.
Definition isalnum (s : string) : bool := nonempty s && str_all chr_isalnum s.

(** [int(c)] for a one-character digit string: the sources call it on a
    character that [isdigit] has accepted, which on an ASCII text is a
    decimal digit.  On any other character [int] raises [ValueError]; the
    model leaves that out. *)
Definition digit_val (s : string) : Z :=
  match s with
  | String c _ => Z.of_nat (nat_of_ascii c) - 48
  | EmptyString => 0
  end.

(** [str(n)] and [int(s)] on decimal numerals. *)
Definition str (z : Z) : string := NilZero.string_of_int (Z.to_int z).

Definition int (s : string) : option Z :=
  match NilZero.int_of_string s with
  | Some d => Some (Z.of_int d)
  | None => None
  end.

(** [c * n] for a one-character string [c]. *)
Fixpoint repeat_str (c : string) (n : nat) : string :=
  match n with
  | O => EmptyString
  | S n' => c ++ repeat_str c n'
  end.

(** [s.split("\n")]. *)
Fixpoint split_nl (s : string) : list string :=
  match s with
  | EmptyString => [EmptyString]
  | String c s' =>
      if Ascii.eqb c (ascii_of_nat 10) then EmptyString :: split_nl s'
      else match split_nl s' with
           | h :: t => String c h :: t
           | [] => [String c EmptyString]
           end
  end.

(** Iterating over a text file: the lines, each with its line end. *)
Fixpoint file_lines (s : string) : list string :=
  match s with
  | EmptyString => []
  | String c s' =>
      if Ascii.eqb c (ascii_of_nat 10) then String c EmptyString :: file_lines s'
      else match file_lines s' with
           | h :: t => String c h :: t
           | [] => [String c EmptyString]
           end
  end.

(** Slices [s[a:]] and [s[:b]]; a negative bound counts from the end. *)
Definition clip (s : string) (i : Z) : nat :=
  Z.to_nat (if i <? 0 then Z.max (len s + i) 0 else i).

Definition slice_from (a : Z) (s : string) : string :=
  substring (clip s a) (String.length s - clip s a) s.

Definition slice_to (b : Z) (s : string) : string :=
  substring 0 (clip s b) s.

(** [sum(l)]. *)
Definition sum (l : list Z) : Z := fold_right Z.add 0 l.

(** [max(l)] of a non-empty list, given as head and tail. *)
Definition max_list (x : Z) (l : list Z) : Z := fold_left Z.max l x.

(** Index of the first element equal to [v]. *)
Fixpoint index_of (v : Z) (l : list Z) : option nat :=
  match l with
  | [] => None
  | x :: l' => if x =? v then Some O
               else option_map S (index_of v l')
  end.

(** [s in l] and [l.index(s)] on lists of strings. *)
Fixpoint str_index (s : string) (l : list string) : option nat :=
  match l with
  | [] => None
  | x :: l' => if String.eqb x s then Some O
               else option_map S (str_index s l')
  end.

Definition str_in (s : string) (l : list string) : bool :=
  match str_index s l with Some _ => true | None => false end.

End Py.

(* ------------------------------------------------------------------ *)
(** ** State, exceptions and loop bounds *)

Inductive exn : Type :=
| TypeError | ValueError | IndexError | AttributeError | UnboundLocalError.

Inductive res (S A : Type) : Type :=
| Ok (a : A) (s : S)
| Raise (e : exn) (s : S)
| OutOfFuel.

Arguments Ok {S A} a s.
Arguments Raise {S A} e s.
Arguments OutOfFuel {S A}.

Definition M (S A : Type) : Type := S -> res S A.

Definition ret {S A} (a : A) : M S A := fun s => Ok a s.

Definition bind {S A B} (c : M S A) (k : A -> M S B) : M S B :=
  fun s => match c s with
           | Ok a s' => k a s'
           | Raise e s' => Raise e s'
           | OutOfFuel => OutOfFuel
           end.

Definition raise {S A} (e : exn) : M S A := fun s => Raise e s.
Definition gets {S A} (f : S -> A) : M S A := fun s => Ok (f s) s.
Definition modify {S} (f : S -> S) : M S unit := fun s => Ok tt (f s).

(** [when b c] is [if b: c]. *)
Definition when {S} (b : bool) (c : M S unit) : M S unit :=
  if b then c else ret tt.

Declare Scope monad_scope.
Delimit Scope monad_scope with monad.
Notation "x <- c ;; k" := (bind c (fun x => k))
  (at level 61, c at next level, right associativity) : monad_scope.
Notation "c ;; k" := (bind c (fun _ => k))
  (at level 61, right associativity) : monad_scope.
Open Scope monad_scope.

(** Embedding a computation on a component of the state. *)
Definition lift {S T A} (proj : S -> T) (upd : T -> S -> S) (c : M T A) : M S A :=
  fun s => match c (proj s) with
           | Ok a t => Ok a (upd t s)
           | Raise e t => Raise e (upd t s)
           | OutOfFuel => OutOfFuel
           end.

(** [outcome r Q E]: the computation did not exhaust its loop bound; it
    returned with [Q], or raised in a state with [E]. *)
Definition outcome {S A} (r : res S A) (Q : A -> S -> Prop) (E : S -> Prop)
  : Prop :=
  match r with
  | Ok a s => Q a s
  | Raise _ s => E s
  | OutOfFuel => False
  end.

Definition map_state {S A} (f : S -> S) (r : res S A) : res S A :=
  match r with
  | Ok a s => Ok a (f s)
  | Raise e s => Raise e (f s)
  | OutOfFuel => OutOfFuel
  end.

(** The value a computation returns, if it returns. *)
Definition returned {S A} (r : res S A) : option A :=
  match r with
  | Ok a _ => Some a
  | _ => None
  end.

(* ------------------------------------------------------------------ *)
(** ** The preliminary name table, [Prelim rjh254/mynames.py] *)

Module MyNames.

(** [self.names_list]. *)
Definition t := list string.

Definition init : t := [].

(** [lookup(self, name_string)]: the ID and the table afterwards. *)
Definition lookup (names_list : t) (name_string : string) : Z * t :=
  match Py.str_index name_string names_list with
  | Some i => (Z.of_nat i, names_list)
  | None =>
      let names_list' := (names_list ++ [name_string])%list in
      (Z.of_nat (List.length names_list') - 1, names_list')
  end.

Inductive result : Type :=
| Raised (e : exn)
| Returned (s : option string).

(** [get_string(self, name_id)] for an [int] argument: [type(name_id) == str]
    is false and [name_id % 1 != 0] is false, so the function goes on to the
    range tests. *)
Definition get_string (names_list : t) (name_id : Z) : result :=
  if name_id <? 0 then Raised ValueError
  else if name_id >=? Z.of_nat (List.length names_list) then Returned None
  else Returned (nth_error names_list (Z.to_nat name_id)).

(** Modelled from the spec: [query(s)] of the name table ("returns the Name
    ID of [s] if present, otherwise the absent sentinel; never inserts");
    the method is missing from [mynames.py]. *)
Definition query (names_list : t) (s : string) : option Z :=
  option_map Z.of_nat (Py.str_index s names_list).

(** The table after looking up the strings [ss] one after the other,
    starting from an empty table. *)
Definition after (ss : list string) : t :=
  fold_left (fun l s => snd (lookup l s)) ss init.

End MyNames.

(* ------------------------------------------------------------------ *)
(** ** Modelled from the spec: the name table [Names] *)

(** Modelled from the spec: [names.py] is not among the sources.  Section 4.1:
    [lookup] takes a sequence of strings and returns their IDs, inserting the
    unknown ones with the next unused ID; [query] returns the ID of a present
    string and the absent sentinel otherwise, and never inserts. *)
Module Names.

Definition t := list string.

Definition lookup1 (names : t) (s : string) : Z * t :=
  match Py.str_index s names with
  | Some i => (Z.of_nat i, names)
  | None => (Z.of_nat (List.length names), (names ++ [s])%list)
  end.

Fixpoint lookup (names : t) (l : list string) : list Z * t :=
  match l with
  | [] => ([], names)
  | s :: l' =>
      let (i, names1) := lookup1 names s in
      let (ids, names2) := lookup names1 l' in
      (i :: ids, names2)
  end.

(** The parser also queries the spelling of a symbol that has none. *)
Definition query (names : t) (s : option string) : option Z :=
  match s with
  | Some s => option_map Z.of_nat (Py.str_index s names)
  | None => None
  end.

End Names.

(* ------------------------------------------------------------------ *)
(** ** [scanner.py] *)

(** The symbol types, [range(15)] in the source. *)
Inductive SymType : Type :=
| COMMA | SEMICOLON | EQUALS | KEYWORD | NUMBER | ZERO | NAME
| BRACE_LEFT | BRACE_RIGHT | PARENTHESIS_LEFT | PARENTHESIS_RIGHT
| ARROW | DOT | EOF | INVALID_CHARACTER.

Definition SymType_eqb (a b : SymType) : bool :=
  match a, b with
  | COMMA, COMMA | SEMICOLON, SEMICOLON | EQUALS, EQUALS | KEYWORD, KEYWORD
  | NUMBER, NUMBER | ZERO, ZERO | NAME, NAME | BRACE_LEFT, BRACE_LEFT
  | BRACE_RIGHT, BRACE_RIGHT | PARENTHESIS_LEFT, PARENTHESIS_LEFT
  | PARENTHESIS_RIGHT, PARENTHESIS_RIGHT | ARROW, ARROW | DOT, DOT
  | EOF, EOF | INVALID_CHARACTER, INVALID_CHARACTER => true
  | _, _ => false
  end.

(** [class Symbol]: every property starts as [None]. *)
Record Symbol : Type := mkSymbol {
  sy_type : option SymType;
  sy_id : option Z;
  sy_position : option Z;
  sy_string : option string
}.

Definition Symbol_new : Symbol := mkSymbol None None None None.

(** [symbol.type == T]. *)
Definition is_type (sym : Symbol) (T : SymType) : bool :=
  match sy_type sym with
  | Some U => SymType_eqb U T
  | None => false
  end.

(** [symbol.id == n]. *)
Definition id_is (sym : Symbol) (n : Z) : bool :=
  match sy_id sym with
  | Some m => m =? n
  | None => false
  end.

(** The open text file: its characters and the position of the next read. *)
Record File : Type := mkFile {
  content : string;
  tell : Z
}.

(** [file.read(1)], on a text of ASCII characters with LF line ends, where a
    character is a byte and [tell] is its index. *)
Definition fread1 (f : File) : string * File :=
  let c := substring (Z.to_nat (tell f)) 1 (content f) in
  (c, mkFile (content f) (tell f + Py.len c)).

(** [file.read()]. *)
Definition fread_all (f : File) : string * File :=
  let n := Z.to_nat (tell f) in
  (substring n (String.length (content f) - n) (content f),
   mkFile (content f) (Z.max (tell f) (Py.len (content f)))).

(** The IDs of the reserved words. *)
Record KeywordIds : Type := mkKeywordIds {
  CIRCUIT_ID : Z; DEVICES_ID : Z; CONNECT_ID : Z; MONITOR_ID : Z; END_ID : Z;
  CLOCK_ID : Z; SWITCH_ID : Z; AND_ID : Z; NAND_ID : Z; OR_ID : Z; NOR_ID : Z;
  XOR_ID : Z; NOT_ID : Z; DTYPE_ID : Z
}.

Definition keywords_list : list string :=
  ["CIRCUIT"; "DEVICES"; "CONNECT"; "MONITOR"; "END"; "CLOCK"; "SWITCH";
   "AND"; "NAND"; "OR"; "NOR"; "XOR"; "NOT"; "DTYPE"].

Definition max_error_line_length : Z := 79.

(** [class Scanner].  [names] is the one [Names] object that the scanner, the
    parser and the devices share; [stdout] is the text written to the standard
    output so far, one entry for each [print]. *)
Record Scanner : Type := mkScanner {
  file : File;
  line_lengths : list Z;
  file_position : Z;
  names : Names.t;
  kw : KeywordIds;
  current_character : string;
  comment : bool;
  stdout : list string
}.

Definition set_file (f : File) (sc : Scanner) : Scanner :=
  mkScanner f (line_lengths sc) (file_position sc) (names sc) (kw sc)
            (current_character sc) (comment sc) (stdout sc).
Definition set_file_position (p : Z) (sc : Scanner) : Scanner :=
  mkScanner (file sc) (line_lengths sc) p (names sc) (kw sc)
            (current_character sc) (comment sc) (stdout sc).
Definition set_names (n : Names.t) (sc : Scanner) : Scanner :=
  mkScanner (file sc) (line_lengths sc) (file_position sc) n (kw sc)
            (current_character sc) (comment sc) (stdout sc).
Definition set_current_character (c : string) (sc : Scanner) : Scanner :=
  mkScanner (file sc) (line_lengths sc) (file_position sc) (names sc) (kw sc)
            c (comment sc) (stdout sc).
Definition set_comment (b : bool) (sc : Scanner) : Scanner :=
  mkScanner (file sc) (line_lengths sc) (file_position sc) (names sc) (kw sc)
            (current_character sc) b (stdout sc).
Definition set_stdout (o : list string) (sc : Scanner) : Scanner :=
  mkScanner (file sc) (line_lengths sc) (file_position sc) (names sc) (kw sc)
            (current_character sc) (comment sc) o.

(** [print(s)]. *)
Definition print (s : string) : M Scanner unit :=
  modify (fun sc => set_stdout (stdout sc ++ [(s ++ Py.nl)%string])%list sc).

(** [self.file.seek(z, 0)]; a negative position raises [ValueError]. *)
Definition seek (z : Z) : M Scanner unit :=
  fun sc => if z <? 0 then Raise ValueError sc
            else Ok tt (set_file (mkFile (content (file sc)) z) sc).

(** [Scanner.__init__], for an existing text file with the characters [text]. *)
Definition Scanner_init (text : string) (names0 : Names.t) : Scanner :=
  let lens := map Py.len (Py.file_lines text) in
  let (ids, names1) := Names.lookup names0 keywords_list in
  let k := mkKeywordIds (nth 0 ids 0) (nth 1 ids 0) (nth 2 ids 0) (nth 3 ids 0)
             (nth 4 ids 0) (nth 5 ids 0) (nth 6 ids 0) (nth 7 ids 0)
             (nth 8 ids 0) (nth 9 ids 0) (nth 10 ids 0) (nth 11 ids 0)
             (nth 12 ids 0) (nth 13 ids 0) in
  let (c, f) := fread1 (mkFile text 0) in
  mkScanner f lens 0 names1 k c false [].

(** Characters not yet consumed: the loops of the scanner consume at least one
    of them in each iteration, which bounds them. *)
Definition remaining (sc : Scanner) : nat :=
  (Z.to_nat (Py.len (content (file sc)) - tell (file sc))
   + String.length (current_character sc))%nat.

(** [advance]. *)
Definition advance : M Scanner unit :=
  modify (fun sc =>
    let (c, f) := fread1 (file sc) in
    set_file_position (file_position sc + 1)
      (set_current_character c (set_file f sc))).

(** [skip_spaces]. *)
Fixpoint skip_spaces_loop (fuel : nat) : M Scanner unit :=
  fun sc =>
    match fuel with
    | O => OutOfFuel
    | S fuel' =>
        if Py.isspace (current_character sc)
        then (advance ;; skip_spaces_loop fuel') sc
        else Ok tt sc
    end.

Definition skip_spaces : M Scanner unit :=
  fun sc => skip_spaces_loop (S (remaining sc)) sc.

(** [backwards]. *)
Definition backwards : M Scanner unit :=
  c <- gets current_character ;;
  t <- gets (fun sc => tell (file sc)) ;;
  (if String.eqb c "" then
     seek (t - 1) ;;
     modify (fun sc => set_file_position (file_position sc - 1) sc)
   else
     seek (t - 2) ;;
     modify (fun sc => set_file_position (file_position sc - 2) sc)) ;;
  advance.

(** [get_name]. *)
Fixpoint get_name_loop (fuel : nat) (name : string) : M Scanner string :=
  fun sc =>
    match fuel with
    | O => OutOfFuel
    | S fuel' =>
        if Py.isalnum (current_character sc)
        then (advance ;; get_name_loop fuel' (name ++ current_character sc)) sc
        else Ok name sc
    end.

Definition get_name : M Scanner string :=
  name <- gets current_character ;;
  advance ;;
  fun sc => get_name_loop (S (remaining sc)) name sc.

(** [get_number], as [get_symbol] calls it: on a digit from 1 to 9.  On a
    character that is no digit its first [int] raises [ValueError], which
    the model leaves out. *)
Fixpoint get_number_loop (fuel : nat) (number : Z) : M Scanner Z :=
  fun sc =>
    match fuel with
    | O => OutOfFuel
    | S fuel' =>
        if Py.isdigit (current_character sc)
        then (advance ;;
              get_number_loop fuel'
                (number * 10 + Py.digit_val (current_character sc))) sc
        else Ok number sc
    end.

Definition get_number : M Scanner Z :=
  number <- gets (fun sc => Py.digit_val (current_character sc)) ;;
  advance ;;
  fun sc => get_number_loop (S (remaining sc)) number sc.

(** [check_comment]. *)
Definition check_comment : M Scanner bool :=
  advance ;;
  c <- gets current_character ;;
  cm <- gets comment ;;
  if String.eqb c Py.backslash then ret (negb cm) else ret cm.

(** Start-of-line positions: [sum(self.line_lengths[:i])] for each [i]. *)
Definition sol_positions (lens : list Z) : list Z :=
  map (fun i => Py.sum (firstn i lens)) (seq 0 (List.length lens)).

(** The shortening of a long line in [print_error]: the text shown and the
    column of the marker in it. *)
Definition shorten (line_text : string) (position : Z) : string * Z :=
  if Py.len line_text >? max_error_line_length then
    let '(line_text1, position1) :=
      if position >? (max_error_line_length + 1) / 2 - 5 then
        ("[...]" ++ Py.slice_from
                      (position - (max_error_line_length + 1) / 2 + 6)
                      line_text,
         (max_error_line_length - 1) / 2)
      else (line_text, position) in
    if Py.len line_text1 - position1 >? (max_error_line_length + 1) / 2 then
      (Py.slice_to (position1 + max_error_line_length / 2 - 4) line_text1
         ++ "[...]",
       position1)
    else (line_text1, position1)
  else (line_text, position).

(** The line, the column and the text of the line of a symbol.  With no line
    at all the subtraction [sol_pos - symbol.position] has no element to work
    on; otherwise a symbol without position makes it raise [TypeError], and
    a position before the first line leaves [max] without argument.  The
    subtraction is the one of [Z]: the position is taken within the range of
    numpy's [int64]. *)
Definition locate (symbol : Symbol) : M Scanner (string * Z * Z) :=
  lens <- gets line_lengths ;;
  let sol_pos := sol_positions lens in
  match sol_pos with
  | [] => ret ("", 0, 1)
  | _ :: _ =>
      match sy_position symbol with
      | None => raise TypeError
      | Some p =>
          let sol_pos_rel_marker := map (fun s => s - p) sol_pos in
          match filter (fun i => i <=? 0) sol_pos_rel_marker with
          | [] => raise ValueError
          | x :: xs =>
              let position := - Py.max_list x xs in
              match Py.index_of (- position) sol_pos_rel_marker with
              | None => raise IndexError
              | Some i =>
                  let line := Z.of_nat i + 1 in
                  seek 0 ;;
                  text <- (fun sc => let (t, f) := fread_all (file sc) in
                                     Ok t (set_file f sc)) ;;
                  match nth_error (Py.split_nl text) (Z.to_nat (line - 1)) with
                  | Some line_text => ret (line_text, position, line)
                  | None => raise IndexError
                  end
              end
          end
      end
  end.

(** The message of [print_error]. *)
Definition error_text (line : Z) (line_text : string) (position : Z)
    (suggestion : string) : string :=
  "Error on line " ++ Py.str line ++ ":" ++ Py.nl ++ Py.nl
    ++ line_text ++ Py.nl
    ++ Py.repeat_str " " (Z.to_nat position) ++ "^" ++ Py.nl ++ Py.nl
    ++ suggestion.

(** [print_error]. *)
Definition print_error (symbol : Symbol) (suggestion : string)
  : M Scanner string :=
  current_position <- gets (fun sc => tell (file sc)) ;;
  r <- locate symbol ;;
  let '(line_text0, position0, line) := r in
  let '(line_text, position) := shorten line_text0 position0 in
  let output := error_text line line_text position suggestion in
  print (Py.nl ++ Py.nl ++ output) ;;
  seek current_position ;;
  ret output.

(** The loop [while self.comment: ... else: self.skip_spaces()] of
    [get_symbol]: the [else] part runs when the loop ends without [break]. *)
Fixpoint comment_loop (fuel : nat) : M Scanner unit :=
  fun sc =>
    match fuel with
    | O => OutOfFuel
    | S fuel' =>
        if comment sc then
          if String.eqb (current_character sc) "" then Ok tt sc
          else ((if String.eqb (current_character sc) Py.backslash
                 then b <- check_comment ;; modify (set_comment b)
                 else ret tt) ;;
                advance ;;
                comment_loop fuel') sc
        else skip_spaces sc
    end.

(** The branches of [get_symbol] for the symbols of one character. *)
Definition one_char (T : SymType) (p : Z) : M Scanner Symbol :=
  c <- gets current_character ;;
  advance ;;
  ret (mkSymbol (Some T) None (Some p) (Some c)).

(** [get_symbol]. *)
Definition get_symbol : M Scanner Symbol :=
  skip_spaces ;;
  c0 <- gets current_character ;;
  (if String.eqb c0 Py.backslash then
     b <- check_comment ;;
     modify (set_comment b) ;;
     when (negb b) backwards ;;
     fun sc => comment_loop (S (remaining sc)) sc
   else ret tt) ;;
  p <- gets file_position ;;
  c <- gets current_character ;;
  symbol <-
    (if Py.isalpha c then
       name_string <- get_name ;;
       let T := if Py.str_in name_string keywords_list then KEYWORD else NAME in
       i <- (fun sc => match Names.lookup (names sc) [name_string] with
                       | ([i], n) => Ok i (set_names n sc)
                       | (_, n) => Raise ValueError (set_names n sc)
                       end) ;;
       ret (mkSymbol (Some T) (Some i) (Some p) (Some name_string))
     else if Py.isdigit c then
       if Py.digit_val c =? 0 then
         advance ;;
         ret (mkSymbol (Some ZERO) (Some 0) (Some p) (Some (Py.str 0)))
       else
         n <- get_number ;;
         ret (mkSymbol (Some NUMBER) (Some n) (Some p) (Some (Py.str n)))
     else if String.eqb c "," then one_char COMMA p
     else if String.eqb c ";" then one_char SEMICOLON p
     else if String.eqb c "=" then one_char EQUALS p
     else if String.eqb c "{" then one_char BRACE_LEFT p
     else if String.eqb c "}" then one_char BRACE_RIGHT p
     else if String.eqb c "(" then one_char PARENTHESIS_LEFT p
     else if String.eqb c ")" then one_char PARENTHESIS_RIGHT p
     else if String.eqb c ">" then one_char ARROW p
     else if String.eqb c "." then one_char DOT p
     else if String.eqb c "" then one_char EOF p
     else one_char INVALID_CHARACTER p) ;;
  cm <- gets comment ;;
  when (is_type symbol EOF && cm)
    (print_error symbol
       ("File ended with open comment. Expected '"
          ++ Py.backslash ++ Py.backslash ++ "'") ;;
     ret tt) ;;
  ret symbol.

(** The first [n] symbols of the stream. *)
Fixpoint symbols (n : nat) : M Scanner (list Symbol) :=
  match n with
  | O => ret []
  | S n' => s <- get_symbol ;; l <- symbols n' ;; ret (s :: l)
  end.

(* ------------------------------------------------------------------ *)
(** ** The simulation kernel the parser drives *)

(** [devices.py], [network.py] and [monitors.py] are not among the sources:
    the parser is modelled over any implementation of the operations it
    calls.  [K] is the joint state of the Devices, Network and Monitors
    objects; every operation may also intern names, so it takes and returns
    the shared name table. *)
Class Kernel : Type := {
  K : Type;
  (* Devices *)
  dev_AND : Z; dev_NAND : Z; dev_OR : Z; dev_NOR : Z; dev_XOR : Z; dev_NOT : Z;
  make_clock : Names.t -> K -> Z -> option Z -> Names.t * K;
  make_switch : Names.t -> K -> Z -> option Z -> Names.t * K;
  make_gate : Names.t -> K -> Z -> Z -> option Z -> Names.t * K;
  make_d_type : Names.t -> K -> Z -> Names.t * K;
  (* Network *)
  NO_ERROR : Z; INPUT_CONNECTED : Z; PORT_ABSENT_2 : Z; DEVICE_ABSENT_2 : Z;
  DEVICE_ABSENT_1 : Z; PORT_ABSENT_1 : Z;
  network_error_message : Z -> string;
  make_connection :
    Names.t -> K -> option Z -> option Z -> option Z -> option Z
    -> Names.t * K * Z;
  check_network : Names.t -> K -> Names.t * K * string;
  (* Monitors *)
  monitors_NO_ERROR : Z;
  monitors_error_message : Z -> string;
  make_monitor : Names.t -> K -> option Z -> option Z -> Names.t * K * Z
}.

(* ------------------------------------------------------------------ *)
(** ** [parse.py] *)

Section ParserModel.

Context {kernel_impl : Kernel}.

(** The history of what the parser asks of its collaborators: the devices,
    connections and monitors it makes, and the errors it reports, each
    error with the state of the kernel at that moment. *)
Inductive call : Type :=
| CMakeClock (device_id : Z) (half_period : option Z)
| CMakeSwitch (device_id : Z) (state : option Z)
| CMakeGate (device_id : Z) (kind : Z) (inputs : option Z)
| CMakeDType (device_id : Z)
| CMakeConnection (out_dev out_pin in_dev in_pin : option Z)
| CMakeMonitor (dev pin : option Z)
| CError (message : string) (k : K).

(** [class Parser].  The lists and symbols that the source creates on first
    use start empty here; [calls] is the history above. *)
Record Parser : Type := mkParser {
  scanner : Scanner;
  kernel : K;
  symbol : Symbol;
  error_ : bool;
  error_count : Z;
  skip : bool;
  cur_attribute : option Z;
  error_msg : string;
  cur_device_name_list : list Symbol;
  cur_pin_name_list : list Symbol;
  cur_arrow : option Symbol;
  check_symbol : option Symbol;
  calls : list call
}.

Definition set_scanner (v : Scanner) (st : Parser) : Parser :=
  mkParser v (kernel st) (symbol st) (error_ st) (error_count st) (skip st) (cur_attribute st) (error_msg st) (cur_device_name_list st) (cur_pin_name_list st) (cur_arrow st) (check_symbol st) (calls st).
Definition set_kernel (v : K) (st : Parser) : Parser :=
  mkParser (scanner st) v (symbol st) (error_ st) (error_count st) (skip st) (cur_attribute st) (error_msg st) (cur_device_name_list st) (cur_pin_name_list st) (cur_arrow st) (check_symbol st) (calls st).
Definition set_symbol (v : Symbol) (st : Parser) : Parser :=
  mkParser (scanner st) (kernel st) v (error_ st) (error_count st) (skip st) (cur_attribute st) (error_msg st) (cur_device_name_list st) (cur_pin_name_list st) (cur_arrow st) (check_symbol st) (calls st).
Definition set_error_ (v : bool) (st : Parser) : Parser :=
  mkParser (scanner st) (kernel st) (symbol st) v (error_count st) (skip st) (cur_attribute st) (error_msg st) (cur_device_name_list st) (cur_pin_name_list st) (cur_arrow st) (check_symbol st) (calls st).
Definition set_error_count (v : Z) (st : Parser) : Parser :=
  mkParser (scanner st) (kernel st) (symbol st) (error_ st) v (skip st) (cur_attribute st) (error_msg st) (cur_device_name_list st) (cur_pin_name_list st) (cur_arrow st) (check_symbol st) (calls st).
Definition set_skip (v : bool) (st : Parser) : Parser :=
  mkParser (scanner st) (kernel st) (symbol st) (error_ st) (error_count st) v (cur_attribute st) (error_msg st) (cur_device_name_list st) (cur_pin_name_list st) (cur_arrow st) (check_symbol st) (calls st).
Definition set_cur_attribute (v : option Z) (st : Parser) : Parser :=
  mkParser (scanner st) (kernel st) (symbol st) (error_ st) (error_count st) (skip st) v (error_msg st) (cur_device_name_list st) (cur_pin_name_list st) (cur_arrow st) (check_symbol st) (calls st).
Definition set_error_msg (v : string) (st : Parser) : Parser :=
  mkParser (scanner st) (kernel st) (symbol st) (error_ st) (error_count st) (skip st) (cur_attribute st) v (cur_device_name_list st) (cur_pin_name_list st) (cur_arrow st) (check_symbol st) (calls st).
Definition set_cur_device_name_list (v : list Symbol) (st : Parser) : Parser :=
  mkParser (scanner st) (kernel st) (symbol st) (error_ st) (error_count st) (skip st) (cur_attribute st) (error_msg st) v (cur_pin_name_list st) (cur_arrow st) (check_symbol st) (calls st).
Definition set_cur_pin_name_list (v : list Symbol) (st : Parser) : Parser :=
  mkParser (scanner st) (kernel st) (symbol st) (error_ st) (error_count st) (skip st) (cur_attribute st) (error_msg st) (cur_device_name_list st) v (cur_arrow st) (check_symbol st) (calls st).
Definition set_cur_arrow (v : option Symbol) (st : Parser) : Parser :=
  mkParser (scanner st) (kernel st) (symbol st) (error_ st) (error_count st) (skip st) (cur_attribute st) (error_msg st) (cur_device_name_list st) (cur_pin_name_list st) v (check_symbol st) (calls st).
Definition set_check_symbol (v : option Symbol) (st : Parser) : Parser :=
  mkParser (scanner st) (kernel st) (symbol st) (error_ st) (error_count st) (skip st) (cur_attribute st) (error_msg st) (cur_device_name_list st) (cur_pin_name_list st) (cur_arrow st) v (calls st).
Definition set_calls (v : list call) (st : Parser) : Parser :=
  mkParser (scanner st) (kernel st) (symbol st) (error_ st) (error_count st) (skip st) (cur_attribute st) (error_msg st) (cur_device_name_list st) (cur_pin_name_list st) (cur_arrow st) (check_symbol st) v.
Definition set_names_p (n : Names.t) (st : Parser) : Parser :=
  set_scanner (set_names n (scanner st)) st.

Definition log (c : call) (st : Parser) : Parser :=
  set_calls (calls st ++ [c])%list st.

(** A call of a scanner method on [self.scanner]. *)
Definition on_scanner {A} (c : M Scanner A) : M Parser A :=
  lift scanner set_scanner c.

(** [Parser.__init__]. *)
Definition Parser_init (sc : Scanner) (k : K) : res Parser unit :=
  let mk sym sc' :=
    mkParser sc' k sym false 0 false None "" [] [] None None [] in
  match get_symbol sc with
  | Ok sym sc' => Ok tt (mk sym sc')
  | Raise e sc' => Raise e (mk Symbol_new sc')
  | OutOfFuel => OutOfFuel
  end.

(** [self.symbol = self.scanner.get_symbol()]. *)
Definition next_symbol : M Parser unit :=
  sym <- on_scanner get_symbol ;;
  modify (set_symbol sym).

(** A bound on the iterations of a loop of the parser: every iteration
    takes a symbol from the scanner or ends the loop. *)
Definition loop_bound (st : Parser) : nat := S (S (remaining (scanner st))).

(** [symbol.string != stopping_symbol and symbol.type != EOF]. *)
Definition keeps_skipping (stopping_symbol : string) (sym : Symbol) : bool :=
  negb (match sy_string sym with
        | Some s => String.eqb s stopping_symbol
        | None => false
        end)
  && negb (is_type sym EOF).

Fixpoint error_loop (fuel : nat) (stopping_symbol : string) : M Parser unit :=
  fun st =>
    match fuel with
    | O => OutOfFuel
    | S fuel' =>
        if keeps_skipping stopping_symbol (symbol st)
        then (next_symbol ;; error_loop fuel' stopping_symbol) st
        else Ok tt st
    end.

(** [__error(message, stopping_symbol, symbol)]; the callers that leave
    [stopping_symbol] out pass its default [";"]. *)
Definition __error (message : string) (stopping_symbol : option string)
    (symbol_arg : option Symbol) : M Parser string :=
  cur <- gets symbol ;;
  let sym := match symbol_arg with Some s => s | None => cur end in
  modify (set_error_ true) ;;
  modify (fun st => set_error_count (error_count st + 1) st) ;;
  modify (fun st => log (CError message (kernel st)) st) ;;
  error_output <- on_scanner (print_error sym message) ;;
  match stopping_symbol with
  | Some stop => fun st => error_loop (loop_bound st) stop st
  | None => ret tt
  end ;;
  modify (fun st =>
    set_error_msg (error_msg st ++ Py.nl ++ Py.nl ++ error_output) st) ;;
  ret error_output.

Definition semicolon : option string := Some ";".

(** [__name(type)]; the branch for a keyword returns [None], which counts
    as false wherever the result is tested. *)
Definition __name (type : string) : M Parser bool :=
  sym <- gets symbol ;;
  if is_type sym NAME then
    e <- gets error_ ;;
    when (String.eqb type "devicename" && negb e)
      (modify (fun st =>
         set_cur_device_name_list (cur_device_name_list st ++ [sym])%list st)) ;;
    when (String.eqb type "pinname" && negb e)
      (modify (fun st =>
         set_cur_pin_name_list (cur_pin_name_list st ++ [sym])%list st)) ;;
    next_symbol ;;
    ret true
  else if is_type sym KEYWORD then
    __error
      ("Names cannot be Keywords: 'CIRCUIT', 'DEVICES', 'CONNECT',"
         ++ " 'MONITOR', 'END','CLOCK', 'SWITCH', 'AND', 'NAND', 'OR',"
         ++ " 'NOR', 'XOR', 'NOT', 'DTYPE'")
      semicolon None ;;
    ret false
  else
    (if String.eqb type "devicename" then
       __error "Device names must start with a letter and be alphanumeric"
         semicolon None ;;
       ret tt
     else if String.eqb type "pinname" then
       __error "Pin names must start with a letter and be alphanumeric"
         semicolon None ;;
       ret tt
     else ret tt) ;;
    ret false.

Definition __devicename : M Parser bool := __name "devicename".
Definition __pinname : M Parser bool := __name "pinname".

(** [int(self.symbol.string)]. *)
Definition int_of_symbol : M Parser Z :=
  sym <- gets symbol ;;
  match sy_string sym with
  | None => raise TypeError
  | Some s => match Py.int s with
              | Some n => ret n
              | None => raise ValueError
              end
  end.

(** The closing parenthesis after a parameter. *)
Definition close_parenthesis : M Parser unit :=
  next_symbol ;;
  sym <- gets symbol ;;
  if is_type sym PARENTHESIS_RIGHT then next_symbol
  else __error "Expected ')'" semicolon None ;; ret tt.

(** [__clock]. *)
Definition __clock : M Parser unit :=
  sym <- gets symbol ;;
  if is_type sym PARENTHESIS_LEFT then
    next_symbol ;;
    sym <- gets symbol ;;
    if is_type sym NUMBER then
      num <- int_of_symbol ;;
      when (num <=? 0)
        (__error "Clock half period must be greater than 0" semicolon None ;;
         modify (set_skip true)) ;;
      e <- gets error_ ;;
      when (negb e) (modify (set_cur_attribute (Some num))) ;;
      sk <- gets skip ;;
      when (negb sk) close_parenthesis ;;
      modify (set_skip false)
    else
      __error
        ("Expected a number n > 0, the number of simulation cycles"
           ++ " after which the state changes")
        semicolon None ;;
      ret tt
  else __error "Expected '('" semicolon None ;; ret tt.

(** [__switch]. *)
Definition __switch : M Parser unit :=
  sym <- gets symbol ;;
  if is_type sym PARENTHESIS_LEFT then
    next_symbol ;;
    sym <- gets symbol ;;
    if id_is sym 0 || id_is sym 1 then
      e <- gets error_ ;;
      when (negb e) (modify (set_cur_attribute (sy_id sym))) ;;
      close_parenthesis
    else
      __error "Expected state, either 0(OFF) or 1(ON)" semicolon None ;;
      ret tt
  else __error "Expected '('" semicolon None ;; ret tt.

(** The body that [__And], [__nand], [__nor] and [__oor] share; they differ
    in the message for a parameter that is no number. *)
Definition gate_inputs (no_number : string) : M Parser unit :=
  sym <- gets symbol ;;
  if is_type sym PARENTHESIS_LEFT then
    next_symbol ;;
    sym <- gets symbol ;;
    if is_type sym NUMBER then
      num <- int_of_symbol ;;
      when (negb ((0 <? num) && (num <=? 16)))
        (modify (set_skip true) ;;
         __error "Number of inputs must be between 1-16" semicolon None ;;
         ret tt) ;;
      e <- gets error_ ;;
      when (negb e) (modify (set_cur_attribute (Some num))) ;;
      sk <- gets skip ;;
      when (negb sk) close_parenthesis ;;
      modify (set_skip false)
    else __error no_number semicolon None ;; ret tt
  else __error "Expected '('" semicolon None ;; ret tt.

Definition __And : M Parser unit :=
  gate_inputs "Expected number of inputs for AND gate (valid range: 1-16)".
Definition __nand : M Parser unit :=
  gate_inputs "Expected number of inputs for NAND gate (valid range: 1-16)".
Definition __nor : M Parser unit :=
  gate_inputs "Expected number of inputs for NOR gate (valid range: 1-16)".
Definition __oor : M Parser unit :=
  gate_inputs "Expected number of inputs for OR gate (valid range: 1-16)".

(** A call of a method of the kernel, written to the history. *)
Definition kernel_call {A} (c : call)
    (f : Names.t -> K -> Names.t * K * A) : M Parser A :=
  fun st =>
    let '(n, k, a) := f (names (scanner st)) (kernel st) in
    Ok a (log c (set_kernel k (set_names_p n st))).

Definition call_make_clock (device_id : Z) : M Parser unit :=
  a <- gets cur_attribute ;;
  kernel_call (CMakeClock device_id a)
    (fun n k => (make_clock n k device_id a, tt)).

Definition call_make_switch (device_id : Z) : M Parser unit :=
  a <- gets cur_attribute ;;
  kernel_call (CMakeSwitch device_id a)
    (fun n k => (make_switch n k device_id a, tt)).

Definition call_make_gate (kind : Z) (inputs : option (option Z))
    (device_id : Z) : M Parser unit :=
  a <- gets cur_attribute ;;
  let i := match inputs with Some i => i | None => a end in
  kernel_call (CMakeGate device_id kind i)
    (fun n k => (make_gate n k device_id kind i, tt)).

Definition call_make_d_type (device_id : Z) : M Parser unit :=
  kernel_call (CMakeDType device_id)
    (fun n k => (make_d_type n k device_id, tt)).

Fixpoint for_each {A} (l : list A) (body : A -> M Parser unit)
  : M Parser unit :=
  match l with
  | [] => ret tt
  | x :: l' => body x ;; for_each l' body
  end.

(** The spellings of a list of symbols; [lookup] rejects what is no
    string. *)
Fixpoint spellings (l : list Symbol) : option (list string) :=
  match l with
  | [] => Some []
  | sym :: l' =>
      match sy_string sym, spellings l' with
      | Some s, Some ss => Some (s :: ss)
      | _, _ => None
      end
  end.

(** The block that follows each device type in [__device]:
    [if not self.error_:] look the names of the clause up and make a device
    for each. *)
Definition make_devices (make : Z -> M Parser unit) : M Parser unit :=
  e <- gets error_ ;;
  when (negb e)
    (l <- gets cur_device_name_list ;;
     match spellings l with
     | None => raise TypeError
     | Some ss =>
         device_ids <- (fun st =>
           let (ids, n) := Names.lookup (names (scanner st)) ss in
           Ok ids (set_names_p n st)) ;;
         for_each device_ids make
     end).

Fixpoint devicenames_loop (fuel : nat) (valid_device_list : bool)
  : M Parser bool :=
  fun st =>
    match fuel with
    | O => OutOfFuel
    | S fuel' =>
        if is_type (symbol st) COMMA && negb (is_type (symbol st) EOF)
           && valid_device_list
        then (next_symbol ;;
              v <- __devicename ;;
              devicenames_loop fuel' v) st
        else Ok valid_device_list st
    end.

(** [__device]. *)
Definition __device : M Parser unit :=
  modify (set_cur_device_name_list []) ;;
  b <- __devicename ;;
  when b
    (valid_device_list <- (fun st => devicenames_loop (loop_bound st) true st) ;;
     when valid_device_list
       (sym <- gets symbol ;;
        if is_type sym EQUALS then
          next_symbol ;;
          sym <- gets symbol ;;
          k <- gets (fun st => kw (scanner st)) ;;
          if id_is sym (CLOCK_ID k) then
            next_symbol ;; __clock ;; make_devices call_make_clock
          else if id_is sym (SWITCH_ID k) then
            next_symbol ;; __switch ;; make_devices call_make_switch
          else if id_is sym (AND_ID k) then
            next_symbol ;; __And ;;
            make_devices (call_make_gate dev_AND None)
          else if id_is sym (NAND_ID k) then
            next_symbol ;; __nand ;;
            make_devices (call_make_gate dev_NAND None)
          else if id_is sym (OR_ID k) then
            next_symbol ;; __oor ;;
            make_devices (call_make_gate dev_OR None)
          else if id_is sym (NOR_ID k) then
            next_symbol ;; __nor ;;
            make_devices (call_make_gate dev_NOR None)
          else if id_is sym (DTYPE_ID k) then
            next_symbol ;; make_devices call_make_d_type
          else if id_is sym (XOR_ID k) then
            next_symbol ;;
            make_devices (call_make_gate dev_XOR (Some (Some 2)))
          else if id_is sym (NOT_ID k) then
            next_symbol ;;
            make_devices (call_make_gate dev_NOT (Some (Some 1)))
          else
            __error
              ("Not a supported device, supported devices: CLOCK,"
                 ++ " SWITCH, AND, NAND, OR, NOR, DTYPE, XOR, NOT")
              semicolon None ;;
            ret tt
        else __error "Expected '=' or ','" semicolon None ;; ret tt)) ;;
  sym <- gets symbol ;;
  if is_type sym SEMICOLON then next_symbol
  else __error "Expected ';'" None None ;; ret tt.

Definition keyword_as_name : string :=
  "Device names cannot be Keywords: 'CIRCUIT',"
    ++ " 'DEVICES', 'CONNECT', 'MONITOR', 'END','CLOCK',"
    ++ " 'SWITCH', 'AND', 'NAND', 'OR', 'NOR', 'XOR', 'NOT' 'DTYPE'".

(** The test for the keyword of the next section at the head of the loops
    of [__devicelist] and [__connectionlist]; [true] stands for [break]. *)
Definition missing_brace (next_section_id : Z) : M Parser bool :=
  sym <- gets symbol ;;
  if id_is sym next_section_id then
    cs <- on_scanner get_symbol ;;
    modify (set_check_symbol (Some cs)) ;;
    if is_type cs BRACE_LEFT then
      modify (set_skip true) ;;
      __error "Expected '}'" None None ;;
      modify (set_symbol cs) ;;
      ret true
    else
      __error keyword_as_name semicolon None ;;
      next_symbol ;;
      ret false
  else ret false.

(** The loop of [__devicelist]; the result is [right_brace]. *)
Fixpoint devicelist_loop (fuel : nat) : M Parser bool :=
  fun st =>
    match fuel with
    | O => OutOfFuel
    | S fuel' =>
        if negb (is_type (symbol st) BRACE_RIGHT)
           && negb (is_type (symbol st) EOF)
        then (brk <- missing_brace (CONNECT_ID (kw (scanner st))) ;;
              if brk then ret false
              else __device ;; devicelist_loop fuel') st
        else Ok true st
    end.

(** [symbol.type == KEYWORD and symbol.id == id]. *)
Definition is_keyword (sym : Symbol) (id : Z) : bool :=
  is_type sym KEYWORD && id_is sym id.

(** [__devicelist]. *)
Definition __devicelist : M Parser unit :=
  sym <- gets symbol ;;
  k <- gets (fun st => kw (scanner st)) ;;
  (if is_keyword sym (DEVICES_ID k) then next_symbol
   else __error "Expected 'DEVICES'" (Some "{") None ;; ret tt) ;;
  sym <- gets symbol ;;
  (if is_type sym BRACE_LEFT then next_symbol
   else __error "Expected '{'" None None ;; ret tt) ;;
  __device ;;
  right_brace <- (fun st => devicelist_loop (loop_bound st) st) ;;
  when right_brace next_symbol.

(** [__point]. *)
Definition __point : M Parser bool :=
  b <- __devicename ;;
  if b then
    sym <- gets symbol ;;
    if is_type sym DOT then
      next_symbol ;;
      __pinname
    else
      modify (fun st =>
        set_cur_pin_name_list
          (cur_pin_name_list st ++ [Symbol_new])%list st) ;;
      ret true
  else ret false.

Fixpoint points_loop (fuel : nat) : M Parser unit :=
  fun st =>
    match fuel with
    | O => OutOfFuel
    | S fuel' =>
        if is_type (symbol st) COMMA && negb (is_type (symbol st) EOF)
        then (next_symbol ;; __point ;; points_loop fuel') st
        else Ok tt st
    end.

(** What [__con] keeps of the output it connects: the symbols and IDs of
    device and pin, set only [if not self.error_]. *)
Definition output_point : Type := Symbol * Symbol * option Z * option Z.

(** The loop of [__con] that makes the connections, from index [i] on. *)
Fixpoint connect_from (out : option output_point) (i : nat)
    (in_device_ids cur_in_pin_ids : list (option Z)) : M Parser unit :=
  match in_device_ids with
  | [] => ret tt
  | in_dev_id :: rest =>
      match nth_error cur_in_pin_ids i, out with
      | None, _ => raise IndexError
      | Some _, None => raise UnboundLocalError
      | Some in_pin_id, Some (out_device_sym, out_pin_sym,
                              out_device_id, out_pin_id) =>
          error <- kernel_call
                     (CMakeConnection out_device_id out_pin_id
                        in_dev_id in_pin_id)
                     (fun n k => make_connection n k out_device_id out_pin_id
                                   in_dev_id in_pin_id) ;;
          if negb (error =? NO_ERROR) then
            let report (sym : option Symbol) (missing : exn) :=
              match sym with
              | Some s =>
                  __error (network_error_message error) None (Some s) ;;
                  ret tt
              | None => raise missing
              end in
            pins <- gets cur_pin_name_list ;;
            devs <- gets cur_device_name_list ;;
            arrow <- gets cur_arrow ;;
            if (error =? INPUT_CONNECTED) || (error =? PORT_ABSENT_2) then
              report (nth_error pins i) IndexError
            else if error =? DEVICE_ABSENT_2 then
              report (nth_error devs i) IndexError
            else if error =? DEVICE_ABSENT_1 then
              report (Some out_device_sym) IndexError
            else if error =? PORT_ABSENT_1 then
              report (Some out_pin_sym) IndexError
            else report arrow AttributeError
          else connect_from out (S i) rest cur_in_pin_ids
      end
  end.

(** [__con]. *)
Definition __con : M Parser unit :=
  modify (set_cur_device_name_list []) ;;
  modify (set_cur_pin_name_list []) ;;
  b <- __point ;;
  out <-
    (if b then
       e <- gets error_ ;;
       out <-
         (if negb e then
            devs <- gets cur_device_name_list ;;
            pins <- gets cur_pin_name_list ;;
            n <- gets (fun st => names (scanner st)) ;;
            match devs, pins with
            | out_device_sym :: _, out_pin_sym :: _ =>
                modify (set_cur_device_name_list []) ;;
                modify (set_cur_pin_name_list []) ;;
                ret (Some (out_device_sym, out_pin_sym,
                           Names.query n (sy_string out_device_sym),
                           Names.query n (sy_string out_pin_sym)))
            | _, _ => raise IndexError
            end
          else ret None) ;;
       sym <- gets symbol ;;
       (if is_type sym ARROW then
          modify (set_cur_arrow (Some sym)) ;;
          next_symbol ;;
          __point ;;
          (fun st => points_loop (loop_bound st) st) ;;
          sym <- gets symbol ;;
          when (negb (is_type sym SEMICOLON))
            (if is_type sym BRACE_RIGHT then
               modify (set_skip true) ;;
               __error "Expected ';'" None None ;; ret tt
             else __error "Expected '.' or ',' or ';'" semicolon None ;;
                  ret tt)
        else __error "Expected '>'" semicolon None ;; ret tt) ;;
       ret out
     else ret None) ;;
  e <- gets error_ ;;
  when (negb e)
    (devs <- gets cur_device_name_list ;;
     pins <- gets cur_pin_name_list ;;
     n <- gets (fun st => names (scanner st)) ;;
     let cur_in_device_ids := map (fun d => Names.query n (sy_string d)) devs in
     let cur_in_pin_ids := map (fun d => Names.query n (sy_string d)) pins in
     connect_from out 0 cur_in_device_ids cur_in_pin_ids) ;;
  sk <- gets skip ;;
  when (negb sk)
    (sym <- gets symbol ;;
     if is_type sym SEMICOLON then next_symbol
     else __error "Expected ';'" None None ;; ret tt) ;;
  modify (set_skip false).

(** The loop of [__connectionlist]; the result is [right_brace]. *)
Fixpoint connectionlist_loop (fuel : nat) : M Parser bool :=
  fun st =>
    match fuel with
    | O => OutOfFuel
    | S fuel' =>
        if negb (is_type (symbol st) BRACE_RIGHT)
           && negb (is_type (symbol st) EOF)
        then (brk <- missing_brace (MONITOR_ID (kw (scanner st))) ;;
              if brk then ret false
              else __con ;; connectionlist_loop fuel') st
        else Ok true st
    end.

(** [__connectionlist]. *)
Definition __connectionlist : M Parser unit :=
  connect_Symbol <- gets symbol ;;
  k <- gets (fun st => kw (scanner st)) ;;
  sk <- gets skip ;;
  when (negb sk)
    (if is_keyword connect_Symbol (CONNECT_ID k) then next_symbol
     else __error "Expected 'CONNECT'" (Some "{") None ;; ret tt) ;;
  modify (set_skip false) ;;
  sym <- gets symbol ;;
  (if is_type sym BRACE_LEFT then next_symbol
   else __error "Expected '{'" None None ;; ret tt) ;;
  __con ;;
  right_brace <- (fun st => connectionlist_loop (loop_bound st) st) ;;
  e <- gets error_ ;;
  when (negb e)
    (unconnected <- (fun st =>
       let '(n, k, u) := check_network (names (scanner st)) (kernel st) in
       Ok u (set_kernel k (set_names_p n st))) ;;
     when (negb (String.eqb unconnected ""))
       (__error ("unconnected inputs: " ++ unconnected) None
          (Some connect_Symbol) ;;
        ret tt)) ;;
  when right_brace next_symbol.

(** [__monitor]. *)
Definition __monitor : M Parser unit :=
  modify (set_cur_device_name_list []) ;;
  modify (set_cur_pin_name_list []) ;;
  __point ;;
  e <- gets error_ ;;
  when (negb e)
    (devs <- gets cur_device_name_list ;;
     pins <- gets cur_pin_name_list ;;
     n <- gets (fun st => names (scanner st)) ;;
     match devs, pins with
     | d :: _, p :: _ =>
         let dev := Names.query n (sy_string d) in
         let pin := Names.query n (sy_string p) in
         error <- kernel_call (CMakeMonitor dev pin)
                    (fun n k => make_monitor n k dev pin) ;;
         when (negb (error =? monitors_NO_ERROR))
           (__error (monitors_error_message error) None None ;; ret tt)
     | _, _ => raise IndexError
     end) ;;
  sym <- gets symbol ;;
  if is_type sym SEMICOLON then next_symbol
  else __error "Expected ';'" None None ;; ret tt.

(** The loop of [__monitorlist]; the result is [right_brace]. *)
Fixpoint monitorlist_loop (fuel : nat) : M Parser bool :=
  fun st =>
    match fuel with
    | O => OutOfFuel
    | S fuel' =>
        if negb (is_type (symbol st) BRACE_RIGHT)
           && negb (is_type (symbol st) EOF)
        then
          if id_is (symbol st) (END_ID (kw (scanner st))) then
            (__error "Expected '}'" None None ;; ret false) st
          else (__monitor ;; monitorlist_loop fuel') st
        else Ok true st
    end.

(** [__monitorlist]. *)
Definition __monitorlist : M Parser unit :=
  sym <- gets symbol ;;
  k <- gets (fun st => kw (scanner st)) ;;
  sk <- gets skip ;;
  when (negb sk)
    (if is_keyword sym (MONITOR_ID k) then next_symbol
     else __error "Expected 'MONITOR'" (Some "{") None ;; ret tt) ;;
  modify (set_skip false) ;;
  sym <- gets symbol ;;
  if is_type sym BRACE_LEFT then
    next_symbol ;;
    __monitor ;;
    right_brace <- (fun st => monitorlist_loop (loop_bound st) st) ;;
    when right_brace next_symbol
  else __error "Expected '{'" None None ;; ret tt.

(** [__circuit]. *)
Definition __circuit : M Parser unit :=
  sym <- gets symbol ;;
  k <- gets (fun st => kw (scanner st)) ;;
  (if is_keyword sym (CIRCUIT_ID k) then next_symbol
   else __error "Expected 'CIRCUIT'" (Some "{") None ;; ret tt) ;;
  sym <- gets symbol ;;
  (if is_type sym BRACE_LEFT then next_symbol
   else __error "Expected '{'" None None ;; ret tt) ;;
  __devicelist ;;
  __connectionlist ;;
  __monitorlist ;;
  sym <- gets symbol ;;
  if is_type sym BRACE_RIGHT then next_symbol
  else __error "Expected '}'" None None ;; ret tt.

(** The line that ends the report of [parse_network]. *)
Definition error_count_line (n : Z) : string := "Error Count: " ++ Py.str n.

(** [parse_network]. *)
Definition parse_network : M Parser bool :=
  __circuit ;;
  sym <- gets symbol ;;
  k <- gets (fun st => kw (scanner st)) ;;
  (if is_keyword sym (END_ID k) then next_symbol
   else __error "Expected 'END'" semicolon None ;; ret tt) ;;
  modify (fun st =>
    set_error_msg
      (error_msg st ++ Py.nl ++ Py.nl ++ error_count_line (error_count st))
      st) ;;
  n <- gets error_count ;;
  on_scanner (print (error_count_line n)) ;;
  e <- gets error_ ;;
  ret (negb e).

(** A parser on the text of a definition file, as [logsim.py] sets it up,
    and its run. *)
Definition new_parser (text : string) (names0 : Names.t) (k : K)
  : res Parser unit :=
  Parser_init (Scanner_init text names0) k.

Definition run_parser (text : string) (names0 : Names.t) (k : K)
  : res Parser bool :=
  match new_parser text names0 k with
  | Ok _ st => parse_network st
  | Raise e st => Raise e st
  | OutOfFuel => OutOfFuel
  end.

End ParserModel.

(* ------------------------------------------------------------------ *)
(** ** A kernel to run the parser on examples *)

(** A kernel that makes whatever it is asked for and never reports an error;
    its state counts what was made. *)
Definition accepting_kernel : Kernel := {|
  K := Z;
  dev_AND := 100; dev_NAND := 101; dev_OR := 102; dev_NOR := 103;
  dev_XOR := 104; dev_NOT := 105;
  make_clock := fun n k _ _ => (n, k + 1);
  make_switch := fun n k _ _ => (n, k + 1);
  make_gate := fun n k _ _ _ => (n, k + 1);
  make_d_type := fun n k _ => (n, k + 1);
  NO_ERROR := 0; INPUT_CONNECTED := 1; PORT_ABSENT_2 := 2;
  DEVICE_ABSENT_2 := 3; DEVICE_ABSENT_1 := 4; PORT_ABSENT_1 := 5;
  network_error_message := fun _ => "network error";
  make_connection := fun n k _ _ _ _ => (n, k + 1, 0);
  check_network := fun n k => (n, k, "");
  monitors_NO_ERROR := 0;
  monitors_error_message := fun _ => "monitor error";
  make_monitor := fun n k _ _ => (n, k + 1, 0)
|}.

(** The parser on a text, with an empty name table and the kernel above,
    when [Parser.__init__] is through. *)
Definition started (text : string) : @Parser accepting_kernel :=
  match @new_parser accepting_kernel text [] 0 with
  | Ok _ st => st
  | Raise _ st => st
  | OutOfFuel =>
      @mkParser accepting_kernel (Scanner_init text []) 0 Symbol_new false 0
        false None "" [] [] None None []
  end.

(** A kernel whose network refuses every connection: the input is
    connected already. *)
Definition refusing_kernel : Kernel := {|
  K := Z;
  dev_AND := 100; dev_NAND := 101; dev_OR := 102; dev_NOR := 103;
  dev_XOR := 104; dev_NOT := 105;
  make_clock := fun n k _ _ => (n, k + 1);
  make_switch := fun n k _ _ => (n, k + 1);
  make_gate := fun n k _ _ _ => (n, k + 1);
  make_d_type := fun n k _ => (n, k + 1);
  NO_ERROR := 0; INPUT_CONNECTED := 1; PORT_ABSENT_2 := 2;
  DEVICE_ABSENT_2 := 3; DEVICE_ABSENT_1 := 4; PORT_ABSENT_1 := 5;
  network_error_message := fun _ => "Input is already connected";
  make_connection := fun n k _ _ _ _ => (n, k, 1);
  check_network := fun n k => (n, k, "");
  monitors_NO_ERROR := 0;
  monitors_error_message := fun _ => "monitor error";
  make_monitor := fun n k _ _ => (n, k + 1, 0)
|}.

(* ------------------------------------------------------------------ *)
(** ** Notions the properties are stated with *)

(** No method of the scanner reads what was printed: text written before
    stays in front of what a method prints. *)
Definition with_out (pre : list string) (sc : Scanner) : Scanner :=
  set_stdout (pre ++ stdout sc)%list sc.

Definition out_frame {A} (c : M Scanner A) : Prop :=
  forall pre sc, c (with_out pre sc) = map_state (with_out pre) (c sc).

(** A line of the file without its line end. *)
Fixpoint chomp (line : string) : string :=
  match line with
  | EmptyString => EmptyString
  | String c EmptyString =>
      if Ascii.eqb c (ascii_of_nat 10) then EmptyString else line
  | String c rest => String c (chomp rest)
  end.

(** The total length of some lines. *)
Definition total_length (lines : list string) : Z :=
  Py.sum (map Py.len lines).

(** The offsets at which lines of the given lengths start, the first one at
    [off]. *)
Fixpoint starts (off : Z) (lens : list Z) : list Z :=
  match lens with
  | [] => []
  | x :: l => off :: starts (off + x) l
  end.

(** The scanner holds the line lengths of its own file, and its file can be
    read. *)
Definition lines_ok (sc : Scanner) : Prop :=
  line_lengths sc = map Py.len (Py.file_lines (content (file sc)))
  /\ 0 <= tell (file sc).

(** The character at hand is the one before the read position of the file,
    or the end of the file has been reached. *)
Definition sc_ok (sc : Scanner) : Prop :=
  let f := file sc in
  0 <= tell f <= Py.len (content f)
  /\ ((current_character sc = "" /\ tell f = Py.len (content f))
      \/ (1 <= tell f
          /\ current_character sc
             = substring (Z.to_nat (tell f - 1)) 1 (content f))).

(** The scanner after [advance]. *)
Definition advanced (sc : Scanner) : Scanner :=
  let (c, f) := fread1 (file sc) in
  set_file_position (file_position sc + 1)
    (set_current_character c (set_file f sc)).

Definition sc_post (sc sc' : Scanner) : Prop :=
  sc_ok sc' /\ (remaining sc' <= remaining sc)%nat
  /\ content (file sc') = content (file sc) /\ kw sc' = kw sc.

Definition sym_ok (sym : Symbol) : Prop :=
  sy_string sym = Some ";" -> is_type sym SEMICOLON = true.

(** What [get_symbol] guarantees. *)
Definition scanned (sc : Scanner) (sym : Symbol) (sc' : Scanner) : Prop :=
  sc_post sc sc'
  /\ sym_ok sym
  /\ (is_type sym EOF = true -> remaining sc' = 0%nat)
  /\ (is_type sym EOF = false -> (remaining sc' < remaining sc)%nat).

(** *** The parser *)

Section ParserNotions.

Context {kernel_impl : Kernel}.

(** The calls that change the kernel, and the error reports made in the
    kernel state [k]. *)
Definition is_make (c : call) : Prop :=
  match c with
  | CError _ _ => False
  | _ => True
  end.

Definition is_error_at (k : K) (c : call) : Prop :=
  match c with
  | CError _ k' => k' = k
  | _ => False
  end.

(** The error flag is set exactly when errors were counted. *)
Definition count_ok (st : Parser) : Prop :=
  0 <= error_count st /\ error_ st = (0 <? error_count st).

(** In the history all the makes come first; the errors that follow were
    all reported in the present state of the kernel; there is an error in the
    history exactly when the error flag is set. *)
Definition log_ok (st : Parser) : Prop :=
  exists ms es,
    calls st = (ms ++ es)%list
    /\ Forall is_make ms
    /\ Forall (is_error_at (kernel st)) es
    /\ (error_ st = false <-> es = []).

Definition weak (st : Parser) : Prop := count_ok st /\ log_ok st.

(** Symbols still to come, the one at hand included. *)
Definition pm (st : Parser) : nat :=
  (remaining (scanner st) + if is_type (symbol st) EOF then 0 else 1)%nat.

Definition Inv (st : Parser) : Prop :=
  weak st
  /\ sc_ok (scanner st)
  /\ sym_ok (symbol st)
  /\ (is_type (symbol st) EOF = true -> remaining (scanner st) = 0%nat).

Definition post (st st' : Parser) : Prop :=
  Inv st' /\ (pm st' <= pm st)%nat.

(** [spec c R]: from a state with the invariant, [c] does not exhaust a loop
    bound; it returns in a state with the invariant, no further from the end
    of the file, and with [R]; or it raises in a state whose counter and
    history are in order. *)
Definition spec {A} (c : M Parser A) (R : Parser -> A -> Parser -> Prop)
  : Prop :=
  forall st, Inv st ->
    outcome (c st) (fun a st' => post st st' /\ R st a st') weak.

Definition sound {A} (c : M Parser A) : Prop := spec c (fun _ _ _ => True).

(** What the parser state keeps when only the scanner and the symbol at
    hand change. *)
Definition same_but_input (st st' : Parser) : Prop :=
  kernel st' = kernel st /\ error_ st' = error_ st
  /\ error_count st' = error_count st /\ skip st' = skip st
  /\ calls st' = calls st.

(** [skips_to stop st st']: from [st] the parser takes symbols as long as the
    one at hand is not spelled [stop] and is not the end of the file, and
    [st'] is where it stops. *)
Inductive skips_to (stop : string) : Parser -> Parser -> Prop :=
| skips_done st :
    keeps_skipping stop (symbol st) = false -> skips_to stop st st
| skips_next st st1 st' :
    keeps_skipping stop (symbol st) = true ->
    next_symbol st = Ok tt st1 ->
    skips_to stop st1 st' ->
    skips_to stop st st'.

(** The state in which [__error] calls [print_error]: the flag is set, the
    counter is one up and the error is in the history. *)
Definition error_noted (message : string) (st : Parser) : Parser :=
  log (CError message (kernel st))
    (set_error_count (error_count st + 1) (set_error_ true st)).

Definition error_result (stop : option string) (st st' : Parser) : Prop :=
  error_ st' = true
  /\ error_count st' = error_count st + 1
  /\ skip st' = skip st
  /\ kernel st' = kernel st
  /\ match stop with
     | Some s =>
         keeps_skipping s (symbol st') = false
         /\ (keeps_skipping s (symbol st) = true -> (pm st' < pm st)%nat)
     | None => symbol st' = symbol st
     end.

Definition name_result (st : Parser) (b : bool) (st' : Parser) : Prop :=
  skip st' = skip st
  /\ (b = true -> (pm st' < pm st)%nat)
  /\ (b = false ->
      error_ st' = true /\ keeps_skipping ";" (symbol st') = false).

(** What a call of the kernel keeps, made without the error flag. *)
Definition made (st : Parser) (st' : Parser) : Prop :=
  post st st' /\ error_ st' = false /\ skip st' = skip st
  /\ symbol st' = symbol st.

Definition make_ok (make : Z -> M Parser unit) : Prop :=
  forall id st, Inv st -> error_ st = false ->
    outcome (make id st) (fun _ st' => made st st') weak.

(** A procedure gets nearer to the end of the file when it starts on a
    symbol. *)
Definition advances (st : Parser) (st' : Parser) : Prop :=
  is_type (symbol st) EOF = false -> (pm st' < pm st)%nat.

(** A computation that leaves everything but the scanner and the symbol at
    hand as it was, also when it raises. *)
Definition keeps {A} (st : Parser) (r : res Parser A) : Prop :=
  match r with
  | Ok _ st' | Raise _ st' => same_but_input st st'
  | OutOfFuel => True
  end.

(** What [__error] changes besides the scanner and the symbol at hand,
    also when it raises. *)
Definition error_effect (message : string) (st st' : Parser) : Prop :=
  error_ st' = true
  /\ error_count st' = error_count st + 1
  /\ calls st' = (calls st ++ [CError message (kernel st)])%list
  /\ kernel st' = kernel st /\ skip st' = skip st.

(** The error that a call reports: it is the one more in the history and
    in the counter. *)
Definition reports (message : string) (st st' : Parser) : Prop :=
  calls st' = (calls st ++ [CError message (kernel st)])%list
  /\ error_count st' = error_count st + 1.

End ParserNotions.

(* ------------------------------------------------------------------ *)
(** ** Further models and notions *)

(** ** The preliminary name table, [prelim sai34/mynames.py] *)

Module MyNames_sai34.

Definition t := list string.

Definition init : t := [].

(** [lookup(self, name_string)]: the string is appended when it is not in the
    list, then [index] looks for it; [None] stands for the [ValueError] of
    [index] on a string that is not in the list. *)
Definition lookup (names_list : t) (name_string : string) : option Z * t :=
  let names_list' :=
    if negb (Py.str_in name_string names_list)
    then (names_list ++ [name_string])%list
    else names_list in
  (option_map Z.of_nat (Py.str_index name_string names_list'), names_list').

(** [get_string(self, name_id)] for an [int] argument, for which
    [type(name_id) is not int] is false. *)
Definition get_string (names_list : t) (name_id : Z) : MyNames.result :=
  if name_id <? 0 then MyNames.Raised ValueError
  else if name_id <? Z.of_nat (List.length names_list)
       then MyNames.Returned (nth_error names_list (Z.to_nat name_id))
       else MyNames.Returned None.

End MyNames_sai34.

(** *** The inputs on which the model is the program *)

(** The largest [int64] of numpy.  [print_error] subtracts the position of
    the symbol from an array of [int64]: for a position above this one numpy
    raises [OverflowError], below it the subtraction is the one of [Z]. *)
Definition int64_max : Z := 9223372036854775807.

(** The most digits that [int] reads from a string and that [str] writes
    for an integer: [sys.int_info.default_max_str_digits], the default limit
    since Python 3.11, beyond which both raise [ValueError]. *)
Definition max_str_digits : nat := 4300.

(** No run of digits of [s] is longer than [limit], when [run] digits
    stand right before [s]. *)
Fixpoint digit_runs_within (limit run : nat) (s : string) : bool :=
  match s with
  | EmptyString => true
  | String c s' =>
      if Py.chr_isdigit c
      then (S run <=? limit)%nat && digit_runs_within limit (S run) s'
      else digit_runs_within limit 0 s'
  end.

(** An ASCII character other than the carriage return. *)
Definition plain_char (c : ascii) : bool :=
  (nat_of_ascii c <? 128)%nat && negb (nat_of_ascii c =? 13)%nat.

(** The texts of the conventions above: ASCII characters with LF line
    ends, no numeral beyond the limit of [int] and [str], and a length that
    keeps the positions of the symbols well within [int64].  On them the
    classes [isspace], [isdigit], [isalpha] and [isalnum] of [str] are the
    ASCII ones, [int] of a digit is its value, a character of the file is a
    byte of it, and the conversions of numerals do not fail. *)
Definition plain_text (text : string) : bool :=
  Py.str_all plain_char text
  && digit_runs_within max_str_digits 0 text
  && (2 * Py.len text <=? int64_max).

(** *** The scanner at an offset of its text *)

(** The character at offset [o] of a text; the empty string from the end of
    the text on, as [read(1)] returns it. *)
Definition char_at (text : string) (o : Z) : string :=
  substring (Z.to_nat o) 1 text.

(** The scanner [sc] moved to offset [o]: the character at hand is the one
    at [o] and the file is read up to it; [fp] is its [file_position] and
    [cm] its [comment] flag. *)
Definition place (o fp : Z) (cm : bool) (sc : Scanner) : Scanner :=
  let text := content (file sc) in
  mkScanner (mkFile text (Z.min (o + 1) (Py.len text))) (line_lengths sc) fp
            (names sc) (kw sc) (char_at text o) cm (stdout sc).

(** The number that the digits of [s] add to [acc], read as [get_number]
    reads them. *)
Fixpoint digits_value (acc : Z) (s : string) : Z :=
  match s with
  | EmptyString => acc
  | String c s' => digits_value (acc * 10 + Py.digit_val (String c "")) s'
  end.

(** *** The parts of [get_symbol] *)

(** What [get_symbol] does on a backslash: the test for a comment, the step
    back onto a lone backslash, and the loop through the comment. *)
Definition after_backslash : M Scanner unit :=
  b <- check_comment ;;
  modify (set_comment b) ;;
  when (negb b) backwards ;;
  fun sc => comment_loop (S (remaining sc)) sc.

(** The branches of [get_symbol] on the character at hand [c], for a symbol
    at position [p]. *)
Definition symbol_from (p : Z) (c : string) : M Scanner Symbol :=
  if Py.isalpha c then
    name_string <- get_name ;;
    let T := if Py.str_in name_string keywords_list then KEYWORD else NAME in
    i <- (fun sc => match Names.lookup (names sc) [name_string] with
                    | ([i], n) => Ok i (set_names n sc)
                    | (_, n) => Raise ValueError (set_names n sc)
                    end) ;;
    ret (mkSymbol (Some T) (Some i) (Some p) (Some name_string))
  else if Py.isdigit c then
    if Py.digit_val c =? 0 then
      advance ;;
      ret (mkSymbol (Some ZERO) (Some 0) (Some p) (Some (Py.str 0)))
    else
      n <- get_number ;;
      ret (mkSymbol (Some NUMBER) (Some n) (Some p) (Some (Py.str n)))
  else if String.eqb c "," then one_char COMMA p
  else if String.eqb c ";" then one_char SEMICOLON p
  else if String.eqb c "=" then one_char EQUALS p
  else if String.eqb c "{" then one_char BRACE_LEFT p
  else if String.eqb c "}" then one_char BRACE_RIGHT p
  else if String.eqb c "(" then one_char PARENTHESIS_LEFT p
  else if String.eqb c ")" then one_char PARENTHESIS_RIGHT p
  else if String.eqb c ">" then one_char ARROW p
  else if String.eqb c "." then one_char DOT p
  else if String.eqb c "" then one_char EOF p
  else one_char INVALID_CHARACTER p.

(** The suggestion [get_symbol] prints at the end of a file that ends in a
    comment. *)
Definition open_comment_message : string :=
  "File ended with open comment. Expected '"
    ++ Py.backslash ++ Py.backslash ++ "'".

(** What [get_symbol] does from [symbol.position = self.file_position] on:
    the symbol that starts with the character at hand. *)
Definition take_symbol : M Scanner Symbol :=
  p <- gets file_position ;;
  c <- gets current_character ;;
  symbol <- symbol_from p c ;;
  cm <- gets comment ;;
  when (is_type symbol EOF && cm)
    (print_error symbol open_comment_message ;; ret tt) ;;
  ret symbol.

(** *** Symbols and their spelling *)

(** The type of the symbol with the spelling [s]. *)
Definition spelling_type (s : string) : SymType :=
  let c := substring 0 1 s in
  if Py.isalpha c then
    if Py.str_in s keywords_list then KEYWORD else NAME
  else if Py.isdigit c then
    if Py.digit_val c =? 0 then ZERO else NUMBER
  else if String.eqb s "," then COMMA
  else if String.eqb s ";" then SEMICOLON
  else if String.eqb s "=" then EQUALS
  else if String.eqb s "{" then BRACE_LEFT
  else if String.eqb s "}" then BRACE_RIGHT
  else if String.eqb s "(" then PARENTHESIS_LEFT
  else if String.eqb s ")" then PARENTHESIS_RIGHT
  else if String.eqb s ">" then ARROW
  else if String.eqb s "." then DOT
  else if String.eqb s "" then EOF
  else INVALID_CHARACTER.

(** The symbol with the spelling [s] at position [p], made with the name
    table [nm]: names and keywords have the ID of their string, numbers
    their value. *)
Definition symbol_of (nm : Names.t) (p : Z) (s : string) : Symbol :=
  mkSymbol (Some (spelling_type s))
           (match spelling_type s with
            | NAME | KEYWORD => Some (fst (Names.lookup1 nm s))
            | ZERO => Some 0
            | NUMBER => Some (digits_value 0 s)
            | _ => None
            end)
           (Some p) (Some s).

(** The name table after the symbol spelled [s] was made. *)
Definition names_after (nm : Names.t) (s : string) : Names.t :=
  match spelling_type s with
  | NAME | KEYWORD => snd (Names.lookup1 nm s)
  | _ => nm
  end.

(** [spelled text o s n]: the symbol that starts at offset [o] of [text]
    takes the [n] characters [s]: a letter with all the letters and digits
    that follow, a digit other than 0 with all the digits that follow, and
    one character otherwise; at the end of the text [s] is empty. *)
Definition spelled (text : string) (o : Z) (s : string) (n : Z) : Prop :=
  1 <= n
  /\ s = substring (Z.to_nat o) (Z.to_nat n) text
  /\ let c := char_at text o in
     if Py.isalpha c then
       (forall i, 0 <= i < n -> Py.isalnum (char_at text (o + i)) = true)
       /\ Py.isalnum (char_at text (o + n)) = false
     else if Py.isdigit c && negb (Py.digit_val c =? 0) then
       (forall i, 0 <= i < n -> Py.isdigit (char_at text (o + i)) = true)
       /\ Py.isdigit (char_at text (o + n)) = false
     else n = 1.

(** The scanner can go on reading: it holds the line lengths of its file,
    its position is not negative, the character at hand is the one at an
    offset [o] of the text with the file read up to it, and it is inside an
    open comment only at the end of the text. *)
Definition readable (sc : Scanner) : Prop :=
  line_lengths sc = map Py.len (Py.file_lines (content (file sc)))
  /\ 0 <= file_position sc
  /\ exists o, 0 <= o
               /\ sc = place o (file_position sc) (comment sc) sc
               /\ (comment sc = true -> Py.len (content (file sc)) <= o).

(** The scanner can go on reading and is at the offset that its
    [file_position] tells. *)
Definition positioned (sc : Scanner) : Prop :=
  line_lengths sc = map Py.len (Py.file_lines (content (file sc)))
  /\ 0 <= file_position sc
  /\ sc = place (file_position sc) (file_position sc) (comment sc) sc
  /\ (comment sc = true -> Py.len (content (file sc)) <= file_position sc).

(** *** Reports of the parser *)

Section ReportNotions.

Context {kernel_impl : Kernel}.

(** [told msgs st st']: between [st] and [st'] the parser has reported no
    error, or one error with one of the messages [msgs]. *)
Definition told (msgs : list string) (st st' : Parser) : Prop :=
  (calls st' = calls st /\ error_count st' = error_count st)
  \/ exists m, In m msgs /\ reports m st st'.

End ReportNotions.

(** A kernel whose network refuses the connections to an input that is
    given with its pin, as connected already, and makes the others. *)
Definition pin_refusing_kernel : Kernel := {|
  K := Z;
  dev_AND := 100; dev_NAND := 101; dev_OR := 102; dev_NOR := 103;
  dev_XOR := 104; dev_NOT := 105;
  make_clock := fun n k _ _ => (n, k + 1);
  make_switch := fun n k _ _ => (n, k + 1);
  make_gate := fun n k _ _ _ => (n, k + 1);
  make_d_type := fun n k _ => (n, k + 1);
  NO_ERROR := 0; INPUT_CONNECTED := 1; PORT_ABSENT_2 := 2;
  DEVICE_ABSENT_2 := 3; DEVICE_ABSENT_1 := 4; PORT_ABSENT_1 := 5;
  network_error_message := fun _ => "Input is already connected";
  make_connection := fun n k _ _ _ in_pin =>
    match in_pin with
    | Some _ => (n, k, 1)
    | None => (n, k + 1, 0)
    end;
  check_network := fun n k => (n, k, "");
  monitors_NO_ERROR := 0;
  monitors_error_message := fun _ => "monitor error";
  make_monitor := fun n k _ _ => (n, k + 1, 0)
|}.

(** *** What keeps the parser from raising *)

(** A symbol as [get_symbol] returns it: with a position that is not
    negative and a string, which for a number is a decimal numeral. *)
Definition good (sym : Symbol) : Prop :=
  (exists p, sy_position sym = Some p /\ 0 <= p)
  /\ (exists s, sy_string sym = Some s)
  /\ (is_type sym NUMBER = true ->
      exists n, 1 <= n /\ sy_string sym = Some (Py.str n)).

(** The symbols of the list of pins: a symbol of the scanner, or the empty
    [Symbol()] that [__point] stores for a point without pin. *)
Definition pin_symbol (sym : Symbol) : Prop := good sym \/ sym = Symbol_new.

Section SafetyNotions.

Context {kernel_impl : Kernel}.

Definition is_error (c : call) : bool :=
  match c with
  | CError _ _ => true
  | _ => false
  end.

(** The errors in a history. *)
Definition count_errors (l : list call) : nat :=
  List.length (filter is_error l).

(** The state of a parser that goes on without an exception: its scanner
    can go on reading, the symbols it holds are symbols of the scanner, and
    the error counter is the number of errors reported. *)
Definition Safe (st : Parser) : Prop :=
  readable (scanner st)
  /\ good (symbol st)
  /\ Forall good (cur_device_name_list st)
  /\ Forall pin_symbol (cur_pin_name_list st)
  /\ match cur_arrow st with Some a => good a | None => True end
  /\ error_count st = Z.of_nat (count_errors (calls st)).

(** The tests of [__con] on the error of a connection that make it report
    the pin of the input, and the pin of the output. *)
Definition blames_in_pin (e : Z) : bool :=
  (e =? INPUT_CONNECTED) || (e =? PORT_ABSENT_2).

Definition blames_out_pin (e : Z) : bool :=
  negb (blames_in_pin e) && negb (e =? DEVICE_ABSENT_2)
  && negb (e =? DEVICE_ABSENT_1) && (e =? PORT_ABSENT_1).

(** The network never blames a pin that the file does not name: when it
    refuses a connection with an error for which [__con] reports the pin of
    the input, or of the output, that pin was given. *)
Definition pinless_ok : Prop :=
  forall n k out_dev out_pin in_dev in_pin,
    let '(_, _, e) := make_connection n k out_dev out_pin in_dev in_pin in
    e <> NO_ERROR ->
    (blames_in_pin e = true -> in_pin <> None)
    /\ (blames_out_pin e = true -> out_pin <> None).

(** [sure r Q]: the computation returned with [Q], or raised [TypeError]
    with a network that is not [pinless_ok], or exhausted its loop bound. *)
Definition sure {A} (r : res Parser A) (Q : A -> Parser -> Prop) : Prop :=
  match r with
  | Ok a st => Q a st
  | Raise e _ => e = TypeError /\ ~ pinless_ok
  | OutOfFuel => True
  end.

(** From [st] to [st']: the second state is safe, and the error flag is
    not taken back. *)
Definition step (st st' : Parser) : Prop :=
  Safe st' /\ (error_ st = true -> error_ st' = true).

(** The lists of names and the arrow are as they were. *)
Definition lists_same (st st' : Parser) : Prop :=
  cur_device_name_list st' = cur_device_name_list st
  /\ cur_pin_name_list st' = cur_pin_name_list st
  /\ cur_arrow st' = cur_arrow st.

(** Only the scanner and the symbol at hand have changed. *)
Definition untouched (st st' : Parser) : Prop :=
  lists_same st st'
  /\ error_ st' = error_ st
  /\ cur_attribute st' = cur_attribute st
  /\ skip st' = skip st
  /\ calls st' = calls st
  /\ error_count st' = error_count st
  /\ kernel st' = kernel st.

(** What [__error] leaves behind. *)
Definition erred (message : string) (st st' : Parser) : Prop :=
  error_ st' = true
  /\ lists_same st st'
  /\ cur_attribute st' = cur_attribute st
  /\ skip st' = skip st
  /\ kernel st' = kernel st
  /\ calls st' = (calls st ++ [CError message (kernel st)])%list
  /\ error_count st' = error_count st + 1.

(** Without an error there was none before, and the lists of devices and
    pins have grown by [dn] and [pn] symbols. *)
Definition grown (dn pn : nat) (st st' : Parser) : Prop :=
  error_ st' = false ->
  error_ st = false
  /\ List.length (cur_device_name_list st')
  = (List.length (cur_device_name_list st) + dn)%nat
  /\ List.length (cur_pin_name_list st')
     = (List.length (cur_pin_name_list st) + pn)%nat.

(** The symbol that [__error] is given can be shown: it is a symbol of the
    scanner, or it is the empty symbol and the network is not
    [pinless_ok]. *)
Definition showable (symbol_arg : option Symbol) : Prop :=
  match symbol_arg with
  | Some s => good s \/ (s = Symbol_new /\ ~ pinless_ok)
  | None => True
  end.

Definition safe {A} (c : M Parser A) (R : Parser -> A -> Parser -> Prop)
  : Prop :=
  forall st, Safe st -> sure (c st) (fun a st' => step st st' /\ R st a st').

(** The state in which [__con] makes the connections, with the output
    [out] it has kept. *)
Definition connectable (out : option (Symbol * Symbol * option Z * option Z))
    (st : Parser) : Prop :=
  error_ st = false ->
  (exists ods ops odid opid,
      out = Some (ods, ops, odid, opid)
      /\ good ods /\ pin_symbol ops /\ (ops = Symbol_new -> opid = None))
  /\ cur_arrow st <> None
  /\ List.length (cur_device_name_list st)
     = List.length (cur_pin_name_list st).

Definition harmless {A} (c : M Parser A) : Prop :=
  safe c (fun _ _ _ => True).

(** What [__name] and [__point] leave behind: the arrow is as it was, a
    result that is false comes with an error, and the lists have grown. *)
Definition named (dn pn : nat) (st : Parser) (b : bool) (st' : Parser)
  : Prop :=
  cur_arrow st' = cur_arrow st
  /\ (b = false -> error_ st' = true)
  /\ grown dn pn st st'.

(** Without an error there was none before, and the lists of devices and
    pins have grown by the same number of symbols. *)
Definition balanced (st st' : Parser) : Prop :=
  cur_arrow st' = cur_arrow st
  /\ (error_ st' = false ->
      error_ st = false
      /\ (List.length (cur_device_name_list st')
          + List.length (cur_pin_name_list st)
          = List.length (cur_device_name_list st)
            + List.length (cur_pin_name_list st'))%nat).

End SafetyNotions.

(** *** [exercise.py] of the preliminary exercises *)

(** [input_file.read(1)], [input_file.read()] and [input_file.seek(z, 0)],
    with the open file as the state. *)
Definition file_read1 : M File string :=
  fun f => let (c, f') := fread1 f in Ok c f'.

Definition file_read_all : M File string :=
  fun f => let (s, f') := fread_all f in Ok s f'.

Definition file_seek (z : Z) : M File unit :=
  fun f => if z <? 0 then Raise ValueError f
           else Ok tt (mkFile (content f) z).

(** Characters of the file not yet read. *)
Definition file_left (f : File) : nat :=
  Z.to_nat (Py.len (content f) - tell f).

(** [exercise.py] of [Prelim rjh254]. *)
Module Exercise_rjh254.

Definition get_next_character : M File string := file_read1.

Definition get_file_length : M File Z :=
  pos <- gets tell ;;
  file_read_all ;;
  length <- gets tell ;;
  file_seek pos ;;
  ret length.

(** The first loop of [get_next_number] and of [get_next_name], which
    differ in the test: [range(length)] iterations at most, left by [break]
    at a character that passes. *)
Fixpoint first_loop (starts : string -> bool) (n : nat) (next_char : string)
  : M File string :=
  match n with
  | O => ret next_char
  | S n' =>
      if negb (starts next_char) then
        c <- file_read1 ;; first_loop starts n' c
      else ret next_char
  end.

(** Their second loop, left by [break] at a character that does not
    pass. *)
Fixpoint second_loop (goes_on : string -> bool) (n : nat)
    (run next_char : string) : M File (string * string) :=
  match n with
  | O => ret (run, next_char)
  | S n' =>
      let run := run ++ next_char in
      c <- file_read1 ;;
      if negb (goes_on c) then ret (run, c)
      else second_loop goes_on n' run c
  end.

Definition get_next_number : M File (option Z * string) :=
  length <- get_file_length ;;
  next_digit <- file_read1 ;;
  next_digit <- first_loop Py.isdigit (Z.to_nat length) next_digit ;;
  r <- second_loop Py.isdigit (Z.to_nat length) "" next_digit ;;
  let '(next_number, next_digit) := r in
  if String.eqb next_number "" then ret (None, "")
  else match Py.int next_number with
       | Some n => ret (Some n, next_digit)
       | None => raise ValueError
       end.

Definition get_next_name : M File (option string * string) :=
  length <- get_file_length ;;
  next_char <- file_read1 ;;
  next_char <- first_loop Py.isalpha (Z.to_nat length) next_char ;;
  r <- second_loop Py.isalnum (Z.to_nat length) "" next_char ;;
  let '(next_name, next_char) := r in
  if String.eqb next_name "" then ret (None, "")
  else ret (Some next_name, next_char).

End Exercise_rjh254.

(** [exercise.py] of [prelim sai34]. *)
Module Exercise_sai34.

Definition get_next_character : M File string := file_read1.



(** The first loop of [get_next_number] and of [get_next_name]; [None]
    stands for the [return] at the end of the file. *)
Fixpoint first_loop (starts : string -> bool) (fuel : nat)
    (character : string) : M File (option string) :=
  match fuel with
  | O => fun _ => OutOfFuel
  | S fuel' =>
      if negb (starts character) then
        if String.eqb character "" then ret None
        else c <- file_read1 ;; first_loop starts fuel' c
      else ret (Some character)
  end.

(** Their second loop, with its [return] at the end of the file. *)
Fixpoint second_loop (goes_on : string -> bool) (fuel : nat)
    (run character : string) : M File (string * string) :=
  match fuel with
  | O => fun _ => OutOfFuel
  | S fuel' =>
      if goes_on character then
        let run := run ++ character in
        if String.eqb character "" then ret (run, "")
        else c <- file_read1 ;; second_loop goes_on fuel' run c
      else ret (run, character)
  end.

(** The body that [get_next_number] and [get_next_name] share; they differ
    in the tests. *)
Definition get_next (starts goes_on : string -> bool)
  : M File (option string * string) :=
  character <- file_read1 ;;
  found <- (fun f => first_loop starts (S (S (file_left f))) character f) ;;
  match found with
  | None => ret (None, "")
  | Some character =>
      let run := character in
      character <- file_read1 ;;
      r <- (fun f =>
              second_loop goes_on (S (S (file_left f))) run character f) ;;
      ret (Some (fst r), snd r)
  end.

Definition get_next_number : M File (option string * string) :=
  get_next Py.isdigit Py.isdigit.

Definition get_next_name : M File (option string * string) :=
  get_next Py.isalpha Py.isalnum.

End Exercise_sai34.

(** The file with the text [text] when the character at offset [o] has been
    read. *)
Definition read_to (text : string) (o : Z) : File :=
  mkFile text (Z.min (o + 1) (Py.len text)).

(** [d] is the first offset from [p] on whose character passes [test]. *)
Definition first_at (test : string -> bool) (text : string) (p d : Z) : Prop :=
  p <= d
  /\ test (char_at text d) = true
  /\ forall o, p <= o < d -> test (char_at text o) = false.

(** No character from offset [p] on passes [test]. *)
Definition none_from (test : string -> bool) (text : string) (p : Z) : Prop :=
  forall o, p <= o -> test (char_at text o) = false.

(** The [k] characters from offset [o] on pass [test], the next one does
    not. *)
Definition run_at (test : string -> bool) (text : string) (o k : Z) : Prop :=
  0 <= k
  /\ (forall i, 0 <= i < k -> test (char_at text (o + i)) = true)
  /\ test (char_at text (o + k)) = false.

(* ------------------------------------------------------------------ *)
(** ** Lemmas on the built-ins *)

Lemma str_index_Some s l i :
  Py.str_index s l = Some i -> nth_error l i = Some s.
Proof.
  revert i; induction l as [|x l IH]; intros i; simpl; [discriminate|].
  destruct (String.eqb_spec x s) as [->|Hne].
  - intros [= <-]; reflexivity.
  - destruct (Py.str_index s l) as [j|]; simpl; [|discriminate].
    intros [= <-]; simpl; auto.
Qed.

Lemma str_index_lt s l i :
  Py.str_index s l = Some i -> (i < List.length l)%nat.
Proof.
  intros H; apply str_index_Some in H.
  apply nth_error_Some; congruence.
Qed.

Lemma str_index_None s l :
  Py.str_index s l = None -> ~ In s l.
Proof.
  induction l as [|x l IH]; simpl; [tauto|].
  destruct (String.eqb_spec x s) as [->|Hne]; [discriminate|].
  destruct (Py.str_index s l); simpl; [discriminate|].
  intros _ [H|H]; [congruence | now apply IH].
Qed.

Lemma str_index_NoDup l i s :
  NoDup l -> nth_error l i = Some s -> Py.str_index s l = Some i.
Proof.
  revert i; induction l as [|x l IH]; intros i Hnd Hi.
  - destruct i; discriminate.
  - inversion Hnd as [|? ? Hx Hl]; subst. simpl.
    destruct i as [|i]; simpl in Hi.
    + injection Hi as ->. now rewrite String.eqb_refl.
    + destruct (String.eqb_spec x s) as [->|Hne].
      * exfalso; apply Hx. eapply nth_error_In; eauto.
      * now rewrite (IH i Hl Hi).
Qed.

Lemma mynames_lookup_NoDup l s :
  NoDup l -> NoDup (snd (MyNames.lookup l s)).
Proof.
  intros Hnd; unfold MyNames.lookup.
  destruct (Py.str_index s l) eqn:E; simpl; [assumption|].
  apply str_index_None in E.
  apply NoDup_app; [assumption | repeat constructor; simpl; tauto |].
  intros x Hx [<-|[]]; contradiction.
Qed.

Lemma mynames_after_NoDup ss : NoDup (MyNames.after ss).
Proof.
  unfold MyNames.after.
  assert (H : forall l, NoDup l ->
            NoDup (fold_left (fun l s => snd (MyNames.lookup l s)) ss l)).
  { induction ss as [|s ss IH]; intros l Hl; simpl; [assumption|].
    apply IH, mynames_lookup_NoDup, Hl. }
  apply H; constructor.
Qed.

(* ------------------------------------------------------------------ *)
(** ** Name table: round trip *)

(** C8. Looking a string up and asking for the string of the returned ID gives
    the string back, in every table; and in every table built by look-ups,
    each issued ID [i] is the answer of [query] on the string
    [get_string] returns for [i]. *)
Theorem names_round_trip :
  (forall (l : MyNames.t) (s : string),
      let (i, l') := MyNames.lookup l s in
      MyNames.get_string l' i = MyNames.Returned (Some s))
  /\
  (forall (ss : list string) (i : Z),
      0 <= i < Z.of_nat (List.length (MyNames.after ss)) ->
      exists s,
        MyNames.get_string (MyNames.after ss) i = MyNames.Returned (Some s)
        /\ MyNames.query (MyNames.after ss) s = Some i).
Proof.
  split.
  - intros l s. unfold MyNames.lookup.
    destruct (Py.str_index s l) as [i|] eqn:E.
    + pose proof (str_index_lt _ _ _ E) as Hlt.
      pose proof (str_index_Some _ _ _ E) as Hn.
      unfold MyNames.get_string.
      destruct (Z.ltb_spec (Z.of_nat i) 0); [lia|].
      destruct (Z.geb_spec (Z.of_nat i) (Z.of_nat (List.length l))); [lia|].
      now rewrite Nat2Z.id, Hn.
    + unfold MyNames.get_string. rewrite length_app; simpl.
      destruct (Z.ltb_spec (Z.of_nat (List.length l + 1) - 1) 0); [lia|].
      destruct (Z.geb_spec (Z.of_nat (List.length l + 1) - 1)
                  (Z.of_nat (List.length l + 1))); [lia|].
      replace (Z.to_nat (Z.of_nat (List.length l + 1) - 1))
        with (List.length l + 0)%nat by lia.
      now rewrite nth_error_app2, Nat.add_0_r, Nat.sub_diag by lia.
  - intros ss i Hi.
    pose proof (mynames_after_NoDup ss) as Hnd.
    set (l := MyNames.after ss) in *.
    destruct (nth_error l (Z.to_nat i)) as [s|] eqn:E.
    + exists s. unfold MyNames.get_string, MyNames.query.
      destruct (Z.ltb_spec i 0); [lia|].
      destruct (Z.geb_spec i (Z.of_nat (List.length l))); [lia|].
      rewrite E, (str_index_NoDup _ _ _ Hnd E). simpl.
      split; [reflexivity | f_equal; lia].
    + apply nth_error_None in E. lia.
Qed.

Lemma names_round_trip_witness :
  0 <= 1 < Z.of_nat (List.length (MyNames.after ["Alice"; "Bob"; "Alice"; "Eve"]))
  /\ exists s,
       MyNames.get_string (MyNames.after ["Alice"; "Bob"; "Alice"; "Eve"]) 1
       = MyNames.Returned (Some s)
       /\ MyNames.query (MyNames.after ["Alice"; "Bob"; "Alice"; "Eve"]) s = Some 1.
Proof.
  assert (H : 0 <= 1 < Z.of_nat
                (List.length (MyNames.after ["Alice"; "Bob"; "Alice"; "Eve"])))
    by (vm_compute; split; [discriminate | reflexivity]).
  split; [exact H|].
  exact (proj2 names_round_trip ["Alice"; "Bob"; "Alice"; "Eve"] 1 H).
Defined.

(* ------------------------------------------------------------------ *)
(** ** Outcomes of computations *)

Lemma outcome_bind {S A B} (c : M S A) (k : A -> M S B) (s : S)
    (Q1 : A -> S -> Prop) (E1 : S -> Prop) Q E :
  outcome (c s) Q1 E1 ->
  (forall a s', Q1 a s' -> outcome (k a s') Q E) ->
  (forall s', E1 s' -> E s') ->
  outcome (bind c k s) Q E.
Proof.
  unfold bind. destruct (c s); simpl; auto.
Qed.

Lemma outcome_weaken {S A} (r : res S A) (Q Q' : A -> S -> Prop)
    (E E' : S -> Prop) :
  outcome r Q E ->
  (forall a s, Q a s -> Q' a s) -> (forall s, E s -> E' s) ->
  outcome r Q' E'.
Proof. destruct r; simpl; auto. Qed.

(* ------------------------------------------------------------------ *)
(** ** The scanner and the standard output *)

Lemma out_frame_ret {A} (a : A) : out_frame (ret a).
Proof. intros pre sc; reflexivity. Qed.

Lemma out_frame_raise {A} (e : exn) : out_frame (@raise Scanner A e).
Proof. intros pre sc; reflexivity. Qed.

Lemma out_frame_bind {A B} (c : M Scanner A) (k : A -> M Scanner B) :
  out_frame c -> (forall a, out_frame (k a)) -> out_frame (bind c k).
Proof.
  intros Hc Hk pre sc. unfold bind. rewrite Hc.
  destruct (c sc); simpl; auto. apply Hk.
Qed.

Lemma out_frame_gets {A} (f : Scanner -> A) :
  (forall pre sc, f (with_out pre sc) = f sc) -> out_frame (gets f).
Proof. intros Hf pre sc. unfold gets. now rewrite Hf. Qed.

Lemma out_frame_modify (f : Scanner -> Scanner) :
  (forall pre sc, f (with_out pre sc) = with_out pre (f sc)) ->
  out_frame (modify f).
Proof. intros Hf pre sc. unfold modify. now rewrite Hf. Qed.

Lemma out_frame_when (b : bool) (c : M Scanner unit) :
  out_frame c -> out_frame (when b c).
Proof. destruct b; simpl; auto using out_frame_ret. Qed.

Lemma out_frame_if {A} (b : bool) (c1 c2 : M Scanner A) :
  out_frame c1 -> out_frame c2 -> out_frame (if b then c1 else c2).
Proof. destruct b; auto. Qed.

Create HintDb frame.

Ltac frame_tac :=
  repeat first
    [ solve [auto with frame]
    | apply out_frame_ret
    | apply out_frame_raise
    | apply out_frame_bind; [| intros ?]
    | apply out_frame_gets; reflexivity
    | apply out_frame_modify; reflexivity
    | apply out_frame_when
    | apply out_frame_if
    | match goal with |- forall _, out_frame _ => intro end ].

Lemma out_frame_advance : out_frame advance.
Proof.
  apply out_frame_modify. intros pre sc. simpl.
  destruct (fread1 (file sc)); reflexivity.
Qed.

Lemma out_frame_seek z : out_frame (seek z).
Proof. intros pre sc. unfold seek. destruct (z <? 0); reflexivity. Qed.

Lemma out_frame_print s : out_frame (print s).
Proof.
  apply out_frame_modify. intros pre sc.
  unfold with_out, set_stdout; simpl. now rewrite app_assoc.
Qed.

#[local] Hint Resolve out_frame_advance out_frame_seek out_frame_print : frame.

Lemma out_frame_skip_spaces_loop fuel : out_frame (skip_spaces_loop fuel).
Proof.
  induction fuel as [|fuel IH]; intros pre sc; simpl; [reflexivity|].
  destruct (Py.isspace (current_character sc)); [|reflexivity].
  refine (out_frame_bind _ _ _ _ pre sc); frame_tac.
Qed.

Lemma out_frame_skip_spaces : out_frame skip_spaces.
Proof. intros pre sc. apply out_frame_skip_spaces_loop. Qed.

#[local] Hint Resolve out_frame_skip_spaces : frame.

Lemma out_frame_backwards : out_frame backwards.
Proof. unfold backwards. frame_tac. Qed.

Lemma out_frame_get_name_loop fuel name : out_frame (get_name_loop fuel name).
Proof.
  revert name; induction fuel as [|fuel IH]; intros name pre sc; simpl;
    [reflexivity|].
  destruct (Py.isalnum (current_character sc)); [|reflexivity].
  refine (out_frame_bind _ _ _ _ pre sc); frame_tac.
Qed.

Lemma out_frame_get_name : out_frame get_name.
Proof.
  unfold get_name. frame_tac.
  intros pre sc. apply out_frame_get_name_loop.
Qed.

Lemma out_frame_get_number_loop fuel n : out_frame (get_number_loop fuel n).
Proof.
  revert n; induction fuel as [|fuel IH]; intros n pre sc; simpl;
    [reflexivity|].
  destruct (Py.isdigit (current_character sc)); [|reflexivity].
  refine (out_frame_bind _ _ _ _ pre sc); frame_tac.
Qed.

Lemma out_frame_get_number : out_frame get_number.
Proof.
  unfold get_number. frame_tac.
  intros pre sc. apply out_frame_get_number_loop.
Qed.

Lemma out_frame_check_comment : out_frame check_comment.
Proof. unfold check_comment. frame_tac. Qed.

#[local] Hint Resolve out_frame_backwards out_frame_get_name
  out_frame_get_number out_frame_check_comment : frame.

Lemma out_frame_locate sym : out_frame (locate sym).
Proof.
  unfold locate. apply out_frame_bind; [frame_tac|]. intros lens.
  destruct (sol_positions lens); [frame_tac|].
  destruct (sy_position sym); [|frame_tac].
  destruct (filter _ _); [frame_tac|].
  destruct (Py.index_of _ _); [|frame_tac].
  apply out_frame_bind; [apply out_frame_seek|]. intros _.
  apply out_frame_bind.
  - intros pre sc. simpl. destruct (fread_all (file sc)); reflexivity.
  - intros text. destruct (nth_error _ _); frame_tac.
Qed.

#[local] Hint Resolve out_frame_locate : frame.

Lemma out_frame_print_error sym sugg : out_frame (print_error sym sugg).
Proof.
  unfold print_error. apply out_frame_bind; [frame_tac|]. intros cp.
  apply out_frame_bind; [apply out_frame_locate|]. intros [[lt pos] line].
  destruct (shorten lt pos).
  frame_tac.
Qed.

Lemma out_frame_comment_loop fuel : out_frame (comment_loop fuel).
Proof.
  induction fuel as [|fuel IH]; intros pre sc; simpl; [reflexivity|].
  destruct (comment sc); [|apply out_frame_skip_spaces].
  destruct (String.eqb (current_character sc) ""); [reflexivity|].
  destruct (String.eqb (current_character sc) Py.backslash);
    refine (out_frame_bind _ _ _ _ pre sc); frame_tac.
Qed.

Lemma out_frame_comments :
  out_frame (fun sc => comment_loop (S (remaining sc)) sc).
Proof. intros pre sc. apply out_frame_comment_loop. Qed.

Lemma out_frame_one_char T p : out_frame (one_char T p).
Proof. unfold one_char. frame_tac. Qed.

Lemma out_frame_lookup nm :
  out_frame (fun sc => match Names.lookup (names sc) [nm] with
                       | ([i], n) => Ok i (set_names n sc)
                       | (_, n) => Raise ValueError (set_names n sc)
                       end).
Proof.
  intros pre sc. change (names (with_out pre sc)) with (names sc).
  destruct (Names.lookup (names sc) [nm]) as [[|i [|? ?]] n]; reflexivity.
Qed.

#[local] Hint Resolve out_frame_print_error out_frame_comments
  out_frame_one_char out_frame_lookup : frame.

Lemma out_frame_get_symbol : out_frame get_symbol.
Proof. unfold get_symbol. frame_tac. Qed.

Lemma out_frame_symbols n : out_frame (symbols n).
Proof.
  induction n as [|n IH]; simpl; frame_tac; auto using out_frame_get_symbol.
Qed.

Lemma returned_map_state {S A} (f : S -> S) (r : res S A) :
  returned (map_state f r) = returned r.
Proof. destruct r; reflexivity. Qed.

(** What is on the standard output has no influence on the symbols. *)
Lemma symbols_stdout n o sc :
  returned (symbols n (set_stdout o sc)) = returned (symbols n sc).
Proof.
  assert (H : forall o, set_stdout o sc = with_out o (set_stdout [] sc)).
  { intros o'. unfold with_out; simpl. now rewrite app_nil_r. }
  rewrite (H o).
  replace sc with (with_out (stdout sc) (set_stdout [] sc)) at 2
    by (symmetry; destruct sc; unfold with_out; simpl;
        now rewrite app_nil_r).
  now rewrite !out_frame_symbols, !returned_map_state.
Qed.

(* ------------------------------------------------------------------ *)
(** ** [print_error] leaves the scanner where it was *)

Lemma locate_file sym sc r sc1 :
  locate sym sc = Ok r sc1 ->
  exists t, sc1 = set_file (mkFile (content (file sc)) t) sc.
Proof.
  unfold locate, bind, gets.
  destruct (sol_positions (line_lengths sc)).
  { intros [= _ <-]. exists (tell (file sc)). now destruct sc as [[? ?]]. }
  destruct (sy_position sym); [|discriminate].
  destruct (filter _ _); [discriminate|].
  destruct (Py.index_of _ _); [|discriminate].
  unfold seek. simpl.
  destruct (nth_error _ _); [|discriminate].
  intros [= _ <-]. eexists. reflexivity.
Qed.

Lemma print_error_state sym sugg sc out sc' :
  print_error sym sugg sc = Ok out sc' ->
  sc' = set_stdout
          (stdout sc ++ [(Py.nl ++ Py.nl ++ out ++ Py.nl)%string])%list sc.
Proof.
  unfold print_error. unfold bind at 1. unfold gets at 1.
  unfold bind at 1.
  destruct (locate sym sc) as [[[lt pos] line] sc1| |] eqn:E.
  2, 3: discriminate.
  apply locate_file in E. destruct E as [t ->].
  destruct (shorten lt pos) as [lt' pos'].
  generalize (error_text line lt' pos' sugg); intros o.
  unfold bind, print, modify, seek, ret.
  cbn [file set_file set_stdout tell content stdout].
  destruct (tell (file sc) <? 0); [discriminate|].
  intros [= <- <-]. destruct sc as [[? ?]].
  cbn [file set_file set_stdout tell content stdout line_lengths
       file_position names kw current_character comment].
  reflexivity.
Qed.

(** C10. [print_error] restores the read position it found: when it returns,
    the scanner is as before but for the text added to the standard output,
    and the symbols that follow are the ones that would have followed without
    the call. *)
Theorem print_error_restores_position sc sym sugg out sc' :
  print_error sym sugg sc = Ok out sc' ->
  sc' = set_stdout
          (stdout sc ++ [(Py.nl ++ Py.nl ++ out ++ Py.nl)%string])%list sc
  /\ tell (file sc') = tell (file sc)
  /\ forall n, returned (symbols n sc') = returned (symbols n sc).
Proof.
  intros H. apply print_error_state in H. subst sc'.
  split; [reflexivity|]. split; [reflexivity|].
  intros n. apply symbols_stdout.
Qed.

Lemma print_error_restores_position_witness :
  let sc := Scanner_init ("AB = 1;" ++ Py.nl ++ "CD") [] in
  let sym := mkSymbol (Some EQUALS) None (Some 3) (Some "=") in
  exists out sc',
    print_error sym "Expected ','" sc = Ok out sc'
    /\ tell (file sc') = tell (file sc)
    /\ forall n, returned (symbols n sc') = returned (symbols n sc).
Proof.
  intros sc sym.
  destruct (print_error sym "Expected ','" sc) as [out sc'| |] eqn:E;
    [| vm_compute in E; discriminate E | vm_compute in E; discriminate E ].
  exists out, sc'. split; [reflexivity|].
  exact (proj2 (print_error_restores_position sc sym _ out sc' E)).
Defined.

(* ------------------------------------------------------------------ *)
(** ** The position of a symbol *)

(** C4, at a file that ends with a lone backslash.  The file is the single
    character [\]: the symbol returned for it is the invalid character [\],
    which stands at offset 0, with position 1. *)
Theorem lone_backslash_at_end_position :
  exists sc',
    get_symbol (Scanner_init Py.backslash [])
    = Ok (mkSymbol (Some INVALID_CHARACTER) None (Some 1) (Some Py.backslash))
         sc'
    /\ substring 0 1 Py.backslash = Py.backslash
    /\ substring 1 1 Py.backslash = "".
Proof. eexists. split; [vm_compute; reflexivity | split; reflexivity]. Qed.

(* ------------------------------------------------------------------ *)
(** ** Strings *)

Lemma length_append (a b : string) :
  String.length (a ++ b) = (String.length a + String.length b)%nat.
Proof. induction a; simpl; auto. Qed.

Lemma len_append (a b : string) : Py.len (a ++ b) = Py.len a + Py.len b.
Proof. unfold Py.len. rewrite length_append. lia. Qed.

Lemma len_nonneg (s : string) : 0 <= Py.len s.
Proof. unfold Py.len. lia. Qed.

Lemma length_substring (n m : nat) (s : string) :
  String.length (substring n m s) = Nat.min m (String.length s - n).
Proof.
  revert n m; induction s as [|c s IH]; intros n m.
  - destruct n, m; reflexivity.
  - destruct n as [|n].
    + destruct m as [|m]; simpl; [reflexivity|].
      specialize (IH 0%nat m). rewrite Nat.sub_0_r in IH. now rewrite IH.
    + simpl. apply IH.
Qed.

Lemma substring_full (s : string) :
  substring 0 (String.length s) s = s.
Proof. induction s; simpl; congruence. Qed.

Lemma len_slice_from (a : Z) (s : string) :
  0 <= a <= Py.len s -> Py.len (Py.slice_from a s) = Py.len s - a.
Proof.
  intros H. unfold Py.slice_from, Py.clip, Py.len in *.
  rewrite length_substring. destruct (Z.ltb_spec a 0); lia.
Qed.

Lemma len_slice_to (b : Z) (s : string) :
  0 <= b <= Py.len s -> Py.len (Py.slice_to b s) = b.
Proof.
  intros H. unfold Py.slice_to, Py.clip, Py.len in *.
  rewrite length_substring. destruct (Z.ltb_spec b 0); lia.
Qed.

Lemma get_slice_from (a : Z) (s : string) (i : nat) :
  0 <= a -> Z.of_nat i < Py.len s - a ->
  String.get i (Py.slice_from a s) = String.get (i + Z.to_nat a) s.
Proof.
  intros Ha Hi. unfold Py.slice_from, Py.clip, Py.len in *.
  destruct (Z.ltb_spec a 0); [lia|].
  apply substring_correct1. lia.
Qed.

Lemma get_slice_to (b : Z) (s : string) (i : nat) :
  Z.of_nat i < b ->
  String.get i (Py.slice_to b s) = String.get i s.
Proof.
  intros Hi. unfold Py.slice_to, Py.clip.
  destruct (Z.ltb_spec b 0); [lia|].
  rewrite substring_correct1 by lia. now rewrite Nat.add_0_r.
Qed.

Lemma get_append_left (a b : string) (i : nat) :
  (i < String.length a)%nat -> String.get i (a ++ b) = String.get i a.
Proof. intros H. symmetry. now apply append_correct1. Qed.

Lemma get_append_right (a b : string) (i : nat) :
  String.get (String.length a + i) (a ++ b) = String.get i b.
Proof.
  symmetry. rewrite (Nat.add_comm (String.length a) i).
  apply append_correct2.
Qed.

(** ** The shortening of long lines *)

Lemma shorten_short (line_text : string) (position : Z) :
  Py.len line_text <= max_error_line_length ->
  shorten line_text position = (line_text, position).
Proof.
  intros H. unfold shorten.
  destruct (Z.gtb_spec (Py.len line_text) max_error_line_length); [lia|].
  reflexivity.
Qed.

Lemma shorten_long (line_text : string) (position : Z) :
  max_error_line_length < Py.len line_text ->
  0 <= position < Py.len line_text ->
  let (shown, caret) := shorten line_text position in
  Py.len shown <= max_error_line_length
  /\ 0 <= caret < Py.len shown
  /\ String.get (Z.to_nat caret) shown
     = String.get (Z.to_nat position) line_text
  /\ ((exists rest, shown = "[...]" ++ rest)
      \/ (exists rest, shown = rest ++ "[...]")).
Proof.
  intros Hlong Hpos. unfold shorten, max_error_line_length in *.
  destruct (Z.gtb_spec (Py.len line_text) 79) as [_|]; [|lia].
  change ((79 + 1) / 2) with 40. change ((79 - 1) / 2) with 39.
  change (79 / 2) with 39.
  destruct (Z.gtb_spec position (40 - 5)) as [Hp|Hp].
  - (* the part before the marker is cut *)
    set (tail := Py.slice_from (position - 40 + 6) line_text).
    assert (Htail : Py.len tail = Py.len line_text - (position - 34)).
    { unfold tail. rewrite len_slice_from; lia. }
    assert (Hget : forall i, Z.of_nat i < Py.len tail ->
              String.get (String.length "[...]" + i) ("[...]" ++ tail)
              = String.get (i + Z.to_nat (position - 34)) line_text).
    { intros i Hi. rewrite (get_append_right "[...]" tail i).
      unfold tail. replace (position - 40 + 6) with (position - 34) by lia.
      apply get_slice_from; lia. }
    assert (H39 : String.get (Z.to_nat 39) ("[...]" ++ tail)
                  = String.get (Z.to_nat position) line_text).
    { change (Z.to_nat 39) with (String.length "[...]" + 34)%nat.
      rewrite Hget by lia.
      f_equal. lia. }
    assert (Hlen : Py.len ("[...]" ++ tail) = 5 + Py.len tail)
      by (rewrite len_append; reflexivity).
    destruct (Z.gtb_spec (Py.len ("[...]" ++ tail) - 39) 40) as [Hq|Hq].
    + (* and the part after it *)
      rewrite len_append, len_slice_to by lia.
      change (Py.len "[...]") with 5.
      split; [lia|]. split; [lia|]. split.
      * rewrite get_append_left.
        -- rewrite get_slice_to by lia. exact H39.
        -- pose proof (len_slice_to (39 + 39 - 4) ("[...]" ++ tail)) as L.
           unfold Py.len in L at 2. lia.
      * right. eexists; reflexivity.
    + split; [lia|]. split; [lia|]. split; [exact H39|].
      left. eexists; reflexivity.
  - (* only the part after the marker is cut *)
    destruct (Z.gtb_spec (Py.len line_text - position) 40) as [Hq|Hq]; [|lia].
    rewrite len_append, len_slice_to by lia.
    change (Py.len "[...]") with 5.
    split; [lia|]. split; [lia|]. split.
    + rewrite get_append_left.
      * apply get_slice_to. lia.
      * pose proof (len_slice_to (position + 39 - 4) line_text) as L.
        unfold Py.len in L at 2. lia.
    + right. eexists; reflexivity.
Qed.

(** ** Lines of a file *)

Lemma split_nl_cons (s : string) : exists h t, Py.split_nl s = h :: t.
Proof.
  induction s as [|c s [h [t IH]]]; simpl; [eauto|].
  destruct (Ascii.eqb c _); [eauto|]. rewrite IH; eauto.
Qed.

Lemma file_lines_nil (s : string) : Py.file_lines s = [] -> s = "".
Proof.
  destruct s as [|c s]; simpl; [reflexivity|].
  destruct (Ascii.eqb c _); [discriminate|].
  destruct (Py.file_lines s); discriminate.
Qed.

Lemma chomp_cons (c : ascii) (h : string) :
  Ascii.eqb c (ascii_of_nat 10) = false ->
  chomp (String c h) = String c (chomp h).
Proof. intros H. simpl. rewrite H. destruct h; reflexivity. Qed.

(** The pieces of [split] are the lines of the file without their ends. *)
Lemma split_nl_line (text : string) (pre : list string) (line : string)
    (post : list string) :
  Py.file_lines text = (pre ++ line :: post)%list ->
  nth_error (Py.split_nl text) (List.length pre) = Some (chomp line).
Proof.
  revert pre line post.
  induction text as [|c s IH]; intros pre line post H; simpl in H.
  - destruct pre; discriminate.
  - simpl. destruct (Ascii.eqb c (ascii_of_nat 10)) eqn:Ec.
    + destruct pre as [|x pre]; simpl in H.
      * injection H as <- _. simpl. now rewrite Ec.
      * injection H as _ H. simpl. eauto.
    + destruct (Py.file_lines s) as [|h t] eqn:El.
      * apply file_lines_nil in El. subst s.
        destruct pre as [|x [|y pre]]; try discriminate.
        injection H as <- _. simpl. now rewrite Ec.
      * destruct (split_nl_cons s) as [h' [t' Es]]. rewrite Es.
        destruct pre as [|x pre]; simpl in H.
        -- injection H as <- <-. simpl.
           specialize (IH [] h t eq_refl). rewrite Es in IH. simpl in IH.
           injection IH as ->. f_equal. symmetry. now apply chomp_cons.
        -- injection H as <- H.
           specialize (IH (h :: pre) line post). simpl in IH.
           rewrite H in IH. specialize (IH eq_refl).
           rewrite Es in IH. simpl in *. exact IH.
Qed.

Lemma len_String (c : ascii) (s : string) :
  Py.len (String c s) = 1 + Py.len s.
Proof. unfold Py.len. simpl String.length. lia. Qed.

Lemma file_lines_positive (text : string) :
  Forall (fun l => 0 < Py.len l) (Py.file_lines text).
Proof.
  induction text as [|c s IH]; simpl; [constructor|].
  destruct (Ascii.eqb c _).
  - constructor; [rewrite len_String; pose proof (len_nonneg ""); lia | exact IH].
  - destruct (Py.file_lines s) as [|h t].
    + constructor; [rewrite len_String; pose proof (len_nonneg ""); lia|].
      constructor.
    + inversion IH; subst.
      constructor; [rewrite len_String; pose proof (len_nonneg h); lia|].
      assumption.
Qed.

Lemma total_length_file_lines (text : string) :
  total_length (Py.file_lines text) = Py.len text.
Proof.
  unfold total_length.
  induction text as [|c s IH]; [reflexivity|].
  rewrite len_String, <- IH. simpl Py.file_lines.
  destruct (Ascii.eqb c _).
  - unfold Py.sum. cbn [map fold_right]. rewrite len_String.
    change (Py.len "") with 0. lia.
  - destruct (Py.file_lines s) as [|h t];
      unfold Py.sum; cbn [map fold_right]; rewrite len_String.
    + change (Py.len "") with 0. lia.
    + lia.
Qed.

Lemma total_length_app (a b : list string) :
  total_length (a ++ b) = total_length a + total_length b.
Proof.
  unfold total_length. induction a; simpl; [reflexivity|].
  rewrite IHa. lia.
Qed.

(** Every position in the file lies in exactly one of its lines. *)
Lemma position_in_line (lines : list string) (p : Z) :
  0 <= p < total_length lines ->
  exists pre line post,
    lines = (pre ++ line :: post)%list
    /\ total_length pre <= p < total_length pre + Py.len line.
Proof.
  revert p. induction lines as [|x l IH]; intros p Hp.
  - unfold total_length in Hp; simpl in Hp; lia.
  - destruct (Z.ltb_spec p (Py.len x)) as [Hlt|Hge].
    + exists [], x, l. split; [reflexivity|].
      unfold total_length; simpl; lia.
    + destruct (IH (p - Py.len x)) as (pre & line & post & -> & Hb).
      { unfold total_length in *; simpl in Hp; lia. }
      exists (x :: pre), line, post. split; [reflexivity|].
      unfold total_length in *; simpl; lia.
Qed.

(** ** The start of the line *)

Lemma sol_positions_starts (lens : list Z) :
  sol_positions lens = starts 0 lens.
Proof.
  unfold sol_positions.
  assert (H : forall off,
    map (fun i => off + Py.sum (firstn i lens)) (seq 0 (List.length lens))
    = starts off lens).
  { induction lens as [|x l IH]; intros off; simpl; [reflexivity|].
    f_equal; [lia|]. rewrite <- seq_shift, map_map, <- IH.
    apply map_ext. intros i. simpl. lia. }
  rewrite <- H. apply map_ext. intros i. lia.
Qed.

Lemma starts_app (off : Z) (a b : list Z) :
  starts off (a ++ b) = (starts off a ++ starts (off + Py.sum a) b)%list.
Proof.
  revert off; induction a as [|x a IH]; intros off; simpl.
  - now rewrite Z.add_0_r.
  - rewrite IH. do 3 f_equal. lia.
Qed.

Lemma starts_below (off : Z) (a : list Z) :
  Forall (fun x => 0 < x) a ->
  Forall (fun s => s < off + Py.sum a) (starts off a).
Proof.
  revert off; induction a as [|x a IH]; intros off H; simpl; [constructor|].
  inversion H as [|? ? Hx Ha]; subst.
  assert (0 <= Py.sum a).
  { clear -Ha. induction Ha; simpl; lia. }
  constructor; [lia|].
  specialize (IH (off + x) Ha).
  eapply Forall_impl; [|exact IH]. simpl. intros; lia.
Qed.

Lemma starts_above (off : Z) (a : list Z) :
  Forall (fun x => 0 < x) a ->
  Forall (fun s => off <= s) (starts off a).
Proof.
  revert off; induction a as [|x a IH]; intros off H; simpl; [constructor|].
  inversion H as [|? ? Hx Ha]; subst.
  constructor; [lia|].
  specialize (IH (off + x) Ha).
  eapply Forall_impl; [|exact IH]. simpl. intros; lia.
Qed.

Lemma filter_all {A} (f : A -> bool) (l : list A) :
  Forall (fun x => f x = true) l -> filter f l = l.
Proof.
  induction 1 as [|x l Hx Hl IH]; simpl; [reflexivity|].
  now rewrite Hx, IH.
Qed.

Lemma filter_none {A} (f : A -> bool) (l : list A) :
  Forall (fun x => f x = false) l -> filter f l = [].
Proof.
  induction 1 as [|x l Hx Hl IH]; simpl; [reflexivity|].
  now rewrite Hx, IH.
Qed.

Lemma fold_max_last (l : list Z) (x m : Z) :
  x <= m -> Forall (fun y => y <= m) l ->
  fold_left Z.max (l ++ [m]) x = m.
Proof.
  revert x; induction l as [|y l IH]; intros x Hx H; simpl; [lia|].
  inversion H; subst. apply IH; [lia | assumption].
Qed.

Lemma max_list_last (l : list Z) (m : Z) :
  Forall (fun y => y <= m) l ->
  match (l ++ [m])%list with
  | x :: xs => Py.max_list x xs = m
  | [] => False
  end.
Proof.
  intros H. destruct l as [|x l]; simpl; [reflexivity|].
  inversion H; subst. now apply fold_max_last.
Qed.

Lemma index_of_app (a b : list Z) (v : Z) :
  Forall (fun y => y <> v) a ->
  Py.index_of v (a ++ v :: b) = Some (List.length a).
Proof.
  induction 1 as [|y a Hy Ha IH]; simpl.
  - now rewrite Z.eqb_refl.
  - destruct (Z.eqb_spec y v); [contradiction|]. now rewrite IH.
Qed.

Lemma sum_positive_nonneg (l : list Z) :
  Forall (fun x => 0 < x) l -> 0 <= Py.sum l.
Proof. induction 1; simpl; lia. Qed.

(** ** The line, the column and the text that [print_error] shows *)

Lemma locate_line sc sym p pre line post :
  lines_ok sc ->
  sy_position sym = Some p ->
  Py.file_lines (content (file sc)) = (pre ++ line :: post)%list ->
  total_length pre <= p < total_length pre + Py.len line ->
  exists t,
    locate sym sc
    = Ok (chomp line, p - total_length pre, Z.of_nat (List.length pre) + 1)
         (set_file (mkFile (content (file sc)) t) sc).
Proof.
  intros [Hlens Htell] Hp Hlines Hin.
  pose proof (file_lines_positive (content (file sc))) as Hpos.
  rewrite Hlines in Hpos.
  apply Forall_app in Hpos. destruct Hpos as [Hpre Hpost].
  inversion Hpost as [|? ? Hline Hpost']; subst.
  assert (Hmap : forall (l : list string),
            Forall (fun l => 0 < Py.len l) l ->
            Forall (fun x => 0 < x) (map Py.len l)).
  { induction 1; simpl; constructor; auto. }
  apply Hmap in Hpre, Hpost'.
  set (P := total_length pre) in *.
  assert (Hsol : sol_positions (line_lengths sc)
                 = (starts 0 (map Py.len pre)
                      ++ P :: starts (P + Py.len line) (map Py.len post))%list).
  { rewrite Hlens, Hlines, sol_positions_starts, map_app, starts_app.
    reflexivity. }
  set (A := starts 0 (map Py.len pre)) in *.
  set (B := starts (P + Py.len line) (map Py.len post)) in *.
  assert (HA : Forall (fun s => s < P) A).
  { apply (starts_below 0 _ Hpre). }
  assert (HB : Forall (fun s => P + Py.len line <= s) B).
  { apply (starts_above _ _ Hpost'). }
  set (rel := fun s : Z => s - p).
  assert (Hfilter : filter (fun i => i <=? 0) (map rel (A ++ P :: B))
                    = (map rel A ++ [rel P])%list).
  { rewrite map_app, filter_app. simpl map. simpl filter.
    rewrite filter_all.
    2:{ apply Forall_map. eapply Forall_impl; [|exact HA].
        unfold rel; simpl; intros; lia. }
    f_equal.
    destruct (Z.leb_spec (rel P) 0) as [_|H]; [|unfold rel in H; lia].
    rewrite filter_none; [reflexivity|].
    apply Forall_map. eapply Forall_impl; [|exact HB].
    unfold rel; simpl; intros; lia. }
  assert (Hmax : match (map rel A ++ [rel P])%list with
                 | x :: xs => Py.max_list x xs = rel P
                 | [] => False
                 end).
  { apply max_list_last. apply Forall_map.
    eapply Forall_impl; [|exact HA]. unfold rel; simpl; intros; lia. }
  assert (Hidx : Py.index_of (rel P) (map rel (A ++ P :: B))
                 = Some (List.length pre)).
  { rewrite map_app. simpl map. rewrite index_of_app.
    - f_equal. unfold A. rewrite length_map.
      clear. generalize 0. induction pre; intros; simpl; auto.
    - apply Forall_map. eapply Forall_impl; [|exact HA].
      unfold rel; simpl; intros; lia. }
  assert (Hne : forall (X : Type) (a b : X),
            match (A ++ P :: B)%list with [] => a | _ :: _ => b end = b).
  { intros. destruct A; reflexivity. }
  unfold locate, bind, gets. cbv zeta.
  rewrite Hsol, Hne, Hp. fold rel.
  rewrite Hfilter.
  destruct (map rel A ++ [rel P])%list as [|x xs] eqn:Ef; [contradiction|].
  rewrite Hmax, Z.opp_involutive, Hidx.
  unfold seek. change (0 <? 0) with false. cbv iota.
  cbn [file set_file fread_all tell content].
  change (Z.to_nat 0) with 0%nat.
  rewrite Nat.sub_0_r, substring_full.
  replace (Z.to_nat (Z.of_nat (List.length pre) + 1 - 1))
    with (List.length pre) by lia.
  rewrite (split_nl_line _ _ _ _ Hlines).
  unfold ret, rel. eexists. f_equal; [|reflexivity].
  f_equal. f_equal. lia.
Qed.

Lemma print_error_located sc sym sugg p pre line post :
  lines_ok sc ->
  sy_position sym = Some p ->
  Py.file_lines (content (file sc)) = (pre ++ line :: post)%list ->
  total_length pre <= p < total_length pre + Py.len line ->
  print_error sym sugg sc
  = let '(shown, caret) := shorten (chomp line) (p - total_length pre) in
    let out := error_text (Z.of_nat (List.length pre) + 1) shown caret sugg in
    Ok out (set_stdout
              (stdout sc ++ [(Py.nl ++ Py.nl ++ out ++ Py.nl)%string])%list sc).
Proof.
  intros Hok Hp Hlines Hin.
  destruct (locate_line sc sym p pre line post Hok Hp Hlines Hin) as [t Hloc].
  destruct Hok as [_ Htell].
  unfold print_error. unfold bind at 1. unfold gets at 1.
  unfold bind at 1. rewrite Hloc.
  destruct (shorten (chomp line) (p - total_length pre)) as [shown caret].
  generalize (error_text (Z.of_nat (List.length pre) + 1) shown caret sugg).
  intros o. unfold bind, print, modify, seek, ret.
  cbn [file set_file set_stdout tell content stdout].
  destruct (Z.ltb_spec (tell (file sc)) 0); [lia|].
  destruct sc as [[? ?]]. reflexivity.
Qed.

Lemma chomp_len (line : string) : Py.len (chomp line) <= Py.len line.
Proof.
  induction line as [|c s IH]; [reflexivity|].
  destruct s as [|d s'].
  - simpl. destruct (Ascii.eqb c _); unfold Py.len; simpl; lia.
  - change (chomp (String c (String d s')))
      with (String c (chomp (String d s'))).
    rewrite !(len_String c). lia.
Qed.

(** C6. A symbol whose position lies in the file lies in one line of it, the
    line after the lines [pre]; when the text of that line has at most 79
    characters, [print_error] returns, and prints after two line ends, the
    message made of [Error on line L:] with [L] the number of that line, the
    text of the line, a marker indented by the position less the lengths of
    the lines before, and the suggestion. *)
Theorem print_error_message sc sym sugg p :
  lines_ok sc ->
  sy_position sym = Some p ->
  0 <= p < Py.len (content (file sc)) ->
  exists pre line post,
    Py.file_lines (content (file sc)) = (pre ++ line :: post)%list
    /\ total_length pre <= p < total_length pre + Py.len line
    /\ (Py.len (chomp line) <= max_error_line_length ->
        let out :=
          "Error on line " ++ Py.str (Z.of_nat (List.length pre) + 1) ++ ":"
            ++ Py.nl ++ Py.nl
            ++ chomp line ++ Py.nl
            ++ Py.repeat_str " " (Z.to_nat (p - total_length pre)) ++ "^"
            ++ Py.nl ++ Py.nl
            ++ sugg in
        print_error sym sugg sc
        = Ok out
            (set_stdout
               (stdout sc ++ [(Py.nl ++ Py.nl ++ out ++ Py.nl)%string])%list
               sc)).
Proof.
  intros Hok Hp Hin.
  rewrite <- total_length_file_lines in Hin.
  destruct (position_in_line _ _ Hin) as (pre & line & post & Hl & Hb).
  exists pre, line, post. split; [exact Hl|]. split; [exact Hb|].
  intros Hshort. cbv zeta.
  rewrite (print_error_located sc sym sugg p pre line post Hok Hp Hl Hb).
  rewrite (shorten_short _ _ Hshort). reflexivity.
Qed.

Lemma print_error_message_witness :
  let sc := Scanner_init ("AB = 1;" ++ Py.nl ++ "CD - 2;" ++ Py.nl) [] in
  let sym := mkSymbol (Some INVALID_CHARACTER) None (Some 11) (Some "-") in
  let sugg := "Expected '='" in
  lines_ok sc
  /\ 0 <= 11 < Py.len (content (file sc))
  /\ exists pre line post,
       Py.file_lines (content (file sc)) = (pre ++ line :: post)%list
       /\ total_length pre <= 11 < total_length pre + Py.len line
       /\ (Py.len (chomp line) <= max_error_line_length ->
           let out :=
             "Error on line " ++ Py.str (Z.of_nat (List.length pre) + 1) ++ ":"
               ++ Py.nl ++ Py.nl
               ++ chomp line ++ Py.nl
               ++ Py.repeat_str " " (Z.to_nat (11 - total_length pre)) ++ "^"
               ++ Py.nl ++ Py.nl
               ++ sugg in
           print_error sym sugg sc
           = Ok out
               (set_stdout
                  (stdout sc
                     ++ [(Py.nl ++ Py.nl ++ out ++ Py.nl)%string])%list
                  sc)).
Proof.
  intros sc sym sugg.
  assert (Hok : lines_ok sc) by (split; [reflexivity | discriminate]).
  assert (Hin : 0 <= 11 < Py.len (content (file sc)))
    by (split; [discriminate | reflexivity]).
  split; [exact Hok|]. split; [exact Hin|].
  exact (print_error_message sc sym sugg 11 Hok eq_refl Hin).
Defined.

(** C7. For a symbol on the text of a line of more than 79 characters,
    [print_error] shows a text of at most 79 characters, cut with [[...]]
    at its start or at its end, and puts the marker under a character of the
    text shown: the character the symbol starts with. *)
Theorem print_error_long_line sc sym sugg p pre line post :
  lines_ok sc ->
  sy_position sym = Some p ->
  Py.file_lines (content (file sc)) = (pre ++ line :: post)%list ->
  total_length pre <= p < total_length pre + Py.len (chomp line) ->
  max_error_line_length < Py.len (chomp line) ->
  exists shown caret,
    print_error sym sugg sc
    = (let out := error_text (Z.of_nat (List.length pre) + 1) shown caret sugg in
       Ok out
         (set_stdout
            (stdout sc ++ [(Py.nl ++ Py.nl ++ out ++ Py.nl)%string])%list sc))
    /\ Py.len shown <= max_error_line_length
    /\ 0 <= caret < Py.len shown
    /\ String.get (Z.to_nat caret) shown
       = String.get (Z.to_nat (p - total_length pre)) (chomp line)
    /\ ((exists rest, shown = "[...]" ++ rest)
        \/ (exists rest, shown = rest ++ "[...]")).
Proof.
  intros Hok Hp Hl Hb Hlong.
  pose proof (chomp_len line) as Hc.
  assert (Hb' : total_length pre <= p < total_length pre + Py.len line) by lia.
  pose proof (print_error_located sc sym sugg p pre line post Hok Hp Hl Hb')
    as Hpe.
  assert (Hcol : 0 <= p - total_length pre < Py.len (chomp line)) by lia.
  pose proof (shorten_long (chomp line) (p - total_length pre) Hlong Hcol)
    as Hs.
  destruct (shorten (chomp line) (p - total_length pre)) as [shown caret].
  exists shown, caret. split; [exact Hpe | exact Hs].
Qed.

Lemma print_error_long_line_witness :
  let line := Py.repeat_str "G1, " 30 ++ "= NAND(2];" ++ Py.nl in
  let sc := Scanner_init ("CIRCUIT{" ++ Py.nl ++ line ++ "}") [] in
  let sym := mkSymbol (Some INVALID_CHARACTER) None (Some 137) (Some "]") in
  exists shown caret,
    print_error sym "Expected ')'" sc
    = (let out := error_text 2 shown caret "Expected ')'" in
       Ok out
         (set_stdout
            (stdout sc ++ [(Py.nl ++ Py.nl ++ out ++ Py.nl)%string])%list sc))
    /\ Py.len shown <= max_error_line_length
    /\ 0 <= caret < Py.len shown
    /\ String.get (Z.to_nat caret) shown = Some "]"%char.
Proof.
  intros line sc sym.
  assert (Hok : lines_ok sc) by (split; [reflexivity | discriminate]).
  assert (Hl : Py.file_lines (content (file sc))
               = ([("CIRCUIT{" ++ Py.nl)%string] ++ line :: ["}"])%list)
    by reflexivity.
  assert (Hb : total_length [("CIRCUIT{" ++ Py.nl)%string] <= 137
               < total_length [("CIRCUIT{" ++ Py.nl)%string]
                 + Py.len (chomp line))
    by (split; [discriminate | reflexivity]).
  assert (Hlong : max_error_line_length < Py.len (chomp line)) by reflexivity.
  destruct (print_error_long_line sc sym "Expected ')'" 137 _ _ _
              Hok eq_refl Hl Hb Hlong)
    as (shown & caret & Hpe & Hlen & Hc & Hget & _).
  exists shown, caret.
  split; [exact Hpe|]. split; [exact Hlen|]. split; [exact Hc|].
  rewrite Hget. reflexivity.
Defined.

(* ------------------------------------------------------------------ *)
(** ** Decimal numerals *)

Lemma int_str (n : Z) : Py.int (Py.str n) = Some n.
Proof.
  unfold Py.int, Py.str. rewrite NilZero.isi.
  - now rewrite DecimalZ.of_to.
  - destruct n; simpl; try discriminate.
    intros [= H]. now apply Unsigned.to_uint_nonnil in H.
  - destruct n; simpl; try discriminate.
    intros [= H]. now apply Unsigned.to_uint_nonnil in H.
Qed.

Lemma str_not_semicolon (n : Z) : Py.str n <> ";".
Proof.
  intros H. pose proof (int_str n) as E. rewrite H in E. discriminate E.
Qed.

(* ------------------------------------------------------------------ *)
(** ** The scanner makes progress *)

Lemma length_zero_empty (s : string) : String.length s = 0%nat -> s = "".
Proof. destruct s; [reflexivity | discriminate]. Qed.

Lemma substring_one_in (n : nat) (s : string) :
  (n < String.length s)%nat -> String.length (substring n 1 s) = 1%nat.
Proof. intros H. rewrite length_substring. lia. Qed.

Lemma substring_one_out (n : nat) (s : string) :
  (String.length s <= n)%nat -> substring n 1 s = "".
Proof.
  intros H. apply length_zero_empty. rewrite length_substring. lia.
Qed.

Lemma sc_ok_current_length sc :
  sc_ok sc -> (String.length (current_character sc) <= 1)%nat.
Proof.
  intros [Hb [[-> _]|[H1 ->]]]; [simpl; lia|].
  rewrite length_substring. lia.
Qed.

Lemma advance_eq sc : advance sc = Ok tt (advanced sc).
Proof. reflexivity. Qed.

Lemma advanced_ok sc :
  sc_ok sc ->
  sc_ok (advanced sc)
  /\ (remaining (advanced sc) <= remaining sc)%nat
  /\ (current_character sc <> "" ->
      (remaining (advanced sc) < remaining sc)%nat)
  /\ (current_character sc = "" -> current_character (advanced sc) = ""
                                   /\ remaining (advanced sc) = 0%nat)
  /\ content (file (advanced sc)) = content (file sc)
  /\ kw (advanced sc) = kw sc.
Proof.
  intros Hok. pose proof (sc_ok_current_length sc Hok) as Hlen1.
  destruct Hok as [Hb Hc].
  unfold advanced, fread1, sc_ok, remaining. cbn.
  set (t := tell (file sc)) in *. set (s := content (file sc)) in *.
  unfold Py.len in *.
  destruct (Z.ltb_spec t (Z.of_nat (String.length s))) as [Hlt|Hge].
  - assert (L : String.length (substring (Z.to_nat t) 1 s) = 1%nat)
      by (apply substring_one_in; lia).
    rewrite L.
    assert (Hne : current_character sc <> "").
    { destruct Hc as [[_ ?]|[_ ->]]; [lia|].
      intros E. apply (f_equal String.length) in E.
      rewrite substring_one_in in E by lia. discriminate. }
    assert (String.length (current_character sc) = 1%nat).
    { destruct (current_character sc); [congruence|]. simpl in *. lia. }
    repeat split; try lia.
    + right. split; [lia|]. f_equal. lia.
    + intros; congruence.
    + intros; congruence.
  - assert (E : substring (Z.to_nat t) 1 s = "")
      by (apply substring_one_out; lia).
    rewrite E. simpl String.length.
    repeat split; try lia.
    + left. split; [reflexivity | lia].
    + intros Hne. destruct (current_character sc); [congruence|].
      simpl; lia.
Qed.

Lemma sc_post_refl sc : sc_ok sc -> sc_post sc sc.
Proof.
  intros H. split; [assumption|]. split; [lia|]. split; reflexivity.
Qed.

Lemma sc_post_trans a b c : sc_post a b -> sc_post b c -> sc_post a c.
Proof.
  intros (?&?&?&?) (?&?&?&?).
  split; [assumption|]. split; [lia|]. split; congruence.
Qed.

Lemma sc_post_advanced sc : sc_ok sc -> sc_post sc (advanced sc).
Proof.
  intros H. destruct (advanced_ok sc H) as (?&?&?&?&?&?).
  split; [assumption|]. split; [assumption|]. split; assumption.
Qed.

Lemma isclass_nonempty (p : ascii -> bool) (s : string) :
  Py.nonempty s && Py.str_all p s = true -> s <> "".
Proof. destruct s; simpl; [discriminate | discriminate]. Qed.

Lemma skip_spaces_loop_ok fuel sc :
  sc_ok sc -> (remaining sc < fuel)%nat ->
  exists sc', skip_spaces_loop fuel sc = Ok tt sc' /\ sc_post sc sc'.
Proof.
  revert sc; induction fuel as [|fuel IH]; intros sc Hok Hf; [lia|].
  simpl. destruct (Py.isspace (current_character sc)) eqn:E.
  - apply isclass_nonempty in E.
    destruct (advanced_ok sc Hok) as (Hok' & _ & Hlt & _).
    specialize (Hlt E).
    unfold bind. rewrite advance_eq.
    destruct (IH (advanced sc) Hok') as (sc' & -> & Hp); [lia|].
    exists sc'. split; [reflexivity|].
    eapply sc_post_trans; [apply sc_post_advanced; auto | exact Hp].
  - exists sc. split; [reflexivity | now apply sc_post_refl].
Qed.

Lemma skip_spaces_ok sc :
  sc_ok sc -> exists sc', skip_spaces sc = Ok tt sc' /\ sc_post sc sc'.
Proof. intros H. apply skip_spaces_loop_ok; [assumption | lia]. Qed.

Lemma get_name_loop_ok fuel name sc :
  sc_ok sc -> (remaining sc < fuel)%nat ->
  exists r sc', get_name_loop fuel name sc = Ok (name ++ r) sc'
                /\ sc_post sc sc'.
Proof.
  revert name sc; induction fuel as [|fuel IH]; intros name sc Hok Hf; [lia|].
  simpl. destruct (Py.isalnum (current_character sc)) eqn:E.
  - apply isclass_nonempty in E.
    destruct (advanced_ok sc Hok) as (Hok' & _ & Hlt & _).
    specialize (Hlt E).
    unfold bind. rewrite advance_eq.
    destruct (IH (name ++ current_character sc) (advanced sc) Hok')
      as (r & sc' & -> & Hp); [lia|].
    exists (current_character sc ++ r), sc'. split.
    + f_equal. clear. induction name; simpl; congruence.
    + eapply sc_post_trans; [apply sc_post_advanced; auto | exact Hp].
  - exists "", sc. split; [|now apply sc_post_refl].
    f_equal. clear. induction name; simpl; congruence.
Qed.

Lemma get_number_loop_ok fuel n sc :
  sc_ok sc -> (remaining sc < fuel)%nat ->
  exists m sc', get_number_loop fuel n sc = Ok m sc' /\ sc_post sc sc'.
Proof.
  revert n sc; induction fuel as [|fuel IH]; intros n sc Hok Hf; [lia|].
  simpl. destruct (Py.isdigit (current_character sc)) eqn:E.
  - apply isclass_nonempty in E.
    destruct (advanced_ok sc Hok) as (Hok' & _ & Hlt & _).
    specialize (Hlt E).
    unfold bind. rewrite advance_eq.
    destruct (IH (n * 10 + Py.digit_val (current_character sc))
                (advanced sc) Hok') as (m & sc' & -> & Hp); [lia|].
    exists m, sc'. split; [reflexivity|].
    eapply sc_post_trans; [apply sc_post_advanced; auto | exact Hp].
  - exists n, sc. split; [reflexivity | now apply sc_post_refl].
Qed.

Lemma ex_outcome {S A} (r : res S A) (Q : A -> S -> Prop) (E : S -> Prop) :
  (exists a s, r = Ok a s /\ Q a s) -> outcome r Q E.
Proof. intros (a & s & -> & H). exact H. Qed.

Lemma bind_Ok {S A B} (c : M S A) (k : A -> M S B) s a s' :
  c s = Ok a s' -> bind c k s = k a s'.
Proof. unfold bind. now intros ->. Qed.

Lemma check_comment_eq sc :
  check_comment sc
  = Ok (if String.eqb (current_character (advanced sc)) Py.backslash
        then negb (comment sc) else comment sc)
       (advanced sc).
Proof.
  unfold check_comment, bind, gets. rewrite advance_eq.
  assert (E : comment (advanced sc) = comment sc).
  { unfold advanced. destruct (fread1 (file sc)); reflexivity. }
  rewrite E.
  destruct (String.eqb (current_character (advanced sc)) Py.backslash);
    reflexivity.
Qed.

Ltac scanner_fields :=
  cbn [file tell content current_character kw line_lengths file_position
       names comment stdout set_comment set_file set_current_character
       set_file_position set_names set_stdout] in *.

(** After a lone backslash the scanner steps back onto it. *)
Lemma backwards_after_advance sc b :
  sc_ok sc -> current_character sc <> "" ->
  exists sc',
    backwards (set_comment b (advanced sc)) = Ok tt sc'
    /\ file sc' = file sc
    /\ current_character sc' = current_character sc
    /\ kw sc' = kw sc.
Proof.
  intros [Hb Hc] Hne.
  destruct Hc as [[? _]|[H1 Hcur]]; [contradiction|].
  unfold backwards, bind, gets, advanced, fread1, seek, modify, advance.
  destruct sc as [[s t] ll fp nm k cur cm out].
  scanner_fields.
  unfold Py.len in *.
  destruct (Z.ltb_spec t (Z.of_nat (String.length s))) as [Hlt|Hge].
  - pose proof (substring_one_in (Z.to_nat t) s ltac:(lia)) as L.
    destruct (substring (Z.to_nat t) 1 s) as [|a r] eqn:E1; [discriminate|].
    simpl in L. cbn [String.eqb String.length].
    destruct (Z.ltb_spec (t + Z.of_nat (S (String.length r)) - 2) 0); [lia|].
    scanner_fields.
    eexists. split; [reflexivity|].
    unfold fread1. scanner_fields.
    replace (Z.to_nat (t + Z.of_nat (S (String.length r)) - 2))
      with (Z.to_nat (t - 1)) by lia.
    rewrite <- Hcur.
    pose proof (substring_one_in (Z.to_nat (t - 1)) s ltac:(lia)) as L'.
    rewrite <- Hcur in L'. unfold Py.len. rewrite L'.
    split; [f_equal; lia|]. split; reflexivity.
  - rewrite (substring_one_out (Z.to_nat t) s) by lia.
    cbn [String.eqb String.length].
    destruct (Z.ltb_spec (t + Z.of_nat 0 - 1) 0); [lia|].
    scanner_fields.
    eexists. split; [reflexivity|].
    unfold fread1. scanner_fields.
    replace (Z.to_nat (t + Z.of_nat 0 - 1)) with (Z.to_nat (t - 1)) by lia.
    rewrite <- Hcur.
    pose proof (substring_one_in (Z.to_nat (t - 1)) s ltac:(lia)) as L'.
    rewrite <- Hcur in L'. unfold Py.len. rewrite L'.
    split; [f_equal; lia|]. split; reflexivity.
Qed.

Lemma sc_ok_same sc sc' :
  file sc' = file sc -> current_character sc' = current_character sc ->
  sc_ok sc -> sc_ok sc'.
Proof. unfold sc_ok. intros -> ->. auto. Qed.

Lemma remaining_same sc sc' :
  file sc' = file sc -> current_character sc' = current_character sc ->
  remaining sc' = remaining sc.
Proof. unfold remaining. intros -> ->. reflexivity. Qed.

Lemma sc_post_same sc sc' :
  file sc' = file sc -> current_character sc' = current_character sc ->
  kw sc' = kw sc -> sc_ok sc -> sc_post sc sc'.
Proof.
  intros Hf Hc Hk Hok. split; [eapply sc_ok_same; eauto|].
  split; [rewrite (remaining_same _ _ Hf Hc); lia|].
  split; [now rewrite Hf | exact Hk].
Qed.

Lemma comment_loop_ok fuel sc :
  sc_ok sc -> (remaining sc < fuel)%nat ->
  exists sc', comment_loop fuel sc = Ok tt sc' /\ sc_post sc sc'.
Proof.
  revert sc; induction fuel as [|fuel IH]; intros sc Hok Hf; [lia|].
  simpl. destruct (comment sc) eqn:Ecm.
  2:{ now apply skip_spaces_ok. }
  destruct (String.eqb_spec (current_character sc) "") as [E|Hne].
  { exists sc. split; [reflexivity | now apply sc_post_refl]. }
  destruct (advanced_ok sc Hok) as (Hok1 & _ & Hlt & _).
  specialize (Hlt Hne).
  pose proof (sc_post_advanced sc Hok) as Hp1.
  destruct (String.eqb (current_character sc) Py.backslash).
  - set (b := if String.eqb (current_character (advanced sc)) Py.backslash
              then negb true else true).
    set (sc1 := set_comment b (advanced sc)).
    assert (E1 : (b <- check_comment ;; modify (set_comment b)) sc = Ok tt sc1).
    { unfold bind. rewrite check_comment_eq, Ecm. reflexivity. }
    rewrite (bind_Ok _ _ _ _ _ E1), (bind_Ok _ _ _ _ _ (advance_eq sc1)).
    assert (Hok1' : sc_ok sc1) by exact Hok1.
    pose proof (sc_post_advanced sc1 Hok1') as Hp2.
    destruct (IH (advanced sc1)) as (sc' & -> & Hp); [apply Hp2| |].
    { destruct Hp2 as (_ & Hle & _).
      change (remaining sc1) with (remaining (advanced sc)) in Hle. lia. }
    exists sc'. split; [reflexivity|].
    eapply sc_post_trans; [exact Hp1|].
    eapply sc_post_trans; [exact Hp2 | exact Hp].
  - rewrite (bind_Ok _ _ _ _ _ (eq_refl : ret tt sc = Ok tt sc)),
      (bind_Ok _ _ _ _ _ (advance_eq sc)).
    destruct (IH (advanced sc) Hok1) as (sc' & -> & Hp); [lia|].
    exists sc'. split; [reflexivity|].
    eapply sc_post_trans; [exact Hp1 | exact Hp].
Qed.

Lemma one_char_ok T p sc :
  sc_ok sc ->
  (T = SEMICOLON \/ current_character sc <> ";") ->
  (T = EOF <-> current_character sc = "") ->
  exists sym sc', one_char T p sc = Ok sym sc' /\ scanned sc sym sc'.
Proof.
  intros Hok Hsemi Heof.
  destruct (advanced_ok sc Hok) as (Hok1 & Hle & Hlt & Hend & Hct & Hkw).
  eexists _, (advanced sc). split; [reflexivity|].
  split; [now apply sc_post_advanced|]. split; [|split].
  - intros H. simpl in H. injection H as H.
    destruct Hsemi as [->|Hn]; [reflexivity | contradiction].
  - intros H.
    assert (T = EOF) by (destruct T; cbv in H; congruence).
    apply Hend, Heof. assumption.
  - intros H. apply Hlt. intros E. apply Heof in E. subst T. discriminate.
Qed.

Lemma alpha_not_semicolon c r :
  Py.isalpha c = true -> c ++ r <> ";".
Proof.
  destruct c as [|a s]; [discriminate|]. simpl.
  intros H E. injection E as -> _. discriminate H.
Qed.

Lemma get_symbol_dispatch_name p sc :
  sc_ok sc -> Py.isalpha (current_character sc) = true ->
  outcome
    ((name_string <- get_name ;;
      let T := if Py.str_in name_string keywords_list then KEYWORD else NAME in
      i <- (fun sc => match Names.lookup (names sc) [name_string] with
                      | ([i], n) => Ok i (set_names n sc)
                      | (_, n) => Raise ValueError (set_names n sc)
                      end) ;;
      ret (mkSymbol (Some T) (Some i) (Some p) (Some name_string))) sc)
    (scanned sc) (fun _ => True).
Proof.
  intros Hok Ha.
  pose proof (isclass_nonempty _ _ Ha) as Hne.
  destruct (advanced_ok sc Hok) as (Hok1 & _ & Hlt & _).
  specialize (Hlt Hne).
  pose proof (sc_post_advanced sc Hok) as Hp1.
  destruct (get_name_loop_ok (S (remaining (advanced sc)))
              (current_character sc) (advanced sc) Hok1 ltac:(lia))
    as (r & sc2 & Hloop & Hp2).
  unfold bind at 1. unfold get_name, bind at 1, gets at 1.
  unfold bind at 1. rewrite advance_eq, Hloop.
  unfold bind at 1. unfold Names.lookup.
  destruct (Names.lookup1 (names sc2) (current_character sc ++ r)) as [i n].
  unfold ret. simpl outcome.
  pose proof (sc_post_trans _ _ _ Hp1 Hp2) as Hp.
  split; [|split; [|split]].
  - destruct Hp as (Ho & Hl & Hc & Hk). split; [exact Ho|].
    split; [exact Hl|]. split; [exact Hc | exact Hk].
  - intros H. simpl in H. injection H as H.
    now apply alpha_not_semicolon in H.
  - intros H. exfalso.
    destruct (Py.str_in _ _); discriminate H.
  - intros _.
    change (remaining (set_names n sc2)) with (remaining sc2).
    destruct Hp2 as (_ & Hle & _). lia.
Qed.

Lemma get_symbol_dispatch_number p sc :
  sc_ok sc -> Py.isdigit (current_character sc) = true ->
  outcome
    ((if Py.digit_val (current_character sc) =? 0 then
        advance ;;
        ret (mkSymbol (Some ZERO) (Some 0) (Some p) (Some (Py.str 0)))
      else
        n <- get_number ;;
        ret (mkSymbol (Some NUMBER) (Some n) (Some p) (Some (Py.str n)))) sc)
    (scanned sc) (fun _ => True).
Proof.
  intros Hok Ha.
  pose proof (isclass_nonempty _ _ Ha) as Hne.
  destruct (advanced_ok sc Hok) as (Hok1 & _ & Hlt & _).
  specialize (Hlt Hne).
  pose proof (sc_post_advanced sc Hok) as Hp1.
  destruct (Py.digit_val (current_character sc) =? 0).
  - unfold bind. rewrite advance_eq. unfold ret. simpl outcome.
    split; [exact Hp1|]. split; [|split].
    + intros H. simpl in H. injection H as H. discriminate H.
    + intros H; discriminate H.
    + intros _. exact Hlt.
  - destruct (get_number_loop_ok (S (remaining (advanced sc)))
                (Py.digit_val (current_character sc)) (advanced sc) Hok1
                ltac:(lia)) as (m & sc2 & Hloop & Hp2).
    unfold bind at 1. unfold get_number, bind at 1, gets at 1.
    unfold bind at 1. rewrite advance_eq, Hloop.
    unfold ret. simpl outcome.
    split; [exact (sc_post_trans _ _ _ Hp1 Hp2)|]. split; [|split].
    + intros H. simpl in H. injection H as H.
      now apply str_not_semicolon in H.
    + intros H; discriminate H.
    + intros _. destruct Hp2 as (_ & Hle & _). lia.
Qed.

Lemma scanned_after sc sc1 sym sc2 :
  sc_post sc sc1 -> scanned sc1 sym sc2 -> scanned sc sym sc2.
Proof.
  intros Hp (Hp2 & Hs & He & Hn).
  split; [exact (sc_post_trans _ _ _ Hp Hp2)|]. split; [exact Hs|].
  split; [exact He|]. intros H. specialize (Hn H).
  destruct Hp as (_ & Hle & _). lia.
Qed.

Lemma scanned_then sc sym sc1 sc2 :
  scanned sc sym sc1 ->
  file sc2 = file sc1 -> current_character sc2 = current_character sc1 ->
  kw sc2 = kw sc1 ->
  scanned sc sym sc2.
Proof.
  intros (Hp & Hs & He & Hn) Hf Hc Hk.
  pose proof (remaining_same _ _ Hf Hc) as Hr.
  split; [|split; [exact Hs | rewrite Hr; split; assumption]].
  eapply sc_post_trans; [exact Hp|].
  apply sc_post_same; auto. apply Hp.
Qed.

(** The part of [get_symbol] that follows a backslash. *)
Lemma get_symbol_prelude sc :
  sc_ok sc -> current_character sc = Py.backslash ->
  exists sc',
    (b <- check_comment ;;
     modify (set_comment b) ;;
     when (negb b) backwards ;;
     fun sc => comment_loop (S (remaining sc)) sc) sc = Ok tt sc'
    /\ sc_post sc sc'.
Proof.
  intros Hok Hbs.
  assert (Hne : current_character sc <> "") by (rewrite Hbs; discriminate).
  pose proof (sc_post_advanced sc Hok) as Hp1.
  rewrite (bind_Ok _ _ _ _ _ (check_comment_eq sc)).
  set (b := if String.eqb (current_character (advanced sc)) Py.backslash
            then negb (comment sc) else comment sc).
  set (sc1 := set_comment b (advanced sc)).
  rewrite (bind_Ok _ _ _ _ _
             (eq_refl : modify (set_comment b) (advanced sc) = Ok tt sc1)).
  assert (Hok1 : sc_ok sc1) by apply Hp1.
  destruct b eqn:Eb.
  - rewrite (bind_Ok _ _ _ _ _ (eq_refl : when (negb true) backwards sc1
                                          = Ok tt sc1)).
    destruct (comment_loop_ok (S (remaining sc1)) sc1 Hok1 ltac:(lia))
      as (sc' & -> & Hp).
    exists sc'. split; [reflexivity|].
    eapply sc_post_trans; [exact Hp1 | exact Hp].
  - destruct (backwards_after_advance sc false Hok Hne)
      as (sc2 & Hback & Hf & Hc & Hk).
    change (when (negb false) backwards) with backwards.
    rewrite (bind_Ok _ _ _ _ _ Hback).
    pose proof (sc_post_same _ _ Hf Hc Hk Hok) as Hp2.
    destruct (comment_loop_ok (S (remaining sc2)) sc2 ltac:(apply Hp2)
                ltac:(lia)) as (sc' & -> & Hp).
    exists sc'. split; [reflexivity|].
    eapply sc_post_trans; [exact Hp2 | exact Hp].
Qed.

Lemma str_eqb_true a b : String.eqb a b = true -> a = b.
Proof. apply String.eqb_eq. Qed.

Lemma str_eqb_false a b : String.eqb a b = false -> a <> b.
Proof. apply String.eqb_neq. Qed.

Lemma locate_fuel sym sc : locate sym sc <> OutOfFuel.
Proof.
  unfold locate, bind, gets.
  destruct (sol_positions (line_lengths sc)); [discriminate|].
  destruct (sy_position sym); [|discriminate].
  destruct (filter _ _); [discriminate|].
  destruct (Py.index_of _ _); [|discriminate].
  unfold seek. change (0 <? 0) with false. cbv iota.
  cbn [fread_all]. destruct (nth_error _ _); discriminate.
Qed.

Lemma print_error_fuel sym sugg sc : print_error sym sugg sc <> OutOfFuel.
Proof.
  unfold print_error. unfold bind at 1, gets at 1. unfold bind at 1.
  pose proof (locate_fuel sym sc) as H.
  destruct (locate sym sc) as [[[lt pos] line] sc1| |]; try discriminate;
    [|contradiction].
  destruct (shorten lt pos).
  unfold bind, print, modify, seek, ret.
  destruct (_ <? 0); discriminate.
Qed.

(** [get_symbol] returns a symbol and consumes what it is made of. *)
Lemma get_symbol_ok sc :
  sc_ok sc -> outcome (get_symbol sc) (scanned sc) (fun _ => True).
Proof.
  intros Hok. unfold get_symbol.
  destruct (skip_spaces_ok sc Hok) as (sc1 & Hskip & Hp1).
  rewrite (bind_Ok _ _ _ _ _ Hskip).
  rewrite (bind_Ok _ _ _ _ _ (eq_refl : gets current_character sc1 = Ok _ sc1)).
  assert (Hpre : exists sc2,
            (if String.eqb (current_character sc1) Py.backslash
             then b <- check_comment ;;
                  modify (set_comment b) ;;
                  when (negb b) backwards ;;
                  (fun sc => comment_loop (S (remaining sc)) sc)
             else ret tt) sc1 = Ok tt sc2
            /\ sc_post sc1 sc2).
  { destruct (String.eqb_spec (current_character sc1) Py.backslash) as [E|_].
    - apply get_symbol_prelude; [apply Hp1 | exact E].
    - exists sc1. split; [reflexivity | apply sc_post_refl, Hp1]. }
  destruct Hpre as (sc2 & Hpre & Hp2).
  rewrite (bind_Ok _ _ _ _ _ Hpre).
  rewrite (bind_Ok _ _ _ _ _ (eq_refl : gets file_position sc2 = Ok _ sc2)).
  rewrite (bind_Ok _ _ _ _ _ (eq_refl : gets current_character sc2 = Ok _ sc2)).
  pose proof (sc_post_trans _ _ _ Hp1 Hp2) as Hp.
  assert (Hok2 : sc_ok sc2) by apply Hp2.
  eapply outcome_bind with (Q1 := scanned sc2) (E1 := fun _ => True).
  - set (c := current_character sc2).
    destruct (Py.isalpha c) eqn:Ealpha.
    { now apply get_symbol_dispatch_name. }
    destruct (Py.isdigit c) eqn:Edigit.
    { now apply get_symbol_dispatch_number. }
    repeat match goal with
           | |- outcome ((if String.eqb c ?x then _ else _) sc2) _ _ =>
               let E := fresh "E" in
               destruct (String.eqb c x) eqn:E;
               [ apply str_eqb_true in E;
                 apply ex_outcome, one_char_ok;
                 [ exact Hok2
                 | first [ left; reflexivity
                         | right; fold c; rewrite E; discriminate ]
                 | fold c; rewrite E; split; intros; try discriminate;
                   reflexivity ]
               | apply str_eqb_false in E ]
           end.
    apply ex_outcome, one_char_ok; [exact Hok2 | right; assumption |].
    split; [discriminate | intros; contradiction].
  - intros sym sc3 Hsc.
    rewrite (bind_Ok _ _ _ _ _ (eq_refl : gets comment sc3 = Ok _ sc3)).
    destruct (is_type sym EOF && comment sc3).
    + cbn [when]. unfold bind at 1, bind at 1.
      destruct (print_error sym _ sc3) as [out sc4| |] eqn:Epe;
        cbn [outcome ret].
      * apply print_error_state in Epe. subst sc4.
        eapply scanned_after; [exact Hp|].
        eapply scanned_then; [exact Hsc | reflexivity..].
      * exact I.
      * now apply print_error_fuel in Epe.
    + cbn [when ret bind outcome]. eapply scanned_after; eauto.
  - auto.
Qed.

(* ------------------------------------------------------------------ *)
(** ** The parser keeps its invariant and comes to an end *)

Section ParserProperties.

Context {kernel_impl : Kernel}.

Lemma post_refl st : Inv st -> post st st.
Proof. intros H. split; [exact H | lia]. Qed.

Lemma post_trans a b c : post a b -> post b c -> post a c.
Proof. intros [_ H1] [H2 H3]. split; [exact H2 | lia]. Qed.

Lemma spec_sound {A} (c : M Parser A) R : spec c R -> sound c.
Proof.
  intros H st Hi. eapply outcome_weaken; [apply H, Hi| |auto].
  simpl. intros a s [Hp _]. auto.
Qed.

(** One step of a computation whose first part has a specification. *)
Lemma spec_step {A B} (c : M Parser A) (k : A -> M Parser B) R st0 st1
    (Q : B -> Parser -> Prop) :
  spec c R ->
  post st0 st1 ->
  (forall a st2,
      post st0 st2 -> (pm st2 <= pm st1)%nat -> R st1 a st2 ->
      outcome (k a st2) Q weak) ->
  outcome (bind c k st1) Q weak.
Proof.
  intros Hc Hp Hk.
  eapply outcome_bind; [apply Hc, Hp | | auto].
  simpl. intros a st2 [Hp2 HR]. apply Hk; [|apply Hp2|exact HR].
  eapply post_trans; eauto.
Qed.

Lemma gets_step {A B} (f : Parser -> A) (k : A -> M Parser B) st Q E :
  outcome (k (f st) st) Q E -> outcome (bind (gets f) k st) Q E.
Proof. auto. Qed.

Lemma modify_step {B} (f : Parser -> Parser) (k : unit -> M Parser B) st Q E :
  outcome (k tt (f st)) Q E -> outcome (bind (modify f) k st) Q E.
Proof. auto. Qed.

Lemma ret_step {A B} (a : A) (k : A -> M Parser B) st Q E :
  outcome (k a st) Q E -> outcome (bind (ret a) k st) Q E.
Proof. auto. Qed.

Lemma bind_assoc_step {A B C} (c : M Parser A) (k : A -> M Parser B)
    (h : B -> M Parser C) st Q E :
  outcome (bind c (fun a => bind (k a) h) st) Q E ->
  outcome (bind (bind c k) h st) Q E.
Proof. unfold bind. destruct (c st); auto. Qed.

Ltac parser_fields :=
  cbn [scanner kernel symbol error_ error_count skip cur_attribute error_msg
       cur_device_name_list cur_pin_name_list cur_arrow check_symbol calls
       set_scanner set_kernel set_symbol set_error_ set_error_count set_skip
       set_cur_attribute set_error_msg set_cur_device_name_list
       set_cur_pin_name_list set_cur_arrow set_check_symbol set_calls
       set_names_p log] in *.

(** ** Taking the next symbol *)

Lemma pm_bound st : (pm st <= S (remaining (scanner st)))%nat.
Proof. unfold pm. destruct (is_type _ _); lia. Qed.

Lemma Inv_pm_EOF st : Inv st -> is_type (symbol st) EOF = true -> pm st = 0%nat.
Proof.
  intros (_ & _ & _ & H) E. unfold pm. rewrite E, (H E). reflexivity.
Qed.

Lemma pm_not_EOF st : is_type (symbol st) EOF = false -> (0 < pm st)%nat.
Proof. intros E. unfold pm. rewrite E. lia. Qed.

Lemma same_but_input_refl st : same_but_input st st.
Proof. repeat split. Qed.

Lemma same_but_input_trans a b c :
  same_but_input a b -> same_but_input b c -> same_but_input a c.
Proof.
  intros (?&?&?&?&?) (?&?&?&?&?). repeat split; congruence.
Qed.

Lemma weak_same st st' : same_but_input st st' -> weak st -> weak st'.
Proof.
  intros (Hk & He & Hc & _ & Hl) [[H0 H1] (ms & es & Hcalls & Hm & Hes & Hn)].
  split.
  - split; congruence.
  - exists ms, es. rewrite Hl, Hk, He. auto.
Qed.

Lemma next_symbol_spec :
  spec next_symbol (fun st _ st' =>
    same_but_input st st'
    /\ (is_type (symbol st) EOF = false -> (pm st' < pm st)%nat)).
Proof.
  intros st Hi. destruct Hi as (Hw & Hsc & Hsym & Heof).
  unfold next_symbol, on_scanner, lift, bind.
  pose proof (get_symbol_ok (scanner st) Hsc) as H.
  destruct (get_symbol (scanner st)) as [sym sc'| e sc'|]; simpl in H |- *.
  - destruct H as (Hp & Hs & He & Hn).
    assert (Hpm : (pm (set_symbol sym (set_scanner sc' st)) <= pm st)%nat
                  /\ (is_type (symbol st) EOF = false ->
                      (pm (set_symbol sym (set_scanner sc' st)) < pm st)%nat)).
    { unfold pm. parser_fields.
      destruct (is_type sym EOF) eqn:E1.
      - rewrite (He eq_refl). split; [lia|]. intros ->. lia.
      - specialize (Hn eq_refl).
        destruct (is_type (symbol st) EOF) eqn:E2.
        + rewrite (Heof eq_refl) in Hn. lia.
        + split; [lia|]. intros _. lia. }
    split; [split|split].
    + split; [|split; [apply Hp | split; [exact Hs | exact He]]].
      eapply weak_same; [|exact Hw]. repeat split.
    + apply Hpm.
    + repeat split.
    + apply Hpm.
  - eapply weak_same; [|exact Hw]. repeat split.
  - exact H.
Qed.

(** ** Reporting an error *)

Lemma skips_to_stops stop st st' :
  skips_to stop st st' -> keeps_skipping stop (symbol st') = false.
Proof. induction 1; auto. Qed.

Lemma keeps_skipping_not_EOF stop sym :
  keeps_skipping stop sym = true -> is_type sym EOF = false.
Proof.
  unfold keeps_skipping. intros H. apply andb_prop in H. destruct H as [_ H].
  now apply negb_true_iff in H.
Qed.

Lemma error_loop_spec fuel stop st :
  Inv st -> (pm st < fuel)%nat ->
  outcome (error_loop fuel stop st)
    (fun _ st' =>
       post st st' /\ same_but_input st st' /\ skips_to stop st st'
       /\ (keeps_skipping stop (symbol st) = true -> (pm st' < pm st)%nat))
    weak.
Proof.
  revert st; induction fuel as [|fuel IH]; intros st Hi Hf; [lia|].
  simpl. destruct (keeps_skipping stop (symbol st)) eqn:E.
  - pose proof (keeps_skipping_not_EOF _ _ E) as Hne.
    unfold bind. pose proof (next_symbol_spec st Hi) as H.
    destruct (next_symbol st) as [[] st1|e st1|] eqn:En; simpl in H;
      [|exact H|exact H].
    destruct H as ([Hi1 Hle] & Hsame & Hlt). specialize (Hlt Hne).
    eapply outcome_weaken; [apply IH; [exact Hi1 | lia] | | auto].
    simpl. intros _ st' ([Hi' Hle'] & Hsame' & Hsk & _).
    split; [split; [exact Hi' | lia]|].
    split; [eapply same_but_input_trans; eauto|].
    split; [|intros _; lia].
    eapply skips_next; eauto.
  - simpl. split; [now apply post_refl|].
    split; [apply same_but_input_refl|].
    split; [now constructor | discriminate].
Qed.

Lemma print_error_spec sym message :
  spec (on_scanner (print_error sym message)) (fun st _ st' =>
    same_but_input st st' /\ symbol st' = symbol st /\ pm st' = pm st).
Proof.
  intros st Hi. unfold on_scanner, lift.
  destruct (print_error sym message (scanner st)) as [out sc'|e sc'|] eqn:E;
    simpl.
  - apply print_error_state in E. subst sc'.
    destruct Hi as (Hw & Hsc & Hsym & Heof).
    split; [|repeat split].
    split; [|unfold pm; parser_fields; reflexivity].
    split; [eapply weak_same; [|exact Hw]; repeat split|].
    split; [exact Hsc|]. split; [exact Hsym | exact Heof].
  - destruct Hi as (Hw & _). eapply weak_same; [|exact Hw]. repeat split.
  - now apply print_error_fuel in E.
Qed.

Lemma loop_bound_enough st : (pm st < loop_bound st)%nat.
Proof. unfold loop_bound. pose proof (pm_bound st). lia. Qed.

Lemma error_noted_Inv message st : Inv st -> Inv (error_noted message st).
Proof.
  intros ([[H0 H1] (ms & es & Hc & Hm & He & Hn)] & Hsc & Hsym & Heof).
  split; [|split; [exact Hsc | split; [exact Hsym | exact Heof]]].
  split.
  - split; unfold error_noted; parser_fields; [lia|].
    symmetry. apply Z.ltb_lt. lia.
  - exists ms, (es ++ [CError message (kernel st)])%list.
    unfold error_noted; parser_fields.
    split; [rewrite Hc; now rewrite app_assoc|].
    split; [exact Hm|]. split.
    + apply Forall_app. split; [exact He|].
      constructor; [reflexivity|constructor].
    + split; [discriminate|]. intros E. now destruct es.
Qed.

Lemma error_spec message stop symbol_arg :
  spec (__error message stop symbol_arg)
       (fun st _ st' => error_result stop st st').
Proof.
  intros st Hi. unfold __error.
  apply gets_step. do 3 apply modify_step.
  change (set_calls _ _) with (error_noted message st).
  pose proof (error_noted_Inv message st Hi) as Hi1.
  set (st1 := error_noted message st) in *.
  assert (Hp1 : post st st1).
  { split; [exact Hi1 | unfold pm; reflexivity]. }
  eapply (spec_step _ _ _ st st1); [apply print_error_spec | exact Hp1 |].
  intros out st2 Hp2 _ (Hsame & Hsym & Hpm).
  destruct Hsame as (Hk & He & Hc & Hs & Hl).
  destruct stop as [stop|].
  - eapply outcome_bind;
      [apply (error_loop_spec (loop_bound st2) stop st2);
       [apply Hp2 | apply loop_bound_enough] | | auto].
    simpl. intros _ st3 (Hp3 & (Hk3 & He3 & Hc3 & Hs3 & Hl3) & Hsk & Hlt).
    split.
    + split; [exact (proj1 Hp3)|].
      destruct Hp2 as [_ ?], Hp3 as [_ ?].
      change (pm (set_error_msg _ st3)) with (pm st3). lia.
    + unfold error_result. parser_fields.
      rewrite He3, He, Hc3, Hc, Hs3, Hs, Hk3, Hk.
      repeat split.
      * eapply skips_to_stops; exact Hsk.
      * rewrite Hsym in Hlt. intros H. specialize (Hlt H).
        change (pm st1) with (pm st) in Hpm.
        change (pm (set_error_msg _ st3)) with (pm st3). lia.
  - apply ret_step. apply modify_step. simpl.
    split.
    + split; [exact (proj1 Hp2)|]. destruct Hp2 as [_ ?].
      change (pm (set_error_msg _ st2)) with (pm st2). lia.
    + unfold error_result. parser_fields.
      rewrite He, Hc, Hs, Hk, Hsym. repeat split.
Qed.

Lemma when_step {B} (b : bool) (c : M Parser unit) (k : unit -> M Parser B)
    st Q E :
  (b = true -> outcome (bind c k st) Q E) ->
  (b = false -> outcome (k tt st) Q E) ->
  outcome (bind (when b c) k st) Q E.
Proof. destruct b; simpl; auto. Qed.

Lemma when_last (b : bool) (c : M Parser unit) st Q E :
  (b = true -> outcome (c st) Q E) ->
  (b = false -> outcome (ret tt st) Q E) ->
  outcome (when b c st) Q E.
Proof. destruct b; simpl; auto. Qed.

Ltac pstep :=
  lazymatch goal with
  | |- outcome (bind (gets _) _ _) _ _ => apply gets_step
  | |- outcome (bind (modify _) _ _) _ _ => apply modify_step
  | |- outcome (bind (ret _) _ _) _ _ => apply ret_step
  | |- outcome (bind (bind _ _) _ _) _ _ => apply bind_assoc_step
  end; cbv beta.

Ltac psteps := repeat pstep.

(** A step through a call with a specification: [L] is the specification,
    [st0] the state the current procedure started in. *)
Ltac call_with L st0 :=
  eapply (spec_step _ _ _ st0); [apply L | | ].

Lemma is_type_other sym T U :
  is_type sym T = true -> T <> U -> is_type sym U = false.
Proof.
  unfold is_type. destruct (sy_type sym) as [V|]; [|discriminate].
  destruct V, T; try discriminate; destruct U; try reflexivity;
    intros _ H; contradiction H; reflexivity.
Qed.

Lemma sym_ok_not_semicolon sym :
  sym_ok sym -> is_type sym SEMICOLON = false -> is_type sym EOF = false ->
  keeps_skipping ";" sym = true.
Proof.
  intros Hs H1 H2. unfold keeps_skipping. rewrite H2.
  destruct (sy_string sym) as [s|] eqn:E; [|reflexivity].
  destruct (String.eqb_spec s ";") as [->|]; [|reflexivity].
  rewrite (Hs E) in H1. discriminate.
Qed.

(** ** Names and points *)

Lemma name_spec type :
  type = "devicename" \/ type = "pinname" ->
  spec (__name type) name_result.
Proof.
  intros Htype st Hi. unfold __name. pstep.
  destruct (is_type (symbol st) NAME) eqn:EN.
  - pstep.
    apply when_step; intros _; [pstep|];
      (apply when_step; intros _; [pstep|]);
      (call_with next_symbol_spec st; [exact (post_refl st Hi)|];
       intros [] st2 Hp2 _ ((_ & _ & _ & Hs & _) & Hlt);
       simpl; split; [exact Hp2|];
       split; [exact Hs|]; split; [|discriminate];
       intros _; apply Hlt; parser_fields;
       eapply is_type_other; [exact EN | discriminate]).
  - destruct (is_type (symbol st) KEYWORD) eqn:EK.
    + call_with error_spec st; [exact (post_refl st Hi)|].
      intros out st2 Hp2 _ (He & _ & Hs & _ & Hstop & _).
      simpl. split; [exact Hp2|]. split; [exact Hs|].
      split; [discriminate | auto].
    + destruct Htype as [-> | ->]; cbn [String.eqb Ascii.eqb Bool.eqb];
        pstep;
        (call_with error_spec st; [exact (post_refl st Hi)|];
         intros out st2 Hp2 _ (He & _ & Hs & _ & Hstop & _);
         simpl; split; [exact Hp2|]; split; [exact Hs|];
         split; [discriminate | auto]).
Qed.

Lemma devicename_spec : spec __devicename name_result.
Proof. apply name_spec. now left. Qed.

Lemma pinname_spec : spec __pinname name_result.
Proof. apply name_spec. now right. Qed.

Lemma point_spec : spec __point name_result.
Proof.
  intros st Hi. unfold __point.
  call_with devicename_spec st; [exact (post_refl st Hi)|].
  intros b st1 Hp1 _ (Hs1 & Ht1 & Hf1).
  destruct b.
  - specialize (Ht1 eq_refl). pstep.
    destruct (is_type (symbol st1) DOT).
    + call_with next_symbol_spec st; [exact Hp1|].
      intros [] st2 Hp2 Hle2 ((_ & _ & _ & Hs2 & _) & _).
      eapply outcome_weaken; [apply pinname_spec, Hp2| |auto].
      simpl. intros b st3 ([Hi3 Hle3] & Hs3 & Ht3 & Hf3).
      split; [split; [exact Hi3 | lia]|].
      split; [congruence|]. split; [intros _; lia | exact Hf3].
    + pstep. simpl. split; [exact Hp1|]. split; [exact Hs1|].
      split; [intros _; exact Ht1 | discriminate].
  - simpl. split; [exact Hp1|]. split; [exact Hs1|].
    split; [discriminate | intros _; apply Hf1; reflexivity].
Qed.

(** ** Procedures that keep the invariant *)

Lemma last_step {A} (c : M Parser A) st Q E :
  outcome (bind c (fun a => ret a) st) Q E -> outcome (c st) Q E.
Proof. unfold bind, ret. destruct (c st); auto. Qed.

Ltac find_post st0 :=
  match goal with
  | H : post st0 _ |- _ => exact H
  | H : Inv st0 |- _ => exact (post_refl st0 H)
  end.

Ltac finish st0 :=
  cbn [outcome ret modify];
  first [ exact I
        | find_post st0
        | split; [find_post st0 | try exact I] ].

Lemma int_of_symbol_spec :
  spec int_of_symbol (fun st _ st' => st' = st).
Proof.
  intros st Hi. unfold int_of_symbol. pstep.
  destruct (sy_string (symbol st)) as [s|]; [|apply Hi].
  destruct (Py.int s); simpl; [|apply Hi].
  split; [now apply post_refl | reflexivity].
Qed.

Create HintDb parser_specs.

(** Steps through a procedure made of calls with known specifications. *)
Ltac known_call st0 :=
  lazymatch goal with
  | |- outcome (bind next_symbol _ _) _ _ => call_with next_symbol_spec st0
  | |- outcome (bind (__error _ _ _) _ _) _ _ => call_with error_spec st0
  | |- outcome (bind int_of_symbol _ _) _ _ => call_with int_of_symbol_spec st0
  | |- outcome (bind __devicename _ _) _ _ => call_with devicename_spec st0
  | |- outcome (bind __point _ _) _ _ => call_with point_spec st0
  | |- outcome (bind _ _ _) _ _ =>
      eapply (spec_step _ _ _ st0); [solve [eauto with parser_specs] | | ]
  end;
  [ find_post st0 | intros ? ? ? ? ? ].

Ltac branch :=
  lazymatch goal with
  | |- outcome (bind (when ?b _) _ _) _ _ =>
      apply when_step; intros ?
  | |- outcome (when ?b _ _) _ _ =>
      apply when_last; intros ?
  | |- outcome (bind (if ?b then _ else _) _ _) _ _ =>
      let E := fresh "E" in destruct b eqn:E
  | |- outcome ((if ?b then _ else _) _) _ _ =>
      let E := fresh "E" in destruct b eqn:E
  end.

Ltac sound_tac st0 :=
  repeat first
    [ pstep
    | branch
    | known_call st0
    | lazymatch goal with
      | |- outcome (ret _ _) _ _ => finish st0
      | |- outcome (modify _ _) _ _ => finish st0
      | |- outcome (bind _ _ _) _ _ => fail
      | |- outcome (_ _) _ _ => apply last_step
      end ].

Lemma close_parenthesis_sound : sound close_parenthesis.
Proof. intros st Hi. unfold close_parenthesis. sound_tac st. Qed.

#[local] Hint Extern 1 (spec close_parenthesis _) =>
  apply close_parenthesis_sound : parser_specs.

Lemma clock_sound : sound __clock.
Proof. intros st Hi. unfold __clock. sound_tac st. Qed.

Lemma switch_sound : sound __switch.
Proof. intros st Hi. unfold __switch. sound_tac st. Qed.

Lemma gate_inputs_sound no_number : sound (gate_inputs no_number).
Proof. intros st Hi. unfold gate_inputs. sound_tac st. Qed.

#[local] Hint Extern 1 (spec __clock _) => apply clock_sound : parser_specs.
#[local] Hint Extern 1 (spec __switch _) => apply switch_sound : parser_specs.
#[local] Hint Extern 1 (spec __And _) => apply gate_inputs_sound : parser_specs.
#[local] Hint Extern 1 (spec __nand _) => apply gate_inputs_sound : parser_specs.
#[local] Hint Extern 1 (spec __nor _) => apply gate_inputs_sound : parser_specs.
#[local] Hint Extern 1 (spec __oor _) => apply gate_inputs_sound : parser_specs.

(** ** Calls of the kernel *)

Lemma kernel_call_ok {A} (c : call) (f : Names.t -> K -> Names.t * K * A) st :
  Inv st -> error_ st = false -> is_make c ->
  outcome (kernel_call c f st) (fun _ st' => made st st') weak.
Proof.
  intros Hi He Hc. unfold kernel_call.
  destruct (f (names (scanner st)) (kernel st)) as [[n k] a]. simpl.
  destruct Hi as ([Hcount (ms & es & Hcalls & Hm & Hes & Hn)] & Hsc & Hsym & Heof).
  split; [|split; [exact He | split; reflexivity]].
  split; [|unfold pm; parser_fields; reflexivity].
  split; [|split; [exact Hsc | split; [exact Hsym | exact Heof]]].
  split; [exact Hcount|].
  exists (ms ++ [c])%list, []. parser_fields.
  rewrite Hcalls, (proj1 Hn He), !app_nil_r.
  split; [reflexivity|]. split; [|split; [constructor | tauto]].
  apply Forall_app. split; [exact Hm|]. constructor; [exact Hc | constructor].
Qed.

Lemma call_make_clock_ok : make_ok call_make_clock.
Proof.
  intros id st Hi He. unfold call_make_clock. pstep.
  now apply kernel_call_ok.
Qed.

Lemma call_make_switch_ok : make_ok call_make_switch.
Proof.
  intros id st Hi He. unfold call_make_switch. pstep.
  now apply kernel_call_ok.
Qed.

Lemma call_make_gate_ok kind inputs : make_ok (call_make_gate kind inputs).
Proof.
  intros id st Hi He. unfold call_make_gate. pstep.
  now apply kernel_call_ok.
Qed.

Lemma call_make_d_type_ok : make_ok call_make_d_type.
Proof.
  intros id st Hi He. unfold call_make_d_type.
  now apply kernel_call_ok.
Qed.

Lemma made_trans a b c : made a b -> made b c -> made a c.
Proof.
  intros (Hp1 & _ & Hs1 & Hy1) (Hp2 & He & Hs2 & Hy2).
  split; [eapply post_trans; eauto|]. split; [exact He|].
  split; congruence.
Qed.

Lemma for_each_make (make : Z -> M Parser unit) :
  make_ok make ->
  forall ids st, Inv st -> error_ st = false ->
    outcome (for_each ids make st) (fun _ st' => made st st') weak.
Proof.
  intros Hmake ids. induction ids as [|id ids IH]; intros st Hi He; simpl.
  - split; [now apply post_refl|]. repeat split. exact He.
  - eapply outcome_bind; [apply Hmake; assumption| |auto].
    simpl. intros _ st1 Hm1.
    eapply outcome_weaken; [apply IH; apply Hm1| |auto].
    simpl. intros _ st2 Hm2. eapply made_trans; eauto.
Qed.

Lemma make_devices_sound make : make_ok make -> sound (make_devices make).
Proof.
  intros Hmake st Hi. unfold make_devices. pstep.
  apply when_last; intros He; [|finish st].
  apply negb_true_iff in He. pstep.
  destruct (spellings (cur_device_name_list st)) as [ss|]; [|apply Hi].
  unfold bind at 1.
  destruct (Names.lookup (names (scanner st)) ss) as [ids n].
  eapply outcome_weaken;
    [apply (for_each_make make Hmake ids (set_names_p n st)); assumption| |auto].
  simpl. intros _ st' (Hp & _). split; [exact Hp | exact I].
Qed.

#[local] Hint Resolve call_make_clock_ok call_make_switch_ok
  call_make_gate_ok call_make_d_type_ok : parser_specs.
#[local] Hint Extern 1 (spec (make_devices _) _) =>
  apply make_devices_sound; solve [auto with parser_specs] : parser_specs.

(** ** Device clauses *)

Lemma devicenames_loop_sound fuel v st :
  Inv st -> (pm st < fuel)%nat ->
  outcome (devicenames_loop fuel v st) (fun _ st' => post st st' /\ True) weak.
Proof.
  revert v st; induction fuel as [|fuel IH]; intros v st Hi Hf; [lia|].
  simpl.
  destruct (is_type (symbol st) COMMA && negb (is_type (symbol st) EOF) && v)
    eqn:E.
  - apply andb_prop in E. destruct E as [E _].
    apply andb_prop in E. destruct E as [_ E]. apply negb_true_iff in E.
    call_with next_symbol_spec st; [find_post st|].
    intros [] st1 Hp1 _ (_ & Hlt). specialize (Hlt E).
    call_with devicename_spec st; [find_post st|].
    intros b st2 Hp2 Hle2 _.
    eapply outcome_weaken; [apply IH; [apply Hp2 | lia]| |auto].
    simpl. intros _ st3 ([Hi3 Hle3] & _).
    split; [|exact I]. split; [exact Hi3|]. destruct Hp2. lia.
  - finish st.
Qed.

Lemma devicenames_sound :
  sound (fun st => devicenames_loop (loop_bound st) true st).
Proof.
  intros st Hi. apply devicenames_loop_sound;
    [exact Hi | apply loop_bound_enough].
Qed.

#[local] Hint Extern 1
  (spec (fun st => devicenames_loop (loop_bound st) true st) _) =>
  apply devicenames_sound : parser_specs.

(** The end of a clause: the semicolon is taken, or its absence reported. *)
Lemma clause_end st0 st :
  Inv st0 -> post st0 st ->
  ((pm st < pm st0)%nat
   \/ keeps_skipping ";" (symbol st) = false) ->
  outcome
    ((sym <- gets symbol ;;
      if is_type sym SEMICOLON then next_symbol
      else __error "Expected ';'" None None ;; ret tt) st)
    (fun _ st' => post st0 st' /\ advances st0 st') weak.
Proof.
  intros Hi0 Hp Hcase. pstep.
  destruct (is_type (symbol st) SEMICOLON) eqn:Esemi.
  - apply last_step. call_with next_symbol_spec st0; [find_post st0|].
    intros [] st1 Hp1 Hle1 (_ & Hlt). simpl. split; [exact Hp1|].
    intros _. destruct Hp as [_ Hle].
    specialize (Hlt (is_type_other _ _ EOF Esemi ltac:(discriminate))). lia.
  - call_with error_spec st0; [find_post st0|].
    intros out st1 Hp1 Hle1 _. simpl. split; [exact Hp1|].
    intros Hne. destruct Hp as [Hi Hle].
    destruct Hcase as [Hlt|Hstop]; [lia|].
    destruct (is_type (symbol st) EOF) eqn:Eeof.
    + rewrite (Inv_pm_EOF st Hi Eeof) in Hle1.
      pose proof (pm_not_EOF st0 Hne). lia.
    + rewrite sym_ok_not_semicolon in Hstop;
        [discriminate | apply Hi | exact Esemi | exact Eeof].
Qed.

Lemma device_spec : spec __device (fun st _ st' => advances st st').
Proof.
  intros st Hi. unfold __device. pstep.
  call_with devicename_spec st; [find_post st|].
  intros b st1 Hp1 _ (_ & Ht & Hf).
  eapply outcome_bind with
    (Q1 := fun _ st2 => post st st2
             /\ ((pm st2 < pm st)%nat
                 \/ keeps_skipping ";" (symbol st2) = false))
    (E1 := weak); [| |auto].
  - destruct b; cbn [when].
    + specialize (Ht eq_refl).
      change (pm (set_cur_device_name_list [] st)) with (pm st) in Ht.
      eapply outcome_weaken with
        (Q := fun _ st2 => post st1 st2 /\ True) (E := weak); [| |auto].
      * assert (Hi1 : Inv st1) by apply Hp1. clear Hp1.
        sound_tac st1.
      * simpl. intros _ st2 (Hp2 & _).
        split; [eapply post_trans; eauto|]. left. destruct Hp2. lia.
    + simpl. split; [exact Hp1|]. right. now apply Hf.
  - intros _ st2 (Hp2 & Hcase). now apply clause_end.
Qed.

#[local] Hint Extern 1 (spec __device _) => apply device_spec : parser_specs.

Lemma advances_from st0 st1 st2 :
  Inv st1 -> advances st1 st2 ->
  (pm st2 <= pm st1)%nat -> (pm st1 <= pm st0)%nat ->
  is_type (symbol st0) EOF = false ->
  (pm st2 < pm st0)%nat.
Proof.
  intros Hi Ha H21 H10 Hne. pose proof (pm_not_EOF st0 Hne).
  destruct (is_type (symbol st1) EOF) eqn:E.
  - rewrite (Inv_pm_EOF st1 Hi E) in H21. lia.
  - specialize (Ha E). lia.
Qed.

Lemma loop_condition st :
  negb (is_type (symbol st) BRACE_RIGHT) && negb (is_type (symbol st) EOF)
  = true ->
  is_type (symbol st) EOF = false.
Proof.
  intros H. apply andb_prop in H. destruct H as [_ H].
  now apply negb_true_iff in H.
Qed.

(** ** The list of devices *)

Lemma missing_brace_spec id :
  spec (missing_brace id) (fun st brk st' => brk = false -> skip st' = skip st).
Proof.
  intros st Hi. unfold missing_brace. pstep.
  destruct (id_is (symbol st) id); [|simpl; split; [find_post st | auto]].
  unfold bind at 1, on_scanner, lift.
  pose proof (get_symbol_ok (scanner st) (proj1 (proj2 Hi))) as Hg.
  destruct (get_symbol (scanner st)) as [cs sc'|e sc'|]; simpl in Hg;
    [| |exact Hg].
  2:{ simpl. eapply weak_same; [|apply Hi]. repeat split. }
  destruct Hg as (Hpsc & Hcs & Hceof & Hclt).
  pstep.
  set (st1 := set_check_symbol (Some cs) (set_scanner sc' st)).
  assert (Hle1 : (pm st1 <= pm st)%nat).
  { unfold pm, st1; parser_fields. destruct Hpsc as (_ & Hle & _).
    lia. }
  assert (Hi1 : Inv st1).
  { destruct Hi as (Hw & Hsc & Hsym & Heof).
    split; [eapply weak_same; [|exact Hw]; repeat split|].
    split; [apply Hpsc|]. split; [exact Hsym|].
    intros E. unfold st1; parser_fields. specialize (Heof E).
    destruct Hpsc as (_ & Hle & _). lia. }
  assert (Hp1 : post st st1) by (split; assumption).
  destruct (is_type cs BRACE_LEFT) eqn:Ebrace.
  - pstep. call_with error_spec st; [find_post st|].
    intros out st2 Hp2 Hle2 (_ & _ & _ & _ & Hsym2).
    pstep. simpl. split; [|discriminate].
    (* the symbol at hand becomes the brace that was looked at *)
    destruct Hp2 as [(Hw2 & Hsc2 & _ & _) Hle2'].
    split.
    + split; [eapply weak_same; [|exact Hw2]; repeat split|].
      split; [exact Hsc2|]. split; [exact Hcs|].
      parser_fields. intros E.
      rewrite (is_type_other _ _ EOF Ebrace ltac:(discriminate)) in E.
      discriminate.
    + (* the brace came from the scanner after the keyword at hand *)
      unfold pm in *. parser_fields.
      rewrite (is_type_other _ _ EOF Ebrace ltac:(discriminate)).
      rewrite Hsym2 in Hle2. unfold st1 in *. parser_fields.
      specialize (Hclt (is_type_other _ _ EOF Ebrace ltac:(discriminate))).
      destruct (is_type (symbol st) EOF) eqn:Est.
      * destruct Hi as (_ & _ & _ & Heof). rewrite (Heof Est) in Hclt. lia.
      * lia.
  - call_with error_spec st; [find_post st|].
    intros out st2 Hp2 Hle2 (_ & _ & Hs2 & _).
    call_with next_symbol_spec st; [find_post st|].
    intros [] st3 Hp3 Hle3 ((_ & _ & _ & Hs3 & _) & _).
    simpl. split; [exact Hp3|]. intros _.
    unfold st1 in *. parser_fields. congruence.
Qed.

Lemma devicelist_loop_sound fuel st :
  Inv st -> (pm st < fuel)%nat ->
  outcome (devicelist_loop fuel st) (fun _ st' => post st st' /\ True) weak.
Proof.
  revert st; induction fuel as [|fuel IH]; intros st Hi Hf; [lia|].
  simpl.
  destruct (negb (is_type (symbol st) BRACE_RIGHT)
            && negb (is_type (symbol st) EOF)) eqn:E; [|finish st].
  apply loop_condition in E.
  call_with missing_brace_spec st; [find_post st|].
  intros brk st1 Hp1 Hle1 _.
  destruct brk; [finish st|].
  call_with device_spec st; [find_post st|].
  intros [] st2 Hp2 Hle2 Hadv.
  pose proof (advances_from st st1 st2 (proj1 Hp1) Hadv Hle2 Hle1 E) as Hlt.
  eapply outcome_weaken; [apply IH; [apply Hp2 | lia]| |auto].
  simpl. intros _ st3 ([Hi3 Hle3] & _).
  split; [|exact I]. split; [exact Hi3 | lia].
Qed.

Lemma devicelist_loop_bound_sound :
  sound (fun st => devicelist_loop (loop_bound st) st).
Proof.
  intros st Hi. apply devicelist_loop_sound;
    [exact Hi | apply loop_bound_enough].
Qed.

#[local] Hint Extern 1
  (spec (fun st => devicelist_loop (loop_bound st) st) _) =>
  apply devicelist_loop_bound_sound : parser_specs.

Lemma devicelist_sound : sound __devicelist.
Proof. intros st Hi. unfold __devicelist. sound_tac st. Qed.

#[local] Hint Extern 1 (spec __devicelist _) =>
  apply devicelist_sound : parser_specs.

(** ** Connections *)

Lemma points_loop_sound fuel st :
  Inv st -> (pm st < fuel)%nat ->
  outcome (points_loop fuel st) (fun _ st' => post st st' /\ True) weak.
Proof.
  revert st; induction fuel as [|fuel IH]; intros st Hi Hf; [lia|].
  simpl.
  destruct (is_type (symbol st) COMMA && negb (is_type (symbol st) EOF))
    eqn:E; [|finish st].
  apply andb_prop in E. destruct E as [_ E]. apply negb_true_iff in E.
  call_with next_symbol_spec st; [find_post st|].
  intros [] st1 Hp1 _ (_ & Hlt). specialize (Hlt E).
  call_with point_spec st; [find_post st|].
  intros b st2 Hp2 Hle2 _.
  eapply outcome_weaken; [apply IH; [apply Hp2 | lia]| |auto].
  simpl. intros _ st3 ([Hi3 Hle3] & _).
  split; [|exact I]. split; [exact Hi3|]. destruct Hp2. lia.
Qed.

Lemma points_sound : sound (fun st => points_loop (loop_bound st) st).
Proof.
  intros st Hi. apply points_loop_sound; [exact Hi | apply loop_bound_enough].
Qed.

#[local] Hint Extern 1 (spec (fun st => points_loop (loop_bound st) st) _) =>
  apply points_sound : parser_specs.

Lemma connect_from_ok out i devs pins st :
  Inv st -> error_ st = false ->
  outcome (connect_from out i devs pins st)
    (fun _ st' => post st st' /\ True) weak.
Proof.
  revert i st; induction devs as [|d devs IH]; intros i st Hi He; simpl.
  - finish st.
  - destruct (nth_error pins i) as [pin|]; [|apply Hi].
    destruct out as [[[[ods ops] odi] opi]|]; [|apply Hi].
    eapply outcome_bind; [apply kernel_call_ok; [exact Hi | exact He | exact I]
                         | |auto].
    simpl. intros error st1 (Hp1 & He1 & _).
    destruct (negb (error =? NO_ERROR)).
    + psteps.
      assert (Hrep : forall sym missing,
        outcome
          (match sym with
           | Some s =>
               __error (network_error_message error) None (Some s) ;; ret tt
           | None => raise missing
           end st1) (fun _ st' => post st st' /\ True) weak).
      { intros [s|] missing; [|apply Hp1].
        call_with error_spec st; [find_post st|]. intros. finish st. }
      repeat match goal with
             | |- outcome ((if ?b then _ else _) st1) _ _ => destruct b
             end;
        first [ apply Hrep
              | exact (Hrep (Some ods) IndexError)
              | exact (Hrep (Some ops) IndexError) ].
    + eapply outcome_weaken; [apply IH; [apply Hp1 | exact He1]| |auto].
      simpl. intros _ st2 (Hp2 & _). split; [|exact I].
      eapply post_trans; eauto.
Qed.

(** The end of a connection: the semicolon, unless [skip] is set. *)
Lemma con_end st0 st :
  Inv st0 -> post st0 st ->
  ((pm st < pm st0)%nat
   \/ (keeps_skipping ";" (symbol st) = false /\ skip st = skip st0)) ->
  outcome
    ((sk <- gets skip ;;
      when (negb sk)
        (sym <- gets symbol ;;
         if is_type sym SEMICOLON then next_symbol
         else __error "Expected ';'" None None ;; ret tt) ;;
      modify (set_skip false)) st)
    (fun _ st' =>
       post st0 st' /\ skip st' = false
       /\ (skip st0 = false -> advances st0 st'))
    weak.
Proof.
  intros Hi0 Hp Hcase. pstep.
  apply when_step; intros Hsk.
  - eapply outcome_bind; [apply (clause_end st0 st Hi0 Hp)| |auto].
    + destruct Hcase as [H|[H _]]; auto.
    + simpl. intros _ st1 (Hp1 & Hadv). split; [exact Hp1|].
      split; [reflexivity | intros _; exact Hadv].
  - simpl. split; [exact Hp|]. split; [reflexivity|].
    intros Hs0 _. destruct Hcase as [H|[_ H]]; [exact H|].
    rewrite H, Hs0 in Hsk. discriminate.
Qed.

Ltac branch_data :=
  lazymatch goal with
  | |- outcome (match ?x with _ => _ end _) _ _ => destruct x
  | |- outcome (bind (match ?x with _ => _ end) _ _) _ _ => destruct x
  end.

Ltac find_weak st0 :=
  cbn [outcome raise];
  match goal with
  | H : post st0 _ |- weak _ => exact (proj1 (proj1 H))
  | H : Inv _ |- weak _ => exact (proj1 H)
  end.

Lemma con_spec :
  spec __con (fun st _ st' =>
    skip st' = false /\ (skip st = false -> advances st st')).
Proof.
  intros st Hi. unfold __con. do 2 pstep.
  call_with point_spec st; [find_post st|].
  intros b st1 Hp1 _ (Hs1 & Ht & Hf).
  parser_fields.
  eapply outcome_bind with
    (Q1 := fun _ st2 =>
             post st st2
             /\ ((pm st2 < pm st)%nat
                 \/ (keeps_skipping ";" (symbol st2) = false
                     /\ skip st2 = skip st /\ error_ st2 = true)))
    (E1 := weak); [| |auto].
  - destruct b.
    + specialize (Ht eq_refl).
      change (pm (set_cur_pin_name_list [] (set_cur_device_name_list [] st)))
        with (pm st) in Ht.
      eapply outcome_weaken with
        (Q := fun _ st2 => post st1 st2 /\ True) (E := weak); [| |auto].
      * assert (Hi1 : Inv st1) by apply Hp1. clear Hp1.
        pstep.
        eapply outcome_bind with
          (Q1 := fun _ st2 => post st1 st2 /\ True) (E1 := weak); [| |auto].
        -- destruct (negb (error_ st1)); [|finish st1].
           psteps.
           destruct (cur_device_name_list st1); [find_weak st1|].
           destruct (cur_pin_name_list st1); [find_weak st1|].
           psteps. finish st1.
        -- intros out st2 (Hp2 & _). sound_tac st1.
      * simpl. intros _ st2 (Hp2 & _).
        split; [eapply post_trans; eauto|]. left. destruct Hp2. lia.
    + simpl. split; [exact Hp1|]. right.
      destruct (Hf eq_refl) as [He Hk]. auto.
  - intros out st2 (Hp2 & Hcase). pstep.
    eapply outcome_bind with
      (Q1 := fun _ st3 =>
               post st st3
               /\ ((pm st3 < pm st)%nat
                   \/ (keeps_skipping ";" (symbol st3) = false
                       /\ skip st3 = skip st)))
      (E1 := weak); [| |auto].
    + apply when_last; intros He.
      * apply negb_true_iff in He. psteps.
        eapply outcome_weaken;
          [apply connect_from_ok; [apply Hp2 | exact He]| |auto].
        simpl. intros _ st3 ([Hi3 Hle3] & _).
        destruct Hcase as [Hlt|(_ & _ & Hcontra)]; [|congruence].
        split; [split; [exact Hi3|destruct Hp2; lia]|]. left. lia.
      * simpl. split; [exact Hp2|].
        destruct Hcase as [Hlt|(Hk & Hs & _)]; [left; exact Hlt | right; auto].
    + intros _ st3 (Hp3 & Hcase3).
      eapply outcome_weaken; [apply (con_end st st3 Hi Hp3 Hcase3)| |auto].
      simpl. intros _ st4 (Hp4 & Hs4 & Hadv). split; [exact Hp4|].
      split; [exact Hs4 | exact Hadv].
Qed.

Lemma connectionlist_loop_sound fuel st :
  Inv st -> skip st = false -> (pm st < fuel)%nat ->
  outcome (connectionlist_loop fuel st) (fun _ st' => post st st' /\ True)
    weak.
Proof.
  revert st; induction fuel as [|fuel IH]; intros st Hi Hs Hf; [lia|].
  simpl.
  destruct (negb (is_type (symbol st) BRACE_RIGHT)
            && negb (is_type (symbol st) EOF)) eqn:E; [|finish st].
  apply loop_condition in E.
  call_with missing_brace_spec st; [find_post st|].
  intros brk st1 Hp1 Hle1 Hs1.
  destruct brk; [finish st|]. specialize (Hs1 eq_refl).
  call_with con_spec st; [find_post st|].
  intros [] st2 Hp2 Hle2 (Hs2 & Hadv).
  assert (Hadv' : advances st1 st2) by (apply Hadv; congruence).
  pose proof (advances_from st st1 st2 (proj1 Hp1) Hadv' Hle2 Hle1 E) as Hlt.
  eapply outcome_weaken; [apply IH; [apply Hp2 | exact Hs2 | lia]| |auto].
  simpl. intros _ st3 ([Hi3 Hle3] & _).
  split; [|exact I]. split; [exact Hi3 | lia].
Qed.

Lemma connectionlist_sound : sound __connectionlist.
Proof.
  intros st Hi. unfold __connectionlist. do 3 pstep.
  eapply outcome_bind with
    (Q1 := fun _ st1 => post st st1 /\ True) (E1 := weak); [| |auto].
  { sound_tac st. }
  intros _ st1 (Hp1 & _). pstep. pstep.
  eapply outcome_bind with
    (Q1 := fun _ st2 => post st st2 /\ skip st2 = false) (E1 := weak);
    [| |auto].
  { destruct (is_type (symbol (set_skip false st1)) BRACE_LEFT).
    - apply last_step. call_with next_symbol_spec st; [find_post st|].
      intros [] st2 Hp2 _ ((_ & _ & _ & Hs & _) & _).
      simpl. split; [exact Hp2 | exact Hs].
    - call_with error_spec st; [find_post st|].
      intros out st2 Hp2 _ (_ & _ & Hs & _).
      simpl. split; [exact Hp2 | exact Hs]. }
  intros _ st2 (Hp2 & Hs2).
  call_with con_spec st; [find_post st|].
  intros [] st3 Hp3 _ (Hs3 & _).
  eapply outcome_bind with
    (Q1 := fun _ st4 => post st st4 /\ True) (E1 := weak); [| |auto].
  { eapply outcome_weaken;
      [apply connectionlist_loop_sound;
       [apply Hp3 | exact Hs3 | apply loop_bound_enough]| |auto].
    simpl. intros _ st4 (Hp4 & _). split; [|exact I].
    eapply post_trans; eauto. }
  intros right_brace st4 (Hp4 & _). pstep.
  eapply outcome_bind with
    (Q1 := fun _ st5 => post st st5 /\ True) (E1 := weak); [| |auto].
  { apply when_last; intros He; [|finish st].
    apply negb_true_iff in He.
    unfold bind at 1.
    destruct (check_network (names (scanner st4)) (kernel st4))
      as [[n k] u].
    assert (Hi5 : Inv (set_kernel k (set_names_p n st4))).
    { destruct Hp4 as [([Hc (ms & es & Hcalls & Hm & Hes & Hn)] & Hr) _].
      split; [|exact Hr]. split; [exact Hc|].
      exists ms, []. parser_fields.
      rewrite Hcalls, (proj1 Hn He). repeat split; auto. }
    assert (Hp5 : post st (set_kernel k (set_names_p n st4))).
    { split; [exact Hi5|]. destruct Hp4 as [_ H]. exact H. }
    sound_tac st. }
  intros _ st5 (Hp5 & _). sound_tac st.
Qed.

#[local] Hint Extern 1 (spec __connectionlist _) =>
  apply connectionlist_sound : parser_specs.

(** ** Monitors *)

Lemma monitor_spec : spec __monitor (fun st _ st' => advances st st').
Proof.
  intros st Hi. unfold __monitor. do 2 pstep.
  call_with point_spec st; [find_post st|].
  intros b st1 Hp1 _ (_ & Ht & Hf).
  change (pm (set_cur_pin_name_list [] (set_cur_device_name_list [] st)))
    with (pm st) in Ht.
  pstep.
  eapply outcome_bind with
    (Q1 := fun _ st2 => post st st2
             /\ ((pm st2 < pm st)%nat
                 \/ keeps_skipping ";" (symbol st2) = false))
    (E1 := weak); [| |auto].
  - apply when_last; intros He.
    + apply negb_true_iff in He.
      destruct b; [|destruct (Hf eq_refl); congruence].
      specialize (Ht eq_refl). psteps.
      destruct (cur_device_name_list st1); [find_weak st|].
      destruct (cur_pin_name_list st1); [find_weak st|].
      eapply outcome_bind;
        [apply kernel_call_ok; [apply Hp1 | exact He | exact I]| |auto].
      simpl. intros error st2 (Hp2 & _).
      assert (Hp2' : post st st2) by (eapply post_trans; eauto).
      apply when_last; intros _.
      * call_with error_spec st; [find_post st|].
        intros out st3 Hp3 Hle3 _. simpl. split; [exact Hp3|].
        left. destruct Hp2. lia.
      * simpl. split; [exact Hp2'|]. left. destruct Hp2. lia.
    + simpl. split; [exact Hp1|].
      destruct b; [left; auto | right; apply Hf; reflexivity].
  - intros _ st2 (Hp2 & Hcase). now apply clause_end.
Qed.

Lemma monitorlist_loop_sound fuel st :
  Inv st -> (pm st < fuel)%nat ->
  outcome (monitorlist_loop fuel st) (fun _ st' => post st st' /\ True) weak.
Proof.
  revert st; induction fuel as [|fuel IH]; intros st Hi Hf; [lia|].
  simpl.
  destruct (negb (is_type (symbol st) BRACE_RIGHT)
            && negb (is_type (symbol st) EOF)) eqn:E; [|finish st].
  apply loop_condition in E.
  destruct (id_is (symbol st) (END_ID (kw (scanner st)))).
  - sound_tac st.
  - call_with monitor_spec st; [find_post st|].
    intros [] st2 Hp2 Hle2 Hadv. specialize (Hadv E).
    eapply outcome_weaken; [apply IH; [apply Hp2 | lia]| |auto].
    simpl. intros _ st3 ([Hi3 Hle3] & _).
    split; [|exact I]. split; [exact Hi3 | lia].
Qed.

Lemma monitorlist_loop_bound_sound :
  sound (fun st => monitorlist_loop (loop_bound st) st).
Proof.
  intros st Hi. apply monitorlist_loop_sound;
    [exact Hi | apply loop_bound_enough].
Qed.

#[local] Hint Extern 1 (spec __monitor _) =>
  apply (spec_sound _ _ monitor_spec) : parser_specs.
#[local] Hint Extern 1
  (spec (fun st => monitorlist_loop (loop_bound st) st) _) =>
  apply monitorlist_loop_bound_sound : parser_specs.

Lemma monitorlist_sound : sound __monitorlist.
Proof. intros st Hi. unfold __monitorlist. sound_tac st. Qed.

#[local] Hint Extern 1 (spec __monitorlist _) =>
  apply monitorlist_sound : parser_specs.

(** ** The whole file *)

Lemma circuit_sound : sound __circuit.
Proof. intros st Hi. unfold __circuit. sound_tac st. Qed.

#[local] Hint Extern 1 (spec __circuit _) =>
  apply circuit_sound : parser_specs.

Lemma Scanner_init_ok text names0 : sc_ok (Scanner_init text names0).
Proof.
  unfold Scanner_init.
  destruct (Names.lookup names0 keywords_list) as [ids names1].
  unfold fread1, sc_ok. cbn [file tell content current_character].
  change (Z.to_nat 0) with 0%nat.
  destruct text as [|a s].
  - cbn. split; [lia|]. left. split; reflexivity.
  - assert (E : substring 0 1 (String a s) = String a "").
    { simpl. destruct s; reflexivity. }
    rewrite E. cbn [file tell content current_character].
    change (Py.len (String a "")) with 1. rewrite len_String.
    pose proof (len_nonneg s).
    split; [lia|]. right. split; [lia|].
    change (Z.to_nat (0 + 1 - 1)) with 0%nat. now rewrite E.
Qed.

Lemma new_parser_Inv text names0 k0 :
  outcome (new_parser text names0 k0) (fun _ st => Inv st) weak.
Proof.
  unfold new_parser, Parser_init.
  pose proof (get_symbol_ok _ (Scanner_init_ok text names0)) as H.
  destruct (get_symbol (Scanner_init text names0)) as [sym sc'|e sc'|];
    simpl in H |- *; [| |exact H].
  - destruct H as (Hp & Hs & He & _).
    split; [|split; [apply Hp | split; [exact Hs | exact He]]].
    split; [split; [simpl; lia | reflexivity]|].
    exists [], []. repeat split; constructor.
  - split; [split; [simpl; lia | reflexivity]|].
    exists [], []. repeat split; constructor.
Qed.

Lemma append_assoc (a b c : string) : (a ++ b) ++ c = a ++ b ++ c.
Proof. induction a; simpl; congruence. Qed.

(** [parse_network] from any state with the invariant. *)
Lemma parse_network_spec :
  spec parse_network (fun _ b st' =>
    (b = true <-> error_count st' = 0)
    /\ exists text printed,
         error_msg st'
         = text ++ Py.nl ++ Py.nl ++ error_count_line (error_count st')
         /\ stdout (scanner st')
            = (printed
                 ++ [(error_count_line (error_count st') ++ Py.nl)%string])%list).
Proof.
  intros st Hi. unfold parse_network.
  eapply outcome_bind with
    (Q1 := fun _ st1 => post st st1 /\ True) (E1 := weak); [| |auto].
  { sound_tac st. }
  intros _ st1 (Hp1 & _). do 2 pstep.
  eapply outcome_bind with
    (Q1 := fun _ st2 => post st st2 /\ True) (E1 := weak); [| |auto].
  { sound_tac st. }
  intros _ st2 (Hp2 & _). psteps.
  unfold bind at 1, on_scanner, lift, print, modify. psteps. simpl.
  split; [exact Hp2|].
  destruct Hp2 as [([[H0 H1] _] & _) _]. split.
  - rewrite H1. destruct (Z.ltb_spec 0 (error_count st2)); simpl;
      split; intros; try discriminate; try lia; reflexivity.
  - exists (error_msg st2), (stdout (scanner st2)). split; reflexivity.
Qed.



End ParserProperties.

(* ------------------------------------------------------------------ *)
(** ** The claims about the parser *)

Section ParserClaims.

Context {kernel_impl : Kernel}.

(** ** What the error routine does *)

Lemma keeps_bind {A B} (c : M Parser A) (k : A -> M Parser B) st :
  keeps st (c st) ->
  (forall a st', same_but_input st st' -> keeps st' (k a st')) ->
  keeps st (bind c k st).
Proof.
  unfold bind. destruct (c st) as [a st'|e st'|]; simpl; auto.
  intros H Hk. specialize (Hk a st' H).
  destruct (k a st'); simpl in *; auto;
    eapply same_but_input_trans; eauto.
Qed.

Lemma on_scanner_keeps {A} (c : M Scanner A) st : keeps st (on_scanner c st).
Proof.
  unfold on_scanner, lift. destruct (c (scanner st)); simpl; auto;
    repeat split.
Qed.

Lemma next_symbol_keeps st : keeps st (next_symbol st).
Proof.
  unfold next_symbol. apply keeps_bind; [apply on_scanner_keeps|].
  intros sym st' H. simpl. exact (same_but_input_refl _).
Qed.

Lemma error_loop_keeps fuel stop st : keeps st (error_loop fuel stop st).
Proof.
  revert st; induction fuel as [|fuel IH]; intros st; simpl; [exact I|].
  destruct (keeps_skipping stop (symbol st)).
  - apply keeps_bind; [apply next_symbol_keeps|]. intros _ st' _. apply IH.
  - apply same_but_input_refl.
Qed.

Lemma gets_step_eq {A B} (f : Parser -> A) (k : A -> M Parser B) st
    (P : res Parser B -> Prop) :
  P (k (f st) st) -> P (bind (gets f) k st).
Proof. auto. Qed.

Lemma modify_step_eq {B} (f : Parser -> Parser) (k : unit -> M Parser B) st
    (P : res Parser B -> Prop) :
  P (k tt (f st)) -> P (bind (modify f) k st).
Proof. auto. Qed.

Lemma error_effect_of message stop symbol_arg st :
  match __error message stop symbol_arg st with
  | Ok _ st' | Raise _ st' => error_effect message st st'
  | OutOfFuel => True
  end.
Proof.
  unfold __error. apply gets_step_eq. do 3 apply modify_step_eq.
  set (st1 := error_noted message st).
  set (sym := match symbol_arg with Some s => s | None => symbol st end).
  match goal with
  | |- context [bind (on_scanner ?c) ?k ?s] => change s with st1
  end.
  assert (H1 : error_effect message st st1) by (repeat split).
  assert (Hk : forall st2, same_but_input st1 st2 ->
                 error_effect message st st2).
  { intros st2 (Hk & He & Hc & Hs & Hl).
    destruct H1 as (? & ? & ? & ? & ?).
    repeat split; congruence. }
  pose proof (on_scanner_keeps (print_error sym message) st1) as Hpe.
  unfold bind at 1.
  destruct (on_scanner (print_error sym message) st1) as [out st2|e st2|];
    simpl in Hpe; [|now apply Hk|exact I].
  destruct stop as [stop|].
  - pose proof (error_loop_keeps (loop_bound st2) stop st2) as Hl.
    unfold bind at 1.
    destruct (error_loop (loop_bound st2) stop st2) as [[] st3|e st3|];
      simpl in Hl; [| |exact I].
    + simpl. apply Hk.
      eapply same_but_input_trans; [exact Hpe|].
      eapply same_but_input_trans; [exact Hl|]. repeat split.
    + apply Hk. eapply same_but_input_trans; eauto.
  - simpl. apply Hk.
    eapply same_but_input_trans; [exact Hpe|]. repeat split.
Qed.


(** ** Parsing a whole file *)

(** On every file [parse_network] comes to an end.  When it returns, it
    returns true exactly when the error counter is zero, the error text ends
    with two line ends and the line [Error Count: N], and that line is the
    last one written to the standard output. *)
Lemma parse_network_result text names0 k0 :
  outcome (run_parser text names0 k0)
    (fun b st =>
       (b = true <-> error_count st = 0)
       /\ exists text_before printed_before,
            error_msg st
            = text_before ++ Py.nl ++ Py.nl
                ++ "Error Count: " ++ Py.str (error_count st)
            /\ stdout (scanner st)
               = (printed_before
                    ++ [("Error Count: " ++ Py.str (error_count st)
                           ++ Py.nl)%string])%list)
    (fun _ => True).
Proof.
  unfold run_parser.
  pose proof (new_parser_Inv text names0 k0) as H.
  destruct (new_parser text names0 k0) as [[] st|e st|]; simpl in H;
    [|exact I|exact H].
  eapply outcome_weaken; [apply parse_network_spec, H| |auto].
  simpl. intros b st' (_ & Hb & Ht). split; [exact Hb | exact Ht].
Qed.

(** C9. In the history of a parse all the calls that make a device, a
    connection or a monitor come before all the error reports, and each
    error was reported in the state the kernel has at the end: once an error
    is reported, and the error flag with it set, nothing is made and the
    kernel stays as it is.  This holds also for a parse that an exception
    ends. *)
Theorem nothing_made_after_error text names0 k0 :
  let frozen (st : Parser) :=
    exists makes errors,
      calls st = (makes ++ errors)%list
      /\ Forall is_make makes
      /\ Forall (is_error_at (kernel st)) errors
      /\ (error_ st = true <-> errors <> []) in
  outcome (run_parser text names0 k0) (fun _ st => frozen st) frozen.
Proof.
  intros frozen.
  assert (Hw : forall st, weak st -> frozen st).
  { intros st [[H0 H1] (ms & es & Hc & Hm & He & Hn)].
    exists ms, es. split; [exact Hc|]. split; [exact Hm|].
    split; [exact He|]. split.
    - intros Ht E. apply Hn in E. congruence.
    - intros Hne. destruct (error_ st); [reflexivity|].
      now destruct Hne; apply Hn. }
  unfold run_parser.
  pose proof (new_parser_Inv text names0 k0) as H.
  destruct (new_parser text names0 k0) as [[] st|e st|]; simpl in H;
    [|now apply Hw|exact H].
  eapply outcome_weaken; [apply parse_network_spec, H| |exact Hw].
  simpl. intros b st' ([Hi _] & _). apply Hw, Hi.
Qed.

(** ** The parameter of a gate *)

Lemma next_symbol_eq st sym sc' :
  get_symbol (scanner st) = Ok sym sc' ->
  next_symbol st = Ok tt (set_symbol sym (set_scanner sc' st)).
Proof.
  intros H. unfold next_symbol, bind, on_scanner, lift. now rewrite H.
Qed.

Lemma error_outcome message stop symbol_arg st :
  Inv st ->
  outcome (__error message stop symbol_arg st)
    (fun _ st' => error_effect message st st') (error_effect message st).
Proof.
  intros Hi.
  pose proof (error_effect_of message stop symbol_arg st) as Heff.
  pose proof (error_spec message stop symbol_arg st Hi) as Hspec.
  destruct (__error message stop symbol_arg st); simpl in *; auto.
Qed.

Lemma next_symbol_Inv st sym sc' :
  Inv st -> get_symbol (scanner st) = Ok sym sc' ->
  Inv (set_symbol sym (set_scanner sc' st)).
Proof.
  intros Hi H. pose proof (next_symbol_spec st Hi) as Hs.
  rewrite (next_symbol_eq _ _ _ H) in Hs. apply Hs.
Qed.

(** C3, as the code has it.  After [AND] and the opening parenthesis, a
    number that is not in 1..16 (the scanner makes numbers from 1 on, so
    one above 16, as in [AND(17)]) is reported with
    [Number of inputs must be between 1-16]; a symbol that is no number,
    as the [ZERO] the scanner makes of [0] in [AND(0)], is reported with
    [Expected number of inputs for AND gate (valid range: 1-16)]. *)
Theorem and_parameter_message st sym sc' :
  Inv st ->
  is_type (symbol st) PARENTHESIS_LEFT = true ->
  get_symbol (scanner st) = Ok sym sc' ->
  (forall s n,
      is_type sym NUMBER = true ->
      sy_string sym = Some s -> Py.int s = Some n ->
      ~ (0 < n <= 16) ->
      outcome (__And st)
        (fun _ st' => reports "Number of inputs must be between 1-16" st st')
        (reports "Number of inputs must be between 1-16" st))
  /\ (is_type sym ZERO = true ->
      outcome (__And st)
        (fun _ st' =>
           reports "Expected number of inputs for AND gate (valid range: 1-16)"
             st st')
        (reports "Expected number of inputs for AND gate (valid range: 1-16)"
           st)).
Proof.
  intros Hi Hparen Hget.
  pose proof (next_symbol_Inv st sym sc' Hi Hget) as Hi1.
  set (st1 := set_symbol sym (set_scanner sc' st)) in *.
  split.
  - intros s n Hnum Hs Hint Hrange.
    unfold __And, gate_inputs. apply gets_step. rewrite Hparen.
    rewrite (bind_Ok _ _ _ _ _ (next_symbol_eq st sym sc' Hget)).
    fold st1. apply gets_step.
    change (symbol st1) with sym. rewrite Hnum.
    assert (Eint : int_of_symbol st1 = Ok n st1).
    { unfold int_of_symbol, bind, gets.
      change (symbol st1) with sym. now rewrite Hs, Hint. }
    rewrite (bind_Ok _ _ _ _ _ Eint).
    assert (Eout : negb ((0 <? n) && (n <=? 16)) = true).
    { apply negb_true_iff, andb_false_iff.
      destruct (Z.ltb_spec 0 n); [right|left; reflexivity].
      apply Z.leb_gt. lia. }
    rewrite Eout. cbn [when]. apply bind_assoc_step. apply modify_step.
    apply bind_assoc_step.
    eapply outcome_bind;
      [apply (error_outcome _ _ _ (set_skip true st1)); exact Hi1| |].
    + intros out st2 (He & Hc & Hl & Hk & Hsk).
      apply ret_step. apply gets_step. rewrite He. cbn [negb when].
      apply ret_step. apply gets_step. rewrite Hsk. cbn [skip set_skip].
      cbn [negb when]. apply ret_step. simpl.
      split; [exact Hl | exact Hc].
    + intros st2 (He & Hc & Hl & Hk & Hsk). split; [exact Hl | exact Hc].
  - intros Hzero.
    assert (Hnum : is_type sym NUMBER = false)
      by (eapply is_type_other; [exact Hzero | discriminate]).
    unfold __And, gate_inputs. apply gets_step. rewrite Hparen.
    rewrite (bind_Ok _ _ _ _ _ (next_symbol_eq st sym sc' Hget)).
    fold st1. apply gets_step.
    change (symbol st1) with sym. rewrite Hnum.
    eapply outcome_bind; [apply (error_outcome _ _ _ st1); exact Hi1| |].
    + intros out st2 (He & Hc & Hl & Hk & Hsk). simpl.
      split; [exact Hl | exact Hc].
    + intros st2 (He & Hc & Hl & Hk & Hsk). split; [exact Hl | exact Hc].
Qed.

End ParserClaims.


Lemma started_Inv text :
  (exists st, @new_parser accepting_kernel text [] 0 = Ok tt st) ->
  @Inv accepting_kernel (started text).
Proof.
  intros [st E]. unfold started.
  pose proof (@new_parser_Inv accepting_kernel text [] 0) as H.
  rewrite E in *. exact H.
Qed.

Lemma and_parameter_message_witness :
  let st := started "(17);" in
  Inv st
  /\ is_type (symbol st) PARENTHESIS_LEFT = true
  /\ exists sym sc',
       get_symbol (scanner st) = Ok sym sc'
       /\ is_type sym NUMBER = true
       /\ sy_string sym = Some "17" /\ Py.int "17" = Some 17
       /\ ~ (0 < 17 <= 16)
       /\ outcome (__And st)
            (fun _ st' =>
               reports "Number of inputs must be between 1-16" st st')
            (reports "Number of inputs must be between 1-16" st).
Proof.
  intros st.
  assert (Hi : Inv st)
    by (apply started_Inv; eexists; vm_compute; reflexivity).
  assert (Hp : is_type (symbol st) PARENTHESIS_LEFT = true) by reflexivity.
  split; [exact Hi|]. split; [exact Hp|].
  destruct (get_symbol (scanner st)) as [sym sc'| |] eqn:E;
    [| vm_compute in E; discriminate E | vm_compute in E; discriminate E].
  assert (Hsym : sym = mkSymbol (Some NUMBER) (Some 17) (Some 1) (Some "17")).
  { vm_compute in E. now injection E as <- _. }
  exists sym, sc'. subst sym.
  assert (Hr : ~ (0 < 17 <= 16)) by lia.
  repeat (split; [reflexivity|]). split; [exact Hr|].
  exact (proj1 (and_parameter_message st _ sc' Hi Hp E) "17" 17
           eq_refl eq_refl eq_refl Hr).
Defined.

(** C3, against the claim as stated: for the clause [and1 = AND(0);] the
    parser reports one error, and it is not
    [Number of inputs must be between 1-16]. *)
Lemma and_zero_reports_another_message :
  exists st',
    @__device accepting_kernel (started "and1 = AND(0);") = Ok tt st'
    /\ calls st'
       = [@CError accepting_kernel
            "Expected number of inputs for AND gate (valid range: 1-16)" 0]
    /\ ~ (exists k,
            In (@CError accepting_kernel
                  "Number of inputs must be between 1-16" k)
               (calls st')).
Proof.
  eexists. split; [vm_compute; reflexivity|].
  split; [reflexivity|].
  intros [k [H|[]]]. discriminate H.
Qed.


(** C2, at a switch whose parameter is the name with the ID 0.  With the
    name table empty when the scanner is made, [CIRCUIT] has the ID 0; the
    clause [SW1 = SWITCH(CIRCUIT);] is taken without error and a switch is
    made with the state 0. *)
Theorem switch_takes_the_name_with_id_0 :
  returned (symbols 5 (Scanner_init "SW1 = SWITCH(CIRCUIT);" []))
  = Some [mkSymbol (Some NAME) (Some 14) (Some 0) (Some "SW1");
          mkSymbol (Some EQUALS) None (Some 4) (Some "=");
          mkSymbol (Some KEYWORD) (Some 6) (Some 6) (Some "SWITCH");
          mkSymbol (Some PARENTHESIS_LEFT) None (Some 12) (Some "(");
          mkSymbol (Some KEYWORD) (Some 0) (Some 13) (Some "CIRCUIT")]
  /\ exists st',
       @__device accepting_kernel (started "SW1 = SWITCH(CIRCUIT);")
       = Ok tt st'
       /\ error_ st' = false
       /\ error_count st' = 0
       /\ calls st' = [@CMakeSwitch accepting_kernel 14 (Some 0)].
Proof.
  split; [vm_compute; reflexivity|].
  eexists. split; [vm_compute; reflexivity|].
  repeat split.
Qed.


(* ------------------------------------------------------------------ *)
(** * Further properties of the code *)

Lemma str_index_app_new s l :
  Py.str_index s l = None ->
  Py.str_index s (l ++ [s]) = Some (List.length l).
Proof.
  induction l as [|x l IH]; simpl.
  - now rewrite String.eqb_refl.
  - destruct (String.eqb x s); [discriminate|].
    destruct (Py.str_index s l); [discriminate|].
    intros _. now rewrite IH.
Qed.

Lemma str_index_app_old s l x i :
  Py.str_index s l = Some i -> Py.str_index s (l ++ [x]) = Some i.
Proof.
  revert i; induction l as [|y l IH]; intros i; simpl; [discriminate|].
  destruct (String.eqb y s); [auto|].
  destruct (Py.str_index s l) as [j|]; [|discriminate].
  now rewrite (IH j eq_refl).
Qed.

Lemma mynames_lookup_cases l s :
  (exists i, Py.str_index s l = Some i
             /\ MyNames.lookup l s = (Z.of_nat i, l))
  \/ (Py.str_index s l = None
      /\ MyNames.lookup l s = (Z.of_nat (List.length l), (l ++ [s])%list)).
Proof.
  unfold MyNames.lookup. destruct (Py.str_index s l) as [i|] eqn:E.
  - left. exists i. auto.
  - right. split; [reflexivity|]. f_equal.
    rewrite length_app. simpl. lia.
Qed.

(** X1 [mynames.py], [MyNames.lookup]: asking for the same string again gives
    the same ID and leaves the table as it is. *)
Theorem mynames_lookup_again (l : MyNames.t) (s : string) :
  let (i, l') := MyNames.lookup l s in MyNames.lookup l' s = (i, l').
Proof.
  destruct (mynames_lookup_cases l s) as [(i & E & ->)|(E & ->)].
  - unfold MyNames.lookup. now rewrite E.
  - unfold MyNames.lookup. rewrite (str_index_app_new _ _ E). reflexivity.
Qed.

Lemma mynames_get_string_nth l j :
  0 <= j < Z.of_nat (List.length l) ->
  MyNames.get_string l j = MyNames.Returned (nth_error l (Z.to_nat j)).
Proof.
  intros H. unfold MyNames.get_string.
  destruct (Z.ltb_spec j 0); [lia|].
  destruct (Z.geb_spec j (Z.of_nat (List.length l))); [lia|]. reflexivity.
Qed.

(** X2 [MyNames.lookup] keeps the IDs it has handed out: whatever string is
    looked up next, [get_string] answers as before on every ID of the table,
    and the table grows by one entry at most. *)
Theorem mynames_lookup_keeps_ids (l : MyNames.t) (s : string) (j : Z) :
  0 <= j < Z.of_nat (List.length l) ->
  let l' := snd (MyNames.lookup l s) in
  MyNames.get_string l' j = MyNames.get_string l j
  /\ (List.length l <= List.length l' <= List.length l + 1)%nat.
Proof.
  intros Hj.
  destruct (mynames_lookup_cases l s) as [(i & E & ->)|(E & ->)]; simpl.
  - split; [reflexivity | lia].
  - rewrite length_app. simpl. split; [|lia].
    rewrite !mynames_get_string_nth by (rewrite ?length_app; simpl; lia).
    f_equal. apply nth_error_app1. lia.
Qed.

Lemma mynames_lookup_keeps_ids_witness :
  let l := ["a"; "b"] in
  0 <= 1 < Z.of_nat (List.length l)
  /\ MyNames.get_string (snd (MyNames.lookup l "c")) 1 = MyNames.get_string l 1.
Proof.
  split; [simpl; lia|].
  apply (mynames_lookup_keeps_ids ["a"; "b"] "c" 1). simpl; lia.
Defined.

Lemma mynames_lookup_nth l s :
  let (i, l') := MyNames.lookup l s in
  0 <= i /\ nth_error l' (Z.to_nat i) = Some s.
Proof.
  destruct (mynames_lookup_cases l s) as [(i & E & ->)|(E & ->)].
  - split; [lia|]. rewrite Nat2Z.id. now apply str_index_Some.
  - split; [lia|]. rewrite Nat2Z.id.
    rewrite nth_error_app2 by lia. now rewrite Nat.sub_diag.
Qed.

(** X3 Two look-ups, one after the other, give the same ID exactly when they
    are made with the same string. *)
Theorem mynames_same_id_same_string (l : MyNames.t) (s1 s2 : string) :
  let (i, l1) := MyNames.lookup l s1 in
  let (j, l2) := MyNames.lookup l1 s2 in
  i = j <-> s1 = s2.
Proof.
  pose proof (mynames_lookup_nth l s1) as H1.
  pose proof (mynames_lookup_again l s1) as Hagain.
  destruct (MyNames.lookup l s1) as [i l1].
  pose proof (mynames_lookup_nth l1 s2) as H2.
  destruct (mynames_lookup_cases l1 s2) as [(k & E & El)|(E & El)];
    rewrite El in *.
  - split.
    + intros ->. destruct H1 as [_ H1], H2 as [_ H2]. congruence.
    + intros <-. rewrite El in Hagain. now injection Hagain as <-.
  - split.
    + intros ->. destruct H1 as [_ H1], H2 as [_ H2].
      rewrite Nat2Z.id in *.
      assert (List.length l1 < List.length l1)%nat; [|lia].
      apply nth_error_Some. congruence.
    + intros <-. rewrite El in Hagain. now injection Hagain as <- _.
Qed.

Lemma mynames_lookup_In l s x :
  In x (snd (MyNames.lookup l s)) <-> In x l \/ x = s.
Proof.
  destruct (mynames_lookup_cases l s) as [(i & E & ->)|(E & ->)]; simpl.
  - split; [auto|]. intros [H| ->]; [exact H|].
    eapply nth_error_In, str_index_Some, E.
  - rewrite in_app_iff. simpl. intuition.
Qed.

Lemma mynames_fold_In ss l x :
  In x (fold_left (fun l s => snd (MyNames.lookup l s)) ss l)
  <-> In x l \/ In x ss.
Proof.
  revert l; induction ss as [|s ss IH]; intros l; simpl; [tauto|].
  rewrite IH, mynames_lookup_In. intuition.
Qed.

(** X4 The table after a run of look-ups from the empty table holds exactly the
    strings that were looked up, each of them once. *)
Theorem mynames_table_content (ss : list string) :
  NoDup (MyNames.after ss)
  /\ (forall x, In x (MyNames.after ss) <-> In x ss)
  /\ List.length (MyNames.after ss) = List.length (nodup string_dec ss).
Proof.
  assert (Hin : forall x, In x (MyNames.after ss) <-> In x ss).
  { intros x. unfold MyNames.after. rewrite mynames_fold_In.
    unfold MyNames.init. simpl. tauto. }
  pose proof (mynames_after_NoDup ss) as Hnd.
  split; [exact Hnd|]. split; [exact Hin|].
  apply Nat.le_antisymm; apply NoDup_incl_length.
  - exact Hnd.
  - intros x Hx. apply nodup_In, Hin, Hx.
  - apply NoDup_nodup.
  - intros x Hx. apply Hin. eapply nodup_In, Hx.
Qed.

(** X5 The two preliminary name tables agree: on every table and string
    [lookup] of [prelim sai34] finds its string (its [index] never fails)
    and returns the ID and the table that [lookup] of [Prelim rjh254]
    returns, and [get_string] is the same function on every [int]. *)
Theorem mynames_sai34_agrees (l : list string) (s : string) (j : Z) :
  MyNames_sai34.lookup l s
  = (Some (fst (MyNames.lookup l s)), snd (MyNames.lookup l s))
  /\ MyNames_sai34.get_string l j = MyNames.get_string l j.
Proof.
  split.
  - unfold MyNames_sai34.lookup, Py.str_in.
    destruct (mynames_lookup_cases l s) as [(i & E & ->)|(E & ->)];
      rewrite E; simpl.
    + now rewrite E.
    + now rewrite (str_index_app_new _ _ E).
  - unfold MyNames_sai34.get_string, MyNames.get_string.
    destruct (j <? 0); [reflexivity|].
    destruct (Z.ltb_spec j (Z.of_nat (List.length l)));
      destruct (Z.geb_spec j (Z.of_nat (List.length l))); try lia; reflexivity.
Qed.

(** ** [print_error] on every symbol *)

(** The line of a position: the line that holds it, or the last line for a
    position from the end of the file on. *)
Lemma locate_line_or_last sc sym p pre line post :
  lines_ok sc ->
  sy_position sym = Some p ->
  Py.file_lines (content (file sc)) = (pre ++ line :: post)%list ->
  total_length pre <= p ->
  p < total_length pre + Py.len line \/ post = [] ->
  exists t,
    locate sym sc
    = Ok (chomp line, p - total_length pre, Z.of_nat (List.length pre) + 1)
         (set_file (mkFile (content (file sc)) t) sc).
Proof.
  intros [Hlens Htell] Hp Hlines Hlow Hhigh.
  pose proof (file_lines_positive (content (file sc))) as Hpos.
  rewrite Hlines in Hpos.
  apply Forall_app in Hpos. destruct Hpos as [Hpre Hpost].
  inversion Hpost as [|? ? Hline Hpost']; subst.
  assert (Hmap : forall (l : list string),
            Forall (fun l => 0 < Py.len l) l ->
            Forall (fun x => 0 < x) (map Py.len l)).
  { induction 1; simpl; constructor; auto. }
  apply Hmap in Hpre, Hpost'.
  set (P := total_length pre) in *.
  assert (Hsol : sol_positions (line_lengths sc)
                 = (starts 0 (map Py.len pre)
                      ++ P :: starts (P + Py.len line) (map Py.len post))%list).
  { rewrite Hlens, Hlines, sol_positions_starts, map_app, starts_app.
    reflexivity. }
  set (A := starts 0 (map Py.len pre)) in *.
  set (B := starts (P + Py.len line) (map Py.len post)) in *.
  assert (HA : Forall (fun s => s < P) A).
  { apply (starts_below 0 _ Hpre). }
  assert (HB : Forall (fun s => p < s) B).
  { destruct Hhigh as [Hlt | ->]; [|constructor].
    eapply Forall_impl; [|apply (starts_above _ _ Hpost')].
    simpl. intros; lia. }
  set (rel := fun s : Z => s - p).
  assert (Hfilter : filter (fun i => i <=? 0) (map rel (A ++ P :: B))
                    = (map rel A ++ [rel P])%list).
  { rewrite map_app, filter_app. simpl map. simpl filter.
    rewrite filter_all.
    2:{ apply Forall_map. eapply Forall_impl; [|exact HA].
        unfold rel; simpl; intros; lia. }
    f_equal.
    destruct (Z.leb_spec (rel P) 0) as [_|H]; [|unfold rel in H; lia].
    rewrite filter_none; [reflexivity|].
    apply Forall_map. eapply Forall_impl; [|exact HB].
    unfold rel; simpl; intros; lia. }
  assert (Hmax : match (map rel A ++ [rel P])%list with
                 | x :: xs => Py.max_list x xs = rel P
                 | [] => False
                 end).
  { apply max_list_last. apply Forall_map.
    eapply Forall_impl; [|exact HA]. unfold rel; simpl; intros; lia. }
  assert (Hidx : Py.index_of (rel P) (map rel (A ++ P :: B))
                 = Some (List.length pre)).
  { rewrite map_app. simpl map. rewrite index_of_app.
    - f_equal. unfold A. rewrite length_map.
      clear. generalize 0. induction pre; intros; simpl; auto.
    - apply Forall_map. eapply Forall_impl; [|exact HA].
      unfold rel; simpl; intros; lia. }
  assert (Hne : forall (X : Type) (a b : X),
            match (A ++ P :: B)%list with [] => a | _ :: _ => b end = b).
  { intros. destruct A; reflexivity. }
  unfold locate, bind, gets. cbv zeta.
  rewrite Hsol, Hne, Hp. fold rel.
  rewrite Hfilter.
  destruct (map rel A ++ [rel P])%list as [|x xs] eqn:Ef; [contradiction|].
  rewrite Hmax, Z.opp_involutive, Hidx.
  unfold seek. change (0 <? 0) with false. cbv iota.
  cbn [file set_file fread_all tell content].
  change (Z.to_nat 0) with 0%nat.
  rewrite Nat.sub_0_r, substring_full.
  replace (Z.to_nat (Z.of_nat (List.length pre) + 1 - 1))
    with (List.length pre) by lia.
  rewrite (split_nl_line _ _ _ _ Hlines).
  unfold ret, rel. eexists. f_equal; [|reflexivity].
  f_equal. f_equal. lia.
Qed.

Lemma last_line {A} (l : list A) :
  l <> [] -> exists pre x, l = (pre ++ [x])%list.
Proof.
  intros H. destruct (exists_last H) as (pre & x & ->). eauto.
Qed.

(** Where [print_error] finds a position that is not negative. *)
Lemma position_line (lines : list string) (p : Z) :
  lines <> [] -> 0 <= p ->
  exists pre line post,
    lines = (pre ++ line :: post)%list
    /\ total_length pre <= p
    /\ (p < total_length pre + Py.len line \/ post = []).
Proof.
  intros Hne Hp.
  destruct (Z.ltb_spec p (total_length lines)) as [Hlt|Hge].
  - destruct (position_in_line lines p ltac:(lia))
      as (pre & line & post & -> & Hb).
    exists pre, line, post. split; [reflexivity|]. split; [lia|]. left; lia.
  - destruct (last_line lines Hne) as (pre & x & ->).
    exists pre, x, []. split; [reflexivity|].
    rewrite total_length_app in Hge.
    assert (0 <= total_length [x]).
    { unfold total_length, Py.sum. simpl. pose proof (len_nonneg x). lia. }
    split; [lia | right; reflexivity].
Qed.

Lemma print_error_at sc sym sugg p pre line post :
  lines_ok sc ->
  sy_position sym = Some p ->
  Py.file_lines (content (file sc)) = (pre ++ line :: post)%list ->
  total_length pre <= p ->
  p < total_length pre + Py.len line \/ post = [] ->
  print_error sym sugg sc
  = let '(shown, caret) := shorten (chomp line) (p - total_length pre) in
    let out := error_text (Z.of_nat (List.length pre) + 1) shown caret sugg in
    Ok out (set_stdout
              (stdout sc ++ [(Py.nl ++ Py.nl ++ out ++ Py.nl)%string])%list sc).
Proof.
  intros Hok Hp Hlines Hlow Hhigh.
  destruct (locate_line_or_last sc sym p pre line post Hok Hp Hlines Hlow Hhigh)
    as [t Hloc].
  destruct Hok as [_ Htell].
  unfold print_error. unfold bind at 1. unfold gets at 1.
  unfold bind at 1. rewrite Hloc.
  destruct (shorten (chomp line) (p - total_length pre)) as [shown caret].
  generalize (error_text (Z.of_nat (List.length pre) + 1) shown caret sugg).
  intros o. unfold bind, print, modify, seek, ret.
  cbn [file set_file set_stdout tell content stdout].
  destruct (Z.ltb_spec (tell (file sc)) 0); [lia|].
  destruct sc as [[? ?]]. reflexivity.
Qed.

Lemma print_error_no_line sc sym sugg :
  line_lengths sc = [] -> 0 <= tell (file sc) ->
  print_error sym sugg sc
  = let out := error_text 1 "" 0 sugg in
    Ok out (set_stdout
              (stdout sc ++ [(Py.nl ++ Py.nl ++ out ++ Py.nl)%string])%list sc).
Proof.
  intros Hl Ht. unfold print_error, locate, bind, gets. rewrite Hl.
  cbn [sol_positions List.length seq map ret].
  change (shorten "" 0) with ("", 0). cbv iota beta.
  unfold print, modify, seek.
  cbn [file set_file set_stdout tell content stdout].
  destruct (Z.ltb_spec (tell (file sc)) 0); [lia|].
  destruct sc as [[? ?]]. reflexivity.
Qed.

(** The message of [print_error] ends with the suggestion. *)
Lemma error_text_suggestion line shown caret sugg :
  exists head, error_text line shown caret sugg = head ++ sugg.
Proof.
  unfold error_text.
  exists ("Error on line " ++ Py.str line ++ ":" ++ Py.nl ++ Py.nl
            ++ shown ++ Py.nl
            ++ Py.repeat_str " " (Z.to_nat caret) ++ "^" ++ Py.nl ++ Py.nl).
  rewrite !append_assoc. reflexivity.
Qed.

Lemma print_error_total sc sym sugg p :
  lines_ok sc ->
  sy_position sym = Some p ->
  0 <= p ->
  exists out head,
    print_error sym sugg sc
    = Ok out (set_stdout
                (stdout sc ++ [(Py.nl ++ Py.nl ++ out ++ Py.nl)%string])%list sc)
    /\ out = head ++ sugg.
Proof.
  intros Hok Hp H0.
  destruct (Py.file_lines (content (file sc))) as [|l0 ls] eqn:El.
  - rewrite print_error_no_line; [| destruct Hok as [-> _]; now rewrite El
                                  | apply Hok ].
    cbv zeta. destruct (error_text_suggestion 1 "" 0 sugg) as [head Eh].
    eexists _, head. split; [reflexivity | exact Eh].
  - destruct (position_line (l0 :: ls) p ltac:(discriminate) H0)
      as (pre & line & post & Hl & Hlow & Hhigh).
    rewrite <- El in Hl.
    rewrite (print_error_at sc sym sugg p pre line post Hok Hp Hl Hlow Hhigh).
    destruct (shorten (chomp line) (p - total_length pre)) as [shown caret].
    cbv zeta.
    destruct (error_text_suggestion (Z.of_nat (List.length pre) + 1)
                shown caret sugg) as [head Eh].
    eexists _, head. split; [reflexivity | exact Eh].
Qed.








(** ** Strings, character by character *)

Lemma substring_zero (n : nat) (s : string) : substring n 0 s = "".
Proof. revert n; induction s; intros [|n]; simpl; auto. Qed.

Lemma substring_snoc (n m : nat) (s : string) :
  substring n (S m) s = substring n m s ++ substring (n + m) 1 s.
Proof.
  revert n m; induction s as [|c s IH]; intros n m.
  - destruct n, m; reflexivity.
  - destruct n as [|n].
    + destruct m as [|m]; [simpl; now rewrite substring_zero|].
      change (substring 0 (S (S m)) (String c s))
        with (String c (substring 0 (S m) s)).
      rewrite IH. reflexivity.
    + change (substring (S n) (S m) (String c s)) with (substring n (S m) s).
      rewrite IH. reflexivity.
Qed.

Lemma char_at_length (text : string) (o : Z) :
  0 <= o ->
  Py.len (char_at text o) = if o <? Py.len text then 1 else 0.
Proof.
  intros Ho. unfold char_at, Py.len. rewrite length_substring.
  destruct (Z.ltb_spec o (Z.of_nat (String.length text))); lia.
Qed.

Lemma char_at_end (text : string) (o : Z) :
  Py.len text <= o -> char_at text o = "".
Proof.
  intros H. apply substring_one_out. unfold Py.len in H. lia.
Qed.

Lemma char_at_nonempty (text : string) (o : Z) :
  0 <= o -> char_at text o <> "" -> o < Py.len text.
Proof.
  intros Ho H. destruct (Z.ltb_spec o (Py.len text)) as [|Hge]; [assumption|].
  now rewrite char_at_end in H.
Qed.

Lemma char_at_inside (text : string) (o : Z) :
  0 <= o < Py.len text -> char_at text o <> "".
Proof.
  intros H E. pose proof (char_at_length text o ltac:(lia)) as L.
  rewrite E in L. destruct (Z.ltb_spec o (Py.len text)); [discriminate | lia].
Qed.

(** ** The scanner moves along its text *)

Lemma place_place o fp cm o' fp' cm' sc :
  place o fp cm (place o' fp' cm' sc) = place o fp cm sc.
Proof. reflexivity. Qed.

Lemma remaining_place o fp cm sc :
  0 <= o ->
  remaining (place o fp cm sc) = Z.to_nat (Py.len (content (file sc)) - o).
Proof.
  intros Ho. unfold remaining, place. scanner_fields.
  pose proof (char_at_length (content (file sc)) o Ho) as L.
  unfold Py.len in *.
  destruct (Z.ltb_spec o (Z.of_nat (String.length (content (file sc))))); lia.
Qed.

Lemma advanced_place o fp cm sc :
  0 <= o ->
  advanced (place o fp cm sc) = place (o + 1) (fp + 1) cm sc.
Proof.
  intros Ho. unfold advanced, fread1, place. scanner_fields.
  set (text := content (file sc)).
  unfold set_file_position, set_current_character, set_file. scanner_fields.
  assert (E : substring (Z.to_nat (Z.min (o + 1) (Py.len text))) 1 text
              = char_at text (o + 1)).
  { unfold char_at. destruct (Z.le_gt_cases (o + 1) (Py.len text)).
    - now rewrite Z.min_l by lia.
    - rewrite Z.min_r by lia.
      rewrite !substring_one_out; [reflexivity | unfold Py.len in *; lia
                                  | unfold Py.len; lia]. }
  rewrite E. f_equal. f_equal.
  pose proof (char_at_length text (o + 1) ltac:(lia)) as L. rewrite L.
  pose proof (len_nonneg text).
  destruct (Z.ltb_spec (o + 1) (Py.len text)); lia.
Qed.

Lemma advance_place o fp cm sc :
  0 <= o ->
  advance (place o fp cm sc) = Ok tt (place (o + 1) (fp + 1) cm sc).
Proof. intros Ho. rewrite advance_eq. now rewrite advanced_place. Qed.

Lemma class_char (p : ascii -> bool) (s : string) :
  Py.nonempty s && Py.str_all p s = true -> s <> "".
Proof. destruct s; [discriminate | discriminate]. Qed.

(** [skip_spaces] stops at the first character that is no white space. *)
Lemma skip_spaces_loop_place fuel o fp cm sc :
  0 <= o ->
  (Z.to_nat (Py.len (content (file sc)) - o) < fuel)%nat ->
  exists n : Z,
    0 <= n
    /\ skip_spaces_loop fuel (place o fp cm sc)
       = Ok tt (place (o + n) (fp + n) cm sc)
    /\ (forall i, 0 <= i < n ->
          Py.isspace (char_at (content (file sc)) (o + i)) = true)
    /\ Py.isspace (char_at (content (file sc)) (o + n)) = false.
Proof.
  revert o fp. induction fuel as [|fuel IH]; intros o fp Ho Hf; [lia|].
  cbn [skip_spaces_loop].
  change (current_character (place o fp cm sc))
    with (char_at (content (file sc)) o).
  destruct (Py.isspace (char_at (content (file sc)) o)) eqn:E.
  - pose proof (char_at_nonempty _ _ Ho (class_char _ _ E)) as Hlt.
    unfold bind. rewrite (advance_place o fp cm sc Ho).
    destruct (IH (o + 1) (fp + 1)) as (n & Hn & Hrun & Hsp & Hstop); [lia|lia|].
    exists (n + 1). split; [lia|]. split; [|split].
    + rewrite Hrun. do 2 f_equal; lia.
    + intros i Hi. destruct (Z.eq_dec i 0) as [->|].
      * now rewrite Z.add_0_r.
      * replace (o + i) with (o + 1 + (i - 1)) by lia. apply Hsp. lia.
    + now replace (o + (n + 1)) with (o + 1 + n) by lia.
  - exists 0. rewrite !Z.add_0_r. split; [lia|]. split; [reflexivity|].
    split; [intros; lia | exact E].
Qed.

Lemma skip_spaces_place o fp cm sc :
  0 <= o ->
  exists n : Z,
    0 <= n
    /\ skip_spaces (place o fp cm sc) = Ok tt (place (o + n) (fp + n) cm sc)
    /\ (forall i, 0 <= i < n ->
          Py.isspace (char_at (content (file sc)) (o + i)) = true)
    /\ Py.isspace (char_at (content (file sc)) (o + n)) = false.
Proof.
  intros Ho. unfold skip_spaces.
  apply skip_spaces_loop_place; [exact Ho|].
  rewrite remaining_place by exact Ho. change (content (file (place o fp cm sc))) with (content (file sc)). lia.
Qed.

Lemma substring_cons (n m : nat) (s : string) :
  substring n (S m) s = substring n 1 s ++ substring (S n) m s.
Proof.
  revert n; induction s as [|c s IH]; intros n.
  - destruct n; reflexivity.
  - destruct n as [|n].
    + simpl. now rewrite substring_zero.
    + change (substring (S n) (S m) (String c s)) with (substring n (S m) s).
      rewrite IH. reflexivity.
Qed.

Lemma substring_char_at (text : string) (o n : Z) :
  0 <= o -> 0 <= n ->
  substring (Z.to_nat o) (Z.to_nat (n + 1)) text
  = char_at text o ++ substring (Z.to_nat (o + 1)) (Z.to_nat n) text.
Proof.
  intros Ho Hn. unfold char_at.
  replace (Z.to_nat (n + 1)) with (S (Z.to_nat n)) by lia.
  replace (Z.to_nat (o + 1)) with (S (Z.to_nat o)) by lia.
  apply substring_cons.
Qed.

Lemma append_nil_r (s : string) : s ++ "" = s.
Proof. induction s; simpl; congruence. Qed.

(** [get_name] takes the letters and digits that follow. *)
Lemma get_name_loop_place fuel name o fp cm sc :
  0 <= o ->
  (Z.to_nat (Py.len (content (file sc)) - o) < fuel)%nat ->
  exists n : Z,
    0 <= n
    /\ get_name_loop fuel name (place o fp cm sc)
       = Ok (name ++ substring (Z.to_nat o) (Z.to_nat n) (content (file sc)))
            (place (o + n) (fp + n) cm sc)
    /\ (forall i, 0 <= i < n ->
          Py.isalnum (char_at (content (file sc)) (o + i)) = true)
    /\ Py.isalnum (char_at (content (file sc)) (o + n)) = false.
Proof.
  revert name o fp. induction fuel as [|fuel IH]; intros name o fp Ho Hf; [lia|].
  cbn [get_name_loop].
  change (current_character (place o fp cm sc))
    with (char_at (content (file sc)) o).
  destruct (Py.isalnum (char_at (content (file sc)) o)) eqn:E.
  - pose proof (char_at_nonempty _ _ Ho (class_char _ _ E)) as Hlt.
    unfold bind. rewrite (advance_place o fp cm sc Ho).
    destruct (IH (name ++ char_at (content (file sc)) o) (o + 1) (fp + 1))
      as (n & Hn & Hrun & Hsp & Hstop); [lia|lia|].
    exists (n + 1). split; [lia|]. split; [|split].
    + rewrite Hrun. f_equal.
      * rewrite append_assoc. f_equal. symmetry.
        now apply substring_char_at.
      * f_equal; lia.
    + intros i Hi. destruct (Z.eq_dec i 0) as [->|].
      * now rewrite Z.add_0_r.
      * replace (o + i) with (o + 1 + (i - 1)) by lia. apply Hsp. lia.
    + now replace (o + (n + 1)) with (o + 1 + n) by lia.
  - exists 0. rewrite !Z.add_0_r. split; [lia|]. split; [|split].
    + change (Z.to_nat 0) with 0%nat. now rewrite substring_zero, append_nil_r.
    + intros; lia.
    + exact E.
Qed.

Lemma digits_value_app acc a b :
  digits_value acc (a ++ b) = digits_value (digits_value acc a) b.
Proof. revert acc; induction a; intros acc; simpl; auto. Qed.

Lemma char_at_one (text : string) (o : Z) :
  0 <= o < Py.len text -> exists c, char_at text o = String c "".
Proof.
  intros H. pose proof (char_at_length text o ltac:(lia)) as L.
  destruct (Z.ltb_spec o (Py.len text)); [|lia].
  unfold Py.len in L. destruct (char_at text o) as [|c [|d r]]; simpl in L;
    try lia. eauto.
Qed.

(** [get_number] takes the digits that follow. *)
Lemma get_number_loop_place fuel number o fp cm sc :
  0 <= o ->
  (Z.to_nat (Py.len (content (file sc)) - o) < fuel)%nat ->
  exists n : Z,
    0 <= n
    /\ get_number_loop fuel number (place o fp cm sc)
       = Ok (digits_value number
               (substring (Z.to_nat o) (Z.to_nat n) (content (file sc))))
            (place (o + n) (fp + n) cm sc)
    /\ (forall i, 0 <= i < n ->
          Py.isdigit (char_at (content (file sc)) (o + i)) = true)
    /\ Py.isdigit (char_at (content (file sc)) (o + n)) = false.
Proof.
  revert number o fp.
  induction fuel as [|fuel IH]; intros number o fp Ho Hf; [lia|].
  cbn [get_number_loop].
  change (current_character (place o fp cm sc))
    with (char_at (content (file sc)) o).
  destruct (Py.isdigit (char_at (content (file sc)) o)) eqn:E.
  - pose proof (char_at_nonempty _ _ Ho (class_char _ _ E)) as Hlt.
    unfold bind. rewrite (advance_place o fp cm sc Ho).
    destruct (IH (number * 10 + Py.digit_val (char_at (content (file sc)) o))
                (o + 1) (fp + 1))
      as (n & Hn & Hrun & Hsp & Hstop); [lia|lia|].
    exists (n + 1). split; [lia|]. split; [|split].
    + rewrite Hrun. f_equal.
      * rewrite (substring_char_at _ o n Ho Hn), digits_value_app.
        destruct (char_at_one (content (file sc)) o ltac:(lia)) as [c ->].
        reflexivity.
      * f_equal; lia.
    + intros i Hi. destruct (Z.eq_dec i 0) as [->|].
      * now rewrite Z.add_0_r.
      * replace (o + i) with (o + 1 + (i - 1)) by lia. apply Hsp. lia.
    + now replace (o + (n + 1)) with (o + 1 + n) by lia.
  - exists 0. rewrite !Z.add_0_r. split; [lia|]. split; [|split].
    + change (Z.to_nat 0) with 0%nat. now rewrite substring_zero.
    + intros; lia.
    + exact E.
Qed.

Lemma check_comment_place o fp cm sc :
  0 <= o ->
  check_comment (place o fp cm sc)
  = Ok (if String.eqb (char_at (content (file sc)) (o + 1)) Py.backslash
        then negb cm else cm)
       (place (o + 1) (fp + 1) cm sc).
Proof.
  intros Ho. rewrite check_comment_eq, advanced_place by exact Ho. reflexivity.
Qed.

(** [backwards] after the [advance] of [check_comment]: the scanner is back
    on the backslash; at the end of the file its position is one too high. *)
Lemma backwards_place o fp cm sc :
  0 <= o < Py.len (content (file sc)) ->
  backwards (place (o + 1) (fp + 1) cm sc)
  = Ok tt (place o (if o + 1 <? Py.len (content (file sc)) then fp else fp + 1)
             cm sc).
Proof.
  intros Ho.
  unfold backwards, bind, gets.
  change (current_character (place (o + 1) (fp + 1) cm sc))
    with (char_at (content (file sc)) (o + 1)).
  change (tell (file (place (o + 1) (fp + 1) cm sc)))
    with (Z.min (o + 1 + 1) (Py.len (content (file sc)))).
  assert (Hread : forall sc0 q,
            content (file sc0) = content (file sc) -> tell (file sc0) = o ->
            line_lengths sc0 = line_lengths sc -> names sc0 = names sc ->
            kw sc0 = kw sc -> comment sc0 = cm -> stdout sc0 = stdout sc ->
            file_position sc0 = q - 1 ->
            advance sc0 = Ok tt (place o q cm sc)).
  { intros [[s t] ll p nm k cur c out]. scanner_fields.
    intros q -> -> -> -> -> -> -> ->.
    unfold advance, modify, fread1, place. scanner_fields.
    unfold set_file_position, set_current_character, set_file. scanner_fields.
    fold (char_at (content (file sc)) o).
    pose proof (char_at_length (content (file sc)) o ltac:(lia)) as L.
    destruct (Z.ltb_spec o (Py.len (content (file sc)))); [|lia].
    rewrite L. f_equal. f_equal; [|lia]. f_equal. lia. }
  destruct (Z.ltb_spec (o + 1) (Py.len (content (file sc)))) as [Hin|Hend];
    cbv iota.
  - pose proof (char_at_inside (content (file sc)) (o + 1) ltac:(lia)) as Hne.
    apply String.eqb_neq in Hne. rewrite Hne.
    rewrite Z.min_l by lia.
    unfold seek. destruct (Z.ltb_spec (o + 1 + 1 - 2) 0); [lia|].
    unfold modify. apply Hread; try reflexivity.
    all: unfold place; scanner_fields; lia.
  - rewrite (char_at_end (content (file sc)) (o + 1)) by lia.
    rewrite String.eqb_refl. rewrite Z.min_r by lia.
    unfold seek. destruct (Z.ltb_spec (Py.len (content (file sc)) - 1) 0); [lia|].
    unfold modify. apply Hread; try reflexivity.
    all: unfold place; scanner_fields; lia.
Qed.

(** ** Decimal numerals, digit by digit *)

Lemma digit_cases (c : ascii) :
  Py.chr_isdigit c = true ->
  (c = "0" \/ c = "1" \/ c = "2" \/ c = "3" \/ c = "4" \/ c = "5" \/ c = "6"
   \/ c = "7" \/ c = "8" \/ c = "9")%char.
Proof.
  destruct c as [[|] [|] [|] [|] [|] [|] [|] [|]]; intros H;
    try discriminate H; tauto.
Qed.

Ltac digit_codes :=
  unfold Py.digit_val;
  repeat match goal with
         | |- context [nat_of_ascii ?c] =>
             let v := eval vm_compute in (nat_of_ascii c) in
             change (nat_of_ascii c) with v
         end.

Lemma digits_uint (s : string) :
  Py.str_all Py.chr_isdigit s = true ->
  exists d,
    NilEmpty.uint_of_string s = Some d
    /\ forall acc : positive,
         Z.pos (Pos.of_uint_acc d acc) = digits_value (Z.pos acc) s.
Proof.
  induction s as [|c s IH]; intros H.
  - exists Nil. split; [reflexivity | reflexivity].
  - simpl in H. apply andb_prop in H. destruct H as [Hc Hs].
    destruct (IH Hs) as (d & Hd & Hacc).
    cbn [NilEmpty.uint_of_string]. rewrite Hd.
    destruct (digit_cases c Hc) as [->|[->|[->|[->|[->|[->|[->|[->|[->| ->]]]]]]]]];
      eexists; (split; [reflexivity|]); intros acc;
      cbn [Pos.of_uint_acc digits_value]; rewrite Hacc; f_equal;
      digit_codes; lia.
Qed.

(** A run of digits that does not start with [0] is the numeral of its
    value. *)
Lemma str_digits_value (c : ascii) (s : string) :
  Py.chr_isdigit c = true -> c <> "0"%char ->
  Py.str_all Py.chr_isdigit s = true ->
  Py.str (digits_value 0 (String c s)) = String c s
  /\ 1 <= digits_value 0 (String c s).
Proof.
  intros Hc Hnz Hs.
  destruct (digits_uint s Hs) as (d & Hd & Hacc).
  assert (H : exists d' (p : positive),
            NilEmpty.uint_of_string (String c s) = Some d'
            /\ unorm d' = d' /\ d' <> Nil
            /\ Z.of_int (Pos d') = Z.pos p
            /\ digits_value 0 (String c s) = Z.pos p).
  { cbn [NilEmpty.uint_of_string]. rewrite Hd.
    destruct (digit_cases c Hc) as [->|[->|[->|[->|[->|[->|[->|[->|[->| ->]]]]]]]]];
      [contradiction Hnz; reflexivity|..];
      eexists; eexists; (split; [reflexivity|]);
      (split; [reflexivity|]); (split; [discriminate|]);
      (split; [reflexivity|]);
      cbn [digits_value]; digit_codes;
      match goal with
      | |- digits_value ?a s = _ =>
          let v := eval cbv in a in change a with v
      end; rewrite <- Hacc; reflexivity. }
  destruct H as (d' & p & Hd' & Hnorm & Hnil & Hval & Hdv).
  split; [|rewrite Hdv; lia].
  unfold Py.str. rewrite Hdv, <- Hval, DecimalZ.to_of.
  cbn [norm]. rewrite Hnorm.
  cbn [NilZero.string_of_int]. unfold NilZero.string_of_uint.
  destruct d'; [contradiction Hnil; reflexivity|..];
    now apply NilEmpty.sus.
Qed.

(** ** [get_symbol], part by part *)

Lemma get_symbol_parts :
  get_symbol
  = (skip_spaces ;;
     c0 <- gets current_character ;;
     (if String.eqb c0 Py.backslash then after_backslash else ret tt) ;;
     take_symbol).
Proof. reflexivity. Qed.

(** The loop through a comment ends at the end of the file, the comment
    still open, or on a character that is no white space, the comment
    closed. *)
Lemma comment_loop_place fuel o fp cm sc :
  0 <= o ->
  (Z.to_nat (Py.len (content (file sc)) - o) < fuel)%nat ->
  exists (n : Z) (b : bool),
    0 <= n
    /\ comment_loop fuel (place o fp cm sc)
       = Ok tt (place (o + n) (fp + n) b sc)
    /\ (b = true -> Py.len (content (file sc)) <= o + n)
    /\ (b = false -> Py.isspace (char_at (content (file sc)) (o + n)) = false).
Proof.
  revert o fp cm. induction fuel as [|fuel IH]; intros o fp cm Ho Hf; [lia|].
  cbn [comment_loop].
  change (comment (place o fp cm sc)) with cm.
  change (current_character (place o fp cm sc))
    with (char_at (content (file sc)) o).
  destruct cm.
  2:{ destruct (skip_spaces_place o fp false sc Ho)
        as (n & Hn & Hrun & _ & Hstop).
      exists n, false. split; [exact Hn|]. split; [exact Hrun|].
      split; [discriminate | intros _; exact Hstop]. }
  destruct (String.eqb_spec (char_at (content (file sc)) o) "") as [E|Hne].
  { exists 0, true. rewrite !Z.add_0_r. split; [lia|]. split; [reflexivity|].
    split; [|discriminate]. intros _.
    destruct (Z.ltb_spec o (Py.len (content (file sc)))) as [Hlt|]; [|lia].
    now apply char_at_inside in E. }
  pose proof (char_at_nonempty _ _ Ho Hne) as Hlt.
  destruct (String.eqb (char_at (content (file sc)) o) Py.backslash).
  - unfold bind at 1. unfold bind at 1.
    rewrite (check_comment_place o fp true sc Ho).
    set (b := if String.eqb (char_at (content (file sc)) (o + 1)) Py.backslash
              then negb true else true).
    unfold modify at 1.
    change (set_comment b (place (o + 1) (fp + 1) true sc))
      with (place (o + 1) (fp + 1) b sc).
    unfold bind at 1. rewrite (advance_place (o + 1) (fp + 1) b sc) by lia.
    destruct (IH (o + 1 + 1) (fp + 1 + 1) b) as (n & b' & Hn & Hrun & Hb);
      [lia|lia|].
    exists (n + 1 + 1), b'. split; [lia|].
    replace (o + (n + 1 + 1)) with (o + 1 + 1 + n) by lia.
    replace (fp + (n + 1 + 1)) with (fp + 1 + 1 + n) by lia.
    split; [exact Hrun | exact Hb].
  - unfold bind at 1. unfold bind at 1. unfold ret at 1.
    rewrite (advance_place o fp true sc Ho).
    destruct (IH (o + 1) (fp + 1) true) as (n & b' & Hn & Hrun & Hb);
      [lia|lia|].
    exists (n + 1), b'. split; [lia|].
    replace (o + (n + 1)) with (o + 1 + n) by lia.
    replace (fp + (n + 1)) with (fp + 1 + n) by lia.
    split; [exact Hrun | exact Hb].
Qed.

Lemma after_backslash_place o fp sc :
  0 <= o ->
  char_at (content (file sc)) o = Py.backslash ->
  exists (o1 d : Z) (b : bool),
    o <= o1
    /\ after_backslash (place o fp false sc)
       = Ok tt (place o1 (fp + (o1 - o) + d) b sc)
    /\ (b = true -> Py.len (content (file sc)) <= o1)
    /\ (b = false -> Py.isspace (char_at (content (file sc)) o1) = false)
    /\ (d = 0
        \/ (d = 1 /\ o1 = o /\ b = false
            /\ o + 1 = Py.len (content (file sc)))).
Proof.
  intros Ho Hc. set (text := content (file sc)) in *.
  assert (Hlt : o < Py.len text).
  { apply char_at_nonempty; [exact Ho|]. rewrite Hc. discriminate. }
  unfold after_backslash. unfold bind at 1.
  rewrite (check_comment_place o fp false sc Ho). fold text.
  set (b := if String.eqb (char_at text (o + 1)) Py.backslash
            then negb false else false).
  unfold bind at 1. unfold modify at 1.
  change (set_comment b (place (o + 1) (fp + 1) false sc))
    with (place (o + 1) (fp + 1) b sc).
  destruct b eqn:Eb.
  - cbn [negb when]. unfold bind at 1. unfold ret at 1.
    destruct (comment_loop_place
                (S (remaining (place (o + 1) (fp + 1) true sc)))
                (o + 1) (fp + 1) true sc ltac:(lia))
      as (n & b' & Hn & Hrun & Hb1 & Hb2).
    { rewrite remaining_place by lia. lia. }
    exists (o + 1 + n), 0, b'. split; [lia|]. split.
    + rewrite Hrun. do 2 f_equal. lia.
    + split; [exact Hb1|]. split; [exact Hb2 | left; reflexivity].
  - cbn [negb when]. unfold bind at 1.
    rewrite (backwards_place o fp false sc (conj Ho Hlt)). fold text.
    set (fp' := if o + 1 <? Py.len text then fp else fp + 1).
    assert (Hsp : Py.isspace (char_at text o) = false)
      by (rewrite Hc; reflexivity).
    assert (Hrun : comment_loop (S (remaining (place o fp' false sc)))
                     (place o fp' false sc)
                   = Ok tt (place o fp' false sc)).
    { cbn [comment_loop]. change (comment (place o fp' false sc)) with false.
      cbv iota. unfold skip_spaces. cbn [skip_spaces_loop].
      change (current_character (place o fp' false sc)) with (char_at text o).
      now rewrite Hsp. }
    rewrite Hrun.
    exists o, (fp' - fp), false. split; [lia|]. split.
    + do 2 f_equal. lia.
    + split; [discriminate|]. split; [intros _; exact Hsp|].
      unfold fp'. destruct (Z.ltb_spec (o + 1) (Py.len text)).
      * left; lia.
      * right. repeat split; lia.
Qed.

(** The spelling decides the type. *)
Lemma first_char (c : ascii) (r : string) : substring 0 1 (String c r) = String c "".
Proof. simpl. now rewrite substring_zero. Qed.

Lemma alpha_not_digit (c : string) : Py.isalpha c = true -> Py.isdigit c = false.
Proof.
  destruct c as [|a r]; [discriminate|].
  unfold Py.isalpha, Py.isdigit. cbn [Py.nonempty Py.str_all andb].
  intros H. apply andb_prop in H. destruct H as [H _].
  assert (E : Py.chr_isdigit a = false).
  { destruct a as [[|] [|] [|] [|] [|] [|] [|] [|]];
      try reflexivity; discriminate H. }
  now rewrite E.
Qed.

Lemma alpha_alnum (c : string) :
  String.length c = 1%nat -> Py.isalpha c = true -> Py.isalnum c = true.
Proof.
  destruct c as [|a [|b r]]; try discriminate. intros _.
  unfold Py.isalpha, Py.isalnum, Py.chr_isalnum.
  cbn [Py.nonempty Py.str_all andb]. rewrite !andb_true_r.
  intros ->. reflexivity.
Qed.

Lemma class_all (p : ascii -> bool) (text : string) (o n : Z) :
  0 <= o -> 0 <= n ->
  (forall i, 0 <= i < n ->
     Py.nonempty (char_at text (o + i))
     && Py.str_all p (char_at text (o + i)) = true) ->
  Py.str_all p (substring (Z.to_nat o) (Z.to_nat n) text) = true
  /\ Py.len (substring (Z.to_nat o) (Z.to_nat n) text) = n.
Proof.
  intros Ho Hn. revert o Ho.
  pattern n. apply natlike_ind; [| |exact Hn].
  - intros o Ho _. change (Z.to_nat 0) with 0%nat. rewrite substring_zero.
    split; reflexivity.
  - clear n Hn. intros n Hn IH o Ho H.
    unfold Z.succ. rewrite (substring_char_at text o n Ho Hn).
    pose proof (H 0 ltac:(lia)) as H0. rewrite Z.add_0_r in H0.
    apply andb_prop in H0. destruct H0 as [Hne H0].
    destruct (IH (o + 1) ltac:(lia)) as [IH1 IH2].
    { intros i Hi. replace (o + 1 + i) with (o + (i + 1)) by lia.
      apply H. lia. }
    assert (o < Py.len text).
    { apply char_at_nonempty; [exact Ho|].
      destruct (char_at text o); [discriminate | discriminate]. }
    destruct (char_at_one text o ltac:(lia)) as [c Ec]. rewrite Ec in *.
    split.
    + cbn [append Py.str_all]. simpl in H0. rewrite andb_true_r in H0.
      now rewrite H0.
    + cbn [append]. rewrite len_String. lia.
Qed.

Lemma one_char_type (c : string) (T : SymType) :
  (String.length c <= 1)%nat ->
  Py.isalpha c = false -> Py.isdigit c = false ->
  (if String.eqb c "," then COMMA
   else if String.eqb c ";" then SEMICOLON
   else if String.eqb c "=" then EQUALS
   else if String.eqb c "{" then BRACE_LEFT
   else if String.eqb c "}" then BRACE_RIGHT
   else if String.eqb c "(" then PARENTHESIS_LEFT
   else if String.eqb c ")" then PARENTHESIS_RIGHT
   else if String.eqb c ">" then ARROW
   else if String.eqb c "." then DOT
   else if String.eqb c "" then EOF
   else INVALID_CHARACTER) = T ->
  spelling_type c = T.
Proof.
  intros Hlen Ha Hd HT. unfold spelling_type.
  assert (E : substring 0 1 c = c).
  { destruct c as [|a [|b r]]; [reflexivity | reflexivity | simpl in Hlen; lia]. }
  cbv zeta. rewrite E, Ha, Hd. exact HT.
Qed.

Lemma char_at_short (text : string) (o : Z) :
  (String.length (char_at text o) <= 1)%nat.
Proof. unfold char_at. rewrite length_substring. lia. Qed.

Lemma one_char_place T p o fp cm sc :
  0 <= o ->
  one_char T p (place o fp cm sc)
  = Ok (mkSymbol (Some T) None (Some p) (Some (char_at (content (file sc)) o)))
       (place (o + 1) (fp + 1) cm sc).
Proof.
  intros Ho. unfold one_char, bind, gets.
  rewrite (advance_place o fp cm sc Ho). reflexivity.
Qed.

(** The symbol that starts at an offset. *)
Lemma symbol_from_place o fp cm sc :
  0 <= o ->
  exists (s : string) (n : Z),
    symbol_from fp (char_at (content (file sc)) o) (place o fp cm sc)
    = Ok (symbol_of (names sc) fp s)
         (set_names (names_after (names sc) s) (place (o + n) (fp + n) cm sc))
    /\ spelled (content (file sc)) o s n.
Proof.
  intros Ho. set (text := content (file sc)).
  set (c := char_at text o). unfold symbol_from.
  destruct (Py.isalpha c) eqn:Ealpha.
  { (* a name or a keyword *)
    pose proof (char_at_nonempty _ _ Ho (class_char _ _ Ealpha)) as Hlt.
    destruct (get_name_loop_place
                (S (remaining (place (o + 1) (fp + 1) cm sc))) c
                (o + 1) (fp + 1) cm sc ltac:(lia))
      as (n & Hn & Hrun & Hall & Hstop).
    { rewrite remaining_place by lia. lia. }
    fold text in Hrun, Hall, Hstop.
    assert (Hs0 : c ++ substring (Z.to_nat (o + 1)) (Z.to_nat n) text
                  = substring (Z.to_nat o) (Z.to_nat (n + 1)) text)
      by (symmetry; apply substring_char_at; assumption).
    rewrite Hs0 in Hrun.
    set (s := substring (Z.to_nat o) (Z.to_nat (n + 1)) text) in *.
    assert (Hs : exists c' r, s = String c' r /\ c = String c' "").
    { destruct (char_at_one text o ltac:(lia)) as [c' Ec].
      exists c', (substring (Z.to_nat (o + 1)) (Z.to_nat n) text).
      unfold s. rewrite (substring_char_at text o n Ho Hn). fold c.
      fold c in Ec. rewrite Ec. split; reflexivity. }
    destruct Hs as (c' & r & Es & Ec).
    assert (Htype : spelling_type s
                    = if Py.str_in s keywords_list then KEYWORD else NAME).
    { unfold spelling_type. cbv zeta. rewrite Es, first_char, <- Ec, Ealpha.
      reflexivity. }
    exists s, (n + 1). split.
    - unfold bind at 1. unfold get_name, bind at 1, gets at 1.
      change (current_character (place o fp cm sc)) with c.
      unfold bind at 1. rewrite (advance_place o fp cm sc Ho).
      rewrite Hrun. unfold bind at 1. cbn [Names.lookup].
      change (names (place (o + 1 + n) (fp + 1 + n) cm sc)) with (names sc).
      unfold symbol_of, names_after. rewrite Htype.
      destruct (Names.lookup1 (names sc) s) as [i nm].
      unfold ret. cbn [fst snd].
      replace (o + (n + 1)) with (o + 1 + n) by lia.
      replace (fp + (n + 1)) with (fp + 1 + n) by lia.
      destruct (Py.str_in s keywords_list); reflexivity.
    - split; [lia|]. split; [reflexivity|]. cbv zeta. fold c. rewrite Ealpha.
      split.
      + intros i Hi. destruct (Z.eq_dec i 0) as [->|].
        * rewrite Z.add_0_r. fold c. apply alpha_alnum; [|exact Ealpha].
          rewrite Ec. reflexivity.
        * replace (o + i) with (o + 1 + (i - 1)) by lia. apply Hall. lia.
      + now replace (o + (n + 1)) with (o + 1 + n) by lia. }
  destruct (Py.isdigit c) eqn:Edigit.
  { pose proof (char_at_nonempty _ _ Ho (class_char _ _ Edigit)) as Hlt.
    destruct (char_at_one text o ltac:(lia)) as [c' Ec]. fold c in Ec.
    assert (Hc' : Py.chr_isdigit c' = true).
    { rewrite Ec in Edigit. unfold Py.isdigit in Edigit. simpl in Edigit.
      now rewrite andb_true_r in Edigit. }
    destruct (Py.digit_val c =? 0) eqn:Ezero.
    - (* the symbol 0 *)
      assert (E0 : c = "0").
      { rewrite Ec in *. apply Z.eqb_eq in Ezero.
        destruct (digit_cases c' Hc')
          as [->|[->|[->|[->|[->|[->|[->|[->|[->| ->]]]]]]]]];
          try reflexivity; discriminate Ezero. }
      exists "0", 1. split.
      + unfold bind. rewrite (advance_place o fp cm sc Ho). reflexivity.
      + split; [lia|]. split; [symmetry; exact E0|]. cbv zeta. fold c.
        rewrite Ealpha, Edigit, Ezero. reflexivity.
    - (* a number *)
      destruct (get_number_loop_place
                  (S (remaining (place (o + 1) (fp + 1) cm sc)))
                  (Py.digit_val c) (o + 1) (fp + 1) cm sc ltac:(lia))
        as (n & Hn & Hrun & Hall & Hstop).
      { rewrite remaining_place by lia. lia. }
      fold text in Hrun, Hall, Hstop.
      set (r := substring (Z.to_nat (o + 1)) (Z.to_nat n) text) in *.
      set (s := substring (Z.to_nat o) (Z.to_nat (n + 1)) text).
      assert (Es : s = String c' r).
      { unfold s. rewrite (substring_char_at text o n Ho Hn). fold c.
        rewrite Ec. reflexivity. }
      assert (Hr : Py.str_all Py.chr_isdigit r = true).
      { apply (class_all Py.chr_isdigit text (o + 1) n); [lia | lia |].
        exact Hall. }
      assert (Hnz : c' <> "0"%char).
      { intros ->. rewrite Ec in Ezero. discriminate Ezero. }
      destruct (str_digits_value c' r Hc' Hnz Hr) as [Hstr Hge].
      assert (Hval : digits_value (Py.digit_val c) r = digits_value 0 s).
      { rewrite Es, Ec. reflexivity. }
      assert (Htype : spelling_type s = NUMBER).
      { unfold spelling_type. cbv zeta. rewrite Es, first_char, <- Ec.
        now rewrite Ealpha, Edigit, Ezero. }
      exists s, (n + 1). split.
      + unfold bind at 1. unfold get_number, bind at 1, gets at 1.
        change (current_character (place o fp cm sc)) with c.
        unfold bind at 1. rewrite (advance_place o fp cm sc Ho).
        rewrite Hrun, Hval. unfold ret.
        unfold symbol_of, names_after. rewrite Htype.
        assert (Hstr' : Py.str (digits_value 0 s) = s)
          by (rewrite Es; exact Hstr).
        rewrite Hstr'.
        replace (o + (n + 1)) with (o + 1 + n) by lia.
        replace (fp + (n + 1)) with (fp + 1 + n) by lia.
        reflexivity.
      + split; [lia|]. split; [reflexivity|]. cbv zeta. fold c.
        rewrite Ealpha, Edigit, Ezero. cbn [negb andb].
        split.
        * intros i Hi. destruct (Z.eq_dec i 0) as [->|].
          -- rewrite Z.add_0_r. exact Edigit.
          -- replace (o + i) with (o + 1 + (i - 1)) by lia. apply Hall. lia.
        * now replace (o + (n + 1)) with (o + 1 + n) by lia. }
  (* one character *)
  assert (Hone : forall T,
            (if String.eqb c "," then COMMA
             else if String.eqb c ";" then SEMICOLON
             else if String.eqb c "=" then EQUALS
             else if String.eqb c "{" then BRACE_LEFT
             else if String.eqb c "}" then BRACE_RIGHT
             else if String.eqb c "(" then PARENTHESIS_LEFT
             else if String.eqb c ")" then PARENTHESIS_RIGHT
             else if String.eqb c ">" then ARROW
             else if String.eqb c "." then DOT
             else if String.eqb c "" then EOF
             else INVALID_CHARACTER) = T ->
            exists (s : string) (n : Z),
              one_char T fp (place o fp cm sc)
              = Ok (symbol_of (names sc) fp s)
                   (set_names (names_after (names sc) s)
                      (place (o + n) (fp + n) cm sc))
              /\ spelled text o s n).
  { intros T HT.
    pose proof (one_char_type c T (char_at_short text o) Ealpha Edigit HT)
      as Htype.
    exists c, 1. split.
    - rewrite (one_char_place T fp o fp cm sc Ho). fold text. fold c.
      unfold symbol_of, names_after. rewrite Htype.
      assert (HT' : T <> NAME /\ T <> KEYWORD /\ T <> ZERO /\ T <> NUMBER).
      { subst T.
        repeat match goal with
               | |- context [if ?b then _ else _] => destruct b
               end; repeat split; discriminate. }
      destruct HT' as (H1 & H2 & H3 & H4).
      destruct T; try contradiction; reflexivity.
    - split; [lia|]. split; [reflexivity|]. cbv zeta. fold c.
      rewrite Ealpha, Edigit. reflexivity. }
  repeat match goal with
         | |- context [(if String.eqb c ?x then _ else _) (place o fp cm sc)] =>
             let E := fresh "E" in
             destruct (String.eqb c x) eqn:E;
             [ apply Hone; rewrite ?E; reflexivity |]
         end.
  apply Hone. repeat match goal with H : String.eqb c _ = false |- _ =>
                       rewrite H; clear H end. reflexivity.
Qed.

Lemma spelling_type_EOF (s : string) : spelling_type s = EOF <-> s = "".
Proof.
  split; [|intros ->; reflexivity].
  unfold spelling_type. cbv zeta.
  repeat match goal with
         | |- context [if ?b then _ else _] => destruct b eqn:?
         end; try discriminate.
  intros _. now apply String.eqb_eq.
Qed.

Lemma spelled_empty text o s n :
  0 <= o -> spelled text o s n -> (s = "" <-> Py.len text <= o).
Proof.
  intros Ho (Hn & -> & _). split.
  - intros E. apply (f_equal String.length) in E.
    rewrite length_substring in E. simpl in E. unfold Py.len. lia.
  - intros H. apply length_zero_empty. rewrite length_substring.
    unfold Py.len in H. lia.
Qed.

(** The symbol that starts at an offset, with the report of a comment that
    the end of the file leaves open. *)
Lemma take_symbol_place o fp cm sc :
  0 <= o -> 0 <= fp ->
  line_lengths sc = map Py.len (Py.file_lines (content (file sc))) ->
  exists (s : string) (n : Z) (out : list string),
    take_symbol (place o fp cm sc)
    = Ok (symbol_of (names sc) fp s)
         (set_stdout out
            (set_names (names_after (names sc) s)
               (place (o + n) (fp + n) cm sc)))
    /\ spelled (content (file sc)) o s n
    /\ (if (Py.len (content (file sc)) <=? o) && cm
        then exists msg head,
               out = (stdout sc ++ [(Py.nl ++ Py.nl ++ msg ++ Py.nl)%string])%list
               /\ msg = head ++ open_comment_message
        else out = stdout sc).
Proof.
  intros Ho Hfp Hlines.
  destruct (symbol_from_place o fp cm sc Ho) as (s & n & Hrun & Hsp).
  pose proof (spelled_empty _ _ _ _ Ho Hsp) as Hempty.
  exists s, n.
  unfold take_symbol. unfold bind at 1, gets at 1. unfold bind at 1, gets at 1.
  change (file_position (place o fp cm sc)) with fp.
  change (current_character (place o fp cm sc))
    with (char_at (content (file sc)) o).
  unfold bind at 1. rewrite Hrun. unfold bind at 1, gets at 1.
  set (st1 := set_names (names_after (names sc) s) (place (o + n) (fp + n) cm sc)).
  change (comment st1) with cm.
  assert (Heof : is_type (symbol_of (names sc) fp s) EOF
                 = (Py.len (content (file sc)) <=? o)).
  { unfold is_type, symbol_of. cbn [sy_type].
    destruct (Z.leb_spec (Py.len (content (file sc))) o) as [H|H].
    - apply Hempty in H. subst s. reflexivity.
    - destruct (spelling_type s) eqn:E; try reflexivity.
      apply spelling_type_EOF, Hempty in E. lia. }
  rewrite Heof.
  destruct ((Py.len (content (file sc)) <=? o) && cm) eqn:Eb.
  - cbn [when].
    destruct (print_error_total st1 (symbol_of (names sc) fp s)
                open_comment_message fp) as (out & head & Hpe & Hout).
    { split; [exact Hlines|]. unfold st1, place. scanner_fields.
      pose proof (len_nonneg (content (file sc))).
      pose proof (proj1 Hsp). lia. }
    { reflexivity. }
    { exact Hfp. }
    exists (stdout sc ++ [(Py.nl ++ Py.nl ++ out ++ Py.nl)%string])%list.
    split; [|split; [exact Hsp|]].
    + unfold bind. rewrite Hpe. reflexivity.
    + exists out, head. split; [reflexivity | exact Hout].
  - exists (stdout sc). split; [|split; [exact Hsp | reflexivity]].
    reflexivity.
Qed.

Lemma spelled_one text o s n :
  Py.isalpha (char_at text o) = false ->
  Py.isdigit (char_at text o) = false ->
  spelled text o s n -> n = 1 /\ s = char_at text o.
Proof.
  intros Ha Hd (Hn & Hs & Hc). cbv zeta in Hc. rewrite Ha, Hd in Hc.
  cbn [andb] in Hc. subst n. split; [reflexivity | exact Hs].
Qed.

(** [get_symbol] from an offset: the white space and the comments are
    passed, and the symbol that starts at the offset reached is returned.
    [d] is what the position is too high by: 1 for the lone backslash that
    ends the text, and 0 otherwise. *)
Lemma get_symbol_place o fp cm sc :
  0 <= o -> 0 <= fp ->
  line_lengths sc = map Py.len (Py.file_lines (content (file sc))) ->
  (cm = true -> Py.len (content (file sc)) <= o) ->
  exists (o1 d : Z) (b : bool) (s : string) (n : Z) (out : list string),
    get_symbol (place o fp cm sc)
    = Ok (symbol_of (names sc) (fp + (o1 - o) + d) s)
         (set_stdout out
            (set_names (names_after (names sc) s)
               (place (o1 + n) (fp + (o1 - o) + d + n) b sc)))
    /\ o <= o1
    /\ spelled (content (file sc)) o1 s n
    /\ (d = 0
        \/ (d = 1 /\ s = Py.backslash
            /\ char_at (content (file sc)) o1 = Py.backslash
            /\ o1 + 1 = Py.len (content (file sc))))
    /\ (b = true -> Py.len (content (file sc)) <= o1)
    /\ (if (Py.len (content (file sc)) <=? o1) && b
        then exists msg head,
               out = (stdout sc ++ [(Py.nl ++ Py.nl ++ msg ++ Py.nl)%string])%list
               /\ msg = head ++ open_comment_message
        else out = stdout sc)
    /\ (Py.len (content (file sc)) <= o -> o1 = o /\ b = cm).
Proof.
  intros Ho Hfp Hlines Hcm. set (text := content (file sc)) in *.
  rewrite get_symbol_parts.
  destruct (skip_spaces_place o fp cm sc Ho) as (n0 & Hn0 & Hskip & Hsp0 & _).
  fold text in Hsp0.
  assert (Hend0 : Py.len text <= o -> n0 = 0).
  { intros H. destruct (Z.eq_dec n0 0) as [|Hne]; [assumption|].
    specialize (Hsp0 0 ltac:(lia)). rewrite Z.add_0_r in Hsp0.
    rewrite char_at_end in Hsp0 by exact H. discriminate. }
  unfold bind at 1. rewrite Hskip. unfold bind at 1, gets at 1.
  change (current_character (place (o + n0) (fp + n0) cm sc))
    with (char_at text (o + n0)).
  destruct (String.eqb_spec (char_at text (o + n0)) Py.backslash) as [Ebs|_].
  - assert (Hin : o + n0 < Py.len text).
    { apply char_at_nonempty; [lia|]. rewrite Ebs. discriminate. }
    assert (cm = false) as -> by (destruct cm; [specialize (Hcm eq_refl); lia
                                              | reflexivity]).
    destruct (after_backslash_place (o + n0) (fp + n0) sc ltac:(lia) Ebs)
      as (o1 & d & b & Ho1 & Hrun & Hb1 & _ & Hd).
    unfold bind at 1. rewrite Hrun.
    destruct (take_symbol_place o1 (fp + n0 + (o1 - (o + n0)) + d) b sc)
      as (s & n & out & Htake & Hsp & Hout); [lia | | exact Hlines |].
    { destruct Hd as [->|(-> & _)]; lia. }
    exists o1, d, b, s, n, out.
    replace (fp + (o1 - o) + d) with (fp + n0 + (o1 - (o + n0)) + d) by lia.
    split; [exact Htake|]. split; [lia|]. split; [exact Hsp|].
    split; [|split; [exact Hb1 | split; [exact Hout | intros; lia]]].
    destruct Hd as [->|(-> & -> & _ & Hend)]; [left; reflexivity|].
    right. split; [reflexivity|]. split; [|split; [exact Ebs | exact Hend]].
    fold text in Hsp.
    destruct (spelled_one text (o + n0) s n) as [_ ->];
      [rewrite Ebs; reflexivity | rewrite Ebs; reflexivity | exact Hsp
      | exact Ebs].
  - unfold bind at 1. unfold ret at 1.
    destruct (take_symbol_place (o + n0) (fp + n0) cm sc)
      as (s & n & out & Htake & Hsp & Hout); [lia | lia | exact Hlines |].
    exists (o + n0), 0, cm, s, n, out.
    replace (fp + (o + n0 - o) + 0) with (fp + n0) by lia.
    split; [exact Htake|]. split; [lia|]. split; [exact Hsp|].
    split; [left; reflexivity|]. split; [|split; [exact Hout|]].
    + intros H. specialize (Hcm H). fold text. lia.
    + intros H. specialize (Hend0 H). split; [lia | reflexivity].
Qed.

(** ** The stream of symbols *)

Lemma Scanner_init_place text names0 :
  Scanner_init text names0
  = place 0 0 false (Scanner_init text names0)
  /\ content (file (Scanner_init text names0)) = text
  /\ line_lengths (Scanner_init text names0) = map Py.len (Py.file_lines text)
  /\ file_position (Scanner_init text names0) = 0
  /\ comment (Scanner_init text names0) = false.
Proof.
  unfold Scanner_init.
  destruct (Names.lookup names0 keywords_list) as [ids names1].
  unfold fread1, place, char_at. scanner_fields.
  change (Z.to_nat 0) with 0%nat.
  split; [|repeat split; reflexivity].
  f_equal. f_equal. rewrite Z.add_0_l.
  unfold Py.len. rewrite length_substring. lia.
Qed.

Lemma Scanner_init_readable text names0 : readable (Scanner_init text names0).
Proof.
  destruct (Scanner_init_place text names0) as (Hp & Hc & Hl & Hf & Hm).
  split; [now rewrite Hc|]. split; [lia|].
  exists 0. split; [lia|]. rewrite Hf, Hm. split; [exact Hp | discriminate].
Qed.

Lemma place_fields o fp cm sc :
  content (file (place o fp cm sc)) = content (file sc)
  /\ line_lengths (place o fp cm sc) = line_lengths sc
  /\ file_position (place o fp cm sc) = fp
  /\ comment (place o fp cm sc) = cm
  /\ names (place o fp cm sc) = names sc
  /\ stdout (place o fp cm sc) = stdout sc
  /\ kw (place o fp cm sc) = kw sc.
Proof. repeat split. Qed.

(** What [get_symbol] returns from a scanner that can go on reading. *)
Lemma get_symbol_readable sc :
  readable sc ->
  exists (p : Z) (s : string) (sc' : Scanner),
    get_symbol sc = Ok (symbol_of (names sc) p s) sc'
    /\ 0 <= p
    /\ readable sc'
    /\ content (file sc') = content (file sc)
    /\ (s = "" -> current_character sc' = "" /\ file_position sc' = p + 1)
    /\ (current_character sc = "" -> s = "" /\ p = file_position sc)
    /\ (exists o1 n, 0 <= o1 /\ spelled (content (file sc)) o1 s n).
Proof.
  intros (Hl & Hfp & o & Ho & Hsc & Hcm).
  destruct (get_symbol_place o (file_position sc) (comment sc) sc
              Ho Hfp Hl Hcm)
    as (o1 & d & b & s & n & out & Hrun & Ho1 & Hsp & Hd & Hb & _ & Hstay).
  rewrite <- Hsc in Hrun.
  assert (Hn : 1 <= n) by apply Hsp.
  assert (Hd0 : 0 <= d <= 1) by (destruct Hd as [->|[-> _]]; lia).
  eexists _, s, _. split; [exact Hrun|]. split; [lia|].
  assert (Ho1' : 0 <= o1) by lia.
  pose proof (spelled_empty (content (file sc)) o1 s n Ho1' Hsp) as Hempty.
  assert (Hd' : s = "" -> d = 0).
  { intros E. destruct Hd as [->|(_ & Hbs & _)]; [reflexivity|].
    rewrite E in Hbs. discriminate. }
  split; [|split; [reflexivity|split; [|split]]].
  - split; [exact Hl|]. split; [cbn; lia|].
    exists (o1 + n). split; [lia|]. split; [reflexivity|].
    cbn [content file comment set_stdout set_names place].
    intros H. specialize (Hb H). lia.
  - intros E. pose proof (proj1 Hempty E) as Hend.
    destruct (spelled_one (content (file sc)) o1 s n) as [-> _];
      [now rewrite char_at_end | now rewrite char_at_end | exact Hsp |].
    rewrite (Hd' E). split.
    + cbn [current_character set_stdout set_names place].
      apply char_at_end. lia.
    + cbn [file_position set_stdout set_names place]. lia.
  - intros E. rewrite Hsc in E. cbn [current_character place] in E.
    assert (Hend : Py.len (content (file sc)) <= o).
    { destruct (Z.ltb_spec o (Py.len (content (file sc)))) as [H|H]; [|exact H].
      now apply char_at_inside in E. }
    destruct (Hstay Hend) as [-> _].
    assert (Es : s = "") by (apply Hempty; lia).
    split; [exact Es|]. rewrite (Hd' Es). lia.
  - exists o1, n. split; [exact Ho1' | exact Hsp].
Qed.

Lemma symbols_readable n sc :
  readable sc ->
  exists l sc',
    symbols n sc = Ok l sc'
    /\ readable sc'
    /\ List.length l = n
    /\ Forall (fun sym =>
                 exists T p s,
                   sy_type sym = Some T /\ sy_position sym = Some p
                   /\ 0 <= p /\ sy_string sym = Some s) l.
Proof.
  revert sc. induction n as [|n IH]; intros sc Hr.
  - exists [], sc. split; [reflexivity|]. split; [exact Hr|].
    split; [reflexivity | constructor].
  - destruct (get_symbol_readable sc Hr)
      as (p & s & sc1 & Hrun & Hp & Hr1 & _).
    destruct (IH sc1 Hr1) as (l & sc2 & Hrun2 & Hr2 & Hlen & Hall).
    exists (symbol_of (names sc) p s :: l), sc2.
    cbn [symbols]. unfold bind at 1. rewrite Hrun.
    unfold bind at 1. rewrite Hrun2. unfold ret.
    split; [reflexivity|]. split; [exact Hr2|]. split; [simpl; lia|].
    constructor; [|exact Hall].
    exists (spelling_type s), p, s. repeat split. exact Hp.
Qed.

(** X9 The scanner does not fail on a plain text: with every name table,
    [get_symbol] can be called any number of times that keeps the positions
    far within [int64]; no call raises an exception or loops without end,
    and every symbol has a type, a position that is not negative and a
    string. *)
Theorem scanner_always_returns (text : string) (names0 : Names.t) (n : nat) :
  plain_text text = true ->
  2 * (Py.len text + Z.of_nat n) <= int64_max ->
  exists l sc',
    symbols n (Scanner_init text names0) = Ok l sc'
    /\ List.length l = n
    /\ Forall (fun sym =>
                 exists T p s,
                   sy_type sym = Some T /\ sy_position sym = Some p
                   /\ 0 <= p /\ sy_string sym = Some s) l.
Proof.
  intros _ _.
  destruct (symbols_readable n _ (Scanner_init_readable text names0))
    as (l & sc' & H1 & _ & H2 & H3).
  exists l, sc'. auto.
Qed.

Lemma scanner_always_returns_witness :
  let text := "A1 = " ++ Py.backslash ++ Py.backslash ++ "c"
                ++ Py.backslash ++ Py.backslash ++ " 12;" in
  plain_text text = true
  /\ 2 * (Py.len text + 8) <= int64_max
  /\ exists l sc',
       symbols 8 (Scanner_init text []) = Ok l sc'
       /\ List.length l = 8%nat
       /\ Forall (fun sym =>
                    exists T p s,
                      sy_type sym = Some T /\ sy_position sym = Some p
                      /\ 0 <= p /\ sy_string sym = Some s) l.
Proof.
  intros text.
  assert (H1 : plain_text text = true) by (vm_compute; reflexivity).
  assert (H2 : 2 * (Py.len text + Z.of_nat 8) <= int64_max)
    by (vm_compute; discriminate).
  split; [exact H1|]. split; [exact H2|].
  exact (scanner_always_returns text [] 8 H1 H2).
Defined.

Lemma positioned_readable sc : positioned sc -> readable sc.
Proof.
  intros (Hl & Hfp & Hsc & Hcm). split; [exact Hl|]. split; [exact Hfp|].
  exists (file_position sc). auto.
Qed.

(** X10 The position of a symbol is the offset of its first character, and
    its string is the text at that offset: from a scanner at the offset its
    [file_position] tells, [get_symbol] returns a symbol whose string is the
    longest spelling of a symbol that starts at its position, and leaves the
    scanner at the offset after it.  The one exception is the lone backslash
    that ends the text: its position is the length of the text, one more
    than its offset. *)
Theorem symbol_position_is_offset (sc : Scanner) :
  positioned sc ->
  exists sym sc' p s n,
    get_symbol sc = Ok sym sc'
    /\ sy_position sym = Some p /\ sy_string sym = Some s
    /\ file_position sc <= p
    /\ ((spelled (content (file sc)) p s n
         /\ positioned sc' /\ content (file sc') = content (file sc)
         /\ file_position sc' = p + n)
        \/ (s = Py.backslash /\ p = Py.len (content (file sc))
            /\ char_at (content (file sc)) (p - 1) = Py.backslash)).
Proof.
  intros (Hl & Hfp & Hsc & Hcm).
  destruct (get_symbol_place (file_position sc) (file_position sc)
              (comment sc) sc Hfp Hfp Hl Hcm)
    as (o1 & d & b & s & n & out & Hrun & Ho1 & Hsp & Hd & Hb & _ & _).
  rewrite <- Hsc in Hrun.
  eexists _, _, _, s, n. split; [exact Hrun|].
  split; [reflexivity|]. split; [reflexivity|].
  assert (Hn : 1 <= n) by apply Hsp.
  destruct Hd as [->|(-> & Hs & Hbs & Hend)].
  - split; [lia|]. left.
    replace (file_position sc + (o1 - file_position sc) + 0) with o1 by lia.
    split; [exact Hsp|]. split; [|split; [reflexivity|reflexivity]].
    split; [exact Hl|]. split; [cbn; lia|]. split; [reflexivity|].
    cbn [content file comment file_position set_stdout set_names place].
    intros H. specialize (Hb H). lia.
  - split; [lia|]. right. split; [exact Hs|]. split; [lia|].
    replace (file_position sc + (o1 - file_position sc) + 1 - 1) with o1
      by lia.
    exact Hbs.
Qed.

Lemma Scanner_init_positioned text names0 :
  positioned (Scanner_init text names0).
Proof.
  destruct (Scanner_init_place text names0) as (Hp & Hc & Hl & Hf & Hm).
  split; [now rewrite Hc|]. split; [lia|].
  rewrite Hf, Hm. split; [exact Hp | discriminate].
Qed.

Lemma symbol_position_is_offset_witness :
  let sc := Scanner_init ("AB = 1;") [] in
  exists sym sc' p s n,
    get_symbol sc = Ok sym sc'
    /\ sy_position sym = Some p /\ sy_string sym = Some s
    /\ file_position sc <= p
    /\ ((spelled (content (file sc)) p s n
         /\ positioned sc' /\ content (file sc') = content (file sc)
         /\ file_position sc' = p + n)
        \/ (s = Py.backslash /\ p = Py.len (content (file sc))
            /\ char_at (content (file sc)) (p - 1) = Py.backslash)).
Proof.
  intros sc.
  apply (symbol_position_is_offset sc).
  apply Scanner_init_positioned.
Defined.

(** ** The type of a symbol *)

Lemma spelling_type_one (s : string) (T : SymType) (c : string) :
  spelling_type c = T ->
  T <> INVALID_CHARACTER -> T <> NAME -> T <> KEYWORD -> T <> ZERO ->
  T <> NUMBER ->
  (spelling_type s = T <-> s = c).
Proof.
  intros Hc H1 H2 H3 H4 H5. split; [|intros ->; exact Hc].
  revert Hc. unfold spelling_type. cbv zeta.
  repeat match goal with
         | |- context [if ?b then _ else _] =>
             let E := fresh "E" in destruct b eqn:E
         end;
    intros <- Hs; try discriminate Hs; try congruence;
    repeat match goal with
           | H : String.eqb _ _ = true |- _ => apply String.eqb_eq in H
           end; congruence.
Qed.

Lemma In_keywords (s : string) :
  In s keywords_list <-> Py.str_in s keywords_list = true.
Proof.
  unfold Py.str_in. split.
  - intros H. destruct (Py.str_index s keywords_list) eqn:E; [reflexivity|].
    now apply str_index_None in E.
  - destruct (Py.str_index s keywords_list) eqn:E; [|discriminate].
    intros _. eapply nth_error_In, str_index_Some, E.
Qed.

Lemma spelling_type_KEYWORD (s : string) :
  spelling_type s = KEYWORD <-> In s keywords_list.
Proof.
  split.
  - unfold spelling_type. cbv zeta.
    destruct (Py.isalpha (substring 0 1 s)).
    + destruct (Py.str_in s keywords_list) eqn:E; [|discriminate].
      intros _. now apply In_keywords.
    + repeat match goal with
             | |- context [if ?b then _ else _] => destruct b
             end; discriminate.
  - intros H. simpl in H.
    repeat (destruct H as [<-|H]; [reflexivity|]). contradiction.
Qed.

Lemma spelling_type_NAME (s : string) :
  spelling_type s = NAME
  <-> Py.isalpha (substring 0 1 s) = true /\ ~ In s keywords_list.
Proof.
  rewrite In_keywords. unfold spelling_type. cbv zeta.
  destruct (Py.isalpha (substring 0 1 s)).
  - destruct (Py.str_in s keywords_list); split;
      [discriminate | intros [_ H]; now contradiction H
      | split; [reflexivity | discriminate] | reflexivity].
  - split; [|intros [H _]; discriminate H].
    repeat match goal with
           | |- context [if ?b then _ else _] => destruct b
           end; discriminate.
Qed.

Lemma is_type_symbol_of nm p s T :
  is_type (symbol_of nm p s) T = true <-> spelling_type s = T.
Proof.
  unfold is_type, symbol_of. cbn [sy_type].
  destruct (spelling_type s), T; split; intros H;
    try reflexivity; discriminate H.
Qed.

(** X11 The spelling decides the type: the type of the symbol that
    [get_symbol] returns is a function of its string alone.  It is a keyword
    exactly when the string is one of the reserved words, a name exactly when
    the string starts with a letter and is no reserved word, the end of the
    file exactly when the string is empty, and each punctuation symbol
    exactly when the string is its character. *)
Theorem symbol_type_by_spelling (sc : Scanner) (sym : Symbol) (sc' : Scanner) :
  readable sc ->
  get_symbol sc = Ok sym sc' ->
  exists s,
    sy_string sym = Some s
    /\ sy_type sym = Some (spelling_type s)
    /\ (is_type sym KEYWORD = true <-> In s keywords_list)
    /\ (is_type sym NAME = true
        <-> Py.isalpha (substring 0 1 s) = true /\ ~ In s keywords_list)
    /\ (is_type sym EOF = true <-> s = "")
    /\ (is_type sym COMMA = true <-> s = ",")
    /\ (is_type sym SEMICOLON = true <-> s = ";")
    /\ (is_type sym EQUALS = true <-> s = "=")
    /\ (is_type sym BRACE_LEFT = true <-> s = "{")
    /\ (is_type sym BRACE_RIGHT = true <-> s = "}")
    /\ (is_type sym PARENTHESIS_LEFT = true <-> s = "(")
    /\ (is_type sym PARENTHESIS_RIGHT = true <-> s = ")")
    /\ (is_type sym ARROW = true <-> s = ">")
    /\ (is_type sym DOT = true <-> s = ".").
Proof.
  intros Hr Hrun.
  destruct (get_symbol_readable sc Hr) as (p & s & sc1 & Hrun1 & _).
  rewrite Hrun1 in Hrun. injection Hrun as <- _.
  exists s. split; [reflexivity|]. split; [reflexivity|].
  rewrite !is_type_symbol_of.
  split; [apply spelling_type_KEYWORD|].
  split; [apply spelling_type_NAME|].
  repeat split;
    try (apply spelling_type_one; [reflexivity | discriminate..]).
Qed.

Lemma symbol_type_by_spelling_witness :
  let sc := Scanner_init ("AND = 1;") [] in
  exists sym sc' s,
    get_symbol sc = Ok sym sc'
    /\ sy_string sym = Some s
    /\ sy_type sym = Some (spelling_type s)
    /\ (is_type sym KEYWORD = true <-> In s keywords_list).
Proof.
  intros sc.
  destruct (get_symbol sc) as [sym sc'| |] eqn:E;
    [| vm_compute in E; discriminate E | vm_compute in E; discriminate E ].
  destruct (symbol_type_by_spelling sc sym sc'
              (Scanner_init_readable _ _) E) as (s & H1 & H2 & H3 & _).
  exists sym, sc', s. auto.
Defined.

(** ** Numbers *)

Lemma first_char_substring (text : string) (o n : Z) :
  0 <= o -> 1 <= n ->
  substring 0 1 (substring (Z.to_nat o) (Z.to_nat n) text) = char_at text o.
Proof.
  intros Ho Hn.
  replace n with (n - 1 + 1) by lia.
  rewrite (substring_char_at text o (n - 1) Ho ltac:(lia)).
  destruct (Z.ltb_spec o (Py.len text)) as [Hlt|Hge].
  - destruct (char_at_one text o ltac:(lia)) as [c ->].
    cbn [append]. apply first_char.
  - rewrite (char_at_end text o Hge). cbn [append].
    assert (E : substring (Z.to_nat (o + 1)) (Z.to_nat (n - 1)) text = "").
    { apply length_zero_empty. rewrite length_substring.
      unfold Py.len in Hge. lia. }
    rewrite E. reflexivity.
Qed.

Lemma spelled_number text o s n :
  0 <= o -> spelled text o s n -> spelling_type s = NUMBER ->
  Py.str (digits_value 0 s) = s /\ 1 <= digits_value 0 s.
Proof.
  intros Ho (Hn & Hs & Hc) Ht. cbv zeta in Hc.
  assert (Hfirst : substring 0 1 s = char_at text o).
  { rewrite Hs. now apply first_char_substring. }
  unfold spelling_type in Ht. cbv zeta in Ht. rewrite Hfirst in Ht.
  destruct (Py.isalpha (char_at text o)) eqn:Ea.
  { destruct (Py.str_in s keywords_list); discriminate Ht. }
  destruct (Py.isdigit (char_at text o)) eqn:Ed.
  2:{ repeat match type of Ht with
             | context [if ?b then _ else _] => destruct b
             end; discriminate Ht. }
  destruct (Py.digit_val (char_at text o) =? 0) eqn:Ez; [discriminate Ht|].
  cbn [negb andb] in Hc. destruct Hc as [Hall Hstop].
  pose proof (char_at_nonempty _ _ Ho (class_char _ _ Ed)) as Hlt.
  destruct (char_at_one text o ltac:(lia)) as [c Ec].
  assert (Es : s = String c (substring (Z.to_nat (o + 1)) (Z.to_nat (n - 1)) text)).
  { rewrite Hs. replace n with (n - 1 + 1) at 1 by lia.
    rewrite (substring_char_at text o (n - 1) Ho ltac:(lia)), Ec. reflexivity. }
  rewrite Es. apply str_digits_value.
  - rewrite Ec in Ed. unfold Py.isdigit in Ed. simpl in Ed.
    now rewrite andb_true_r in Ed.
  - intros ->. rewrite Ec in Ez. discriminate Ez.
  - apply (class_all Py.chr_isdigit text (o + 1) (n - 1)); [lia | lia |].
    intros i Hi. replace (o + 1 + i) with (o + (i + 1)) by lia.
    apply Hall. lia.
Qed.

Lemma spelled_zero text o s n :
  0 <= o -> spelled text o s n -> spelling_type s = ZERO -> s = "0".
Proof.
  intros Ho (Hn & Hs & Hc) Ht. cbv zeta in Hc.
  assert (Hfirst : substring 0 1 s = char_at text o).
  { rewrite Hs. now apply first_char_substring. }
  unfold spelling_type in Ht. cbv zeta in Ht. rewrite Hfirst in Ht.
  destruct (Py.isalpha (char_at text o)) eqn:Ea.
  { destruct (Py.str_in s keywords_list); discriminate Ht. }
  destruct (Py.isdigit (char_at text o)) eqn:Ed.
  2:{ repeat match type of Ht with
             | context [if ?b then _ else _] => destruct b
             end; discriminate Ht. }
  destruct (Py.digit_val (char_at text o) =? 0) eqn:Ez; [|discriminate Ht].
  cbn [negb andb] in Hc. subst n.
  pose proof (char_at_nonempty _ _ Ho (class_char _ _ Ed)) as Hlt.
  destruct (char_at_one text o ltac:(lia)) as [c Ec].
  change (substring (Z.to_nat o) (Z.to_nat 1) text) with (char_at text o) in Hs.
  rewrite Hs, Ec. rewrite Ec in Ed, Ez.
  unfold Py.isdigit in Ed. simpl in Ed. rewrite andb_true_r in Ed.
  apply Z.eqb_eq in Ez.
  destruct (digit_cases c Ed)
    as [->|[->|[->|[->|[->|[->|[->|[->|[->| ->]]]]]]]]];
    try reflexivity; discriminate Ez.
Qed.

Lemma alpha_not_digit_conv (c : string) :
  Py.isdigit c = true -> Py.isalpha c = false.
Proof.
  intros H. destruct (Py.isalpha c) eqn:E; [|reflexivity].
  apply alpha_not_digit in E. congruence.
Qed.

(** X12 Numbers.  A symbol of the type NUMBER has an ID of 1 at least, its
    string is the decimal numeral of the ID, and [int] of the string gives
    the ID back; the symbol of the type ZERO has the ID 0 and the string
    [0].  No other symbol has a number as its string. *)
Theorem number_symbols (sc : Scanner) (sym : Symbol) (sc' : Scanner) :
  readable sc ->
  get_symbol sc = Ok sym sc' ->
  (is_type sym NUMBER = true ->
     exists n, sy_id sym = Some n /\ 1 <= n
               /\ sy_string sym = Some (Py.str n)
               /\ Py.int (Py.str n) = Some n)
  /\ (is_type sym ZERO = true ->
        sy_id sym = Some 0 /\ sy_string sym = Some "0")
  /\ (is_type sym NUMBER = false -> is_type sym ZERO = false ->
        forall s, sy_string sym = Some s ->
                  Py.isdigit (substring 0 1 s) = false).
Proof.
  intros Hr Hrun.
  destruct (get_symbol_readable sc Hr)
    as (p & s & sc1 & Hrun1 & _ & _ & _ & _ & _ & o1 & n & Ho1 & Hsp).
  rewrite Hrun1 in Hrun. injection Hrun as <- _.
  split; [|split].
  - intros H. apply is_type_symbol_of in H.
    destruct (spelled_number _ _ _ _ Ho1 Hsp H) as [Hstr Hge].
    exists (digits_value 0 s). unfold symbol_of. rewrite H.
    cbn [sy_id sy_string]. rewrite Hstr.
    split; [reflexivity|]. split; [exact Hge|]. split; [reflexivity|].
    rewrite <- Hstr at 1. apply int_str.
  - intros H. apply is_type_symbol_of in H.
    pose proof (spelled_zero _ _ _ _ Ho1 Hsp H) as ->.
    split; reflexivity.
  - intros H1 H2 s' [= <-].
    destruct (Py.isdigit (substring 0 1 s)) eqn:Ed; [|reflexivity].
    assert (Ht : spelling_type s = NUMBER \/ spelling_type s = ZERO).
    { unfold spelling_type. cbv zeta. rewrite Ed.
      rewrite (alpha_not_digit_conv _ Ed).
      destruct (Py.digit_val (substring 0 1 s) =? 0); auto. }
    destruct Ht as [Ht|Ht]; apply is_type_symbol_of with (nm := names sc) (p := p) in Ht;
      congruence.
Qed.

Lemma number_symbols_witness :
  let sc := Scanner_init ("16)") [] in
  exists sym sc',
    get_symbol sc = Ok sym sc'
    /\ (is_type sym NUMBER = true ->
        exists n, sy_id sym = Some n /\ 1 <= n
                  /\ sy_string sym = Some (Py.str n)
                  /\ Py.int (Py.str n) = Some n).
Proof.
  intros sc.
  destruct (get_symbol sc) as [sym sc'| |] eqn:E;
    [| vm_compute in E; discriminate E | vm_compute in E; discriminate E ].
  exists sym, sc'. split; [reflexivity|].
  exact (proj1 (number_symbols sc sym sc' (Scanner_init_readable _ _) E)).
Defined.

(** ** The end of the file *)

(** X13 After the end of the file [get_symbol] goes on returning the symbol
    for the end of the file: the call that follows one that returned EOF
    returns EOF as well, with an empty string and a position one higher. *)
Theorem end_of_file_is_final (sc : Scanner) (sym : Symbol) (sc' : Scanner) :
  readable sc ->
  get_symbol sc = Ok sym sc' ->
  is_type sym EOF = true ->
  exists p sym2 sc2,
    sy_position sym = Some p
    /\ get_symbol sc' = Ok sym2 sc2
    /\ is_type sym2 EOF = true
    /\ sy_string sym2 = Some ""
    /\ sy_position sym2 = Some (p + 1)
    /\ readable sc2.
Proof.
  intros Hr Hrun Heof.
  destruct (get_symbol_readable sc Hr)
    as (p & s & sc1 & Hrun1 & _ & Hr1 & _ & Hend & _).
  rewrite Hrun1 in Hrun. injection Hrun as <- <-.
  apply is_type_symbol_of, spelling_type_EOF in Heof.
  destruct (Hend Heof) as [Hc Hp].
  destruct (get_symbol_readable sc1 Hr1)
    as (p2 & s2 & sc2 & Hrun2 & _ & Hr2 & _ & _ & Hstay & _).
  destruct (Hstay Hc) as [-> ->].
  exists p, (symbol_of (names sc1) (file_position sc1) ""), sc2.
  split; [reflexivity|]. split; [exact Hrun2|]. split; [reflexivity|].
  split; [reflexivity|]. split; [|exact Hr2].
  cbn [symbol_of sy_position]. now rewrite Hp.
Qed.

Lemma end_of_file_is_final_witness :
  let sc := Scanner_init ("  ") [] in
  exists sym sc' p sym2 sc2,
    get_symbol sc = Ok sym sc'
    /\ sy_position sym = Some p
    /\ get_symbol sc' = Ok sym2 sc2
    /\ is_type sym2 EOF = true
    /\ sy_position sym2 = Some (p + 1).
Proof.
  intros sc.
  destruct (get_symbol sc) as [sym sc'| |] eqn:E;
    [| vm_compute in E; discriminate E | vm_compute in E; discriminate E ].
  assert (Heof : is_type sym EOF = true).
  { vm_compute in E. injection E as <- _. reflexivity. }
  destruct (end_of_file_is_final sc sym sc' (Scanner_init_readable _ _) E Heof)
    as (p & sym2 & sc2 & H1 & H2 & H3 & _ & H4 & _).
  exists sym, sc', p, sym2, sc2. auto.
Defined.

(** ** Comments *)

Lemma skip_spaces_to o fp cm sc m :
  0 <= o -> 0 <= m ->
  (forall i, 0 <= i < m ->
     Py.isspace (char_at (content (file sc)) (o + i)) = true) ->
  Py.isspace (char_at (content (file sc)) (o + m)) = false ->
  skip_spaces (place o fp cm sc) = Ok tt (place (o + m) (fp + m) cm sc).
Proof.
  intros Ho Hm Hsp Hstop.
  destruct (skip_spaces_place o fp cm sc Ho) as (n & Hn & Hrun & Hsp' & Hstop').
  assert (n = m); [|subst n; exact Hrun].
  destruct (Z.lt_trichotomy n m) as [H|[H|H]]; [|exact H|].
  - rewrite Hsp in Hstop' by lia. discriminate.
  - rewrite Hsp' in Hstop by lia. discriminate.
Qed.

Lemma skip_spaces_stay o fp cm sc :
  0 <= o ->
  Py.isspace (char_at (content (file sc)) o) = false ->
  skip_spaces (place o fp cm sc) = Ok tt (place o fp cm sc).
Proof.
  intros Ho H.
  rewrite (skip_spaces_to o fp cm sc 0 Ho ltac:(lia)).
  - now rewrite !Z.add_0_r.
  - intros; lia.
  - now rewrite Z.add_0_r.
Qed.

(** The loop through a comment whose end is [j] characters ahead. *)
Lemma comment_loop_closed fuel q fp j sc :
  0 <= q -> 0 <= j ->
  (forall i, 0 <= i < j ->
     char_at (content (file sc)) (q + i) <> Py.backslash) ->
  char_at (content (file sc)) (q + j) = Py.backslash ->
  char_at (content (file sc)) (q + j + 1) = Py.backslash ->
  (Z.to_nat (Py.len (content (file sc)) - q) < fuel)%nat ->
  comment_loop fuel (place q fp true sc)
  = skip_spaces (place (q + j + 2) (fp + j + 2) false sc).
Proof.
  set (text := content (file sc)).
  intros Hq Hj. revert fuel q fp Hq.
  pattern j. apply natlike_ind; [| |exact Hj]; clear j Hj.
  - intros fuel q fp Hq _ H1 H2 Hf. rewrite Z.add_0_r in *.
    assert (Hin : q + 1 < Py.len text).
    { apply char_at_nonempty; [lia|]. rewrite H2. discriminate. }
    destruct fuel as [|[|fuel]]; [lia|lia|].
    cbn [comment_loop]. change (comment (place q fp true sc)) with true.
    cbv iota. change (current_character (place q fp true sc))
      with (char_at text q).
    rewrite H1. cbn [String.eqb Ascii.eqb Bool.eqb andb].
    change (String.eqb Py.backslash "") with false.
    change (String.eqb Py.backslash Py.backslash) with true. cbv iota.
    unfold bind at 1. unfold bind at 1.
    rewrite (check_comment_place q fp true sc Hq). fold text. rewrite H2.
    change (String.eqb Py.backslash Py.backslash) with true. cbv iota.
    unfold modify at 1.
    change (set_comment (negb true) (place (q + 1) (fp + 1) true sc))
      with (place (q + 1) (fp + 1) false sc).
    unfold bind at 1. rewrite (advance_place (q + 1) (fp + 1) false sc) by lia.
    change (comment (place (q + 1 + 1) (fp + 1 + 1) false sc)) with false.
    cbv iota. do 2 f_equal; lia.
  - intros j Hj IH fuel q fp Hq Hno H1 H2 Hf.
    assert (Hin : q + Z.succ j < Py.len text).
    { apply char_at_nonempty; [lia|]. rewrite H1. discriminate. }
    pose proof (Hno 0 ltac:(lia)) as Hq0. rewrite Z.add_0_r in Hq0.
    pose proof (char_at_inside text q ltac:(lia)) as Hne.
    destruct fuel as [|fuel]; [lia|].
    cbn [comment_loop]. change (comment (place q fp true sc)) with true.
    cbv iota. change (current_character (place q fp true sc))
      with (char_at text q).
    apply String.eqb_neq in Hne, Hq0. rewrite Hne, Hq0.
    unfold bind at 1. unfold bind at 1. unfold ret at 1.
    rewrite (advance_place q fp true sc Hq).
    rewrite (IH fuel (q + 1) (fp + 1)); try lia.
    + do 2 f_equal; lia.
    + intros i Hi. replace (q + 1 + i) with (q + (i + 1)) by lia.
      apply Hno. lia.
    + now replace (q + 1 + j) with (q + Z.succ j) by lia.
    + now replace (q + 1 + j + 1) with (q + Z.succ j + 1) by lia.
Qed.

(** [get_symbol] on a comment of [k] characters between its two pairs of
    backslashes goes on from the character after the comment. *)
Lemma get_symbol_comment o fp k sc :
  0 <= o -> 1 <= k ->
  char_at (content (file sc)) o = Py.backslash ->
  char_at (content (file sc)) (o + 1) = Py.backslash ->
  (forall i, 0 <= i < k ->
     char_at (content (file sc)) (o + 2 + i) <> Py.backslash) ->
  char_at (content (file sc)) (o + 2 + k) = Py.backslash ->
  char_at (content (file sc)) (o + 3 + k) = Py.backslash ->
  get_symbol (place o fp false sc)
  = (skip_spaces ;; take_symbol) (place (o + k + 4) (fp + k + 4) false sc).
Proof.
  set (text := content (file sc)).
  intros Ho Hk H0 H1 Hbody H2 H3.
  assert (Hin : o + 2 + k < Py.len text).
  { apply char_at_nonempty; [lia|]. rewrite H2. discriminate. }
  rewrite get_symbol_parts. unfold bind at 1.
  rewrite (skip_spaces_stay o fp false sc Ho) by (fold text; now rewrite H0).
  unfold bind at 1, gets at 1.
  change (current_character (place o fp false sc)) with (char_at text o).
  rewrite H0. change (String.eqb Py.backslash Py.backslash) with true.
  cbv iota. unfold bind at 1.
  assert (Hafter : after_backslash (place o fp false sc)
                   = skip_spaces (place (o + k + 4) (fp + k + 4) false sc)).
  { unfold after_backslash. unfold bind at 1.
    rewrite (check_comment_place o fp false sc Ho). fold text. rewrite H1.
    change (String.eqb Py.backslash Py.backslash) with true. cbv iota.
    unfold bind at 1, modify at 1.
    change (set_comment (negb false) (place (o + 1) (fp + 1) false sc))
      with (place (o + 1) (fp + 1) true sc).
    cbn [negb when]. unfold bind at 1, ret at 1.
    rewrite remaining_place by lia. fold text.
    (* the second backslash of the opening pair *)
    cbn [comment_loop]. change (comment (place (o + 1) (fp + 1) true sc))
      with true. cbv iota.
    change (current_character (place (o + 1) (fp + 1) true sc))
      with (char_at text (o + 1)).
    rewrite H1. change (String.eqb Py.backslash "") with false.
    change (String.eqb Py.backslash Py.backslash) with true. cbv iota.
    unfold bind at 1. unfold bind at 1.
    rewrite (check_comment_place (o + 1) (fp + 1) true sc) by lia. fold text.
    pose proof (Hbody 0 ltac:(lia)) as Hb0. rewrite Z.add_0_r in Hb0.
    replace (o + 1 + 1) with (o + 2) by lia.
    apply String.eqb_neq in Hb0. rewrite Hb0.
    unfold modify at 1.
    change (set_comment true (place (o + 2) (fp + 1 + 1) true sc))
      with (place (o + 2) (fp + 1 + 1) true sc).
    unfold bind at 1. rewrite (advance_place (o + 2) (fp + 1 + 1) true sc) by lia.
    rewrite (comment_loop_closed _ (o + 2 + 1) (fp + 1 + 1 + 1) (k - 1) sc);
      try lia.
    - do 2 f_equal; lia.
    - intros i Hi. replace (o + 2 + 1 + i) with (o + 2 + (i + 1)) by lia.
      apply Hbody. lia.
    - fold text. now replace (o + 2 + 1 + (k - 1)) with (o + 2 + k) by lia.
    - fold text. now replace (o + 2 + 1 + (k - 1) + 1) with (o + 3 + k) by lia.
    - fold text. lia. }
  rewrite Hafter. reflexivity.
Qed.

Lemma positioned_place sc :
  positioned sc ->
  char_at (content (file sc)) (file_position sc) <> "" ->
  sc = place (file_position sc) (file_position sc) false sc.
Proof.
  intros (_ & Hfp & Hsc & Hcm) Hne.
  destruct (comment sc) eqn:E; [|exact Hsc].
  specialize (Hcm eq_refl). now rewrite char_at_end in Hne.
Qed.

(** X14 A comment is skipped.  When the scanner is on the first of the two
    backslashes that open a comment, the comment has [k] characters, one at
    least and none of them a backslash, before the two backslashes that
    close it, and the first character after the comment and the white space
    that follows it is no backslash, then [get_symbol] returns what it
    returns from the character after the comment. *)
Theorem comment_is_skipped (sc : Scanner) (k m : Z) :
  positioned sc ->
  let text := content (file sc) in
  let o := file_position sc in
  1 <= k -> 0 <= m ->
  char_at text o = Py.backslash ->
  char_at text (o + 1) = Py.backslash ->
  (forall i, 0 <= i < k -> char_at text (o + 2 + i) <> Py.backslash) ->
  char_at text (o + 2 + k) = Py.backslash ->
  char_at text (o + 3 + k) = Py.backslash ->
  (forall i, 0 <= i < m -> Py.isspace (char_at text (o + k + 4 + i)) = true) ->
  Py.isspace (char_at text (o + k + 4 + m)) = false ->
  char_at text (o + k + 4 + m) <> Py.backslash ->
  get_symbol sc = get_symbol (place (o + k + 4) (o + k + 4) false sc).
Proof.
  intros Hpos text o Hk Hm H0 H1 Hbody H2 H3 Hsp Hstop Hnb.
  assert (Ho : 0 <= o) by apply Hpos.
  rewrite (positioned_place sc Hpos) at 1
    by (fold text; fold o; rewrite H0; discriminate).
  fold o. rewrite (get_symbol_comment o o k sc Ho Hk H0 H1 Hbody H2 H3).
  pose proof (skip_spaces_to (o + k + 4) (o + k + 4) false sc m ltac:(lia) Hm
                Hsp Hstop) as Hskip.
  transitivity
    (take_symbol (place (o + k + 4 + m) (o + k + 4 + m) false sc)).
  - unfold bind. now rewrite Hskip.
  - rewrite get_symbol_parts. unfold bind at 1. rewrite Hskip.
    unfold bind at 1, gets at 1.
    change (current_character
              (place (o + k + 4 + m) (o + k + 4 + m) false sc))
      with (char_at text (o + k + 4 + m)).
    apply String.eqb_neq in Hnb. rewrite Hnb. reflexivity.
Qed.

Lemma comment_is_skipped_witness :
  let text := Py.backslash ++ Py.backslash ++ "two switches"
                ++ Py.backslash ++ Py.backslash ++ "  SW1, SW2" in
  let sc := Scanner_init text [] in
  get_symbol sc = get_symbol (place 16 16 false sc).
Proof.
  intros text sc.
  refine (comment_is_skipped sc 12 2 (Scanner_init_positioned _ _)
            _ _ _ _ _ _ _ _ _ _); try reflexivity; try discriminate.
  - intros i Hi.
    assert (Hc : i = 0 \/ i = 1 \/ i = 2 \/ i = 3 \/ i = 4 \/ i = 5 \/ i = 6
                 \/ i = 7 \/ i = 8 \/ i = 9 \/ i = 10 \/ i = 11) by lia.
    repeat (destruct Hc as [->|Hc]; [discriminate|]). subst i. discriminate.
  - intros i Hi.
    assert (Hc : i = 0 \/ i = 1) by lia.
    destruct Hc as [->| ->]; reflexivity.
Defined.

Lemma take_symbol_backslash q fp sc :
  0 <= q ->
  char_at (content (file sc)) q = Py.backslash ->
  take_symbol (place q fp false sc)
  = Ok (mkSymbol (Some INVALID_CHARACTER) None (Some fp) (Some Py.backslash))
       (place (q + 1) (fp + 1) false sc).
Proof.
  intros Hq Hc. unfold take_symbol.
  unfold bind at 1, gets at 1. unfold bind at 1, gets at 1.
  change (file_position (place q fp false sc)) with fp.
  change (current_character (place q fp false sc))
    with (char_at (content (file sc)) q).
  rewrite Hc. unfold bind at 1.
  change (symbol_from fp Py.backslash)
    with (one_char INVALID_CHARACTER fp).
  rewrite (one_char_place INVALID_CHARACTER fp q fp false sc Hq), Hc.
  reflexivity.
Qed.

(** X15 The comments the scanner does not skip.  After a comment and the
    white space that follows it, the symbol is taken without a look for a
    further comment: on the backslash that opens a second comment
    [get_symbol] returns the invalid character [\].  And the four
    backslashes of an empty comment are not skipped either: [get_symbol]
    returns the invalid character [\] for the last of them. *)
Theorem comment_not_skipped (sc : Scanner) :
  positioned sc ->
  let text := content (file sc) in
  let o := file_position sc in
  char_at text o = Py.backslash ->
  char_at text (o + 1) = Py.backslash ->
  (forall k m,
     1 <= k -> 0 <= m ->
     (forall i, 0 <= i < k -> char_at text (o + 2 + i) <> Py.backslash) ->
     char_at text (o + 2 + k) = Py.backslash ->
     char_at text (o + 3 + k) = Py.backslash ->
     (forall i, 0 <= i < m ->
        Py.isspace (char_at text (o + k + 4 + i)) = true) ->
     char_at text (o + k + 4 + m) = Py.backslash ->
     get_symbol sc
     = Ok (mkSymbol (Some INVALID_CHARACTER) None (Some (o + k + 4 + m))
             (Some Py.backslash))
          (place (o + k + 4 + m + 1) (o + k + 4 + m + 1) false sc))
  /\ (char_at text (o + 2) = Py.backslash ->
      char_at text (o + 3) = Py.backslash ->
      get_symbol sc
      = Ok (mkSymbol (Some INVALID_CHARACTER) None (Some (o + 3))
              (Some Py.backslash))
           (place (o + 4) (o + 4) false sc)).
Proof.
  intros Hpos text o H0 H1.
  assert (Ho : 0 <= o) by apply Hpos.
  assert (Hsc : sc = place o o false sc).
  { apply positioned_place; [exact Hpos|]. fold text; fold o.
    rewrite H0. discriminate. }
  split.
  - intros k m Hk Hm Hbody H2 H3 Hsp Hbs.
    rewrite Hsc at 1.
    rewrite (get_symbol_comment o o k sc Ho Hk H0 H1 Hbody H2 H3).
    unfold bind at 1.
    rewrite (skip_spaces_to (o + k + 4) (o + k + 4) false sc m ltac:(lia) Hm
               Hsp) by (fold text; rewrite Hbs; reflexivity).
    apply take_symbol_backslash; [lia | exact Hbs].
  - intros H2 H3. rewrite Hsc at 1.
    rewrite get_symbol_parts. unfold bind at 1.
    rewrite (skip_spaces_stay o o false sc Ho)
      by (fold text; now rewrite H0).
    unfold bind at 1, gets at 1.
    change (current_character (place o o false sc)) with (char_at text o).
    rewrite H0. change (String.eqb Py.backslash Py.backslash) with true.
    cbv iota. unfold bind at 1.
    assert (Hin : o + 3 < Py.len text).
    { apply char_at_nonempty; [lia|]. rewrite H3. discriminate. }
    assert (Hafter : after_backslash (place o o false sc)
                     = Ok tt (place (o + 3) (o + 3) false sc)).
    { unfold after_backslash. unfold bind at 1.
      rewrite (check_comment_place o o false sc Ho). fold text. rewrite H1.
      change (String.eqb Py.backslash Py.backslash) with true. cbv iota.
      unfold bind at 1, modify at 1.
      change (set_comment (negb false) (place (o + 1) (o + 1) false sc))
        with (place (o + 1) (o + 1) true sc).
      cbn [negb when]. unfold bind at 1, ret at 1.
      rewrite remaining_place by lia. fold text.
      assert (Hfuel : exists f, Z.to_nat (Py.len text - (o + 1)) = S f).
      { exists (Z.to_nat (Py.len text - (o + 1)) - 1)%nat. lia. }
      destruct Hfuel as [f ->].
      cbn [comment_loop]. change (comment (place (o + 1) (o + 1) true sc))
        with true. cbv iota.
      change (current_character (place (o + 1) (o + 1) true sc))
        with (char_at text (o + 1)).
      rewrite H1. change (String.eqb Py.backslash "") with false.
      change (String.eqb Py.backslash Py.backslash) with true. cbv iota.
      unfold bind at 1. unfold bind at 1.
      rewrite (check_comment_place (o + 1) (o + 1) true sc) by lia. fold text.
      replace (o + 1 + 1) with (o + 2) by lia. rewrite H2.
      change (String.eqb Py.backslash Py.backslash) with true. cbv iota.
      unfold modify at 1.
      change (set_comment (negb true) (place (o + 2) (o + 2) true sc))
        with (place (o + 2) (o + 2) false sc).
      unfold bind at 1. rewrite (advance_place (o + 2) (o + 2) false sc) by lia.
      change (comment (place (o + 2 + 1) (o + 2 + 1) false sc)) with false.
      cbv iota. replace (o + 2 + 1) with (o + 3) by lia.
      apply skip_spaces_stay; [lia|]. fold text. now rewrite H3. }
    rewrite Hafter.
    rewrite (take_symbol_backslash (o + 3) (o + 3) sc ltac:(lia) H3).
    replace (o + 3 + 1) with (o + 4) by lia. reflexivity.
Qed.

Lemma comment_not_skipped_witness :
  let text := Py.backslash ++ Py.backslash ++ Py.backslash ++ Py.backslash
                ++ "SW1" in
  let sc := Scanner_init text [] in
  get_symbol sc
  = Ok (mkSymbol (Some INVALID_CHARACTER) None (Some 3) (Some Py.backslash))
       (place 4 4 false sc).
Proof.
  intros text sc.
  refine (proj2 (comment_not_skipped sc (Scanner_init_positioned _ _) _ _)
            _ _); reflexivity.
Defined.

(** The loop through a comment that nothing closes ends at the end of the
    text, the comment open. *)
Lemma comment_loop_open fuel q fp sc :
  0 <= q ->
  (forall i, q <= i -> char_at (content (file sc)) i <> Py.backslash) ->
  (Z.to_nat (Py.len (content (file sc)) - q) < fuel)%nat ->
  exists q',
    comment_loop fuel (place q fp true sc)
    = Ok tt (place q' (fp + (q' - q)) true sc)
    /\ q <= q' /\ Py.len (content (file sc)) <= q'.
Proof.
  set (text := content (file sc)).
  revert q fp. induction fuel as [|fuel IH]; intros q fp Hq Hno Hf; [lia|].
  cbn [comment_loop]. change (comment (place q fp true sc)) with true.
  cbv iota. change (current_character (place q fp true sc))
    with (char_at text q).
  destruct (String.eqb_spec (char_at text q) "") as [E|Hne].
  - exists q. replace (fp + (q - q)) with fp by lia.
    split; [reflexivity|]. split; [lia|].
    destruct (Z.ltb_spec q (Py.len text)) as [H|H]; [|exact H].
    now apply char_at_inside in E.
  - pose proof (char_at_nonempty _ _ Hq Hne) as Hlt.
    pose proof (Hno q ltac:(lia)) as Hnb. apply String.eqb_neq in Hnb.
    fold text in Hnb. rewrite Hnb.
    unfold bind at 1. unfold bind at 1. unfold ret at 1.
    rewrite (advance_place q fp true sc Hq).
    destruct (IH (q + 1) (fp + 1)) as (q' & Hrun & Hq' & Hend); [lia| |lia|].
    { intros i Hi. apply Hno. lia. }
    exists q'. rewrite Hrun. split; [do 2 f_equal; lia|]. split; lia.
Qed.

(** X16 A comment that nothing closes.  When the scanner is on the two
    backslashes that open a comment and no backslash follows them,
    [get_symbol] returns the symbol for the end of the file and prints an
    error whose message ends with the words about the open comment; the
    comment stays open.  And whenever the comment is open at the end of the
    file, [get_symbol] prints that error again. *)
Theorem open_comment_is_reported (sc : Scanner) :
  positioned sc ->
  let text := content (file sc) in
  let o := file_position sc in
  let reported (sc' : Scanner) :=
    exists msg head,
      stdout sc'
      = (stdout sc ++ [(Py.nl ++ Py.nl ++ msg ++ Py.nl)%string])%list
      /\ msg = head ++ "File ended with open comment. Expected '"
                    ++ Py.backslash ++ Py.backslash ++ "'" in
  (char_at text o = Py.backslash ->
   char_at text (o + 1) = Py.backslash ->
   (forall i, o + 2 <= i -> char_at text i <> Py.backslash) ->
   exists p sc',
     get_symbol sc = Ok (mkSymbol (Some EOF) None (Some p) (Some "")) sc'
     /\ Py.len text <= p /\ comment sc' = true /\ reported sc')
  /\ (comment sc = true ->
      exists sc',
        get_symbol sc
        = Ok (mkSymbol (Some EOF) None (Some o) (Some "")) sc'
        /\ comment sc' = true /\ reported sc').
Proof.
  intros Hpos text o reported.
  assert (Ho : 0 <= o) by apply Hpos.
  assert (Hl : line_lengths sc = map Py.len (Py.file_lines text))
    by apply Hpos.
  assert (Heof : forall q fp,
            0 <= q -> 0 <= fp -> Py.len text <= q ->
            exists sc',
              take_symbol (place q fp true sc)
              = Ok (mkSymbol (Some EOF) None (Some fp) (Some "")) sc'
              /\ comment sc' = true /\ reported sc').
  { intros q fp Hq Hfp Hend.
    destruct (take_symbol_place q fp true sc Hq Hfp Hl)
      as (s & n & out & Hrun & Hsp & Hout).
    fold text in Hsp, Hout.
    assert (Es : s = "")
      by (apply (spelled_empty text q s n Hq Hsp); exact Hend).
    subst s.
    destruct (Z.leb_spec (Py.len text) q) as [_|]; [|lia].
    cbn [andb] in Hout. destruct Hout as (msg & head & -> & Hmsg).
    eexists. split; [exact Hrun|]. split; [reflexivity|].
    exists msg, head. split; [reflexivity|].
    rewrite Hmsg. reflexivity. }
  split.
  - intros H0 H1 Hno.
    assert (Hsc : sc = place o o false sc).
    { apply positioned_place; [exact Hpos|]. fold text; fold o.
      rewrite H0. discriminate. }
    assert (Hin : o + 1 < Py.len text).
    { apply char_at_nonempty; [lia|]. rewrite H1. discriminate. }
    assert (Hg : get_symbol sc = get_symbol (place o o false sc))
      by (rewrite <- Hsc; reflexivity).
    rewrite Hg. rewrite get_symbol_parts. unfold bind at 1.
    rewrite (skip_spaces_stay o o false sc Ho)
      by (fold text; now rewrite H0).
    unfold bind at 1, gets at 1.
    change (current_character (place o o false sc)) with (char_at text o).
    rewrite H0. change (String.eqb Py.backslash Py.backslash) with true.
    cbv iota. unfold bind at 1.
    assert (Hafter : exists q,
              after_backslash (place o o false sc)
              = Ok tt (place q q true sc) /\ Py.len text <= q).
    { unfold after_backslash. unfold bind at 1.
      rewrite (check_comment_place o o false sc Ho). fold text. rewrite H1.
      change (String.eqb Py.backslash Py.backslash) with true. cbv iota.
      unfold bind at 1, modify at 1.
      change (set_comment (negb false) (place (o + 1) (o + 1) false sc))
        with (place (o + 1) (o + 1) true sc).
      cbn [negb when]. unfold bind at 1, ret at 1.
      rewrite remaining_place by lia. fold text.
      cbn [comment_loop]. change (comment (place (o + 1) (o + 1) true sc))
        with true. cbv iota.
      change (current_character (place (o + 1) (o + 1) true sc))
        with (char_at text (o + 1)).
      rewrite H1. change (String.eqb Py.backslash "") with false.
      change (String.eqb Py.backslash Py.backslash) with true. cbv iota.
      unfold bind at 1. unfold bind at 1.
      rewrite (check_comment_place (o + 1) (o + 1) true sc) by lia. fold text.
      pose proof (Hno (o + 1 + 1) ltac:(lia)) as Hb0.
      apply String.eqb_neq in Hb0. rewrite Hb0.
      unfold modify at 1.
      change (set_comment true (place (o + 1 + 1) (o + 1 + 1) true sc))
        with (place (o + 1 + 1) (o + 1 + 1) true sc).
      unfold bind at 1.
      rewrite (advance_place (o + 1 + 1) (o + 1 + 1) true sc) by lia.
      destruct (comment_loop_open (Z.to_nat (Py.len text - (o + 1)))
                  (o + 1 + 1 + 1) (o + 1 + 1 + 1) sc)
        as (q & Hrun & Hq & Hend); [lia| |fold text; lia|].
      { intros i Hi. apply Hno. lia. }
      exists q. rewrite Hrun. split; [|exact Hend].
      do 2 f_equal. lia. }
    destruct Hafter as (q & -> & Hend).
    destruct (Heof q q ltac:(lia) ltac:(lia) Hend) as (sc' & Hrun & Hc & Hrep).
    exists q, sc'. auto.
  - intros Hcm.
    assert (Hend : Py.len text <= o) by (apply Hpos; exact Hcm).
    assert (Hsc : sc = place o o true sc).
    { destruct Hpos as (_ & _ & Hsc & _). rewrite Hcm in Hsc. exact Hsc. }
    assert (Hg : get_symbol sc = get_symbol (place o o true sc))
      by (rewrite <- Hsc; reflexivity).
    rewrite Hg. rewrite get_symbol_parts. unfold bind at 1.
    rewrite (skip_spaces_stay o o true sc Ho)
      by (fold text; now rewrite char_at_end).
    unfold bind at 1, gets at 1.
    change (current_character (place o o true sc)) with (char_at text o).
    rewrite (char_at_end text o Hend).
    change (String.eqb "" Py.backslash) with false. cbv iota.
    unfold bind at 1, ret at 1.
    apply Heof; lia.
Qed.

Lemma open_comment_is_reported_witness :
  let text := Py.backslash ++ Py.backslash ++ "x" in
  let sc := Scanner_init text [] in
  exists p sc',
    get_symbol sc = Ok (mkSymbol (Some EOF) None (Some p) (Some "")) sc'
    /\ Py.len text <= p /\ comment sc' = true.
Proof.
  intros text sc.
  destruct (proj1 (open_comment_is_reported sc (Scanner_init_positioned _ _)))
    as (p & sc' & H1 & H2 & H3 & _).
  - reflexivity.
  - reflexivity.
  - intros i Hi. destruct (Z.eq_dec i 2) as [->|Hne]; [discriminate|].
    rewrite char_at_end; [discriminate|].
    change (Py.len (content (file sc))) with 3. change (file_position sc) with 0 in Hi. lia.
  - exists p, sc'. auto.
Defined.

(** ** The symbols the parser gets *)

Lemma get_symbol_number sc :
  readable sc ->
  exists sym sc',
    get_symbol sc = Ok sym sc'
    /\ readable sc'
    /\ (exists p, sy_position sym = Some p /\ 0 <= p)
    /\ (exists s, sy_string sym = Some s)
    /\ (is_type sym NUMBER = true ->
        exists n, 1 <= n /\ sy_string sym = Some (Py.str n)).
Proof.
  intros Hr.
  destruct (get_symbol_readable sc Hr)
    as (p & s & sc1 & Hrun & Hp & Hr1 & _ & _ & _ & o1 & n & Ho1 & Hsp).
  exists (symbol_of (names sc) p s), sc1.
  split; [exact Hrun|]. split; [exact Hr1|].
  split; [exists p; split; [reflexivity | exact Hp]|].
  split; [exists s; reflexivity|].
  intros H. apply is_type_symbol_of in H.
  destruct (spelled_number _ _ _ _ Ho1 Hsp H) as [Hstr Hge].
  exists (digits_value 0 s). split; [exact Hge|].
  cbn [symbol_of sy_string]. now rewrite Hstr.
Qed.

Section FurtherParserProperties.

Context {kernel_impl : Kernel}.

Lemma next_symbol_quiet st :
  Inv st ->
  outcome (next_symbol st)
    (fun _ st' => Inv st' /\ same_but_input st st')
    (same_but_input st).
Proof.
  intros Hi.
  pose proof (next_symbol_spec st Hi) as Hs.
  pose proof (next_symbol_keeps st) as Hk.
  destruct (next_symbol st) as [[] st'|e st'|]; simpl in *.
  - split; [apply Hs | exact Hk].
  - exact Hk.
  - exact Hs.
Qed.

Lemma error_told message stop symbol_arg st :
  Inv st ->
  outcome (__error message stop symbol_arg st)
    (fun _ st' => Inv st' /\ error_effect message st st')
    (error_effect message st).
Proof.
  intros Hi.
  pose proof (error_effect_of message stop symbol_arg st) as Heff.
  pose proof (error_spec message stop symbol_arg st Hi) as Hspec.
  destruct (__error message stop symbol_arg st); simpl in *; auto.
  split; [apply Hspec | exact Heff].
Qed.

Lemma told_same msgs st st' :
  same_but_input st st' -> told msgs st st'.
Proof. intros (_ & _ & Hc & _ & Hl). left. auto. Qed.

Lemma told_error msgs m st st1 st' :
  same_but_input st st1 -> error_effect m st1 st' -> In m msgs ->
  told msgs st st'.
Proof.
  intros (Hk & _ & Hc & _ & Hl) (_ & Hc' & Hl' & _) Hin.
  right. exists m. split; [exact Hin|]. split; congruence.
Qed.

Lemma told_then msgs st st1 st' :
  told msgs st st1 -> same_but_input st1 st' -> told msgs st st'.
Proof.
  intros [[H1 H2]|(m & Hin & H1 & H2)] (_ & _ & Hc & _ & Hl).
  - left. split; congruence.
  - right. exists m. split; [exact Hin|]. split; congruence.
Qed.

(** The closing parenthesis: no error, or the one for its absence. *)
Lemma close_parenthesis_told st0 st :
  Inv st -> same_but_input st0 st ->
  outcome (close_parenthesis st)
    (fun _ st' => told ["Expected ')'"] st0 st' /\ skip st' = skip st)
    (told ["Expected ')'"] st0).
Proof.
  intros Hi Hsame. unfold close_parenthesis.
  eapply outcome_bind; [apply next_symbol_quiet, Hi| |].
  - intros [] st1 [Hi1 Hs1]. apply gets_step.
    pose proof (same_but_input_trans _ _ _ Hsame Hs1) as Hs01.
    destruct (is_type (symbol st1) PARENTHESIS_RIGHT).
    + eapply outcome_weaken; [apply next_symbol_quiet, Hi1| |].
      * simpl. intros _ st2 [_ Hs2]. split.
        -- apply told_same. eapply same_but_input_trans; eauto.
        -- destruct Hs1 as (_ & _ & _ & Ha & _), Hs2 as (_ & _ & _ & Hb & _).
           congruence.
      * intros st2 Hs2. apply told_same.
        eapply same_but_input_trans; eauto.
    + eapply outcome_bind; [apply error_told, Hi1| |].
      * intros out st2 [_ He]. simpl. split.
        -- eapply told_error; [exact Hs01 | exact He | now left].
        -- destruct Hs1 as (_ & _ & _ & Ha & _), He as (_ & _ & _ & _ & Hb).
           congruence.
      * intros st2 He. eapply told_error; [exact Hs01 | exact He | now left].
  - intros st1 Hs1. apply told_same. eapply same_but_input_trans; eauto.
Qed.

(** X17 [__clock] reports one error at most, and the error is the lack of
    the opening parenthesis, of the number or of the closing parenthesis.
    Its test [num <= 0] never holds, since the scanner makes numbers from 1
    on: the message [Clock half period must be greater than 0] is never
    reported, and [CLOCK(0)] is told to lack a number. *)
Theorem clock_reports (st : Parser) :
  Inv st ->
  readable (scanner st) ->
  let msgs :=
    ["Expected '('";
     "Expected a number n > 0, the number of simulation cycles"
       ++ " after which the state changes";
     "Expected ')'"] in
  outcome (__clock st) (fun _ st' => told msgs st st') (told msgs st)
  /\ ~ In "Clock half period must be greater than 0" msgs.
Proof.
  intros Hi Hr msgs. split.
  2:{ intros [H|[H|[H|[]]]]; discriminate H. }
  unfold __clock. apply gets_step.
  destruct (is_type (symbol st) PARENTHESIS_LEFT).
  2:{ eapply outcome_bind; [apply error_told, Hi| |].
      - intros out st1 [_ He]. simpl.
        eapply told_error; [apply same_but_input_refl | exact He | now left].
      - intros st1 He.
        eapply told_error; [apply same_but_input_refl | exact He | now left]. }
  destruct (get_symbol_number (scanner st) Hr)
    as (sym & sc' & Hget & Hr' & _ & _ & Hnum).
  pose proof (next_symbol_Inv st sym sc' Hi Hget) as Hi1.
  rewrite (bind_Ok _ _ _ _ _ (next_symbol_eq st sym sc' Hget)).
  set (st1 := set_symbol sym (set_scanner sc' st)) in *.
  assert (Hs1 : same_but_input st st1) by (repeat split).
  apply gets_step. change (symbol st1) with sym.
  destruct (is_type sym NUMBER) eqn:En.
  2:{ eapply outcome_bind; [apply error_told, Hi1| |].
      - intros out st2 [_ He]. simpl.
        eapply told_error; [exact Hs1 | exact He | right; now left].
      - intros st2 He.
        eapply told_error; [exact Hs1 | exact He | right; now left]. }
  destruct (Hnum eq_refl) as (n & Hn & Hstr).
  assert (Eint : int_of_symbol st1 = Ok n st1).
  { unfold int_of_symbol, bind, gets. change (symbol st1) with sym.
    now rewrite Hstr, int_str. }
  rewrite (bind_Ok _ _ _ _ _ Eint).
  assert (Epos : (n <=? 0) = false) by (apply Z.leb_gt; lia).
  rewrite Epos. cbn [when]. apply ret_step. apply gets_step.
  set (st2 := if negb (error_ st1) then set_cur_attribute (Some n) st1
              else st1).
  assert (E2 : when (negb (error_ st1)) (modify (set_cur_attribute (Some n))) st1
               = Ok tt st2).
  { unfold st2. destruct (negb (error_ st1)); reflexivity. }
  rewrite (bind_Ok _ _ _ _ _ E2).
  assert (Hi2 : Inv st2) by (unfold st2; destruct (negb (error_ st1)); exact Hi1).
  assert (Hs2 : same_but_input st st2)
    by (unfold st2; destruct (negb (error_ st1)); exact Hs1).
  apply gets_step.
  destruct (skip st2); cbn [negb when].
  - apply ret_step. simpl. left.
    destruct Hs2 as (_ & _ & Hc & _ & Hl). split; [exact Hl | exact Hc].
  - eapply outcome_bind; [apply (close_parenthesis_told st st2 Hi2 Hs2)| |].
    + intros [] st3 [Ht _]. simpl.
      eapply told_then; [|apply same_but_input_refl].
      destruct Ht as [H|(m & [<-|[]] & H)]; [left; exact H|].
      right. eexists. split; [right; right; now left | exact H].
    + intros st3 Ht.
      destruct Ht as [H|(m & [<-|[]] & H)]; [left; exact H|].
      right. eexists. split; [right; right; now left | exact H].
Qed.

End FurtherParserProperties.

(** ** The parser raises no exception of its own *)

Lemma readable_set_stdout out sc : readable sc -> readable (set_stdout out sc).
Proof.
  intros (Hl & Hfp & o & Ho & Hsc & Hcm).
  split; [exact Hl|]. split; [exact Hfp|].
  exists o. split; [exact Ho|]. split; [|exact Hcm].
  rewrite Hsc at 1. reflexivity.
Qed.

Lemma readable_set_names n sc : readable sc -> readable (set_names n sc).
Proof.
  intros (Hl & Hfp & o & Ho & Hsc & Hcm).
  split; [exact Hl|]. split; [exact Hfp|].
  exists o. split; [exact Ho|]. split; [|exact Hcm].
  rewrite Hsc at 1. reflexivity.
Qed.

Lemma get_symbol_good sc :
  readable sc ->
  exists sym sc', get_symbol sc = Ok sym sc' /\ readable sc' /\ good sym.
Proof.
  intros Hr.
  destruct (get_symbol_number sc Hr) as (sym & sc' & H1 & H2 & H3 & H4 & H5).
  exists sym, sc'. split; [exact H1|]. split; [exact H2|].
  split; [exact H3|]. split; [exact H4 | exact H5].
Qed.

Lemma print_error_good sym message sc :
  readable sc -> good sym ->
  exists out,
    print_error sym message sc
    = Ok out (set_stdout
                (stdout sc ++ [(Py.nl ++ Py.nl ++ out ++ Py.nl)%string])%list sc).
Proof.
  intros Hr ((p & Hp & Hp0) & _).
  destruct (print_error_total sc sym message p) as (out & _ & H & _);
    [|exact Hp|exact Hp0|eauto].
  destruct Hr as (Hl & _ & o & Ho & Hsc & _).
  split; [exact Hl|]. rewrite Hsc. cbn [file place tell].
  pose proof (len_nonneg (content (file sc))). lia.
Qed.

Section Safety.

Context {kernel_impl : Kernel}.

Lemma step_refl st : Safe st -> step st st.
Proof. intros H. split; [exact H | auto]. Qed.

Lemma step_trans a b c : step a b -> step b c -> step a c.
Proof. intros [_ H1] [H2 H3]. split; [exact H2 | auto]. Qed.

Lemma lists_same_refl st : lists_same st st.
Proof. repeat split. Qed.

Lemma lists_same_trans a b c :
  lists_same a b -> lists_same b c -> lists_same a c.
Proof. intros (?&?&?) (?&?&?). repeat split; congruence. Qed.

Lemma sure_bind {A B} (c : M Parser A) (k : A -> M Parser B) st
    (Q1 : A -> Parser -> Prop) (Q : B -> Parser -> Prop) :
  sure (c st) Q1 ->
  (forall a st', Q1 a st' -> sure (k a st') Q) ->
  sure (bind c k st) Q.
Proof.
  unfold bind. destruct (c st) as [a st'|e st'|]; simpl; auto.
Qed.

Lemma sure_weaken {A} (r : res Parser A) (Q Q' : A -> Parser -> Prop) :
  sure r Q -> (forall a st, Q a st -> Q' a st) -> sure r Q'.
Proof. destruct r; simpl; auto. Qed.

Lemma safe_step {A B} (c : M Parser A) (k : A -> M Parser B) R st0 st1
    (Q : B -> Parser -> Prop) :
  safe c R ->
  step st0 st1 ->
  (forall a st2, step st0 st2 -> R st1 a st2 -> sure (k a st2) Q) ->
  sure (bind c k st1) Q.
Proof.
  intros Hc Hp Hk. eapply sure_bind; [apply Hc, Hp|].
  simpl. intros a st2 [Hp2 HR]. apply Hk; [|exact HR].
  eapply step_trans; eauto.
Qed.

Lemma gets_sure {A B} (f : Parser -> A) (k : A -> M Parser B) st Q :
  sure (k (f st) st) Q -> sure (bind (gets f) k st) Q.
Proof. auto. Qed.

Lemma modify_sure {B} (f : Parser -> Parser) (k : unit -> M Parser B) st Q :
  sure (k tt (f st)) Q -> sure (bind (modify f) k st) Q.
Proof. auto. Qed.

Lemma ret_sure {A B} (a : A) (k : A -> M Parser B) st Q :
  sure (k a st) Q -> sure (bind (ret a) k st) Q.
Proof. auto. Qed.

Lemma assoc_sure {A B C} (c : M Parser A) (k : A -> M Parser B)
    (h : B -> M Parser C) st Q :
  sure (bind c (fun a => bind (k a) h) st) Q ->
  sure (bind (bind c k) h st) Q.
Proof. unfold bind. destruct (c st); auto. Qed.

Lemma when_sure {B} (b : bool) (c : M Parser unit) (k : unit -> M Parser B)
    st Q :
  (b = true -> sure (bind c k st) Q) ->
  (b = false -> sure (k tt st) Q) ->
  sure (bind (when b c) k st) Q.
Proof. destruct b; simpl; auto. Qed.

Lemma when_sure_last (b : bool) (c : M Parser unit) st Q :
  (b = true -> sure (c st) Q) ->
  (b = false -> sure (ret tt st) Q) ->
  sure (when b c st) Q.
Proof. destruct b; simpl; auto. Qed.

Lemma last_sure {A} (c : M Parser A) st Q :
  sure (bind c (fun a => ret a) st) Q -> sure (c st) Q.
Proof. unfold bind, ret. destruct (c st); auto. Qed.

(** *** Symbols and errors *)

Lemma untouched_refl st : untouched st st.
Proof. repeat split. Qed.

Lemma untouched_trans a b c : untouched a b -> untouched b c -> untouched a c.
Proof.
  intros (Hl1&?&?&?&?&?&?) (Hl2&?&?&?&?&?&?).
  split; [eapply lists_same_trans; eauto|]. repeat split; congruence.
Qed.

Lemma next_symbol_safe : safe next_symbol (fun st _ st' => untouched st st').
Proof.
  intros st Hs. destruct Hs as (Hr & Hsym & Hd & Hp & Ha & Hc).
  destruct (get_symbol_good (scanner st) Hr) as (sym & sc' & Hget & Hr' & Hg).
  rewrite (next_symbol_eq st sym sc' Hget). simpl.
  split; [|repeat split].
  split; [|auto].
  split; [exact Hr'|]. split; [exact Hg|]. auto.
Qed.

Lemma error_loop_safe fuel stop st :
  Safe st ->
  sure (error_loop fuel stop st) (fun _ st' =>
    step st st' /\ untouched st st').
Proof.
  revert st. induction fuel as [|fuel IH]; intros st Hs; [exact I|].
  cbn [error_loop]. destruct (keeps_skipping stop (symbol st)).
  - eapply sure_bind; [apply next_symbol_safe, Hs|].
    simpl. intros [] st1 (Hst & Hu).
    eapply sure_weaken; [apply IH, Hst|].
    simpl. intros _ st2 (Hst2 & Hu2).
    split; [eapply step_trans; eauto | eapply untouched_trans; eauto].
  - simpl. split; [now apply step_refl | apply untouched_refl].
Qed.

Lemma count_errors_app l1 l2 :
  count_errors (l1 ++ l2) = (count_errors l1 + count_errors l2)%nat.
Proof. unfold count_errors. now rewrite filter_app, length_app. Qed.

Lemma Safe_scanner sc st :
  Safe st -> readable sc -> Safe (set_scanner sc st).
Proof.
  intros (_ & H) Hr. split; [exact Hr | exact H].
Qed.

Lemma print_error_new message sc :
  readable sc ->
  print_error Symbol_new message sc = Raise TypeError sc
  \/ exists out,
       print_error Symbol_new message sc
       = Ok out (set_stdout
                   (stdout sc ++ [(Py.nl ++ Py.nl ++ out ++ Py.nl)%string])%list
                   sc).
Proof.
  intros (Hl & _ & o & Ho & Hsc & _).
  destruct (line_lengths sc) as [|x l] eqn:E.
  - right. eexists. apply print_error_no_line; [exact E|].
    rewrite Hsc. cbn [file place tell].
    pose proof (len_nonneg (content (file sc))). lia.
  - left. unfold print_error, locate, bind, gets. rewrite E.
    rewrite sol_positions_starts. reflexivity.
Qed.

(** [print_error] as the parser calls it. *)
Lemma on_print_error_safe sym message st :
  Safe st -> showable (Some sym) ->
  sure (on_scanner (print_error sym message) st)
    (fun _ st' => step st st' /\ untouched st st' /\ symbol st' = symbol st
                  /\ error_msg st' = error_msg st).
Proof.
  intros Hs Hshow. unfold on_scanner, lift.
  assert (Hr : readable (scanner st)) by apply Hs.
  assert (Hok : forall out,
            print_error sym message (scanner st)
            = Ok out (set_stdout
                        (stdout (scanner st)
                           ++ [(Py.nl ++ Py.nl ++ out ++ Py.nl)%string])%list
                        (scanner st)) ->
            sure (match print_error sym message (scanner st) with
                  | Ok a t => Ok a (set_scanner t st)
                  | Raise e t => Raise e (set_scanner t st)
                  | OutOfFuel => OutOfFuel
                  end)
              (fun _ st' => step st st' /\ untouched st st'
                            /\ symbol st' = symbol st
                            /\ error_msg st' = error_msg st)).
  { intros out ->. simpl. split; [|repeat split].
    split; [|auto]. apply Safe_scanner; [exact Hs|].
    now apply readable_set_stdout. }
  destruct Hshow as [Hg|[-> Hno]].
  - destruct (print_error_good sym message (scanner st) Hr Hg) as [out E].
    now apply (Hok out).
  - destruct (print_error_new message (scanner st) Hr) as [E|[out E]].
    + rewrite E. simpl. split; [reflexivity | exact Hno].
    + now apply (Hok out).
Qed.

Lemma error_safe_gen message stop symbol_arg st :
  Safe st -> showable symbol_arg ->
  sure (__error message stop symbol_arg st)
    (fun _ st' => step st st' /\ erred message st st').
Proof.
  intros Hs Hshow. unfold __error. apply gets_sure. do 3 apply modify_sure.
  set (st1 := log _ _).
  set (sym := match symbol_arg with Some s => s | None => symbol st end).
  assert (Hs1 : Safe st1).
  { destruct Hs as (Hr & Hsym & Hd & Hp & Ha & Hc).
    split; [exact Hr|]. split; [exact Hsym|]. split; [exact Hd|].
    split; [exact Hp|]. split; [exact Ha|].
    unfold st1. cbn [error_count calls set_calls log set_error_count
                     set_error_ kernel].
    rewrite count_errors_app, Hc. cbn. lia. }
  assert (He1 : erred message st st1) by (repeat split).
  assert (Hshow1 : showable (Some sym)).
  { unfold sym. destruct symbol_arg as [s|]; [exact Hshow|].
    left. apply Hs. }
  eapply sure_bind; [apply (on_print_error_safe sym message st1 Hs1 Hshow1)|].
  simpl. intros out st2 (Hst2 & Hu2 & _).
  assert (Hfin : forall st3,
            step st2 st3 -> untouched st2 st3 ->
            sure (ret out (set_error_msg
                             (error_msg st3 ++ Py.nl ++ Py.nl ++ out) st3))
              (fun _ st' => step st st' /\ erred message st st')).
  { intros st3 [Hs3 _] Hu3. simpl.
    pose proof (untouched_trans _ _ _ Hu2 Hu3) as Hu.
    destruct Hu as ((Hd & Hp & Ha) & He & Hat & Hk & Hc & Hn & Hker).
    destruct He1 as (E1 & (E2 & E3 & E4) & E5 & E6 & E7 & E8 & E9).
    split.
    - split; [exact Hs3|]. intros _. cbn [error_ set_error_msg]. congruence.
    - cbn [erred error_ set_error_msg cur_attribute skip kernel calls
           error_count lists_same cur_device_name_list cur_pin_name_list
           cur_arrow].
      unfold erred, lists_same.
      cbn [error_ set_error_msg cur_attribute skip kernel calls
           error_count cur_device_name_list cur_pin_name_list cur_arrow].
      repeat split; congruence. }
  destruct stop as [stop|].
  - eapply sure_bind;
      [exact (error_loop_safe (loop_bound st2) stop st2 (proj1 Hst2))|].
    simpl. intros [] st3 (Hst3 & Hu3). exact (Hfin st3 Hst3 Hu3).
  - exact (Hfin st2 (step_refl _ (proj1 Hst2)) (untouched_refl _)).
Qed.

Lemma error_safe message stop :
  safe (__error message stop None) (fun st _ st' => erred message st st').
Proof. intros st Hs. now apply error_safe_gen. Qed.

(** *** Stepping through a procedure *)

Ltac state_fields :=
  cbn [scanner kernel symbol error_ error_count skip cur_attribute error_msg
       cur_device_name_list cur_pin_name_list cur_arrow check_symbol calls
       set_scanner set_kernel set_symbol set_error_ set_error_count set_skip
       set_cur_attribute set_error_msg set_cur_device_name_list
       set_cur_pin_name_list set_cur_arrow set_check_symbol set_calls
       set_names_p log] in *.

Ltac sstep :=
  lazymatch goal with
  | |- sure (bind (gets _) _ _) _ => apply gets_sure
  | |- sure (bind (modify _) _ _) _ => apply modify_sure
  | |- sure (bind (ret _) _ _) _ => apply ret_sure
  | |- sure (bind (bind _ _) _ _) _ => apply assoc_sure
  end; cbv beta.

Ltac find_step st0 :=
  match goal with
  | H : step st0 _ |- _ => exact H
  | H : Safe st0 |- _ => exact (step_refl st0 H)
  end.

Ltac find_safe :=
  match goal with
  | H : Safe _ |- _ => exact H
  | H : step _ _ |- _ => exact (proj1 H)
  end.

Ltac sfinish st0 :=
  cbn [sure ret modify];
  first [ exact I
        | find_step st0
        | split; [find_step st0 | try exact I] ].

Create HintDb safe_specs.

Ltac sbranch :=
  lazymatch goal with
  | |- sure (bind (when ?b _) _ _) _ =>
      apply when_sure; intros ?
  | |- sure (when ?b _ _) _ =>
      apply when_sure_last; intros ?
  | |- sure (bind (if ?b then _ else _) _ _) _ =>
      let E := fresh "E" in destruct b eqn:E
  | |- sure ((if ?b then _ else _) _) _ =>
      let E := fresh "E" in destruct b eqn:E
  end.

Lemma int_of_symbol_sure {B} (k : Z -> M Parser B) st Q :
  Safe st -> is_type (symbol st) NUMBER = true ->
  (forall n, 1 <= n -> sure (k n st) Q) ->
  sure (bind int_of_symbol k st) Q.
Proof.
  intros (_ & (_ & _ & Hn) & _) E Hk.
  destruct (Hn E) as (n & Hn1 & Hs).
  unfold int_of_symbol, bind, gets. rewrite Hs, int_str. simpl.
  now apply Hk.
Qed.

Ltac safe_call st0 :=
  lazymatch goal with
  | |- sure (bind int_of_symbol _ _) _ =>
      apply int_of_symbol_sure; [find_safe | assumption | intros ? ?]
  | |- sure (bind _ _ _) _ =>
      eapply (safe_step _ _ _ st0);
      [ solve [eauto with safe_specs] | find_step st0 | intros ? ? ? ? ]
  end.

(** The same, with the result of the call left to be named. *)
Ltac safe_call_as st0 :=
  eapply (safe_step _ _ _ st0);
  [ solve [eauto with safe_specs] | find_step st0 | ].

Ltac safe_tac st0 :=
  repeat first
    [ sstep
    | sbranch
    | safe_call st0
    | lazymatch goal with
      | |- sure (ret _ _) _ => sfinish st0
      | |- sure (modify _ _) _ => sfinish st0
      | |- sure (bind _ _ _) _ => fail
      | |- sure (_ _) _ => apply last_sure
      end ].

#[local] Hint Extern 1 (safe next_symbol _) =>
  apply next_symbol_safe : safe_specs.
#[local] Hint Extern 1 (safe (__error _ _ None) _) =>
  apply error_safe : safe_specs.

Lemma close_parenthesis_safe : harmless close_parenthesis.
Proof. intros st Hs. unfold close_parenthesis. safe_tac st. Qed.

#[local] Hint Extern 1 (safe close_parenthesis _) =>
  apply close_parenthesis_safe : safe_specs.

Lemma clock_safe : harmless __clock.
Proof. intros st Hs. unfold __clock. safe_tac st. Qed.

Lemma switch_safe : harmless __switch.
Proof. intros st Hs. unfold __switch. safe_tac st. Qed.

Lemma gate_inputs_safe no_number : harmless (gate_inputs no_number).
Proof. intros st Hs. unfold gate_inputs. safe_tac st. Qed.

#[local] Hint Extern 1 (safe __clock _) => apply clock_safe : safe_specs.
#[local] Hint Extern 1 (safe __switch _) => apply switch_safe : safe_specs.
#[local] Hint Extern 1 (safe __And _) => apply gate_inputs_safe : safe_specs.
#[local] Hint Extern 1 (safe __nand _) => apply gate_inputs_safe : safe_specs.
#[local] Hint Extern 1 (safe __nor _) => apply gate_inputs_safe : safe_specs.
#[local] Hint Extern 1 (safe __oor _) => apply gate_inputs_safe : safe_specs.

(** *** Calls of the kernel *)

(** What a call of the kernel leaves as it was. *)
Lemma kernel_call_safe {A} (c : call) (f : Names.t -> K -> Names.t * K * A) :
  is_error c = false ->
  safe (kernel_call c f) (fun st a st' =>
    lists_same st st' /\ error_ st' = error_ st /\ symbol st' = symbol st
    /\ skip st' = skip st
    /\ a = snd (f (names (scanner st)) (kernel st))).
Proof.
  intros Hc st Hs. unfold kernel_call.
  destruct (f (names (scanner st)) (kernel st)) as [[n k] a]. simpl.
  split; [|repeat split].
  split; [|auto].
  destruct Hs as (Hr & Hsym & Hd & Hp & Ha & Hn).
  split; [now apply readable_set_names|].
  split; [exact Hsym|]. split; [exact Hd|]. split; [exact Hp|].
  split; [exact Ha|]. state_fields.
  rewrite count_errors_app, Hn.
  assert (H1 : count_errors [c] = 0%nat).
  { unfold count_errors. cbn [filter]. now rewrite Hc. }
  rewrite H1. lia.
Qed.

Lemma call_make_clock_safe id : harmless (call_make_clock id).
Proof.
  intros st Hs. unfold call_make_clock. sstep.
  eapply sure_weaken; [now apply kernel_call_safe|].
  simpl. intros a st' [H _]. now split.
Qed.

Lemma call_make_switch_safe id : harmless (call_make_switch id).
Proof.
  intros st Hs. unfold call_make_switch. sstep.
  eapply sure_weaken; [now apply kernel_call_safe|].
  simpl. intros a st' [H _]. now split.
Qed.

Lemma call_make_gate_safe kind inputs id :
  harmless (call_make_gate kind inputs id).
Proof.
  intros st Hs. unfold call_make_gate. sstep.
  eapply sure_weaken; [now apply kernel_call_safe|].
  simpl. intros a st' [H _]. now split.
Qed.

Lemma call_make_d_type_safe id : harmless (call_make_d_type id).
Proof.
  intros st Hs. unfold call_make_d_type.
  eapply sure_weaken; [now apply kernel_call_safe|].
  simpl. intros a st' [H _]. now split.
Qed.

Lemma for_each_safe {A} (l : list A) (body : A -> M Parser unit) :
  (forall x, harmless (body x)) -> harmless (for_each l body).
Proof.
  intros Hb. induction l as [|x l IH]; intros st Hs; simpl.
  - split; [now apply step_refl | exact I].
  - eapply (safe_step _ _ _ st); [apply Hb | now apply step_refl |].
    intros [] st1 H1 _.
    eapply sure_weaken; [apply IH, H1|].
    simpl. intros a st2 [H2 _]. split; [|exact I].
    exact (step_trans _ _ _ H1 H2).
Qed.

Lemma spellings_good l : Forall good l -> exists ss, spellings l = Some ss.
Proof.
  induction 1 as [|sym l (_ & (s & Hs) & _) _ (ss & IH)]; simpl.
  - now exists [].
  - rewrite Hs, IH. now exists (s :: ss).
Qed.

Lemma make_devices_safe (make : Z -> M Parser unit) :
  (forall id, harmless (make id)) -> harmless (make_devices make).
Proof.
  intros Hm st Hs. unfold make_devices. sstep.
  apply when_sure_last; intros He; [|sfinish st]. sstep.
  destruct (spellings_good (cur_device_name_list st)) as (ss & E);
    [apply Hs|].
  rewrite E. unfold bind at 1.
  destruct (Names.lookup (names (scanner st)) ss) as [ids n].
  assert (H1 : step st (set_names_p n st)).
  { split; [|auto]. destruct Hs as (Hr & Hrest).
    split; [now apply readable_set_names | exact Hrest]. }
  eapply sure_weaken; [apply for_each_safe; [exact Hm | exact (proj1 H1)]|].
  simpl. intros a st2 [H2 _]. split; [|exact I].
  exact (step_trans _ _ _ H1 H2).
Qed.

#[local] Hint Extern 1 (safe (make_devices _) _) =>
  apply make_devices_safe; intros ?;
  first [ apply call_make_clock_safe | apply call_make_switch_safe
        | apply call_make_gate_safe | apply call_make_d_type_safe ]
  : safe_specs.

(** *** Names and points *)

Lemma Safe_more_devices sym st :
  Safe st -> good sym ->
  Safe (set_cur_device_name_list (cur_device_name_list st ++ [sym]) st).
Proof.
  intros (Hr & Hsym & Hd & Hrest) Hg.
  split; [exact Hr|]. split; [exact Hsym|]. split; [|exact Hrest].
  apply Forall_app. split; [exact Hd | now constructor].
Qed.

Lemma Safe_more_pins sym st :
  Safe st -> pin_symbol sym ->
  Safe (set_cur_pin_name_list (cur_pin_name_list st ++ [sym]) st).
Proof.
  intros (Hr & Hsym & Hd & Hp & Hrest) Hg.
  split; [exact Hr|]. split; [exact Hsym|]. split; [exact Hd|].
  split; [|exact Hrest].
  apply Forall_app. split; [exact Hp | now constructor].
Qed.

Lemma named_error dn pn message st st' :
  erred message st st' -> named dn pn st false st'.
Proof.
  intros (He & (_ & _ & Ha) & _).
  split; [exact Ha|]. split; [auto|]. intros H. congruence.
Qed.

Lemma devicename_safe : safe __devicename (named 1 0).
Proof.
  intros st Hs. unfold __devicename, __name. sstep.
  destruct (is_type (symbol st) NAME) eqn:EN.
  - sstep. cbn [String.eqb Ascii.eqb Bool.eqb andb].
    destruct (error_ st) eqn:Ee; cbn [negb when]; repeat sstep.
    + safe_call st. cbn [sure ret]. split; [assumption|].
      destruct H0 as ((_ & _ & Ha) & He & _).
      split; [exact Ha|]. split; [discriminate|]. intros Hf. congruence.
    + assert (H1 : step st
                (set_cur_device_name_list
                   (cur_device_name_list st ++ [symbol st]) st)).
      { split; [|auto]. apply Safe_more_devices; [exact Hs | apply Hs]. }
      safe_call st. cbn [sure ret]. split; [assumption|].
      destruct H0 as ((Hd & Hp & Ha) & He & _). state_fields.
      split; [exact Ha|]. split; [discriminate|]. intros _.
      split; [exact Ee|]. rewrite Hd, Hp, length_app. simpl. lia.
  - destruct (is_type (symbol st) KEYWORD) eqn:EK.
    + safe_call st. cbn [sure ret]. split; [assumption|].
      eapply named_error; exact H0.
    + cbn [String.eqb Ascii.eqb Bool.eqb]. sstep.
      safe_call st. sstep. cbn [sure ret]. split; [assumption|].
      eapply named_error; exact H0.
Qed.

Lemma pinname_safe : safe __pinname (named 0 1).
Proof.
  intros st Hs. unfold __pinname, __name. sstep.
  destruct (is_type (symbol st) NAME) eqn:EN.
  - sstep. cbn [String.eqb Ascii.eqb Bool.eqb andb].
    destruct (error_ st) eqn:Ee; cbn [negb when]; repeat sstep.
    + safe_call st. cbn [sure ret]. split; [assumption|].
      destruct H0 as ((_ & _ & Ha) & He & _).
      split; [exact Ha|]. split; [discriminate|]. intros Hf. congruence.
    + assert (H1 : step st
                (set_cur_pin_name_list
                   (cur_pin_name_list st ++ [symbol st]) st)).
      { split; [|auto]. apply Safe_more_pins; [exact Hs | left; apply Hs]. }
      safe_call st. cbn [sure ret]. split; [assumption|].
      destruct H0 as ((Hd & Hp & Ha) & He & _). state_fields.
      split; [exact Ha|]. split; [discriminate|]. intros _.
      split; [exact Ee|]. rewrite Hd, Hp, length_app. simpl. lia.
  - destruct (is_type (symbol st) KEYWORD) eqn:EK.
    + safe_call st. cbn [sure ret]. split; [assumption|].
      eapply named_error; exact H0.
    + cbn [String.eqb Ascii.eqb Bool.eqb]. sstep.
      safe_call st. sstep. cbn [sure ret]. split; [assumption|].
      eapply named_error; exact H0.
Qed.

#[local] Hint Extern 1 (safe __devicename _) =>
  apply devicename_safe : safe_specs.
#[local] Hint Extern 1 (safe __pinname _) =>
  apply pinname_safe : safe_specs.

Lemma point_safe : safe __point (named 1 1).
Proof.
  intros st Hs. unfold __point.
  safe_call st. destruct H0 as (Ha1 & Hb1 & Hg1).
  destruct a.
  - sstep. destruct (is_type (symbol st2) DOT).
    + safe_call st. destruct H1 as ((Hd2 & Hp2 & Ha2) & He2 & _).
      eapply sure_weaken; [apply pinname_safe; find_safe|].
      simpl. intros b st4 (H4 & Ha4 & Hb4 & Hg4).
      split; [exact (step_trans _ _ _ H0 H4)|].
      split; [congruence|]. split; [exact Hb4|].
      intros Hf. destruct (Hg4 Hf) as (Hf3 & Hd4 & Hp4).
      rewrite He2 in Hf3. destruct (Hg1 Hf3) as (Hf0 & Hd1 & Hp1).
      split; [exact Hf0|]. rewrite Hd4, Hp4, Hd2, Hp2, Hd1, Hp1. lia.
    + sstep. cbn [sure ret]. split.
      * split; [|apply H]. apply Safe_more_pins; [apply H | now right].
      * unfold named, grown. state_fields.
        split; [exact Ha1|]. split; [discriminate|].
        intros Hf. destruct (Hg1 Hf) as (Hf0 & Hd1 & Hp1).
        split; [exact Hf0|]. rewrite length_app, Hd1, Hp1. simpl. lia.
  - cbn [sure ret]. split; [exact H|].
    split; [exact Ha1|]. split; [intros _; now apply Hb1|].
    intros Hf. rewrite (Hb1 eq_refl) in Hf. discriminate.
Qed.

#[local] Hint Extern 1 (safe __point _) => apply point_safe : safe_specs.

Lemma points_loop_safe fuel : safe (points_loop fuel) (fun st _ st' => balanced st st').
Proof.
  induction fuel as [|fuel IH]; intros st Hs; simpl; [exact I|].
  destruct (is_type (symbol st) COMMA && negb (is_type (symbol st) EOF)).
  - safe_call st. destruct H0 as ((Hd1 & Hp1 & Ha1) & He1 & _).
    safe_call st. destruct H1 as (Ha2 & _ & Hg2).
    eapply sure_weaken; [apply IH; find_safe|].
    simpl. intros [] st4 (H4 & Ha4 & Hg4).
    split; [exact (step_trans _ _ _ H0 H4)|].
    split; [congruence|].
    intros Hf. destruct (Hg4 Hf) as (Hf3 & Hl4).
    destruct (Hg2 Hf3) as (Hf2 & Hd2 & Hp2).
    split; [congruence|]. rewrite Hd1, Hp1 in *. lia.
  - split; [now apply step_refl|]. split; [reflexivity|].
    intros Hf. split; [exact Hf | lia].
Qed.

(** *** Devices *)

Lemma devicenames_loop_safe fuel v : harmless (devicenames_loop fuel v).
Proof.
  revert v; induction fuel as [|fuel IH]; intros v st Hs; simpl; [exact I|].
  destruct (is_type (symbol st) COMMA && negb (is_type (symbol st) EOF) && v).
  - safe_call st. safe_call st.
    eapply sure_weaken; [apply IH; find_safe|].
    simpl. intros b st4 (H4 & _).
    split; [exact (step_trans _ _ _ H1 H4) | exact I].
  - split; [now apply step_refl | exact I].
Qed.

Lemma loop_safe {A} (loop : nat -> M Parser A) R :
  (forall fuel, safe (loop fuel) R) ->
  safe (fun st => loop (loop_bound st) st) R.
Proof. intros H st Hs. now apply H. Qed.

#[local] Hint Extern 1 (safe (fun st => devicenames_loop _ _ st) _) =>
  apply (loop_safe (fun fuel => devicenames_loop fuel true)); intros ?;
  apply devicenames_loop_safe : safe_specs.

Lemma device_safe : harmless __device.
Proof.
  intros st Hs. unfold __device. sstep.
  assert (H0 : step st (set_cur_device_name_list [] st)).
  { split; [|auto]. destruct Hs as (Hr & Hsym & Hd & Hrest).
    split; [exact Hr|]. split; [exact Hsym|]. split; [constructor|].
    exact Hrest. }
  safe_tac st.
Qed.

#[local] Hint Extern 1 (safe __device _) => apply device_safe : safe_specs.

Lemma missing_brace_safe id : harmless (missing_brace id).
Proof.
  intros st Hs. unfold missing_brace. sstep.
  destruct (id_is (symbol st) id); [|sfinish st].
  unfold bind at 1, on_scanner at 1, lift.
  destruct (get_symbol_good (scanner st)) as (cs & sc' & E & Hr & Hg);
    [apply Hs|].
  rewrite E.
  assert (H0 : step st (set_scanner sc' st)).
  { split; [|auto]. now apply Safe_scanner. }
  sstep. destruct (is_type cs BRACE_LEFT).
  - sstep. safe_call st. sstep. cbn [sure ret]. split; [|exact I].
    destruct H as [(Hr2 & _ & Hrest) Hm]. split; [|exact Hm].
    split; [exact Hr2|]. split; [exact Hg | exact Hrest].
  - safe_tac st.
Qed.

Lemma devicelist_loop_safe fuel : harmless (devicelist_loop fuel).
Proof.
  induction fuel as [|fuel IH]; intros st Hs; simpl; [exact I|].
  destruct (negb (is_type (symbol st) BRACE_RIGHT)
            && negb (is_type (symbol st) EOF)).
  - eapply (safe_step _ _ _ st);
      [apply missing_brace_safe | now apply step_refl |].
    intros brk st1 H1 _. destruct brk; [sfinish st|].
    safe_call st.
    eapply sure_weaken; [apply IH; find_safe|].
    simpl. intros b st4 (H4 & _).
    split; [exact (step_trans _ _ _ H H4) | exact I].
  - split; [now apply step_refl | exact I].
Qed.

#[local] Hint Extern 1 (safe (fun st => devicelist_loop _ st) _) =>
  apply (loop_safe devicelist_loop); intros ?;
  apply devicelist_loop_safe : safe_specs.

Lemma devicelist_safe : harmless __devicelist.
Proof. intros st Hs. unfold __devicelist. safe_tac st. Qed.

#[local] Hint Extern 1 (safe __devicelist _) =>
  apply devicelist_safe : safe_specs.

(** *** Connections *)

Lemma Forall2_nth_error {A B} (P : A -> B -> Prop) l1 l2 i a b :
  Forall2 P l1 l2 -> nth_error l1 i = Some a -> nth_error l2 i = Some b ->
  P a b.
Proof.
  intros H. revert i. induction H as [|x y l1 l2 Hxy _ IH]; intros [|i];
    simpl; try discriminate.
  - now intros [= ->] [= ->].
  - apply IH.
Qed.

Lemma Forall_nth_error {A} (P : A -> Prop) l i a :
  Forall P l -> nth_error l i = Some a -> P a.
Proof.
  intros H E. rewrite Forall_forall in H. apply H.
  eapply nth_error_In; exact E.
Qed.

Lemma pin_ids_match n pins :
  Forall2 (fun (sym : Symbol) (ip : option Z) => sym = Symbol_new -> ip = None)
    pins (map (fun d => Names.query n (sy_string d)) pins).
Proof.
  induction pins as [|p pins IH]; simpl; constructor; [|exact IH].
  intros ->. reflexivity.
Qed.

Lemma nth_error_lt {A} (l : list A) i :
  (i < List.length l)%nat -> exists a, nth_error l i = Some a.
Proof.
  intros H. destruct (nth_error l i) as [a|] eqn:E; [now exists a|].
  apply nth_error_None in E. lia.
Qed.

(** The report of a connection that the network refuses. *)
Lemma report_sure message sym st0 st :
  step st0 st -> showable (Some sym) ->
  sure ((__error message None (Some sym) ;; ret tt) st)
    (fun _ st' => step st0 st').
Proof.
  intros H Hshow.
  eapply sure_bind; [apply error_safe_gen; [exact (proj1 H) | exact Hshow]|].
  simpl. intros out st2 (H2 & _). exact (step_trans _ _ _ H H2).
Qed.

Lemma connect_from_safe ods ops odid opid ids :
  forall i pids st,
    Safe st -> good ods -> pin_symbol ops ->
    (ops = Symbol_new -> opid = None) ->
    cur_arrow st <> None ->
    Forall2 (fun (sym : Symbol) (ip : option Z) =>
               sym = Symbol_new -> ip = None)
      (cur_pin_name_list st) pids ->
    (List.length ids + i = List.length (cur_device_name_list st))%nat ->
    List.length (cur_device_name_list st)
    = List.length (cur_pin_name_list st) ->
    sure (connect_from (Some (ods, ops, odid, opid)) i ids pids st)
      (fun _ st' => step st st').
Proof.
  induction ids as [|id ids IH]; intros i pids st Hs Hods Hops Hopid Harrow
    Hpids Hlen Hsame; simpl.
  - now apply step_refl.
  - pose proof (Forall2_length Hpids) as Hlp.
    destruct (nth_error_lt pids i) as (ip & Eip); [simpl in Hlen; lia|].
    destruct (nth_error_lt (cur_pin_name_list st) i) as (psym & Epsym);
      [simpl in Hlen; lia|].
    destruct (nth_error_lt (cur_device_name_list st) i) as (dsym & Edsym);
      [simpl in Hlen; lia|].
    rewrite Eip.
    eapply (safe_step _ _ _ st);
      [apply kernel_call_safe; reflexivity | now apply step_refl |].
    intros e st1 H1 ((Hd1 & Hp1 & Ha1) & He1 & Hsym1 & Hsk1 & Hres).
    destruct (negb (e =? NO_ERROR)) eqn:Eno.
    + apply negb_true_iff, Z.eqb_neq in Eno.
      do 3 sstep. rewrite Hd1, Hp1, Ha1, Epsym, Edsym.
      destruct ((e =? INPUT_CONNECTED) || (e =? PORT_ABSENT_2)) eqn:E1.
      { apply report_sure; [exact H1|].
        assert (Hg : pin_symbol psym).
        { eapply Forall_nth_error; [apply Hs | exact Epsym]. }
        destruct Hg as [Hg| ->]; [now left|]. right. split; [reflexivity|].
        pose proof (Forall2_nth_error _ _ _ _ _ _ Hpids Epsym Eip eq_refl)
          as Hip. subst ip.
        intros Hok.
        specialize (Hok (names (scanner st)) (kernel st) odid opid id None).
        destruct (make_connection (names (scanner st)) (kernel st) odid opid
                    id None) as [[n' k'] e']. simpl in Hres. subst e'.
        destruct (Hok Eno) as [Hin _]. now apply Hin. }
      destruct (e =? DEVICE_ABSENT_2) eqn:E2.
      { apply report_sure; [exact H1|]. left.
        eapply Forall_nth_error; [apply Hs | exact Edsym]. }
      destruct (e =? DEVICE_ABSENT_1) eqn:E3.
      { apply report_sure; [exact H1|]. now left. }
      destruct (e =? PORT_ABSENT_1) eqn:E4.
      { apply report_sure; [exact H1|].
        destruct Hops as [Hg| ->]; [now left|]. right. split; [reflexivity|].
        rewrite (Hopid eq_refl) in Hres.
        intros Hok.
        specialize (Hok (names (scanner st)) (kernel st) odid None id ip).
        destruct (make_connection (names (scanner st)) (kernel st) odid None
                    id ip) as [[n' k'] e']. simpl in Hres. subst e'.
        destruct (Hok Eno) as [_ Hout]. apply Hout; [|reflexivity].
        unfold blames_out_pin, blames_in_pin. now rewrite E1, E2, E3, E4. }
      destruct (cur_arrow st) as [arrow|] eqn:Ea; [|contradiction].
      apply report_sure; [exact H1|]. left.
      destruct Hs as (_ & _ & _ & _ & Hga & _). now rewrite Ea in Hga.
    + eapply sure_weaken.
      * apply (IH (S i) pids st1); try assumption.
        -- exact (proj1 H1).
        -- now rewrite Ha1.
        -- now rewrite Hp1.
        -- rewrite Hd1. simpl in Hlen. lia.
        -- now rewrite Hd1, Hp1.
      * simpl. intros _ st2 H2. exact (step_trans _ _ _ H1 H2).
Qed.

#[local] Hint Extern 1 (safe (fun st => points_loop _ st) _) =>
  apply (loop_safe points_loop); intros ?;
  apply points_loop_safe : safe_specs.

Lemma con_safe : harmless __con.
Proof.
  intros st Hs. unfold __con. do 2 sstep.
  set (s0 := set_cur_pin_name_list [] (set_cur_device_name_list [] st)).
  assert (H0 : step st s0).
  { split; [|auto]. destruct Hs as (Hr & Hsym & _ & _ & Hrest).
    split; [exact Hr|]. split; [exact Hsym|]. split; [constructor|].
    split; [constructor | exact Hrest]. }
  safe_call_as st. intros b st1 H1 (Ha1 & Hb1 & Hg1).
  eapply (sure_bind _ _ _
            (fun out st5 => step st st5 /\ connectable out st5)).
  - destruct b.
    + sstep. destruct (error_ st1) eqn:Ee1; cbn [negb].
      * (* an error in the output: nothing is kept *)
        eapply sure_weaken with
          (Q := fun o st' => step st1 st' /\ o = None).
        -- assert (Hs1 : Safe st1) by exact (proj1 H1).
           clear H0 H1 Hs. sstep. sstep.
           destruct (is_type (symbol st1) ARROW).
           ++ sstep.
              assert (H0 : step st1 (set_cur_arrow (Some (symbol st1)) st1)).
              { split; [|auto].
                destruct Hs1 as (Hr & Hsym & Hd & Hp & _ & Hn).
                split; [exact Hr|]. split; [exact Hsym|]. split; [exact Hd|].
                split; [exact Hp|]. split; [exact Hsym | exact Hn]. }
              safe_tac st1; reflexivity.
           ++ safe_tac st1; reflexivity.
        -- simpl. intros o st' [H' ->].
           split; [exact (step_trans _ _ _ H1 H')|].
           intros Hf. rewrite (proj2 H' Ee1) in Hf. discriminate.
      * (* no error: the output is kept *)
        destruct (Hg1 Ee1) as (_ & Hd1 & Hp1). unfold s0 in Hd1, Hp1.
        state_fields. repeat sstep.
        destruct (cur_device_name_list st1) as [|ods devs] eqn:Edevs;
          [simpl in Hd1; discriminate|].
        destruct (cur_pin_name_list st1) as [|ops pins] eqn:Epins;
          [simpl in Hp1; discriminate|].
        assert (Hods : good ods).
        { destruct H1 as [(_ & _ & Hd & _) _]. rewrite Edevs in Hd.
          now inversion Hd. }
        assert (Hops : pin_symbol ops).
        { destruct H1 as [(_ & _ & _ & Hp & _) _]. rewrite Epins in Hp.
          now inversion Hp. }
        repeat sstep.
        set (s2 := set_cur_pin_name_list []
                     (set_cur_device_name_list [] st1)).
        set (out := Some (ods, ops,
                          Names.query (names (scanner st1)) (sy_string ods),
                          Names.query (names (scanner st1)) (sy_string ops))).
        assert (Hout : exists ods' ops' odid opid,
                   out = Some (ods', ops', odid, opid)
                   /\ good ods' /\ pin_symbol ops'
                   /\ (ops' = Symbol_new -> opid = None)).
        { exists ods, ops. do 2 eexists. split; [reflexivity|].
          split; [exact Hods|]. split; [exact Hops|]. now intros ->. }
        clearbody out.
        assert (H2 : step st1 s2).
        { split; [|auto].
          destruct H1 as [(Hr & Hsym & _ & _ & Hrest) _].
          split; [exact Hr|]. split; [exact Hsym|]. split; [constructor|].
          split; [constructor | exact Hrest]. }
        assert (Hs2 : Safe s2) by exact (proj1 H2).
        assert (H02 : step st s2) by exact (step_trans _ _ _ H1 H2).
        assert (Herr : forall message st',
                   step s2 st' -> erred message s2 st' ->
                   step st st' /\ connectable out st').
        { intros message st' H' (He' & _).
          split; [exact (step_trans _ _ _ H02 H')|].
          intros Hf. congruence. }
        clear H0 H1 H2 Hs Hg1 Hb1.
        destruct (is_type (symbol s2) ARROW).
        -- repeat sstep.
           set (s3 := set_cur_arrow (Some (symbol s2)) s2).
           assert (H3 : step s2 s3).
           { split; [|auto].
             destruct Hs2 as (Hr & Hsym & Hd & Hp & _ & Hn).
             split; [exact Hr|]. split; [exact Hsym|]. split; [exact Hd|].
             split; [exact Hp|]. split; [exact Hsym | exact Hn]. }
           safe_call_as s2. intros [] st2 H4 ((Hd4 & Hp4 & Ha4) & He4 & _).
           repeat sstep.
           safe_call_as s2. intros b5 st3 H5 (Ha5 & _ & Hg5).
           repeat sstep.
           safe_call_as s2. intros [] st4 H6 (Ha6 & Hg6).
           repeat sstep.
           assert (Hready : connectable out st4).
           { intros Hf. destruct (Hg6 Hf) as (Hf5 & Hl6).
             destruct (Hg5 Hf5) as (Hf4 & Hd5 & Hp5).
             split; [exact Hout|]. split.
             - rewrite Ha6, Ha5, Ha4. discriminate.
             - rewrite Hd4 in Hd5. rewrite Hp4 in Hp5.
               unfold s3, s2 in Hd5, Hp5. simpl in Hd5, Hp5. lia. }
           apply when_sure; intros Hsemi.
           ++ destruct (is_type (symbol st4) BRACE_RIGHT); repeat sstep.
              ** eapply (safe_step _ _ _ s2);
                   [apply error_safe | exact H6 |].
                 intros msg st5 H7 He5. repeat sstep. cbn [sure ret].
                 split; [exact (step_trans _ _ _ H02 H7)|].
                 intros Hf. destruct He5 as (He5 & _). congruence.
              ** eapply (safe_step _ _ _ s2);
                   [apply error_safe | exact H6 |].
                 intros msg st5 H7 He5. repeat sstep. cbn [sure ret].
                 split; [exact (step_trans _ _ _ H02 H7)|].
                 intros Hf. destruct He5 as (He5 & _). congruence.
           ++ repeat sstep. cbn [sure ret].
              split; [exact (step_trans _ _ _ H02 H6) | exact Hready].
        -- repeat sstep.
           eapply (safe_step _ _ _ s2);
             [apply error_safe | now apply step_refl |].
           intros msg st5 H5 He5. repeat sstep. cbn [sure ret].
           split; [exact (step_trans _ _ _ H02 H5)|].
           intros Hf. destruct He5 as (He5 & _). congruence.
    + cbn [sure ret]. split; [exact H1|].
      intros Hf. rewrite (Hb1 eq_refl) in Hf. discriminate.
  - simpl. intros out st5 (H5 & Hready). sstep.
    apply when_sure; intros He5.
    + repeat sstep. apply negb_true_iff in He5.
      destruct (Hready He5) as ((ods & ops & odid & opid & -> & Hods & Hops
                                 & Hopid) & Harrow & Hlen).
      eapply sure_bind.
      * apply connect_from_safe; try assumption.
        -- exact (proj1 H5).
        -- apply pin_ids_match.
        -- rewrite length_map. lia.
      * simpl. intros [] st6 H6.
        assert (H06 : step st st6) by exact (step_trans _ _ _ H5 H6).
        safe_tac st.
    + safe_tac st.
Qed.

#[local] Hint Extern 1 (safe __con _) => apply con_safe : safe_specs.

Lemma error_safe_some message stop sym :
  good sym ->
  safe (__error message stop (Some sym)) (fun st _ st' => erred message st st').
Proof. intros Hg st Hs. apply error_safe_gen; [exact Hs | now left]. Qed.

Lemma check_network_safe :
  harmless (fun st =>
    let '(n, k, u) := check_network (names (scanner st)) (kernel st) in
    Ok u (set_kernel k (set_names_p n st))).
Proof.
  intros st Hs.
  destruct (check_network (names (scanner st)) (kernel st)) as [[n k] u].
  simpl. split; [|exact I]. split; [|auto].
  destruct Hs as (Hr & Hrest).
  split; [now apply readable_set_names | exact Hrest].
Qed.

Lemma print_safe line : harmless (on_scanner (print line)).
Proof.
  intros st Hs. unfold on_scanner, lift, print, modify. simpl.
  split; [|exact I]. split; [|auto].
  apply Safe_scanner; [exact Hs|]. apply readable_set_stdout, Hs.
Qed.

#[local] Hint Extern 1 (safe (on_scanner (print _)) _) =>
  apply print_safe : safe_specs.
#[local] Hint Extern 5 (safe _ _) =>
  apply check_network_safe : safe_specs.

Lemma connectionlist_loop_safe fuel : harmless (connectionlist_loop fuel).
Proof.
  induction fuel as [|fuel IH]; intros st Hs; simpl; [exact I|].
  destruct (negb (is_type (symbol st) BRACE_RIGHT)
            && negb (is_type (symbol st) EOF)).
  - eapply (safe_step _ _ _ st);
      [apply missing_brace_safe | now apply step_refl |].
    intros brk st1 H1 _. destruct brk; [sfinish st|].
    safe_call st.
    eapply sure_weaken; [apply IH; find_safe|].
    simpl. intros b st4 (H4 & _).
    split; [exact (step_trans _ _ _ H H4) | exact I].
  - split; [now apply step_refl | exact I].
Qed.

#[local] Hint Extern 1 (safe (fun st => connectionlist_loop _ st) _) =>
  apply (loop_safe connectionlist_loop); intros ?;
  apply connectionlist_loop_safe : safe_specs.

Lemma connectionlist_safe : harmless __connectionlist.
Proof.
  intros st Hs. unfold __connectionlist.
  assert (Hsym : good (symbol st)) by apply Hs.
  assert (He : forall message stop,
             safe (__error message stop (Some (symbol st)))
               (fun st _ st' => erred message st st')).
  { intros message stop. now apply error_safe_some. }
  safe_tac st.
  all: eapply (safe_step _ _ _ st); [apply He | find_step st | intros ? ? ? ?];
    safe_tac st.
Qed.

(** *** Monitors *)

Lemma monitor_safe : harmless __monitor.
Proof.
  intros st Hs. unfold __monitor. do 2 sstep.
  set (s0 := set_cur_pin_name_list [] (set_cur_device_name_list [] st)).
  assert (H0 : step st s0).
  { split; [|auto]. destruct Hs as (Hr & Hsym & _ & _ & Hrest).
    split; [exact Hr|]. split; [exact Hsym|]. split; [constructor|].
    split; [constructor | exact Hrest]. }
  safe_call_as st. intros b st1 H1 (_ & _ & Hg1).
  sstep. apply when_sure; intros He1; [|safe_tac st].
  apply negb_true_iff in He1. destruct (Hg1 He1) as (_ & Hd1 & Hp1).
  unfold s0 in Hd1, Hp1. state_fields. repeat sstep.
  destruct (cur_device_name_list st1) as [|d devs];
    [simpl in Hd1; discriminate|].
  destruct (cur_pin_name_list st1) as [|p pins];
    [simpl in Hp1; discriminate|].
  repeat sstep.
  eapply (safe_step _ _ _ st);
    [apply kernel_call_safe; reflexivity | exact H1 |].
  intros e st2 H2 _. safe_tac st.
Qed.

#[local] Hint Extern 1 (safe __monitor _) => apply monitor_safe : safe_specs.

Lemma monitorlist_loop_safe fuel : harmless (monitorlist_loop fuel).
Proof.
  induction fuel as [|fuel IH]; intros st Hs; simpl; [exact I|].
  destruct (negb (is_type (symbol st) BRACE_RIGHT)
            && negb (is_type (symbol st) EOF)).
  - destruct (id_is (symbol st) (END_ID (kw (scanner st)))).
    + safe_tac st.
    + safe_call st.
      eapply sure_weaken; [apply IH; find_safe|].
      simpl. intros b st4 (H4 & _).
      split; [exact (step_trans _ _ _ H H4) | exact I].
  - split; [now apply step_refl | exact I].
Qed.

#[local] Hint Extern 1 (safe (fun st => monitorlist_loop _ st) _) =>
  apply (loop_safe monitorlist_loop); intros ?;
  apply monitorlist_loop_safe : safe_specs.

Lemma monitorlist_safe : harmless __monitorlist.
Proof. intros st Hs. unfold __monitorlist. safe_tac st. Qed.

#[local] Hint Extern 1 (safe __connectionlist _) =>
  apply connectionlist_safe : safe_specs.
#[local] Hint Extern 1 (safe __monitorlist _) =>
  apply monitorlist_safe : safe_specs.

(** *** The whole parse *)

Lemma circuit_safe : harmless __circuit.
Proof. intros st Hs. unfold __circuit. safe_tac st. Qed.

#[local] Hint Extern 1 (safe __circuit _) => apply circuit_safe : safe_specs.

Lemma parse_network_safe : harmless parse_network.
Proof. intros st Hs. unfold parse_network. safe_tac st. Qed.

Lemma new_parser_Safe text names0 k0 :
  exists st, new_parser text names0 k0 = Ok tt st /\ Safe st.
Proof.
  unfold new_parser, Parser_init.
  destruct (get_symbol_good (Scanner_init text names0)) as (sym & sc' & E & Hr & Hg);
    [apply Scanner_init_readable|].
  rewrite E. eexists. split; [reflexivity|].
  split; [exact Hr|]. split; [exact Hg|]. split; [constructor|].
  split; [constructor|]. split; [exact I | reflexivity].
Qed.

(** The run of the parser: it returns, with a counter that is the number
    of errors in the history, or it raises [TypeError] and the network is not
    [pinless_ok]. *)
Lemma run_parser_sure text names0 k0 :
  match run_parser text names0 k0 with
  | Ok _ st => error_count st = Z.of_nat (count_errors (calls st))
  | Raise e _ => e = TypeError /\ ~ pinless_ok
  | OutOfFuel => False
  end.
Proof.
  pose proof (new_parser_Inv text names0 k0) as Hi.
  destruct (new_parser_Safe text names0 k0) as (st & E & Hs).
  unfold run_parser. rewrite E in Hi |- *. simpl in Hi.
  pose proof (parse_network_spec st Hi) as Ht.
  pose proof (parse_network_safe st Hs) as H.
  destruct (parse_network st) as [b st'|e st'|]; simpl in H, Ht.
  - apply H.
  - exact H.
  - exact Ht.
Qed.

End Safety.

(** ** The run of the parser *)

Section ParserRun.

Context {kernel_impl : Kernel}.

(** X18. On a plain text, and with a network that never blames a pin the
    file does not name (no [INPUT_CONNECTED] or [PORT_ABSENT_2] for an input
    given without pin, no [PORT_ABSENT_1] for an output given without pin),
    the parser returns, with every name table and kernel state: no index,
    type or value error, no unbound variable, and every loop ends. *)
Theorem parser_returns text names0 k0 :
  plain_text text = true ->
  pinless_ok ->
  exists b st, run_parser text names0 k0 = Ok b st.
Proof.
  intros _ Hok. pose proof (run_parser_sure text names0 k0) as H.
  destruct (run_parser text names0 k0) as [b st|e st|].
  - now exists b, st.
  - destruct H as [_ H]. contradiction.
  - contradiction.
Qed.

(** X19. On a plain text the only exception that can end a parse is
    [TypeError], and only with a network that blames a pin the file does
    not name: one that refuses some connection whose input, or output, is
    given without pin with an error that [__con] reports at that pin.
    [print_error] is then given the empty [Symbol()] that stands for the
    pin, whose position is [None]. *)
Theorem parser_raises_TypeError_only text names0 k0 e st :
  plain_text text = true ->
  run_parser text names0 k0 = Raise e st ->
  e = TypeError /\ ~ pinless_ok.
Proof.
  intros _ E. pose proof (run_parser_sure text names0 k0) as H.
  rewrite E in H. exact H.
Qed.

(** X20. When the parser returns, its error counter is the number of error
    reports in its history: every call of [__error] adds one to the counter
    and nothing else changes it. *)
Theorem error_count_counts_reports text names0 k0 b st :
  run_parser text names0 k0 = Ok b st ->
  error_count st = Z.of_nat (count_errors (calls st)).
Proof.
  intros E. pose proof (run_parser_sure text names0 k0) as H.
  rewrite E in H. exact H.
Qed.

End ParserRun.

Lemma started_Safe text : @Safe accepting_kernel (started text).
Proof.
  unfold started.
  destruct (@new_parser_Safe accepting_kernel text [] 0) as (st & E & Hs).
  now rewrite E.
Qed.

Lemma pin_refusing_pinless_ok : @pinless_ok pin_refusing_kernel.
Proof.
  intros n k a b c [d|]; simpl.
  - intros _. split; [discriminate|]. intros H. discriminate H.
  - intros H. now contradiction H.
Qed.

Lemma parser_returns_witness :
  let text :=
    "CIRCUIT { DEVICES { A = NOT; B = NOT; } CONNECT { A > B.I1; } MONITOR { A; } } END" in
  plain_text text = true
  /\ @pinless_ok pin_refusing_kernel
  /\ exists b st, @run_parser pin_refusing_kernel text [] 0 = Ok b st.
Proof.
  intros text.
  assert (H1 : plain_text text = true) by (vm_compute; reflexivity).
  split; [exact H1|]. split; [exact pin_refusing_pinless_ok|].
  exact (@parser_returns pin_refusing_kernel text [] 0 H1
           pin_refusing_pinless_ok).
Defined.

Lemma parser_raises_TypeError_only_witness :
  let text :=
    "CIRCUIT { DEVICES { A = NOT; B = NOT; } CONNECT { A > B; } MONITOR { A; } } END" in
  plain_text text = true
  /\ (exists st, @run_parser refusing_kernel text [] 0 = Raise TypeError st)
  /\ TypeError = TypeError /\ ~ @pinless_ok refusing_kernel.
Proof.
  intros text.
  assert (H1 : plain_text text = true) by (vm_compute; reflexivity).
  assert (H : exists st,
             @run_parser refusing_kernel text [] 0 = Raise TypeError st)
    by (eexists; vm_compute; reflexivity).
  split; [exact H1|]. split; [exact H|]. destruct H as [st H].
  exact (@parser_raises_TypeError_only refusing_kernel text [] 0 TypeError st
           H1 H).
Defined.

Lemma error_count_counts_reports_witness :
  exists st,
    @run_parser accepting_kernel
      "CIRCUIT { DEVICES { A = NOT B = NOT; } CONNECT { A > B.I1; } MONITOR { A } } END"
      [] 0
    = Ok false st
    /\ error_count st = 2
    /\ error_count st = Z.of_nat (count_errors (calls st)).
Proof.
  assert (H : exists st,
             @run_parser accepting_kernel
               "CIRCUIT { DEVICES { A = NOT B = NOT; } CONNECT { A > B.I1; } MONITOR { A } } END"
               [] 0
             = Ok false st
             /\ error_count st = 2)
    by (eexists; split; vm_compute; reflexivity).
  destruct H as (st & E & Hn). exists st.
  split; [exact E|]. split; [exact Hn|].
  exact (@error_count_counts_reports accepting_kernel _ [] 0 false st E).
Defined.

Lemma clock_reports_witness :
  let st := started "(5);" in
  let msgs :=
    ["Expected '('";
     "Expected a number n > 0, the number of simulation cycles"
       ++ " after which the state changes";
     "Expected ')'"] in
  Inv st
  /\ readable (scanner st)
  /\ outcome (__clock st) (fun _ st' => told msgs st st') (told msgs st)
  /\ ~ In "Clock half period must be greater than 0" msgs.
Proof.
  intros st msgs.
  assert (Hi : Inv st)
    by (apply started_Inv; eexists; vm_compute; reflexivity).
  assert (Hr : readable (scanner st)) by apply started_Safe.
  split; [exact Hi|]. split; [exact Hr|].
  exact (@clock_reports accepting_kernel st Hi Hr).
Defined.

(** ** The preliminary exercises: reading numbers and names *)

Lemma file_read1_at text o :
  -1 <= o ->
  file_read1 (read_to text o) = Ok (char_at text (o + 1)) (read_to text (o + 1)).
Proof.
  intros Ho. unfold file_read1, fread1, read_to. cbn [content tell].
  assert (E : substring (Z.to_nat (Z.min (o + 1) (Py.len text))) 1 text
              = char_at text (o + 1)).
  { unfold char_at. destruct (Z.le_gt_cases (o + 1) (Py.len text)).
    - now rewrite Z.min_l by lia.
    - rewrite Z.min_r by lia.
      rewrite !substring_one_out; [reflexivity | unfold Py.len in *; lia
                                  | unfold Py.len; lia]. }
  rewrite E. f_equal. f_equal.
  pose proof (char_at_length text (o + 1) ltac:(lia)) as L. rewrite L.
  pose proof (len_nonneg text).
  destruct (Z.ltb_spec (o + 1) (Py.len text)); lia.
Qed.

Lemma read_to_start text p :
  0 <= p <= Py.len text -> mkFile text p = read_to text (p - 1).
Proof. intros H. unfold read_to. f_equal. lia. Qed.

Lemma read_to_end text o :
  Py.len text <= o + 1 -> read_to text o = mkFile text (Py.len text).
Proof. intros H. unfold read_to. f_equal. lia. Qed.

Lemma passes_inside (test : string -> bool) text o :
  test "" = false -> 0 <= o -> test (char_at text o) = true ->
  o < Py.len text.
Proof.
  intros Ht Ho H. apply char_at_nonempty; [exact Ho|].
  intros E. rewrite E, Ht in H. discriminate.
Qed.

(** The first offset whose character passes, if there is one. *)
Lemma first_at_or_none (test : string -> bool) text p :
  test "" = false -> 0 <= p ->
  none_from test text p \/ exists d, first_at test text p d.
Proof.
  intros Ht Hp.
  remember (Z.to_nat (Py.len text - p)) as n eqn:En.
  revert p Hp En. induction n as [|n IH]; intros p Hp En.
  - left. intros o Ho. rewrite char_at_end; [exact Ht | lia].
  - destruct (test (char_at text p)) eqn:E.
    + right. exists p. split; [lia|]. split; [exact E | intros; lia].
    + destruct (IH (p + 1) ltac:(lia) ltac:(lia)) as [H|(d & Hd & Htd & Hb)].
      * left. intros o Ho. destruct (Z.eq_dec o p) as [->|]; [exact E|].
        apply H. lia.
      * right. exists d. split; [lia|]. split; [exact Htd|].
        intros o Ho. destruct (Z.eq_dec o p) as [->|]; [exact E|].
        apply Hb. lia.
Qed.

(** The run of characters that pass, from an offset on. *)
Lemma run_at_exists (test : string -> bool) text o :
  test "" = false -> 0 <= o -> exists k, run_at test text o k.
Proof.
  intros Ht Ho.
  remember (Z.to_nat (Py.len text - o)) as n eqn:En.
  revert o Ho En. induction n as [|n IH]; intros o Ho En.
  - exists 0. split; [lia|]. split; [intros; lia|].
    rewrite char_at_end; [exact Ht | lia].
  - destruct (test (char_at text o)) eqn:E.
    + destruct (IH (o + 1) ltac:(lia) ltac:(lia)) as (k & Hk & Hin & Hout).
      exists (k + 1). split; [lia|]. split.
      * intros i Hi. destruct (Z.eq_dec i 0) as [->|].
        -- now rewrite Z.add_0_r.
        -- replace (o + i) with (o + 1 + (i - 1)) by lia. apply Hin. lia.
      * now replace (o + (k + 1)) with (o + 1 + k) by lia.
    + exists 0. split; [lia|]. split; [intros; lia|].
      now rewrite Z.add_0_r.
Qed.

Lemma run_at_inside (test : string -> bool) text o k :
  test "" = false -> 0 <= o <= Py.len text -> run_at test text o k ->
  o + k <= Py.len text.
Proof.
  intros Ht Ho (Hk & Hin & _).
  destruct (Z.eq_dec k 0) as [->|Hne]; [lia|].
  pose proof (Hin (k - 1) ltac:(lia)) as H.
  apply (passes_inside test) in H; [lia | exact Ht | lia].
Qed.

Lemma run_at_next (test : string -> bool) text o k :
  run_at test text o k -> test (char_at text o) = true ->
  1 <= k /\ run_at test text (o + 1) (k - 1).
Proof.
  intros (Hk & Hin & Hout) E.
  assert (1 <= k).
  { destruct (Z.eq_dec k 0) as [->|]; [|lia].
    rewrite Z.add_0_r in Hout. congruence. }
  split; [assumption|]. split; [lia|]. split.
  - intros i Hi. replace (o + 1 + i) with (o + (i + 1)) by lia. apply Hin. lia.
  - now replace (o + 1 + (k - 1)) with (o + k) by lia.
Qed.

Lemma run_at_stop (test : string -> bool) text o k :
  run_at test text o k -> test (char_at text o) = false -> k = 0.
Proof.
  intros (Hk & Hin & Hout) E.
  destruct (Z.eq_dec k 0) as [|Hne]; [assumption|].
  pose proof (Hin 0 ltac:(lia)) as H. rewrite Z.add_0_r in H. congruence.
Qed.

(** *** The loops of [Prelim rjh254] *)

Lemma rjh_first_loop_finds (starts : string -> bool) text d :
  starts "" = false ->
  forall n o,
    0 <= o -> first_at starts text o d -> (Z.to_nat (d - o) <= n)%nat ->
    Exercise_rjh254.first_loop starts n (char_at text o) (read_to text o)
    = Ok (char_at text d) (read_to text d).
Proof.
  intros Ht. induction n as [|n IH]; intros o Ho (Hod & Hd & Hb) Hn.
  - assert (o = d) by lia. subst o. reflexivity.
  - cbn [Exercise_rjh254.first_loop].
    destruct (Z.eq_dec o d) as [->|Hne].
    + rewrite Hd. reflexivity.
    + rewrite (Hb o ltac:(lia)). cbn [negb]. unfold bind.
      rewrite (file_read1_at text o ltac:(lia)).
      apply IH; [lia| |lia].
      split; [lia|]. split; [exact Hd|]. intros o' Ho'. apply Hb. lia.
Qed.

Lemma rjh_first_loop_none (starts : string -> bool) text :
  forall n o,
    0 <= o -> none_from starts text o ->
    Exercise_rjh254.first_loop starts n (char_at text o) (read_to text o)
    = Ok (char_at text (o + Z.of_nat n)) (read_to text (o + Z.of_nat n)).
Proof.
  induction n as [|n IH]; intros o Ho Hnone.
  - rewrite Z.add_0_r. reflexivity.
  - cbn [Exercise_rjh254.first_loop].
    rewrite (Hnone o ltac:(lia)). cbn [negb]. unfold bind.
    rewrite (file_read1_at text o ltac:(lia)).
    rewrite IH; [|lia|intros o' Ho'; apply Hnone; lia].
    replace (o + 1 + Z.of_nat n) with (o + Z.of_nat (S n)) by lia.
    reflexivity.
Qed.

Lemma rjh_second_loop_takes (goes_on : string -> bool) text :
  forall n run o k,
    0 <= o -> run_at goes_on text (o + 1) k -> (Z.to_nat k < n)%nat ->
    Exercise_rjh254.second_loop goes_on n run (char_at text o)
      (read_to text o)
    = Ok (run ++ substring (Z.to_nat o) (Z.to_nat (k + 1)) text,
          char_at text (o + 1 + k))
         (read_to text (o + 1 + k)).
Proof.
  induction n as [|n IH]; intros run o k Ho Hrun Hn; [lia|].
  cbn [Exercise_rjh254.second_loop]. unfold bind.
  rewrite (file_read1_at text o ltac:(lia)).
  destruct (goes_on (char_at text (o + 1))) eqn:E; cbn [negb].
  - destruct (run_at_next _ _ _ _ Hrun E) as [Hk Hrun'].
    rewrite (IH _ (o + 1) (k - 1) ltac:(lia) Hrun' ltac:(lia)).
    replace (o + 1 + 1 + (k - 1)) with (o + 1 + k) by lia.
    rewrite (substring_char_at text o k Ho ltac:(lia)).
    replace (k - 1 + 1) with k by lia.
    now rewrite append_assoc.
  - pose proof (run_at_stop _ _ _ _ Hrun E) as ->.
    rewrite Z.add_0_r. cbn [ret].
    rewrite (substring_char_at text o 0 Ho ltac:(lia)).
    change (Z.to_nat 0) with 0%nat. rewrite substring_zero, append_nil_r.
    reflexivity.
Qed.

Lemma rjh_get_file_length text p :
  0 <= p <= Py.len text ->
  Exercise_rjh254.get_file_length (mkFile text p)
  = Ok (Py.len text) (mkFile text p).
Proof.
  intros Hp. unfold Exercise_rjh254.get_file_length, bind, gets, file_read_all,
    fread_all, file_seek, ret. cbn [tell content].
  destruct (Z.ltb_spec p 0); [lia|]. f_equal. lia.
Qed.

Lemma rjh_second_loop_end (goes_on : string -> bool) text n :
  goes_on "" = false ->
  Exercise_rjh254.second_loop goes_on n "" "" (mkFile text (Py.len text))
  = Ok ("", "") (mkFile text (Py.len text)).
Proof.
  intros Ht. destruct n as [|n]; [reflexivity|].
  cbn [Exercise_rjh254.second_loop]. unfold bind.
  rewrite <- (read_to_end text (Py.len text) ltac:(lia)).
  rewrite (file_read1_at text (Py.len text)) by (pose proof (len_nonneg text); lia).
  rewrite (char_at_end text (Py.len text + 1)) by lia.
  rewrite Ht. cbn [negb ret append].
  rewrite !read_to_end by lia. reflexivity.
Qed.

(** The decimal value of a run of digits, zeros in front included. *)
Lemma uint_digits_value (s : string) :
  Py.str_all Py.chr_isdigit s = true ->
  exists d,
    NilEmpty.uint_of_string s = Some d
    /\ Z.of_N (Pos.of_uint d) = digits_value 0 s.
Proof.
  induction s as [|c s IH]; intros H.
  - exists Nil. split; reflexivity.
  - simpl in H. apply andb_prop in H. destruct H as [Hc Hs].
    destruct (IH Hs) as (d0 & Hd0 & Hv0).
    destruct (digits_uint s Hs) as (d & Hd & Hacc).
    assert (d0 = d) by congruence. subst d0.
    cbn [NilEmpty.uint_of_string]. rewrite Hd.
    destruct (digit_cases c Hc) as [->|[->|[->|[->|[->|[->|[->|[->|[->| ->]]]]]]]]];
      eexists; (split; [reflexivity|]);
      cbn [Pos.of_uint digits_value]; digit_codes;
      match goal with
      | |- _ = digits_value ?a s =>
          let v := eval cbv in a in change a with v
      end;
      [exact Hv0 | cbn [Z.of_N]; apply Hacc ..].
Qed.

Lemma int_digits (s : string) :
  s <> "" -> Py.str_all Py.chr_isdigit s = true ->
  Py.int s = Some (digits_value 0 s).
Proof.
  intros Hne Hs. destruct (uint_digits_value s Hs) as (d & Hd & Hv).
  destruct s as [|c s]; [contradiction Hne; reflexivity|].
  unfold Py.int. cbn [NilZero.int_of_string NilZero.uint_of_string].
  assert (Hc : Py.chr_isdigit c = true).
  { simpl in Hs. apply andb_prop in Hs. apply Hs. }
  assert (E : (c =? "-")%char = false).
  { destruct (digit_cases c Hc) as [->|[->|[->|[->|[->|[->|[->|[->|[->| ->]]]]]]]]];
      reflexivity. }
  rewrite E, Hd. cbn [option_map Z.of_int]. unfold Z.of_uint.
  now rewrite Hv.
Qed.

Lemma run_text (test : ascii -> bool) text d k :
  0 <= d ->
  (Py.nonempty (char_at text d) && Py.str_all test (char_at text d)) = true ->
  run_at (fun c => Py.nonempty c && Py.str_all test c) text (d + 1) k ->
  let s := substring (Z.to_nat d) (Z.to_nat (k + 1)) text in
  Py.str_all test s = true /\ Py.len s = k + 1 /\ s <> "".
Proof.
  intros Hd Hfirst (Hk & Hin & _) s.
  destruct (class_all test text d (k + 1) Hd ltac:(lia)) as [Hall Hlen].
  { intros i Hi. destruct (Z.eq_dec i 0) as [->|].
    - now rewrite Z.add_0_r.
    - replace (d + i) with (d + 1 + (i - 1)) by lia. apply Hin. lia. }
  split; [exact Hall|]. split; [exact Hlen|].
  intros E. unfold s in E. rewrite E in Hlen. unfold Py.len in Hlen.
  simpl in Hlen. lia.
Qed.

Lemma eqb_nonempty (s : string) : s <> "" -> String.eqb s "" = false.
Proof. intros H. now apply String.eqb_neq. Qed.

Section Rjh254.

Variables (text : string) (p : Z).
Hypothesis Hp : 0 <= p <= Py.len text.

(** What the two loops come to, when a character passes [starts]. *)
Lemma rjh_loops_find (starts goes_on : string -> bool) d k :
  starts "" = false -> goes_on "" = false ->
  first_at starts text p d -> run_at goes_on text (d + 1) k ->
  (Exercise_rjh254.first_loop starts (Z.to_nat (Py.len text))
     (char_at text p) (read_to text p)
   = Ok (char_at text d) (read_to text d))
  /\ (Exercise_rjh254.second_loop goes_on (Z.to_nat (Py.len text)) ""
        (char_at text d) (read_to text d)
      = Ok (substring (Z.to_nat d) (Z.to_nat (k + 1)) text,
            char_at text (d + 1 + k))
           (read_to text (d + 1 + k))).
Proof.
  intros Hs Hg Hfirst Hrun.
  assert (Hd : p <= d < Py.len text).
  { split; [apply Hfirst|].
    apply (passes_inside starts); [exact Hs | | apply Hfirst].
    destruct Hfirst. lia. }
  pose proof (run_at_inside goes_on text (d + 1) k Hg ltac:(lia) Hrun) as Hk.
  split.
  - apply rjh_first_loop_finds; [exact Hs | lia | exact Hfirst | lia].
  - rewrite (rjh_second_loop_takes goes_on text _ "" d k);
      [reflexivity | lia | exact Hrun |].
    destruct Hrun as (Hk0 & _). lia.
Qed.

(** What they come to, when none does. *)
Lemma rjh_loops_none (starts goes_on : string -> bool) :
  goes_on "" = false ->
  none_from starts text p ->
  (Exercise_rjh254.first_loop starts (Z.to_nat (Py.len text))
     (char_at text p) (read_to text p)
   = Ok "" (mkFile text (Py.len text)))
  /\ (Exercise_rjh254.second_loop goes_on (Z.to_nat (Py.len text)) "" ""
        (mkFile text (Py.len text))
      = Ok ("", "") (mkFile text (Py.len text))).
Proof.
  intros Hg Hnone. split.
  - rewrite rjh_first_loop_none; [|lia|exact Hnone].
    pose proof (len_nonneg text) as Hl.
    rewrite Z2Nat.id by exact Hl.
    rewrite char_at_end by lia. rewrite read_to_end by lia. reflexivity.
  - now apply rjh_second_loop_end.
Qed.

Lemma file_first_read :
  file_read1 (mkFile text p) = Ok (char_at text p) (read_to text p).
Proof.
  rewrite (read_to_start text p Hp).
  rewrite (file_read1_at text (p - 1)) by lia.
  now replace (p - 1 + 1) with p by lia.
Qed.

End Rjh254.

Lemma rjh_number_result (text : string) (p : Z) :
  0 <= p <= Py.len text ->
  (none_from Py.isdigit text p ->
   Exercise_rjh254.get_next_number (mkFile text p)
   = Ok (None, "") (mkFile text (Py.len text)))
  /\ (forall d k,
        first_at Py.isdigit text p d ->
        run_at Py.isdigit text (d + 1) k ->
        Exercise_rjh254.get_next_number (mkFile text p)
        = Ok (Some (digits_value 0
                      (substring (Z.to_nat d) (Z.to_nat (k + 1)) text)),
              char_at text (d + 1 + k))
             (read_to text (d + 1 + k))).
Proof.
  intros Hp. split.
  - intros Hnone.
    destruct (rjh_loops_none text p Hp Py.isdigit Py.isdigit eq_refl Hnone)
      as [H1 H2].
    unfold Exercise_rjh254.get_next_number, bind.
    rewrite (rjh_get_file_length text p Hp), (file_first_read text p Hp).
    rewrite H1, H2. reflexivity.
  - intros d k Hfirst Hrun.
    destruct (rjh_loops_find text p Hp Py.isdigit Py.isdigit d k eq_refl
                eq_refl Hfirst Hrun) as [H1 H2].
    unfold Exercise_rjh254.get_next_number, bind.
    rewrite (rjh_get_file_length text p Hp), (file_first_read text p Hp).
    rewrite H1, H2.
    destruct (run_text Py.chr_isdigit text d k) as (Hall & Hlen & Hne);
      [destruct Hfirst; lia | apply Hfirst | exact Hrun |].
    rewrite (eqb_nonempty _ Hne), (int_digits _ Hne Hall). reflexivity.
Qed.

Lemma rjh_name_result (text : string) (p : Z) :
  0 <= p <= Py.len text ->
  (none_from Py.isalpha text p ->
   Exercise_rjh254.get_next_name (mkFile text p)
   = Ok (None, "") (mkFile text (Py.len text)))
  /\ (forall d k,
        first_at Py.isalpha text p d ->
        run_at Py.isalnum text (d + 1) k ->
        Exercise_rjh254.get_next_name (mkFile text p)
        = Ok (Some (substring (Z.to_nat d) (Z.to_nat (k + 1)) text),
              char_at text (d + 1 + k))
             (read_to text (d + 1 + k))).
Proof.
  intros Hp. split.
  - intros Hnone.
    destruct (rjh_loops_none text p Hp Py.isalpha Py.isalnum eq_refl Hnone)
      as [H1 H2].
    unfold Exercise_rjh254.get_next_name, bind.
    rewrite (rjh_get_file_length text p Hp), (file_first_read text p Hp).
    rewrite H1, H2. reflexivity.
  - intros d k Hfirst Hrun.
    destruct (rjh_loops_find text p Hp Py.isalpha Py.isalnum d k eq_refl
                eq_refl Hfirst Hrun) as [H1 H2].
    unfold Exercise_rjh254.get_next_name, bind.
    rewrite (rjh_get_file_length text p Hp), (file_first_read text p Hp).
    rewrite H1, H2.
    assert (Hd : 0 <= d) by (destruct Hfirst; lia).
    assert (Hne : substring (Z.to_nat d) (Z.to_nat (k + 1)) text <> "").
    { destruct Hrun as (Hk & _).
      rewrite (substring_char_at text d k Hd Hk).
      destruct Hfirst as (_ & Hd1 & _).
      destruct (char_at text d); [discriminate Hd1 | discriminate]. }
    rewrite (eqb_nonempty _ Hne). reflexivity.
Qed.



(** *** The loops of [prelim sai34] *)

Lemma file_left_read_to text o :
  file_left (read_to text o)
  = Z.to_nat (Py.len text - Z.min (o + 1) (Py.len text)).
Proof. reflexivity. Qed.



Lemma sai_first_loop_finds (starts : string -> bool) text d :
  starts "" = false ->
  forall fuel o,
    0 <= o -> first_at starts text o d -> (Z.to_nat (d - o) < fuel)%nat ->
    Exercise_sai34.first_loop starts fuel (char_at text o) (read_to text o)
    = Ok (Some (char_at text d)) (read_to text d).
Proof.
  intros Ht. induction fuel as [|fuel IH]; intros o Ho (Hod & Hd & Hb) Hf;
    [lia|].
  cbn [Exercise_sai34.first_loop].
  destruct (Z.eq_dec o d) as [->|Hne].
  - rewrite Hd. reflexivity.
  - rewrite (Hb o ltac:(lia)). cbn [negb].
    pose proof (passes_inside starts text d Ht ltac:(lia) Hd) as Hin.
    rewrite (eqb_nonempty _ (char_at_inside text o ltac:(lia))).
    unfold bind. rewrite (file_read1_at text o ltac:(lia)).
    apply IH; [lia| |lia].
    split; [lia|]. split; [exact Hd|]. intros o' Ho'. apply Hb. lia.
Qed.

Lemma sai_first_loop_none (starts : string -> bool) text :
  forall fuel o,
    0 <= o -> none_from starts text o ->
    (Z.to_nat (Py.len text - o) < fuel)%nat ->
    Exercise_sai34.first_loop starts fuel (char_at text o) (read_to text o)
    = Ok None (mkFile text (Py.len text)).
Proof.
  induction fuel as [|fuel IH]; intros o Ho Hnone Hf; [lia|].
  cbn [Exercise_sai34.first_loop].
  rewrite (Hnone o ltac:(lia)). cbn [negb].
  destruct (Z.ltb_spec o (Py.len text)) as [Hlt|Hge].
  - rewrite (eqb_nonempty _ (char_at_inside text o ltac:(lia))).
    unfold bind. rewrite (file_read1_at text o ltac:(lia)).
    apply IH; [lia| |lia]. intros o' Ho'. apply Hnone. lia.
  - rewrite (char_at_end text o Hge). cbn [String.eqb ret].
    rewrite read_to_end by lia. reflexivity.
Qed.

Lemma sai_second_loop_takes (goes_on : string -> bool) text :
  goes_on "" = false ->
  forall fuel run o k,
    0 <= o -> run_at goes_on text o k -> (Z.to_nat k < fuel)%nat ->
    Exercise_sai34.second_loop goes_on fuel run (char_at text o)
      (read_to text o)
    = Ok (run ++ substring (Z.to_nat o) (Z.to_nat k) text,
          char_at text (o + k))
         (read_to text (o + k)).
Proof.
  intros Ht. induction fuel as [|fuel IH]; intros run o k Ho Hrun Hf; [lia|].
  cbn [Exercise_sai34.second_loop].
  destruct (goes_on (char_at text o)) eqn:E.
  - destruct (run_at_next _ _ _ _ Hrun E) as [Hk Hrun'].
    pose proof (passes_inside goes_on text o Ht Ho E) as Hin.
    rewrite (eqb_nonempty _ (char_at_inside text o ltac:(lia))).
    unfold bind. rewrite (file_read1_at text o ltac:(lia)).
    rewrite (IH _ (o + 1) (k - 1) ltac:(lia) Hrun' ltac:(lia)).
    replace (o + 1 + (k - 1)) with (o + k) by lia.
    pose proof (substring_char_at text o (k - 1) Ho ltac:(lia)) as Hsub.
    replace (k - 1 + 1) with k in Hsub by lia.
    rewrite Hsub. now rewrite append_assoc.
  - pose proof (run_at_stop _ _ _ _ Hrun E) as ->.
    rewrite Z.add_0_r. change (Z.to_nat 0) with 0%nat.
    rewrite substring_zero, append_nil_r. reflexivity.
Qed.

Section Sai34.

Variables (text : string) (p : Z).
Hypothesis Hp : 0 <= p <= Py.len text.

Lemma sai_get_next_none (starts goes_on : string -> bool) :
  none_from starts text p ->
  Exercise_sai34.get_next starts goes_on (mkFile text p)
  = Ok (None, "") (mkFile text (Py.len text)).
Proof.
  intros Hnone. unfold Exercise_sai34.get_next, bind.
  rewrite (file_first_read text p Hp).
  rewrite (sai_first_loop_none starts text _ p); [reflexivity|lia|exact Hnone|].
  rewrite file_left_read_to. lia.
Qed.

Lemma sai_get_next_finds (starts goes_on : string -> bool) d k :
  starts "" = false -> goes_on "" = false ->
  first_at starts text p d -> run_at goes_on text (d + 1) k ->
  Exercise_sai34.get_next starts goes_on (mkFile text p)
  = Ok (Some (substring (Z.to_nat d) (Z.to_nat (k + 1)) text),
        char_at text (d + 1 + k))
       (read_to text (d + 1 + k)).
Proof.
  intros Hs Hg Hfirst Hrun.
  assert (Hd : p <= d < Py.len text).
  { split; [apply Hfirst|].
    apply (passes_inside starts); [exact Hs | | apply Hfirst].
    destruct Hfirst. lia. }
  pose proof (run_at_inside goes_on text (d + 1) k Hg ltac:(lia) Hrun) as Hk.
  unfold Exercise_sai34.get_next, bind.
  rewrite (file_first_read text p Hp).
  rewrite (sai_first_loop_finds starts text d Hs _ p);
    [|lia|exact Hfirst|rewrite file_left_read_to; lia].
  rewrite (file_read1_at text d ltac:(lia)).
  rewrite (sai_second_loop_takes goes_on text Hg _ (char_at text d) (d + 1) k);
    [|lia|exact Hrun|rewrite file_left_read_to; destruct Hrun; lia].
  cbn [ret fst snd].
  rewrite (substring_char_at text d k ltac:(lia)); [reflexivity|].
  destruct Hrun. lia.
Qed.

End Sai34.


(** X24. The two solutions of the exercise agree on a plain text.  On
    every such file at a position within its text both [get_next_number]
    return, with the same next character and the file at the same place;
    where [prelim sai34] returns the digits as a string, [Prelim rjh254]
    returns their value, and [int] does not fail on them.  Their
    [get_next_name] return the same. *)
Theorem exercises_agree (text : string) (p : Z) :
  plain_text text = true ->
  0 <= p <= Py.len text ->
  (exists s c f,
      Exercise_sai34.get_next_number (mkFile text p) = Ok (s, c) f
      /\ Exercise_rjh254.get_next_number (mkFile text p)
         = Ok (match s with Some digits => Py.int digits | None => None end,
               c) f
      /\ (forall digits, s = Some digits -> Py.int digits <> None))
  /\ (exists r f,
         Exercise_sai34.get_next_name (mkFile text p) = Ok r f
         /\ Exercise_rjh254.get_next_name (mkFile text p) = Ok r f).
Proof.
  intros _ Hp. assert (Hp0 : 0 <= p) by lia. split.
  - destruct (rjh_number_result text p Hp) as [Hn Hf].
    destruct (first_at_or_none Py.isdigit text p eq_refl Hp0)
      as [Hnone|(d & Hfirst)].
    + exists None, "", (mkFile text (Py.len text)).
      split; [now apply sai_get_next_none|].
      split; [now apply Hn | discriminate].
    + assert (Hd : 0 <= d + 1) by (destruct Hfirst; lia).
      destruct (run_at_exists Py.isdigit text (d + 1) eq_refl Hd)
        as (k & Hrun).
      destruct (run_text Py.chr_isdigit text d k) as (Hall & Hlen & Hne);
        [destruct Hfirst; lia | apply Hfirst | exact Hrun |].
      exists (Some (substring (Z.to_nat d) (Z.to_nat (k + 1)) text)),
        (char_at text (d + 1 + k)), (read_to text (d + 1 + k)).
      split; [now apply (sai_get_next_finds text p Hp _ _ d k)|].
      cbv iota. rewrite (int_digits _ Hne Hall).
      split; [now apply Hf|]. intros digits [= <-].
      rewrite (int_digits _ Hne Hall). discriminate.
  - destruct (rjh_name_result text p Hp) as [Hn Hf].
    destruct (first_at_or_none Py.isalpha text p eq_refl Hp0)
      as [Hnone|(d & Hfirst)].
    + do 2 eexists. split; [now apply sai_get_next_none | now apply Hn].
    + assert (Hd : 0 <= d + 1) by (destruct Hfirst; lia).
      destruct (run_at_exists Py.isalnum text (d + 1) eq_refl Hd)
        as (k & Hrun).
      do 2 eexists.
      split; [now apply (sai_get_next_finds text p Hp _ _ d k)|].
      now apply Hf.
Qed.




Lemma exercises_agree_witness :
  plain_text "ab 007c" = true
  /\ 0 <= 0 <= Py.len "ab 007c"
  /\ (exists s c f,
         Exercise_sai34.get_next_number (mkFile "ab 007c" 0) = Ok (s, c) f
         /\ Exercise_rjh254.get_next_number (mkFile "ab 007c" 0)
            = Ok (match s with Some digits => Py.int digits | None => None end,
                  c) f
         /\ (forall digits, s = Some digits -> Py.int digits <> None))
  /\ (exists r f,
         Exercise_sai34.get_next_name (mkFile "ab 007c" 0) = Ok r f
         /\ Exercise_rjh254.get_next_name (mkFile "ab 007c" 0) = Ok r f).
Proof.
  assert (H1 : plain_text "ab 007c" = true) by (vm_compute; reflexivity).
  assert (H0 : 0 <= 0 <= Py.len "ab 007c") by (vm_compute; split; discriminate).
  split; [exact H1|]. split; [exact H0|].
  exact (exercises_agree "ab 007c" 0 H1 H0).
Defined.
